(* ===== verification/_CoqProject ===== *)
-Q . S2P
Prelude.v
Paging.v
JsText.v
Contracts.v
Judge.v
Io.v
JsString.v
RuntimePolicy.v
Catalogue.v
Discussions.v
Publication.v
Forum.v
Threads.v
Backend.v
Runnable.v
Buffers.v
Transport.v
Host.v
Metrics.v
Artifacts.v
Supervisor.v
SupervisorFacts.v
Supervised.v
Rpc.v
Service.v
Database.v
Serialization.v
JobStore.v
Lifecycle.v
JobStoreFacts.v
Invariant.v
Sizes.v
Admissible.v
Progress.v
Admission.v
Executions.v
ExecutionsFacts.v
Pipeline.v
Safety.v
Realtime.v
Fencing.v
Outcomes.v
Replay.v
Channel.v
Creation.v
Queue.v
Worker.v
Leaderboard.v
Sessions.v
Password.v
JsNumber.v
Json.v
Config.v
Accounts.v
LoginProof.v
Gateways.v
SelfService.v
AccountFacts.v
Profiles.v
ProfileFacts.v
Configured.v
Startup.v
AuthController.v
AuthRoutes.v
Analytics.v
Notifications.v
Competitions.v
Arena.v
CompetitionViews.v
ProblemPages.v
Seed.v
Administration.v
SiteRoutes.v
AdminRoutes.v
ExecutionRoutes.v
Scenarios.v
RunnerScenarios.v
SiteScenarios.v
WebScenarios.v
AdminScenarios.v
