(* ===== verification/Prelude.v ===== *)
(** * ArenaCore: a verification of the judging platform

    ArenaCore is a competitive-programming platform: an API server (src/apps/api), a sandbox
    runner (src/apps/runner) and three shared packages (src/packages: contracts, judge,
    runtime-policy) over a PostgreSQL database (src/prisma) and a Redis queue.  A user's code is
    admitted as a durable job (Executions, Admission), announced through a transactional outbox to
    the queue (Queue), claimed by a worker under a fenced lease (JobStore, Worker), run by the
    judging backend in Docker sandboxes (Backend, Rpc, Service, Supervisor, Transport, Metrics,
    Artifacts), judged against the immutable tests of a published problem version (Catalogue,
    Judge), and reported back through replayable public events, snapshots and a realtime channel
    (JobStore, Serialization, Realtime).  Around this pipeline stand configuration, sign-in,
    sessions and guards, accounts, profiles, discussions and their moderation, competitions,
    notifications and the administration, each behind the routes of its controller.

    ** How the code is modelled

    Definitions carry the names of the source.  Code inside a database transaction is the
    error-and-state monad [tx] (a thrown error rolls back), code outside one is the monad [io] of
    Io.v (what was done before an exception stays done).  Strings are lists of UTF-16 code units
    ([jsstr]), byte lengths are those of their UTF-8 encoding, timestamps are milliseconds in [Z],
    JavaScript integers are [Z] with the safe-integer range where the code or a schema tests it,
    and INTEGER columns of the execution table are checked against 32 bits.  Every reading of a
    clock is an argument, so that theorems hold for every interleaving and every drift the
    statement does not exclude.  A query that skips locked rows takes the set of locked rows as an
    argument; a handler that reads before it opens its transaction takes the state it read, which
    the theorems about runs let be any earlier state.  The analytics take the six states that their six
    queries read; the other handlers that only read do so in one state.  A sign-in commits several
    transactions one after the other; in the runs of AccountFacts each of them is also an operation of
    its own, so that anything may come between them.  Code that awaits in the middle of shared
    state (the realtime gateway, the runner's server, the client's call, the worker's heartbeat)
    is a machine whose steps are what runs between two awaits, over arbitrary sequences of events.

    Code outside the repository is a parameter: Zod's formats of UUIDs, email addresses and URLs,
    [stripVTControlCharacters], scrypt, HMAC and SHA-256, AES-256-GCM (classes [Aead] and
    [AeadLaws]), random identifiers and tokens, Docker, the file system and the clock of the runner
    (classes [DockerTransport] and [Host], answers are functions of the history of interactions),
    tar-stream (class [TarStream]), HTTP answers of identity providers and the functions of
    openid-client, the URL parser, BullMQ's [Queue.add], the database's collation and
    case-insensitive matching, [localeCompare].  What a theorem needs of a parameter is a
    hypothesis of its section or statement, and the scenarios instantiate it.

    ** The files

    - Prelude, Paging, JsText, JsString, JsNumber, Json, Buffers, Io: the monads, cursor pages,
      JavaScript strings, [Number], [JSON.parse] and [JSON.stringify], URL-encoded forms, UTF-8.
    - Contracts (packages/contracts): enumerations, the state graph, request and event schemas.
    - Judge (packages/judge): case selection, comparison, verdicts, the public projection.
    - RuntimePolicy (packages/runtime-policy): caps, the sandbox request schema, container
      arguments.
    - Catalogue (admin.ts, problems.ts, judging-backend.ts, SQL triggers): problems, versions,
      tests; Publication and Runnable: published versions are immutable, and which of them run.
    - Backend (judging-backend.ts); Transport, Host, Metrics, Artifacts, Supervisor, Rpc (the
      runner); Service: its server under many requests and a call of its client over time;
      SupervisorFacts and Supervised: cleanup, and which observations are judged.
    - Database (schema.prisma and migrations), Serialization, JobStore (job-store.ts,
      queued-maintenance.ts), Admission, Executions: the execution services.
    - Lifecycle: the abstract specification of one execution row as a step relation, which the
      trigger accepts and the job store refines (JobStoreFacts, Invariant); Sizes, Progress: no
      rejected transaction; Pipeline: the interleaving of all operations; ExecutionsFacts, Safety,
      Fencing, Outcomes, Replay, Creation, Admissible: the theorems about it.
    - Queue and Worker (queue.ts): the dispatcher, the processing of a job, its heartbeat.
    - Realtime (realtime.ts) and Channel, the receiver its sockets refine.
    - Discussions (discussions.ts, admin.ts, the tables' constraints), Forum (runs) and Threads
      (pages, likes, reviews).
    - Competitions and CompetitionViews (competitions.ts, admin.ts), Arena (runs), Leaderboard.
    - Profiles and ProfileFacts (profiles.ts); Notifications (notifications.ts); ProblemPages
      (problems.ts); Seed (sample-seed.ts).
    - Sessions (session.ts, roles.guard.ts, common/errors.ts); Password, Accounts (login.service.ts,
      password-auth.service.ts), LoginProof (login-proof.ts), Gateways (github.gateway.ts,
      oidc.gateway.ts), SelfService (account.ts, admin.ts); AccountFacts: sessions over time and what
      a sign-in leaves behind.
    - Config (config.ts, worker-config.ts, bootstrap.ts, queue.ts) and Configured; Startup
      (worker-main.ts, the runner's main.ts and preflight.ts, queue.ts, queued-maintenance.ts): the
      processes from their start to their shutdown.
    - AuthController and AuthRoutes (auth.controller.ts, account.ts), ExecutionRoutes (executions.ts),
      SiteRoutes (the controllers of discussions, competitions, notifications, profiles and
      problems), Analytics, Administration and AdminRoutes (admin.ts): every route with its guard,
      schemas and operation.
    - Scenarios, RunnerScenarios, SiteScenarios, WebScenarios, AdminScenarios: concrete
      installations on which every theorem with a hypothesis is applied, with the hypotheses
      discharged by evaluation.

    ** What the theorems show

    - Jobs: one lease at a time, stale leases change nothing and never regain authority, ended
      executions are final, the database rejects no job transaction except for a measurement out of the
      INTEGER range, limits hold in every reachable state, every claimed or overdue job is settled or
      offered again.
    - Creation is idempotent and atomic; intents reach the queue at least once.
    - Events: bounded window, sound and complete replay, schemas and serialisers are inverse; a
      socket receives every event once and in order.
    - Privacy: snapshots, judgements and console events show public cases of RUN only, and the
      executions' endpoints show and change nothing of another user's.
    - Judging: the verdict is the specified one; which observations of the supervisor are judged,
      and that what is judged is always storable.
    - Runner: containers are confirmed gone or the failure is not retried; the server never loses
      count of its requests, a call of the client settles once; artifacts are confined; output and
      metrics are exact.
    - Catalogue: published plans never change; which published problems the policy can run.
    - Sign-in: sessions stay revoked, attempts are single use and bound to a browser, redirects stay
      on the site or lead to a checked provider, sealed proofs and passwords round-trip.
    - Community: the invariants of threads, reports and competitions over runs with stale reads,
      pages that enumerate, streaks, standings and analytics that agree with their definition.
    - Routes: no request changes a table without a live session, the method, the origin and the
      token that its guard asks for, and none reaches the administration without its role.
    - Configuration: an accepted environment is complete and consistent.
    - Composition: the steps of an undisturbed request come to the reply of the single request, those
      of an undisturbed shift to the processing of the single job; a worker on shift only ever leads
      to reachable databases.

    ** Bounds and fuel

    Loops over lists are structural.  [JSON.parse] recurses with a fuel computed from the length of
    the text, which [fuel_enough] of Json.v shows to be enough; theorems that follow cursors do so
    with a fuel of one page more than there are rows, which they show to be enough.  The window of
    256 events and 256 KiB, the three attempts and the caps of the runtime policy are the constants
    of the source.

    ** Not modelled

    Process wiring (NestJS modules and middleware, the API's main, the health probe, seed-main, the
    acceptance scripts) has no logic beyond calls.  Sockets, HTTP framing and the scheduling of timers are I/O: their effects
    are the events of the machines and the clock arguments.  The list of field names in the message
    of a rejected configuration is not modelled, nor are log lines.  Request bodies reach the routes
    of the controllers in parsed form, except those of executions, whose schema is in Contracts.

    The theorems of properties carry the identifier C1..C40 under which the manifest lists them. *)

From stdpp Require Export prelude gmap sorting pretty strings.
From Stdlib Require Export ZArith Lia.

#[export] Set Default Goal Selector "!".
#[export] Set Warnings "-register-all,-clear-no-such-hyp".

(** Linear arithmetic with division and remainder by constants. *)
Ltac zdiv := Z.to_euclidean_division_equations; lia.

(** ** Errors and results *)

(** What the code can throw: an [ApiError] with its HTTP status, code and optional
    Retry-After, a plain [Error] with a stable message, a schema (zod) rejection, or an
    error raised by PostgreSQL (a trigger, a CHECK or a uniqueness constraint) or Prisma.  The
    runner adds its transport errors, the unconfirmed cleanup of a container, and the
    recoverable errors its client reports. *)
Inductive error : Type :=
| ApiError (status : Z) (code : string) (retryAfterSeconds : option Z)
| JsError (message : string)
| ZodError
| DbError (code : string)
| DockerError (code : string)
| SandboxCleanupError
| RunnerExecutionError (code : string).

#[export] Instance error_eq_dec : EqDecision error.
Proof. solve_decision. Defined.

Inductive result (A : Type) : Type :=
| Ok (a : A)
| Err (e : error).
Arguments Ok {A} _.
Arguments Err {A} _.

#[export] Instance result_eq_dec `{EqDecision A} : EqDecision (result A).
Proof. solve_decision. Defined.

(** ** The transaction monad

    A computation inside a database transaction reads and writes the database state [S] and
    may throw.  A thrown error carries no state: the transaction is rolled back. *)
Definition tx (S A : Type) : Type := S → result (A * S).

#[export] Instance tx_ret {S} : MRet (tx S) := λ A a s, Ok (a, s).
#[export] Instance tx_bind {S} : MBind (tx S) := λ A B f m s,
  match m s with
  | Ok (a, s') => f a s'
  | Err e => Err e
  end.
#[export] Instance tx_fmap {S} : FMap (tx S) := λ A B f m s,
  match m s with
  | Ok (a, s') => Ok (f a, s')
  | Err e => Err e
  end.

Definition throw {S A} (e : error) : tx S A := λ _, Err e.
Definition gets {S A} (f : S → A) : tx S A := λ s, Ok (f s, s).
Definition modify {S} (f : S → S) : tx S unit := λ s, Ok (tt, f s).

(** Running a body as one transaction: commit on success, roll back on a throw. *)
Definition transaction {S A} (m : tx S A) (s : S) : result A * S :=
  match m s with
  | Ok (a, s') => (Ok a, s')
  | Err e => (Err e, s)
  end.

(** [for (const x of xs) await f(x)]. *)
Fixpoint for_each {S A} (f : A → tx S unit) (l : list A) : tx S unit :=
  match l with
  | [] => mret tt
  | a :: l' => _ ← f a; for_each f l'
  end.

Lemma tx_bind_assoc {S A B C} (m : tx S A) (f : A → tx S B) (g : B → tx S C) s :
  ((m ≫= f) ≫= g) s = (m ≫= (λ a, f a ≫= g)) s.
Proof. unfold mbind, tx_bind. by destruct (m s) as [[]|]. Qed.

Lemma bind_Ok {S A B} (m : tx S A) (f : A → tx S B) s b s' :
  (m ≫= f) s = Ok (b, s') ↔ ∃ a s1, m s = Ok (a, s1) ∧ f a s1 = Ok (b, s').
Proof.
  unfold mbind, tx_bind. split.
  - destruct (m s) as [[a s1]|]; [eauto | done].
  - by intros (a & s1 & -> & ?).
Qed.

Lemma transaction_err {S A} (m : tx S A) s e s' :
  transaction m s = (Err e, s') → s' = s.
Proof. unfold transaction. destruct (m s) as [[]|]; congruence. Qed.

Lemma transaction_Ok {S A} (m : tx S A) s a s' :
  transaction m s = (Ok a, s') ↔ m s = Ok (a, s').
Proof. unfold transaction. destruct (m s) as [[]|]; split; congruence. Qed.

(** An invariant of the state that every iteration preserves. *)
Lemma for_each_inv {S A} (P : S → Prop) (f : A → tx S unit) l s u s' :
  (∀ a s1 u1 s2, a ∈ l → P s1 → f a s1 = Ok (u1, s2) → P s2) →
  P s → for_each f l s = Ok (u, s') → P s'.
Proof.
  revert s. induction l as [|a l IH]; intros s Hf HP; cbn.
  { by intros [= _ ->]. }
  intros (u1 & s1 & E1 & E2)%bind_Ok. eapply IH; [|eapply Hf; [left|exact HP|exact E1]|exact E2].
  intros; eapply Hf; [by right|done..].
Qed.

Lemma mret_Ok {S A} (a : A) (s : S) b s' : mret (M := tx S) a s = Ok (b, s') ↔ b = a ∧ s' = s.
Proof. unfold mret, tx_ret. naive_solver. Qed.
Lemma gets_Ok {S A} (f : S → A) s b s' : gets f s = Ok (b, s') ↔ b = f s ∧ s' = s.
Proof. unfold gets. naive_solver. Qed.
Lemma modify_Ok {S} (f : S → S) s u s' : modify f s = Ok (u, s') ↔ s' = f s.
Proof. unfold modify. destruct u. naive_solver. Qed.
Lemma bind_run {S A B} (m : tx S A) (f : A → tx S B) s a s1 :
  m s = Ok (a, s1) → (m ≫= f) s = f a s1.
Proof. unfold mbind, tx_bind. by intros ->. Qed.

(** Filters that agree on the elements of the list. *)
Lemma filter_ext_in {A} (P Q : A → Prop) `{!∀ x, Decision (P x), !∀ x, Decision (Q x)} (l : list A) :
  (∀ x, x ∈ l → P x ↔ Q x) → filter P l = filter Q l.
Proof.
  induction l as [|a l IH]; intros Hl; [done|].
  assert (filter P l = filter Q l) as E by (apply IH; intros; apply Hl; by right).
  destruct (decide (P a)) as [HP|HP].
  - rewrite !filter_cons_True; [by rewrite E|apply Hl; [left|done]|done].
  - rewrite !filter_cons_False; [done| |done]. intros HQ. apply HP, Hl; [left|done].
Qed.

Lemma filter_all_in {A} (P : A → Prop) `{!∀ x, Decision (P x)} (l : list A) :
  (∀ x, x ∈ l → P x) → filter P l = l.
Proof.
  induction l as [|a l IH]; intros Hl; [done|]. rewrite filter_cons_True by (apply Hl; left).
  f_equal. apply IH. intros x Hx. apply Hl. by right.
Qed.

Lemma filter_none_in {A} (P : A → Prop) `{!∀ x, Decision (P x)} (l : list A) :
  (∀ x, x ∈ l → ¬ P x) → filter P l = [].
Proof.
  induction l as [|a l IH]; intros Hl; [done|]. rewrite filter_cons_False by (apply Hl; left).
  apply IH. intros x Hx. apply Hl. by right.
Qed.

(** Takes a successful run of a transaction body apart. *)
Ltac inv_tx :=
  repeat match goal with
  | H : (_ ≫= _) _ = Ok _ |- _ =>
      let a := fresh "a" in let s := fresh "s" in let H1 := fresh "Hrun" in
      apply bind_Ok in H as (a & s & H1 & H)
  | H : mret _ _ = Ok _ |- _ => apply mret_Ok in H as [? ?]; subst
  | H : gets _ _ = Ok _ |- _ => apply gets_Ok in H as [? ?]; subst
  | H : modify _ _ = Ok _ |- _ => apply modify_Ok in H; subst
  | H : throw _ _ = Ok _ |- _ => discriminate H
  end.
