(* ===== verification/Paging.v ===== *)
(** * Cursor pagination

    Every list of the API is paged the same way: the query asks for one row more than a page
    ([take: size + 1]), the reply shows a page of them and, when there was one more, the id of the
    last row shown as the cursor of the next request.  [Pager] states what a handler promises to a
    client that follows the cursors; [follow_all] is what the client gets.  The queries differ in
    how they find the rows after a cursor: a strict comparison ([pageBoundary] of
    [admin/admin.ts], [Executions.history]) or Prisma's [cursor] with [skip: 1]; [Order] shows that
    both give the rows after it. *)

From S2P Require Import Prelude.

Section Paging.
Context {A B : Type} (key : A → list Z) (item : A → B) (size : nat).

(** The page of a list of remaining rows. *)
Definition page_of (rest : list A) : list B * option (list Z) :=
  (item <$> take size rest, if (size <? length rest)%nat then key <$> last (take size rest) else None).

(** What a handler computes from the rows of its query: [rows.slice(0, size).map(item)], and the
    cursor [rows.length > size ? rows[size - 1].id : null]. *)
Definition page_rows (rows : list A) : list B * option (list Z) :=
  (item <$> take size rows, if (size <? length rows)%nat then key <$> rows !! (size - 1)%nat else None).

Lemma size_take rest : (size <? length (take (S size) rest))%nat = (size <? length (rest : list A))%nat.
Proof.
  rewrite length_take. destruct (Nat.ltb_spec size (length rest)); [apply Nat.ltb_lt|apply Nat.ltb_ge]; lia.
Qed.

Lemma page_rows_take rest : (0 < size)%nat → page_rows (take (S size) rest) = page_of rest.
Proof.
  intros Hs. unfold page_rows, page_of. rewrite take_take, Nat.min_l, size_take by lia. f_equal.
  destruct (Nat.ltb_spec size (length rest)); [|done].
  rewrite lookup_take_lt, last_lookup, length_take by lia.
  rewrite lookup_take_lt by lia. do 2 f_equal. lia.
Qed.

(** A client that follows the cursors. *)
Fixpoint follow (fetch : option (list Z) → result (list B * option (list Z))) (fuel : nat)
    (cursor : option (list Z)) : list B :=
  match fuel with
  | O => []
  | S fuel' =>
      match fetch cursor with
      | Ok (items, Some next) => items ++ follow fetch fuel' (Some next)
      | Ok (items, None) => items
      | Err _ => []
      end
  end.

(** A handler that pages the list [all]. *)
Class Pager (fetch : option (list Z) → result (list B * option (list Z))) (all : list A) : Prop := {
  pager_first : fetch None = Ok (page_of all);
  pager_next : ∀ pre c post, all = pre ++ c :: post → fetch (Some (key c)) = Ok (page_of post)
}.

Section Follow.
Context fetch all `{!Pager fetch all} (Hsize : (0 < size)%nat).

Lemma page_split rest :
  (size < length rest)%nat →
  ∃ l x, take size rest = l ++ [x] ∧ page_of rest = (item <$> take size rest, Some (key x))
         ∧ rest = l ++ x :: drop size rest.
Proof.
  intros Hl. unfold page_of. rewrite (proj2 (Nat.ltb_lt _ _) Hl).
  destruct (last (take size rest)) as [x|] eqn:Ex; cycle 1.
  { apply last_None in Ex. assert (length (take size rest) = 0%nat) as E by (by rewrite Ex).
    rewrite length_take in E. lia. }
  apply last_Some in Ex as [l Ex]. exists l, x. split_and!; [done..|].
  rewrite <- (take_drop size rest) at 1. by rewrite Ex, <- app_assoc.
Qed.

Lemma page_last rest : (length rest ≤ size)%nat → page_of rest = (item <$> rest, None).
Proof. intros Hl. unfold page_of. by rewrite (proj2 (Nat.ltb_ge _ _) Hl), take_ge. Qed.

Lemma follow_rest fuel pre c post :
  all = pre ++ c :: post → (length post < fuel)%nat → follow fetch fuel (Some (key c)) = item <$> post.
Proof.
  revert pre c post. induction fuel as [|fuel IH]; intros pre c post Ea Hf; [lia|]. cbn [follow].
  rewrite (pager_next _ _ _ Ea). destruct (decide (length post ≤ size)%nat) as [Hl|Hl].
  { by rewrite page_last. }
  destruct (page_split post) as (l & x & El & Ep & Er); [lia|]. rewrite Ep.
  rewrite (IH (pre ++ c :: l) x (drop size post)).
  - by rewrite <- fmap_app, take_drop.
  - rewrite Ea, Er at 1. by rewrite <- app_assoc.
  - rewrite length_drop. lia.
Qed.

(** Following the cursors gives the whole list, in at most one request more than it has rows. *)
Lemma follow_all fuel : (length all < fuel)%nat → follow fetch fuel None = item <$> all.
Proof.
  intros Hf. destruct fuel as [|fuel]; [lia|]. cbn [follow]. rewrite pager_first.
  destruct (decide (length all ≤ size)%nat) as [Hl|Hl]; [by rewrite page_last|].
  destruct (page_split all) as (l & x & El & Ep & Er); [lia|]. rewrite Ep.
  rewrite (follow_rest fuel l x (drop size all)); [|done|].
  - by rewrite <- fmap_app, take_drop.
  - rewrite length_drop. lia.
Qed.
End Follow.
End Paging.

(** Handlers that take the cursor from the last item shown compute the same pages. *)
Definition last_item_page {A} (key : A → list Z) (size : nat) (rows : list A) : list A * option (list Z) :=
  let items := take size rows in
  (items, if (size <? length rows)%nat then key <$> last items else None).

Lemma last_item_page_take {A} (key : A → list Z) size (rest : list A) :
  last_item_page key size (take (S size) rest) = page_of key (λ a, a) size rest.
Proof.
  unfold last_item_page, page_of. rewrite take_take, Nat.min_l, size_take by lia. by rewrite list_fmap_id.
Qed.

Lemma pager_last_item {A} (key : A → list Z) size fetch (all : list A) :
  fetch None = Ok (last_item_page key size (take (S size) all)) →
  (∀ pre c post, all = pre ++ c :: post → fetch (Some (key c)) = Ok (last_item_page key size (take (S size) post))) →
  Pager key (λ a, a) size fetch all.
Proof.
  intros H1 H2. split; [by rewrite H1, last_item_page_take|].
  intros pre c post E. by rewrite (H2 pre c post E), last_item_page_take.
Qed.

(** ** Rows after a cursor *)

Lemma StronglySorted_filter {A} (R : relation A) (P : A → Prop) `{!∀ x, Decision (P x)} l :
  StronglySorted R l → StronglySorted R (filter P l).
Proof.
  induction 1 as [|a l Hs IH Ha]; [constructor|]. rewrite filter_cons. case_decide; [|done].
  constructor; [done|]. rewrite Forall_forall in *. intros x [_ Hx]%list_elem_of_filter. by apply Ha.
Qed.

Lemma NoDup_fmap_inj {A B} (f : A → B) l x y :
  NoDup (f <$> l) → x ∈ l → y ∈ l → f x = f y → x = y.
Proof.
  induction l as [|a l IH]; cbn; [by intros _ ?%elem_of_nil|]. intros [Ha Hl]%NoDup_cons.
  rewrite !elem_of_cons. intros [->|Hx] [->|Hy] E; try done.
  - destruct Ha. rewrite E. apply list_elem_of_fmap. eauto.
  - destruct Ha. rewrite <- E. apply list_elem_of_fmap. eauto.
  - by apply IH.
Qed.

(** Sorting commutes with selecting, when the order separates the rows. *)
Section Order.
Context {A : Type} (R : relation A) `{!RelDecision R, !Transitive R, !Total R}.
Context (rows : list A).
Context (Hanti : ∀ x y, x ∈ rows → y ∈ rows → R x y → R y x → x = y).

Lemma sort_filter (P : A → Prop) `{!∀ x, Decision (P x)} :
  merge_sort R (filter P rows) = filter P (merge_sort R rows).
Proof.
  apply (StronglySorted_unique_strong R).
  - intros x y Hx Hy. rewrite merge_sort_Permutation in Hx.
    apply list_elem_of_filter in Hx as [_ Hx], Hy as [_ Hy]. rewrite merge_sort_Permutation in Hy. by apply Hanti.
  - apply StronglySorted_merge_sort; apply _.
  - apply StronglySorted_filter, StronglySorted_merge_sort; apply _.
  - by rewrite !merge_sort_Permutation.
Qed.

Context (Hnd : NoDup rows).

Lemma sorted_NoDup : NoDup (merge_sort R rows).
Proof. by rewrite merge_sort_Permutation. Qed.

Lemma sorted_split pre c post :
  merge_sort R rows = pre ++ c :: post →
  (∀ x, x ∈ pre → ¬ R c x) ∧ (∀ x, x ∈ post → R c x ∧ x ≠ c).
Proof.
  intros E. pose proof (StronglySorted_merge_sort R rows) as Hs. pose proof sorted_NoDup as Hn.
  assert (∀ x, x ∈ pre ++ c :: post → x ∈ rows) as Hin.
  { intros x. by rewrite <- E, merge_sort_Permutation. }
  rewrite E in Hs, Hn. apply NoDup_app in Hn as (_ & Hd & [Hc _]%NoDup_cons). split.
  - intros x Hx Hr. apply (Hd x Hx). assert (R x c) as Hr'.
    { eapply StronglySorted_app_1_elem_of; [exact Hs|done|left]. }
    rewrite (Hanti c x); [left|apply Hin; set_solver..|done|done].
  - intros x Hx. apply StronglySorted_app_1_r, StronglySorted_inv in Hs as [_ Hf].
    rewrite Forall_forall in Hf. split; [by apply Hf|]. by intros ->.
Qed.

(** A filter that selects what is strictly after the cursor. *)
Lemma filter_strictly (P : A → Prop) `{!∀ x, Decision (P x)} pre c post :
  (∀ x, x ∈ rows → P x ↔ R c x ∧ x ≠ c) →
  merge_sort R rows = pre ++ c :: post → merge_sort R (filter P rows) = post.
Proof.
  intros HP E. rewrite sort_filter, E, filter_app. destruct (sorted_split _ _ _ E) as [Hpre Hpost].
  assert (∀ x, x ∈ pre ++ c :: post → x ∈ rows) as Hin.
  { intros x. by rewrite <- E, merge_sort_Permutation. }
  rewrite (filter_none_in P pre), filter_cons_False, filter_all_in; [done|..].
  - intros x Hx. rewrite HP by (apply Hin; set_solver). by apply Hpost.
  - rewrite HP by (apply Hin; set_solver). by intros [_ ?].
  - intros x Hx. rewrite HP by (apply Hin; set_solver). intros [Hr _]. by eapply Hpre.
Qed.

(** A filter that selects the cursor and what is after it, of which the first row is skipped. *)
Lemma filter_skip (P : A → Prop) `{!∀ x, Decision (P x)} pre c post :
  (∀ x, x ∈ rows → P x ↔ R c x) →
  merge_sort R rows = pre ++ c :: post → drop 1 (merge_sort R (filter P rows)) = post.
Proof.
  intros HP E. rewrite sort_filter, E, filter_app. destruct (sorted_split _ _ _ E) as [Hpre Hpost].
  assert (∀ x, x ∈ pre ++ c :: post → x ∈ rows) as Hin.
  { intros x. by rewrite <- E, merge_sort_Permutation. }
  rewrite (filter_none_in P pre), filter_cons_True, filter_all_in; [done|..].
  - intros x Hx. rewrite HP by (apply Hin; set_solver). by apply Hpost.
  - rewrite HP by (apply Hin; set_solver). by destruct (total R c c).
  - intros x Hx. rewrite HP by (apply Hin; set_solver). intros Hr. by eapply Hpre.
Qed.
End Order.

(** The rows of a table keyed by their ids have distinct ids. *)
Lemma filter_keys_NoDup {A} (id : A → list Z) (P : A → Prop) `{!∀ x, Decision (P x)} (m : gmap (list Z) A) :
  (∀ k a, m !! k = Some a → k = id a) → NoDup (id <$> filter P (map_to_list m).*2).
Proof.
  intros Hk. assert (NoDup (id <$> (map_to_list m).*2)) as Hn.
  { rewrite <- list_fmap_compose.
    replace ((id ∘ snd) <$> map_to_list m) with (map_to_list m).*1; [apply NoDup_fst_map_to_list|].
    apply list_fmap_ext. intros i [k a] Hi. cbn. apply Hk. by eapply elem_of_map_to_list, list_elem_of_lookup_2. }
  eapply sublist_NoDup; [exact Hn|]. apply fmap_sublist, sublist_filter.
Qed.

(** ** Timelines: rows ordered by a time and then by id *)

(** PostgreSQL compares uuids byte by byte, which is the order of their hexadecimal digits. *)
Fixpoint uuid_le (a b : list Z) : bool :=
  match a, b with
  | [], _ => true
  | _ :: _, [] => false
  | x :: a', y :: b' => (x <? y)%Z || ((x =? y)%Z && uuid_le a' b')
  end.

Lemma uuid_le_total a b : uuid_le a b = true ∨ uuid_le b a = true.
Proof.
  revert b. induction a as [|x a IH]; intros [|y b]; cbn; auto.
  destruct (IH b) as [E|E]; rewrite E; lia.
Qed.
Lemma uuid_le_antisym a b : uuid_le a b = true → uuid_le b a = true → a = b.
Proof.
  revert b. induction a as [|x a IH]; intros [|y b]; cbn; try done.
  intros H1 H2. assert (x = y) as <- by lia.
  rewrite Z.ltb_irrefl, Z.eqb_refl in H1, H2. cbn in *. f_equal. by apply IH.
Qed.
Lemma uuid_le_trans a b c : uuid_le a b = true → uuid_le b c = true → uuid_le a c = true.
Proof.
  revert b c. induction a as [|x a IH]; intros [|y b] [|z c]; cbn; try done.
  intros H1 H2. specialize (IH b c). destruct (x <? z)%Z eqn:E1; [done|]. cbn.
  assert (x = y ∧ y = z) as [-> ->] by lia. rewrite Z.ltb_irrefl, Z.eqb_refl in *. cbn in *. auto.
Qed.

Definition uuid_before (a b : list Z) : Prop := uuid_le a b = true.
#[export] Instance uuid_before_dec : RelDecision uuid_before.
Proof. intros a b. unfold uuid_before. apply _. Defined.

Section Timeline.
Local Open Scope Z_scope.
Context {A : Type} (time : A → Z) (id : A → list Z).

(** [orderBy: [{createdAt: 'asc'}, {id: 'asc'}]]. *)
Definition oldest (a b : A) : Prop := time a < time b ∨ time a = time b ∧ uuid_le (id a) (id b).
(** [orderBy: [{createdAt: 'desc'}, {id: 'desc'}]]. *)
Definition newest (a b : A) : Prop := oldest b a.
(** [OR: [{createdAt: {lt}}, {createdAt, id: {lt}}]]: strictly after the cursor, newest first. *)
Definition before_row (c x : A) : Prop :=
  time x < time c ∨ time x = time c ∧ uuid_le (id x) (id c) ∧ id x ≠ id c.
Definition pageBoundary (cursor : option A) (x : A) : Prop :=
  match cursor with None => True | Some c => before_row c x end.

#[export] Instance oldest_dec : RelDecision oldest.
Proof. intros a b. unfold oldest. apply _. Defined.
#[export] Instance newest_dec : RelDecision newest.
Proof. intros a b. apply oldest_dec. Defined.
#[export] Instance pageBoundary_dec c x : Decision (pageBoundary c x).
Proof. unfold pageBoundary, before_row. destruct c; apply _. Defined.

#[export] Instance oldest_total : Total oldest.
Proof.
  intros a b. unfold oldest. destruct (Z.lt_trichotomy (time a) (time b)) as [Hx|[Hx|Hx]]; auto.
  destruct (uuid_le_total (id a) (id b)) as [E|E]; rewrite E; auto.
Qed.
#[export] Instance oldest_trans : Transitive oldest.
Proof.
  intros a b c [H1 | [H1 H1']] [H2 | [H2 H2']]; unfold oldest; [left; lia..|right].
  split; [lia|]. apply Is_true_true. apply Is_true_true in H1', H2'. by eapply uuid_le_trans.
Qed.
#[export] Instance newest_total : Total newest.
Proof. intros a b. apply (oldest_total b a). Qed.
#[export] Instance newest_trans : Transitive newest.
Proof. intros a b c H1 H2. by apply (oldest_trans c b a). Qed.

Lemma oldest_id a b : oldest a b → oldest b a → id a = id b.
Proof.
  intros [H1 | [H1 H1']] [H2 | [H2 H2']]; try lia.
  apply Is_true_true in H1', H2'. by apply uuid_le_antisym.
Qed.

(** Being before a row is the strict part of the order, on rows identified by their ids. *)
Lemma before_row_iff c x : (id x = id c → x = c) → before_row c x ↔ newest c x ∧ x ≠ c.
Proof.
  intros Hid. unfold before_row, newest, oldest. split.
  - intros [Hx | (Hx & Hle & Hne)].
    + split; [auto|]. intros ->. lia.
    + split; [auto|]. intros ->. done.
  - intros [[Hx | [Hx Hle]] Hne]; [by left|right]. split_and!; [done..|]. intros E. by apply Hne, Hid.
Qed.

(** *** Queries over a timeline

    [take: size + 1] rows after a cursor, by comparison with it or by Prisma's
    [cursor: {id}, skip: 1], which starts at the cursor's own row and skips it. *)
Definition query_before (size : nat) (cursor : option A) (rows : list A) : list A :=
  take (S size) (merge_sort newest (filter (pageBoundary cursor) rows)).
Definition query_skip (R : relation A) `{!RelDecision R} (size : nat) (cursor : option A) (rows : list A) :
    list A :=
  match cursor with
  | None => take (S size) (merge_sort R rows)
  | Some c => take (S size) (drop 1 (merge_sort R (filter (R c) rows)))
  end.

Lemma query_before_elem size cursor rs x : x ∈ query_before size cursor rs → x ∈ rs.
Proof.
  intros Hx. eapply elem_of_sublist in Hx; [|apply sublist_take]. rewrite merge_sort_Permutation in Hx.
  by apply list_elem_of_filter in Hx as [_ Hx].
Qed.

(** The rows a query selects are identified by their ids. *)
Context (rows : list A) (Hnd : NoDup (id <$> rows)).

Lemma newest_anti x y : x ∈ rows → y ∈ rows → newest x y → newest y x → x = y.
Proof. intros Hx Hy H1 H2. eapply (NoDup_fmap_inj id); try done. by apply oldest_id. Qed.
Lemma oldest_anti x y : x ∈ rows → y ∈ rows → oldest x y → oldest y x → x = y.
Proof. intros Hx Hy H1 H2. eapply (NoDup_fmap_inj id); try done. by apply oldest_id. Qed.

Lemma query_before_first size : query_before size None rows = take (S size) (merge_sort newest rows).
Proof. unfold query_before. by rewrite filter_all_in by done. Qed.

Lemma query_before_next size pre c post :
  merge_sort newest rows = pre ++ c :: post → query_before size (Some c) rows = take (S size) post.
Proof.
  intros E. unfold query_before. f_equal.
  apply (filter_strictly newest rows newest_anti (NoDup_fmap_1 _ _ Hnd) _ pre c post); [|done].
  intros x Hx. cbn. apply before_row_iff. intros Ei. eapply (NoDup_fmap_inj id); try done.
  assert (c ∈ merge_sort newest rows) as Hc by (rewrite E; set_solver).
  by rewrite merge_sort_Permutation in Hc.
Qed.

Lemma query_newest_next size pre c post :
  merge_sort newest rows = pre ++ c :: post → query_skip newest size (Some c) rows = take (S size) post.
Proof.
  intros E. cbn. f_equal.
  by apply (filter_skip newest rows newest_anti (NoDup_fmap_1 _ _ Hnd) _ pre c post).
Qed.
Lemma query_oldest_next size pre c post :
  merge_sort oldest rows = pre ++ c :: post → query_skip oldest size (Some c) rows = take (S size) post.
Proof.
  intros E. cbn. f_equal.
  by apply (filter_skip oldest rows oldest_anti (NoDup_fmap_1 _ _ Hnd) _ pre c post).
Qed.
End Timeline.

(** The rows of an array written with its positions are read back in that order. *)
Lemma imap_positions {A B} (f : nat → A → B) (g : B → Z) (l : list A) :
  (∀ i x, g (f i x) = (Z.of_nat i + 1)%Z) → g <$> imap f l = seqZ 1 (Z.of_nat (length l)).
Proof.
  intros Hg. apply list_eq. intros i. rewrite list_lookup_fmap, list_lookup_imap.
  destruct (l !! i) as [x|] eqn:Ei; cbn.
  - rewrite Hg. apply lookup_lt_Some in Ei. symmetry. apply lookup_seqZ. lia.
  - apply lookup_ge_None in Ei. symmetry. apply lookup_seqZ_ge. lia.
Qed.
