(* ===== verification/JsText.v ===== *)
(** * JavaScript text

    The strings of the program as ECMAScript has them (sequences of UTF-16 code units), the
    UTF-8 byte length that [Buffer.byteLength] and [TextEncoder] compute, iteration by code
    points, [JSON.stringify], and the text functions of the source: the output comparator and
    the public-output sanitiser and truncation of [packages/judge/src/judge.ts] and
    [apps/api/src/executions/job-store.ts]. *)

From S2P Require Import Prelude.
Local Open Scope Z_scope.

(** ** UTF-16 strings *)

Abbreviation jsstr := (list Z).

Definition ascii_code (a : Ascii.ascii) : Z := Z.of_N (Ascii.N_of_ascii a).
Definition js (s : string) : jsstr := ascii_code <$> String.list_ascii_of_string s.

#[export] Instance ascii_code_inj : Inj (=) (=) ascii_code.
Proof.
  intros a b E. apply N2Z.inj in E.
  by rewrite <- (Ascii.ascii_N_embedding a), E, Ascii.ascii_N_embedding.
Qed.
#[export] Instance js_inj : Inj (=) (=) js.
Proof.
  intros s t E. apply (inj (fmap ascii_code)) in E.
  rewrite <- (String.string_of_list_ascii_of_string s), E.
  apply String.string_of_list_ascii_of_string.
Qed.

Definition LF : Z := 10.
Definition CR : Z := 13.

Definition is_high (u : Z) : bool := (0xD800 <=? u) && (u <=? 0xDBFF).
Definition is_low (u : Z) : bool := (0xDC00 <=? u) && (u <=? 0xDFFF).

(** UTF-8 bytes of one code unit that is not part of a surrogate pair; a lone surrogate is
    written as U+FFFD, three bytes. *)
Definition unit_bytes (u : Z) : Z :=
  if u <? 0x80 then 1 else if u <? 0x800 then 2 else 3.

(** The code points of a string, each as the one or two code units that encode it: what
    [for (const point of text)] iterates over. *)
Fixpoint points (s : jsstr) : list jsstr :=
  match s with
  | [] => []
  | u :: s' =>
      match s' with
      | v :: s'' => if is_high u && is_low v then [u; v] :: points s'' else [u] :: points s'
      | [] => [[u]]
      end
  end.

(** [Buffer.byteLength(s)]. *)
Fixpoint byteLength (s : jsstr) : Z :=
  match s with
  | [] => 0
  | u :: s' =>
      match s' with
      | v :: s'' => if is_high u && is_low v then 4 + byteLength s'' else unit_bytes u + byteLength s'
      | [] => unit_bytes u
      end
  end.

Lemma join_cons {A} (x : list A) l : mjoin (x :: l) = x ++ mjoin l.
Proof. done. Qed.

Definition sumZ (l : list Z) : Z := foldr Z.add 0 l.

Lemma sumZ_perm l k : l ≡ₚ k → sumZ l = sumZ k.
Proof. unfold sumZ. induction 1; cbn; lia. Qed.
Lemma sumZ_app l k : sumZ (l ++ k) = sumZ l + sumZ k.
Proof. unfold sumZ. induction l as [|x l IH]; cbn; [done|lia]. Qed.

(** Induction along code points. *)
Lemma points_ind (P : jsstr → Prop) :
  P [] →
  (∀ u, P [u]) →
  (∀ u v s, is_high u && is_low v = true → P s → P (u :: v :: s)) →
  (∀ u v s, is_high u && is_low v = false → P (v :: s) → P (u :: v :: s)) →
  ∀ s, P s.
Proof.
  intros H0 H1 Hp Hu.
  assert (∀ s, P s ∧ ∀ u, P (u :: s)) as H; [|intros s; apply H].
  induction s as [|v s [IH1 IH2]]; split; auto.
  intros u. destruct (is_high u && is_low v) eqn:E; auto.
Qed.

Lemma points_pair u v s :
  is_high u && is_low v = true → points (u :: v :: s) = [u; v] :: points s.
Proof. intros E. simpl. by rewrite E. Qed.
Lemma points_unit u v s :
  is_high u && is_low v = false → points (u :: v :: s) = [u] :: points (v :: s).
Proof. intros E. simpl. by rewrite E. Qed.
Lemma byteLength_pair u v s :
  is_high u && is_low v = true → byteLength (u :: v :: s) = 4 + byteLength s.
Proof. intros E. simpl. by rewrite E. Qed.
Lemma byteLength_unit u v s :
  is_high u && is_low v = false → byteLength (u :: v :: s) = unit_bytes u + byteLength (v :: s).
Proof. intros E. simpl. by rewrite E. Qed.

Create Rewrite HintDb js_text.
#[export] Hint Rewrite points_pair points_unit byteLength_pair byteLength_unit using done : js_text.

Lemma unit_bytes_bounds u : 1 ≤ unit_bytes u ≤ 3.
Proof. unfold unit_bytes. repeat case_match; lia. Qed.

Lemma byteLength_nonneg s : 0 ≤ byteLength s.
Proof.
  induction s as [|u|u v s E IH|u v s E IH] using points_ind;
    autorewrite with js_text; simpl in *; [lia | | lia |]; pose proof (unit_bytes_bounds u); lia.
Qed.

Lemma concat_points s : mjoin (points s) = s.
Proof.
  induction s as [|u|u v s E IH|u v s E IH] using points_ind;
    autorewrite with js_text; simpl in *; by rewrite ?IH.
Qed.

Lemma byteLength_points s : byteLength s = sumZ (byteLength <$> points s).
Proof.
  induction s as [|u|u v s E IH|u v s E IH] using points_ind; autorewrite with js_text.
  - done.
  - simpl. lia.
  - rewrite fmap_cons, IH. cbn. by rewrite E.
  - rewrite fmap_cons, IH. done.
Qed.

(** A prefix of the code points of a string is the code points of a string: truncation at a
    point boundary never merges or splits points. *)
Lemma points_take s k : points (mjoin (take k (points s))) = take k (points s).
Proof.
  revert k. induction s as [|u|u v s E IH|u v s E IH] using points_ind; intros k.
  - by destruct k.
  - by destruct k as [|[|k]].
  - rewrite points_pair by done. destruct k as [|k]; [done|]. simpl. rewrite E.
    f_equal. apply IH.
  - rewrite points_unit by done. destruct k as [|k]; [done|].
    specialize (IH k). cbn [take mjoin list_join]. revert IH.
    destruct (points (v :: s)) as [|p ps] eqn:Ep.
    + intros _. by destruct k.
    + destruct k as [|k]; [done|]. intros IH. cbn [take mjoin list_join] in *.
      assert (∃ q, p = v :: q) as [q ->].
      { destruct s as [|w s']; simpl in Ep; [|destruct (is_high v && is_low w)];
          injection Ep as <- _; eauto. }
      change (points ([u] ++ (v :: q ++ mjoin (take k ps))) = [u] :: (v :: q) :: take k ps).
      cbn [app] in *. rewrite points_unit by done. by f_equal.
Qed.

Lemma byteLength_take s k :
  byteLength (mjoin (take k (points s))) = sumZ (byteLength <$> take k (points s)).
Proof. by rewrite byteLength_points, points_take. Qed.

(** Deleting code units never makes a string longer in UTF-8, even when the deletion joins
    two lone surrogates into a pair. *)
Lemma byteLength_cons u s : byteLength s ≤ byteLength (u :: s) ≤ 3 + byteLength s.
Proof.
  revert u. induction s as [|v|v w s E IH|v w s E IH] using points_ind; intros u.
  - simpl. pose proof (unit_bytes_bounds u). lia.
  - cbn. pose proof (unit_bytes_bounds u); pose proof (unit_bytes_bounds v).
    destruct (is_high u && is_low v) eqn:E; [|lia].
    unfold is_low, unit_bytes in *. repeat case_match; lia.
  - destruct (is_high u && is_low v) eqn:E'.
    { unfold is_high, is_low in *. lia. }
    rewrite (byteLength_unit u v) by done. pose proof (unit_bytes_bounds u). lia.
  - destruct (is_high u && is_low v) eqn:E'.
    + rewrite (byteLength_pair u v), (byteLength_unit v w) by done. specialize (IH 0).
      unfold is_low, unit_bytes in *. repeat case_match; lia.
    + rewrite (byteLength_unit u) by done. pose proof (unit_bytes_bounds u). lia.
Qed.

Lemma byteLength_le3 s : byteLength s ≤ 3 * Z.of_nat (length s).
Proof.
  induction s as [|u s IH]; [done|]. cbn [length]. pose proof (byteLength_cons u s). lia.
Qed.

Lemma byteLength_cons_le u s : byteLength (u :: s) ≤ unit_bytes u + byteLength s.
Proof.
  destruct s as [|v s]; [simpl; lia|].
  destruct (is_high u && is_low v) eqn:E.
  - rewrite byteLength_pair by done.
    assert (byteLength (v :: s) = unit_bytes v + byteLength s) as ->.
    { destruct s as [|w s]; [simpl; lia|]. apply byteLength_unit.
      unfold is_high, is_low in *. lia. }
    unfold is_high, is_low, unit_bytes in *. repeat case_match; lia.
  - rewrite byteLength_unit by done. lia.
Qed.

Lemma byteLength_sublist s t : s `sublist_of` t → byteLength s ≤ byteLength t.
Proof.
  revert s. induction t as [|u|u v t E IH|u v t E IH] using points_ind; intros s Hs.
  - apply sublist_nil_r in Hs as ->. done.
  - apply sublist_cons_r in Hs as [Hs|(s' & -> & Hs)]; apply sublist_nil_r in Hs as ->.
    + apply byteLength_nonneg.
    + done.
  - rewrite byteLength_pair by done.
    apply sublist_cons_r in Hs as [Hs|(s' & -> & Hs)].
    + apply sublist_cons_r in Hs as [Hs|(s' & -> & Hs)].
      * specialize (IH _ Hs). lia.
      * specialize (IH _ Hs). pose proof (byteLength_cons v s'). lia.
    + apply sublist_cons_r in Hs as [Hs|(s'' & -> & Hs)].
      * specialize (IH _ Hs). pose proof (byteLength_cons u s'). lia.
      * rewrite byteLength_pair by done. specialize (IH _ Hs). lia.
  - rewrite byteLength_unit by done. pose proof (unit_bytes_bounds u).
    apply sublist_cons_r in Hs as [Hs|(s' & -> & Hs)]; specialize (IH _ Hs); [lia|].
    pose proof (byteLength_cons_le u s'). lia.
Qed.

(** ** The output comparator (judge.ts) *)

(** [text.replace(/\r\n/g,'\n')]. *)
Fixpoint normalizeNewlines (s : jsstr) : jsstr :=
  match s with
  | [] => []
  | u :: s' =>
      match s' with
      | v :: s'' =>
          if (u =? CR) && (v =? LF) then LF :: normalizeNewlines s''
          else u :: normalizeNewlines s'
      | [] => [u]
      end
  end.

Definition compareOutput (actual expected : jsstr) : bool :=
  let a := normalizeNewlines actual in
  let e := normalizeNewlines expected in
  bool_decide (a = e) || bool_decide (a = e ++ [LF]) || bool_decide (a ++ [LF] = e).

(** No CRLF pair is left, and a text without one is unchanged. *)
Fixpoint has_crlf (s : jsstr) : bool :=
  match s with
  | u :: ((v :: _) as s') => ((u =? CR) && (v =? LF)) || has_crlf s'
  | _ => false
  end.

Lemma normalize_id s : has_crlf s = false → normalizeNewlines s = s.
Proof.
  induction s as [|u [|v s] IH]; [done..|]. cbn [has_crlf]. intros [Hc Hs]%orb_false_iff.
  change (normalizeNewlines (u :: v :: s)) with
    (if (u =? CR) && (v =? LF) then LF :: normalizeNewlines s else u :: normalizeNewlines (v :: s)).
  rewrite Hc. f_equal. by apply IH.
Qed.

(** ** Sanitising public output (judge.ts, job-store.ts)

    [stripVTControlCharacters] is Node's; every theorem below holds for whatever it returns,
    except the byte bound, which uses that it only deletes characters. *)
Definition unsafe_unit (u : Z) : bool :=
  ((0x00 <=? u) && (u <=? 0x08)) || ((0x0b <=? u) && (u <=? 0x1f))
  || ((0x7f <=? u) && (u <=? 0x9f)) || ((0x202a <=? u) && (u <=? 0x202e))
  || ((0x2066 <=? u) && (u <=? 0x2069)).

(** [.replace(/[...]/g,'')]. *)
Definition dropUnsafe (s : jsstr) : jsstr := filter (λ u, unsafe_unit u = false) s.

Section Sanitise.
Context (stripVT : jsstr → jsstr).

Definition sanitized (text : jsstr) : jsstr := dropUnsafe (stripVT text).

Definition safeConsole (text : jsstr) : jsstr := dropUnsafe (stripVT text).

Fixpoint display_loop (ps : list jsstr) (bytes : Z) (result : jsstr) (size : Z) : jsstr :=
  match ps with
  | [] => result
  | point :: ps' =>
      let n := byteLength point in
      if bytes <? size + n then result
      else display_loop ps' bytes (result ++ point) (size + n)
  end.

Definition display (text : jsstr) (bytes : Z) : jsstr :=
  display_loop (points (sanitized text)) bytes [] 0.

(** The displayed text is a prefix, cut at a code point boundary, whose byte length is the
    size counter of the loop; the loop stops only when the next point would not fit. *)
Lemma display_loop_spec ps bytes acc size :
  size ≤ bytes →
  ∃ k, display_loop ps bytes acc size = acc ++ mjoin (take k ps) ∧
       size + sumZ (byteLength <$> take k ps) ≤ bytes ∧
       (∀ p, ps !! k = Some p → bytes < size + sumZ (byteLength <$> take k ps) + byteLength p).
Proof.
  revert acc size. induction ps as [|p ps IH]; intros acc size Hs.
  - exists 0%nat. simpl. rewrite app_nil_r. split_and!; [done|lia|done].
  - cbn [display_loop]. destruct (Z.ltb_spec bytes (size + byteLength p)) as [Hlt|Hge].
    + exists 0%nat. simpl. rewrite app_nil_r. split_and!; [done|lia|].
      intros p' [= <-]. lia.
    + destruct (IH (acc ++ p) (size + byteLength p)) as (k & -> & Hk & Hnext); [done|].
      exists (S k). cbn [take fmap list_fmap sumZ foldr mjoin list_join lookup list_lookup].
      rewrite <- app_assoc. split_and!; [done|..].
      * unfold sumZ in *. lia.
      * intros p' Hp'. specialize (Hnext p' Hp'). unfold sumZ in *. lia.
Qed.

Lemma display_spec text bytes :
  0 ≤ bytes →
  ∃ k, display text bytes = mjoin (take k (points (sanitized text))) ∧
       byteLength (display text bytes) ≤ bytes ∧
       (∀ p, points (sanitized text) !! k = Some p →
         bytes < byteLength (display text bytes) + byteLength p).
Proof.
  intros Hb. unfold display.
  destruct (display_loop_spec (points (sanitized text)) bytes [] 0 Hb) as (k & -> & Hk & Hn).
  exists k. rewrite app_nil_l, byteLength_take. split_and!; [done|lia|].
  intros p Hp. specialize (Hn p Hp). lia.
Qed.

Lemma dropUnsafe_sublist s : dropUnsafe s `sublist_of` s.
Proof.
  induction s as [|u s IH]; [done|]. unfold dropUnsafe in *. cbn.
  case_decide; by constructor.
Qed.

Lemma sanitized_units text u : u ∈ sanitized text → unsafe_unit u = false.
Proof. unfold sanitized, dropUnsafe. rewrite list_elem_of_filter. naive_solver. Qed.

Lemma display_loop_units ps bytes acc size u :
  u ∈ display_loop ps bytes acc size → u ∈ acc ∨ u ∈ mjoin ps.
Proof.
  revert acc size. induction ps as [|p ps IH]; intros acc size; cbn; [auto|].
  destruct (bytes <? size + byteLength p); [auto|].
  intros [Hin|Hin]%IH; rewrite elem_of_app in *; naive_solver.
Qed.

Lemma display_units text bytes u : u ∈ display text bytes → unsafe_unit u = false.
Proof.
  intros Hu. apply display_loop_units in Hu as [Hn|Hin].
  - by apply elem_of_nil in Hn.
  - rewrite concat_points in Hin. by eapply sanitized_units.
Qed.

Context (stripVT_deletes : ∀ s, stripVT s `sublist_of` s).

Lemma safeConsole_byteLength text : byteLength (safeConsole text) ≤ byteLength text.
Proof.
  apply byteLength_sublist. etrans; [apply dropUnsafe_sublist|apply stripVT_deletes].
Qed.
End Sanitise.

(** Texts that agree up to CRLF and at most one final line feed on either side. *)
Definition same_up_to_final_newline (a e : jsstr) : Prop :=
  ∃ base x y, a = base ++ x ∧ e = base ++ y ∧ (x = [] ∨ x = [LF]) ∧ (y = [] ∨ y = [LF]).

(** The comparator accepts exactly the outputs that equal the expected answer after CRLF
    normalisation, up to at most one final line feed on either side; every other difference
    (inner whitespace, further blank lines) is rejected. *)
Lemma compareOutput_spec actual expected :
  compareOutput actual expected = true ↔
  same_up_to_final_newline (normalizeNewlines actual) (normalizeNewlines expected).
Proof.
  unfold compareOutput, same_up_to_final_newline.
  rewrite !orb_true_iff, !bool_decide_eq_true. split.
  - intros [[->| ->]| <-]; [exists (normalizeNewlines expected), [], []|exists (normalizeNewlines expected), [LF], []|
      exists (normalizeNewlines actual), [], [LF]]; rewrite ?app_nil_r; auto.
  - intros (b & x & y & -> & -> & [->| ->] & [->| ->]); rewrite ?app_nil_r; auto.
Qed.

(** ** [JSON.stringify] *)

Inductive json : Type :=
| JNull
| JBool (b : bool)
| JNum (n : Z)
| JStr (s : jsstr)
| JArr (l : list json)
| JObj (l : list (string * json)).

Definition QUOTE : Z := 34.
Definition BACKSLASH : Z := 92.
Definition hexdigit (d : Z) : Z := if d <? 10 then 48 + d else 87 + d.
Definition unhex (c : Z) : Z := if c <? 58 then c - 48 else c - 87.
Definition hex4 (u : Z) : jsstr :=
  [hexdigit (u / 4096); hexdigit (u / 256 mod 16); hexdigit (u / 16 mod 16); hexdigit (u mod 16)].
Definition escape_u (u : Z) : jsstr := BACKSLASH :: 117 :: hex4 u.

(** The two-character escapes: (code unit, letter after the backslash). *)
Definition short_escapes : list (Z * Z) :=
  [(QUOTE, QUOTE); (BACKSLASH, BACKSLASH); (8, 98); (9, 116); (10, 110); (12, 102); (13, 114)].
Fixpoint assocZ (k : Z) (l : list (Z * Z)) : option Z :=
  match l with
  | [] => None
  | (a, b) :: l' => if a =? k then Some b else assocZ k l'
  end.
Definition short_escape (u : Z) : option Z := assocZ u short_escapes.
Definition short_unescape (c : Z) : option Z := assocZ c ((λ p, (p.2, p.1)) <$> short_escapes).

Definition escape_unit (u : Z) : jsstr :=
  match short_escape u with
  | Some c => [BACKSLASH; c]
  | None => if (u <? 32) || is_high u || is_low u then escape_u u else [u]
  end.
Definition escape_point (p : jsstr) : jsstr :=
  match p with
  | [u] => escape_unit u
  | _ => p
  end.
Definition quote (s : jsstr) : jsstr :=
  QUOTE :: mjoin (escape_point <$> points s) ++ [QUOTE].

Fixpoint intercalate (sep : jsstr) (l : list jsstr) : jsstr :=
  match l with
  | [] => []
  | [x] => x
  | x :: l' => x ++ sep ++ intercalate sep l'
  end.

Fixpoint stringify (j : json) : jsstr :=
  match j with
  | JNull => js "null"
  | JBool b => js (if b then "true" else "false")
  | JNum n => js (pretty n)
  | JStr s => quote s
  | JArr l => js "[" ++ intercalate (js ",") (List.map stringify l) ++ js "]"
  | JObj l => js "{" ++ intercalate (js ",")
                 (List.map (λ '(k, v), quote (js k) ++ js ":" ++ stringify v) l) ++ js "}"
  end.

(** Reading a quoted string back: the text up to the closing quote, and what follows. *)
Fixpoint unquote (s : jsstr) : option (jsstr * jsstr) :=
  match s with
  | [] => None
  | u :: r =>
      if u =? QUOTE then Some ([], r)
      else if u =? BACKSLASH then
        match r with
        | c :: r1 =>
            if c =? 117 then
              match r1 with
              | a :: b :: d :: e :: r2 =>
                  prod_map (cons (unhex a * 4096 + unhex b * 256 + unhex d * 16 + unhex e)) id
                    <$> unquote r2
              | _ => None
              end
            else match short_unescape c with
                 | Some x => prod_map (cons x) id <$> unquote r1
                 | None => None
                 end
        | [] => None
        end
      else prod_map (cons u) id <$> unquote r
  end.

Definition unit_ok (u : Z) : Prop := 0 ≤ u < 65536.

Lemma unhex_hexdigit d : 0 ≤ d < 16 → unhex (hexdigit d) = d.
Proof. unfold unhex, hexdigit. intros. repeat case_match; lia. Qed.

Lemma unquote_escape_u u r : unit_ok u → unquote (escape_u u ++ r) = prod_map (cons u) id <$> unquote r.
Proof.
  intros [H0 H1]. cbn -[hexdigit unhex Z.div Z.modulo].
  rewrite !unhex_hexdigit by zdiv.
  by replace (u / 4096 * 4096 + u / 256 mod 16 * 256 + u / 16 mod 16 * 16 + u mod 16)
    with u by zdiv.
Qed.

Lemma unquote_raw u r :
  (u =? QUOTE) = false → (u =? BACKSLASH) = false →
  unquote (u :: r) = prod_map (cons u) id <$> unquote r.
Proof. intros E1 E2. cbn. by rewrite E1, E2. Qed.

Lemma assocZ_Some k l b : assocZ k l = Some b → (k, b) ∈ l.
Proof.
  induction l as [|[a c] l IH]; [done|]. cbn. case_match eqn:E; intros Hb.
  - apply Z.eqb_eq in E. simplify_eq. left.
  - right. by apply IH.
Qed.

Lemma unquote_escape_unit u r :
  unit_ok u → unquote (escape_unit u ++ r) = prod_map (cons u) id <$> unquote r.
Proof.
  intros Hu. unfold escape_unit. destruct (short_escape u) as [c|] eqn:E.
  - apply assocZ_Some in E. unfold short_escapes in E.
    repeat (apply elem_of_cons in E as [E|E]; [simplify_eq; reflexivity|]).
    by apply elem_of_nil in E.
  - case_match; [by apply unquote_escape_u|].
    apply unquote_raw; apply Z.eqb_neq; intros ->; discriminate.
Qed.

Lemma unquote_points s r :
  Forall unit_ok s →
  unquote (mjoin (escape_point <$> points s) ++ QUOTE :: r) = Some (s, r).
Proof.
  induction s as [|u|u v s E IH|u v s E IH] using points_ind; intros Hs.
  - done.
  - inversion_clear Hs as [|? ? Hu _]. cbn [points fmap list_fmap mjoin list_join escape_point].
    rewrite app_nil_r, unquote_escape_unit by done. done.
  - inversion_clear Hs as [|? ? Hu Hs']. inversion_clear Hs' as [|? ? Hv Hs].
    rewrite points_pair, fmap_cons, join_cons by done. cbn [escape_point app].
    rewrite !unquote_raw by (unfold is_high, is_low, QUOTE, BACKSLASH in *; lia).
    by rewrite IH.
  - inversion_clear Hs as [|? ? Hu Hs'].
    rewrite points_unit, fmap_cons, join_cons, <- app_assoc by done. cbn [escape_point].
    by rewrite unquote_escape_unit, IH.
Qed.

(** Quoting is a round trip whatever text follows, so quoted strings concatenate
    unambiguously. *)
Lemma quote_inj_app s t r1 r2 :
  Forall unit_ok s → Forall unit_ok t → quote s ++ r1 = quote t ++ r2 → s = t ∧ r1 = r2.
Proof.
  intros Hs Ht. unfold quote. cbn. intros [= E]. rewrite <- !app_assoc in E. cbn in E.
  pose proof (unquote_points s r1 Hs) as H1. pose proof (unquote_points t r2 Ht) as H2.
  rewrite E, H2 in H1. by injection H1 as <- <-.
Qed.

Lemma js_unit_ok s : Forall unit_ok (js s).
Proof.
  unfold js. apply Forall_fmap, Forall_forall. intros a _. cbn.
  pose proof (Ascii.N_ascii_bounded a). unfold unit_ok, ascii_code. lia.
Qed.
