(* ===== verification/Contracts.v ===== *)
(** * Shared contracts ([packages/contracts/src/index.ts])

    The enumerations shared by the API, the worker and the runner, the execution state graph,
    and the schemas of the execution request and of the public execution events, each as a
    parser of JSON values (what [safeParse] accepts and returns). *)

From S2P Require Import Prelude JsText.
Local Open Scope Z_scope.

(** ** Enumerations *)

Inductive Language := java | python | javascript.
Inductive ExecutionMode := RUN | SUBMIT.
Inductive ExecutionState := QUEUED | COMPILING | RUNNING | FINISHED | CANCELLED | INTERNAL_ERROR.
Inductive Verdict :=
| ACCEPTED | WRONG_ANSWER | COMPILATION_ERROR | RUNTIME_ERROR | TIME_LIMIT_EXCEEDED
| MEMORY_LIMIT_EXCEEDED | OUTPUT_LIMIT_EXCEEDED | VCANCELLED | VINTERNAL_ERROR.
Inductive ExecutionFailureCode :=
| QUEUE_TIMEOUT | JOB_FAILURE | LEASE_EXPIRED | JOB_TIMEOUT | CANCELLATION_TIMEOUT.
Inductive Stream := stdout | stderr.
Inductive EventKind := k_execution_status | k_console_output | k_final_verdict.

#[export] Instance Language_eq_dec : EqDecision Language. Proof. solve_decision. Defined.
#[export] Instance ExecutionMode_eq_dec : EqDecision ExecutionMode. Proof. solve_decision. Defined.
#[export] Instance ExecutionState_eq_dec : EqDecision ExecutionState. Proof. solve_decision. Defined.
#[export] Instance Verdict_eq_dec : EqDecision Verdict. Proof. solve_decision. Defined.
#[export] Instance FailureCode_eq_dec : EqDecision ExecutionFailureCode. Proof. solve_decision. Defined.
#[export] Instance Stream_eq_dec : EqDecision Stream. Proof. solve_decision. Defined.

(** A string enumeration: its values with their names, as [z.enum] has them. *)
Class JsEnum (A : Type) := {
  enum_values : list A;
  enum_name : A → string;
  enum_complete : ∀ a, a ∈ enum_values;
  enum_inj : Inj (=) (=) enum_name
}.
#[export] Existing Instance enum_inj.

#[export] Instance Language_enum : JsEnum Language := {|
  enum_values := [java; python; javascript];
  enum_name l := match l with java => "java" | python => "python" | javascript => "javascript" end;
  enum_complete := ltac:(intros []; set_solver); enum_inj := ltac:(intros [] []; done) |}.
#[export] Instance ExecutionMode_enum : JsEnum ExecutionMode := {|
  enum_values := [RUN; SUBMIT];
  enum_name m := match m with RUN => "RUN" | SUBMIT => "SUBMIT" end;
  enum_complete := ltac:(intros []; set_solver); enum_inj := ltac:(intros [] []; done) |}.
#[export] Instance ExecutionState_enum : JsEnum ExecutionState := {|
  enum_values := [QUEUED; COMPILING; RUNNING; FINISHED; CANCELLED; INTERNAL_ERROR];
  enum_name s := match s with
    | QUEUED => "QUEUED" | COMPILING => "COMPILING" | RUNNING => "RUNNING"
    | FINISHED => "FINISHED" | CANCELLED => "CANCELLED" | INTERNAL_ERROR => "INTERNAL_ERROR" end;
  enum_complete := ltac:(intros []; set_solver); enum_inj := ltac:(intros [] []; done) |}.
#[export] Instance Verdict_enum : JsEnum Verdict := {|
  enum_values := [ACCEPTED; WRONG_ANSWER; COMPILATION_ERROR; RUNTIME_ERROR; TIME_LIMIT_EXCEEDED;
                  MEMORY_LIMIT_EXCEEDED; OUTPUT_LIMIT_EXCEEDED; VCANCELLED; VINTERNAL_ERROR];
  enum_name v := match v with
    | ACCEPTED => "ACCEPTED" | WRONG_ANSWER => "WRONG_ANSWER"
    | COMPILATION_ERROR => "COMPILATION_ERROR" | RUNTIME_ERROR => "RUNTIME_ERROR"
    | TIME_LIMIT_EXCEEDED => "TIME_LIMIT_EXCEEDED"
    | MEMORY_LIMIT_EXCEEDED => "MEMORY_LIMIT_EXCEEDED"
    | OUTPUT_LIMIT_EXCEEDED => "OUTPUT_LIMIT_EXCEEDED"
    | VCANCELLED => "CANCELLED" | VINTERNAL_ERROR => "INTERNAL_ERROR" end;
  enum_complete := ltac:(intros []; set_solver); enum_inj := ltac:(intros [] []; done) |}.
#[export] Instance FailureCode_enum : JsEnum ExecutionFailureCode := {|
  enum_values := [QUEUE_TIMEOUT; JOB_FAILURE; LEASE_EXPIRED; JOB_TIMEOUT; CANCELLATION_TIMEOUT];
  enum_name c := match c with
    | QUEUE_TIMEOUT => "QUEUE_TIMEOUT" | JOB_FAILURE => "JOB_FAILURE"
    | LEASE_EXPIRED => "LEASE_EXPIRED" | JOB_TIMEOUT => "JOB_TIMEOUT"
    | CANCELLATION_TIMEOUT => "CANCELLATION_TIMEOUT" end;
  enum_complete := ltac:(intros []; set_solver); enum_inj := ltac:(intros [] []; done) |}.
#[export] Instance Stream_enum : JsEnum Stream := {|
  enum_values := [stdout; stderr];
  enum_name s := match s with stdout => "stdout" | stderr => "stderr" end;
  enum_complete := ltac:(intros []; set_solver); enum_inj := ltac:(intros [] []; done) |}.

#[export] Instance EventKind_enum : JsEnum EventKind := {|
  enum_values := [k_execution_status; k_console_output; k_final_verdict];
  enum_name k := match k with
    | k_execution_status => "execution_status" | k_console_output => "console_output"
    | k_final_verdict => "final_verdict" end;
  enum_complete := ltac:(intros []; set_solver); enum_inj := ltac:(intros [] []; done) |}.

Arguments Language_enum : simpl never.
Arguments ExecutionMode_enum : simpl never.
Arguments ExecutionState_enum : simpl never.
Arguments Verdict_enum : simpl never.
Arguments FailureCode_enum : simpl never.
Arguments Stream_enum : simpl never.
Arguments EventKind_enum : simpl never.

Fixpoint find_name {A} (name : A → string) (s : jsstr) (l : list A) : option A :=
  match l with
  | [] => None
  | a :: l' => if bool_decide (js (name a) = s) then Some a else find_name name s l'
  end.

Definition parse_enum {A} `{!JsEnum A} (j : json) : option A :=
  match j with JStr s => find_name enum_name s enum_values | _ => None end.
Definition enum_json {A} `{!JsEnum A} (a : A) : json := JStr (js (enum_name a)).

Lemma parse_enum_json A (E : JsEnum A) (a : A) : parse_enum (enum_json a) = Some a.
Proof.
  cbn. pose proof (enum_complete a) as Ha. induction enum_values as [|b l IH].
  { by apply elem_of_nil in Ha. }
  cbn. case_bool_decide as En.
  - by apply (inj js), (inj enum_name) in En as ->.
  - apply elem_of_cons in Ha as [->|Ha]; [done|by apply IH].
Qed.

(** Rewrites every parse of a printed enumeration value. *)
Ltac simpl_enum :=
  repeat match goal with
  | |- context [@parse_enum ?A ?E (@enum_json ?A ?E ?a)] => rewrite (parse_enum_json A E a)
  end.

(** ** The state graph *)

Definition transitions (s : ExecutionState) : list ExecutionState :=
  match s with
  | QUEUED => [COMPILING; CANCELLED; INTERNAL_ERROR]
  | COMPILING => [RUNNING; FINISHED; CANCELLED; INTERNAL_ERROR]
  | RUNNING => [FINISHED; CANCELLED; INTERNAL_ERROR]
  | FINISHED => [] | CANCELLED => [] | INTERNAL_ERROR => []
  end.

Definition activeStates : list ExecutionState := [QUEUED; COMPILING; RUNNING].

Definition isTerminal (s : ExecutionState) : bool := (length (transitions s) =? 0)%nat.

Definition canTransition (from to : ExecutionState) : bool := bool_decide (to ∈ transitions from).

Definition is_active (s : ExecutionState) : bool := bool_decide (s ∈ activeStates).

Lemma isTerminal_active s : isTerminal s = negb (is_active s).
Proof. by destruct s. Qed.

(** ** Schemas

    zod is a third-party package: the format test [z.uuid()] is a parameter of the model; the
    other combinators of the schemas below ([strictObject], [enum], [int], [min], [max],
    [optional], [refine]) are written out with their documented meaning. *)
Class Zod := { z_uuid : jsstr → bool }.

Abbreviation jsobject := (list (string * json)).

Fixpoint field (k : string) (o : jsobject) : option json :=
  match o with
  | [] => None
  | (k', v) :: o' => if String.eqb k' k then Some v else field k o'
  end.

(** [z.strictObject]: no key outside the schema's. *)
Definition strict (keys : list string) (o : jsobject) : bool :=
  forallb (λ kv, existsb (String.eqb kv.1) keys) o.

Definition MAX_SAFE_INTEGER : Z := 9007199254740991.
Definition safe_int (n : Z) : bool := (- MAX_SAFE_INTEGER <=? n) && (n <=? MAX_SAFE_INTEGER).

Definition parse_string (j : json) : option jsstr := match j with JStr s => Some s | _ => None end.
Definition parse_bool (j : json) : option bool := match j with JBool b => Some b | _ => None end.
Definition parse_int (j : json) : option Z :=
  match j with JNum n => if safe_int n then Some n else None | _ => None end.
Definition check {A} (p : A → bool) (a : A) : option A := if p a then Some a else None.
(** A string, or an integer, with a refinement. *)
Definition parse_string_if (p : jsstr → bool) (j : json) : option jsstr :=
  s ← parse_string j; check p s.
Definition parse_int_if (p : Z → bool) (j : json) : option Z := n ← parse_int j; check p n.
Definition optional {A} (parse : json → option A) (oj : option json) : option (option A) :=
  match oj with
  | None => Some None
  | Some j => Some <$> parse j
  end.

Definition MAX_SOURCE_BYTES : Z := 64 * 1024.
Definition MAX_OUTPUT_BYTES : Z := 256 * 1024.

Definition is_digit (u : Z) : bool := (48 <=? u) && (u <=? 57).
Definition is_lower (u : Z) : bool := (97 <=? u) && (u <=? 122).
Definition is_upper (u : Z) : bool := (65 <=? u) && (u <=? 90).

(** The automaton of [/^[a-z0-9]+(?:-[a-z0-9]+)*$/]: [seen] holds when the current segment has
    a character. *)
Fixpoint slug_run (seen : bool) (s : jsstr) : bool :=
  match s with
  | [] => seen
  | u :: s' =>
      if is_lower u || is_digit u then slug_run true s'
      else if (u =? 45) && seen then slug_run false s' else false
  end.
Definition slug_ok (s : jsstr) : bool := slug_run false s.

(** [/^[A-Za-z0-9_-]{16,128}$/]. *)
Definition is_token_char (u : Z) : bool :=
  is_lower u || is_upper u || is_digit u || (u =? 95) || (u =? 45).
Definition idempotencyKey_ok (s : jsstr) : bool :=
  forallb is_token_char s && (16 <=? length s)%nat && (length s <=? 128)%nat.

Record CreateExecution := mkCreateExecution {
  ce_problemId : jsstr;
  ce_language : Language;
  ce_mode : ExecutionMode;
  ce_sourceCode : jsstr;
  ce_competitionSlug : option jsstr
}.

Definition opt_field (k : string) (v : option json) : jsobject :=
  match v with None => [] | Some j => [(k, j)] end.

Section Schemas.
Context `{Zod}.

Definition parse_uuid : json → option jsstr := parse_string_if z_uuid.
Definition source_ok (v : jsstr) : bool := (1 <=? length v)%nat && (byteLength v <=? MAX_SOURCE_BYTES).

Definition createExecution_keys : list string :=
  ["problemId"; "language"; "mode"; "sourceCode"; "competitionSlug"].

Definition createExecutionSchema (j : json) : option CreateExecution :=
  match j with
  | JObj o =>
      if negb (strict createExecution_keys o) then None else
      problemId ← field "problemId" o ≫= parse_uuid;
      language ← field "language" o ≫= parse_enum;
      mode ← field "mode" o ≫= parse_enum;
      sourceCode ← field "sourceCode" o ≫= parse_string_if source_ok;
      competitionSlug ← optional (parse_string_if (λ v, slug_ok v && (length v <=? 100)%nat))
                          (field "competitionSlug" o);
      Some (mkCreateExecution problemId language mode sourceCode competitionSlug)
  | _ => None
  end.

Definition createExecution_json (c : CreateExecution) : json :=
  JObj ([("problemId", JStr (ce_problemId c)); ("language", enum_json (ce_language c));
         ("mode", enum_json (ce_mode c)); ("sourceCode", JStr (ce_sourceCode c))]
        ++ opt_field "competitionSlug" (JStr <$> ce_competitionSlug c)).

(** What an accepted request satisfies. *)
Definition createExecution_ok (c : CreateExecution) : bool :=
  z_uuid (ce_problemId c) && source_ok (ce_sourceCode c)
  && match ce_competitionSlug c with
     | None => true
     | Some s => slug_ok s && (length s <=? 100)%nat
     end.

(** *** Public execution events *)

Inductive EventFields :=
| execution_status (state : ExecutionState) (cancellationRequested : option bool)
| console_output (caseId : jsstr) (stream : Stream) (text : jsstr)
| final_verdict (state : ExecutionState) (verdict : Verdict) (failureCode : option ExecutionFailureCode).

Record PublicExecutionEvent := mkEvent {
  pe_executionId : jsstr;
  pe_attempt : Z;
  pe_sequence : Z;
  pe_fields : EventFields
}.

Definition event_kind (f : EventFields) : EventKind :=
  match f with
  | execution_status _ _ => k_execution_status
  | console_output _ _ _ => k_console_output
  | final_verdict _ _ _ => k_final_verdict
  end.

(** The refinements of [publicExecutionEventSchema] on a value of the event type. *)
Definition fields_ok (f : EventFields) : bool :=
  match f with
  | console_output caseId _ text => z_uuid caseId && (byteLength text <=? 4096)
  | _ => true
  end.
Definition event_ok (e : PublicExecutionEvent) : bool :=
  z_uuid (pe_executionId e)
  && (safe_int (pe_attempt e) && (0 <=? pe_attempt e))
  && (safe_int (pe_sequence e) && (0 <? pe_sequence e))
  && fields_ok (pe_fields e).

Definition fields_json (f : EventFields) : jsobject :=
  match f with
  | execution_status s c => ("state", enum_json s) :: opt_field "cancellationRequested" (JBool <$> c)
  | console_output i s t => [("caseId", JStr i); ("stream", enum_json s); ("text", JStr t)]
  | final_verdict s v c =>
      ("state", enum_json s) :: ("verdict", enum_json v) :: opt_field "failureCode" (enum_json <$> c)
  end.
Definition event_json (e : PublicExecutionEvent) : json :=
  JObj ([("executionId", JStr (pe_executionId e)); ("attempt", JNum (pe_attempt e));
         ("sequence", JNum (pe_sequence e)); ("kind", enum_json (event_kind (pe_fields e)))]
        ++ fields_json (pe_fields e)).

Definition eventIdentity_keys : list string := ["executionId"; "attempt"; "sequence"; "kind"].

Definition parse_fields (kind : EventKind) (o : jsobject) : option EventFields :=
  match kind with
  | k_execution_status =>
      if negb (strict (eventIdentity_keys ++ ["state"; "cancellationRequested"]) o) then None else
      s ← field "state" o ≫= parse_enum;
      c ← optional parse_bool (field "cancellationRequested" o);
      Some (execution_status s c)
  | k_console_output =>
      if negb (strict (eventIdentity_keys ++ ["caseId"; "stream"; "text"]) o) then None else
      i ← field "caseId" o ≫= parse_uuid;
      s ← field "stream" o ≫= parse_enum;
      t ← field "text" o ≫= parse_string_if (λ v, byteLength v <=? 4096);
      Some (console_output i s t)
  | k_final_verdict =>
      if negb (strict (eventIdentity_keys ++ ["state"; "verdict"; "failureCode"]) o) then None else
      s ← field "state" o ≫= parse_enum;
      v ← field "verdict" o ≫= parse_enum;
      c ← optional parse_enum (field "failureCode" o);
      Some (final_verdict s v c)
  end.

Definition publicExecutionEventSchema (j : json) : option PublicExecutionEvent :=
  match j with
  | JObj o =>
      kind ← field "kind" o ≫= parse_enum;
      i ← field "executionId" o ≫= parse_uuid;
      a ← field "attempt" o ≫= parse_int_if (λ n, 0 <=? n);
      s ← field "sequence" o ≫= parse_int_if (λ n, 0 <? n);
      f ← parse_fields kind o;
      Some (mkEvent i a s f)
  | _ => None
  end.
End Schemas.

#[export] Instance EventFields_eq_dec : EqDecision EventFields. Proof. solve_decision. Defined.
#[export] Instance PublicExecutionEvent_eq_dec : EqDecision PublicExecutionEvent.
Proof. solve_decision. Defined.

Section SchemaFacts.
Context `{Zod}.

Lemma parse_string_if_true p s : p s = true → parse_string_if p (JStr s) = Some s.
Proof. intros E. cbn. unfold check. by rewrite E. Qed.
Lemma parse_int_if_true p n : safe_int n = true → p n = true → parse_int_if p (JNum n) = Some n.
Proof. intros E1 E2. unfold parse_int_if, parse_int, check. rewrite E1. cbn. by rewrite E2. Qed.
Lemma parse_string_if_Some p j s : parse_string_if p j = Some s → p s = true.
Proof. unfold parse_string_if, check. destruct j; try done. cbn. by case_match; intros; simplify_eq. Qed.

Lemma event_parse_print (e : PublicExecutionEvent) :
  event_ok e = true → publicExecutionEventSchema (event_json e) = Some e.
Proof.
  destruct e as [i a s f]. unfold event_ok. cbn [pe_executionId pe_attempt pe_sequence pe_fields].
  intros [[[Hi [Ha Ha0]%andb_true_iff]%andb_true_iff [Hs Hs0]%andb_true_iff]%andb_true_iff Hf]%andb_true_iff.
  unfold event_json, publicExecutionEventSchema, parse_uuid.
  cbn -[parse_string_if parse_int_if parse_enum enum_json parse_fields fields_json].
  simpl_enum. cbn -[parse_string_if parse_int_if parse_fields fields_json].
  rewrite (parse_string_if_true z_uuid i) by done. cbn -[parse_int_if parse_fields fields_json].
  rewrite !parse_int_if_true by done. cbn -[parse_fields fields_json].
  destruct f as [st [c|]|ci str t|st v [c|]]; cbn -[parse_enum enum_json parse_uuid parse_string_if];
    simpl_enum; cbn -[parse_enum enum_json parse_uuid parse_string_if];
    simpl_enum; try done.
  apply andb_true_iff in Hf as [Hc Ht]. unfold parse_uuid.
  rewrite (parse_string_if_true z_uuid ci) by done. cbn -[parse_enum enum_json parse_string_if].
  simpl_enum. cbn -[parse_string_if]. by rewrite parse_string_if_true.
Qed.

(** The public event schema and the event serialiser are inverse on the events the schema
    accepts, so a stored public event is read back exactly as it was written, whatever text it
    carries. *)
Lemma event_schema_roundtrip (e : PublicExecutionEvent) :
  event_ok e = true → publicExecutionEventSchema (event_json e) = Some e.
Proof. apply event_parse_print. Qed.

(** An execution request that meets the schema is parsed back from its JSON unchanged. *)
Lemma createExecution_roundtrip (c : CreateExecution) :
  createExecution_ok c = true → createExecutionSchema (createExecution_json c) = Some c.
Proof.
  destruct c as [p l m s slug]; unfold createExecution_ok;
    cbn [ce_problemId ce_language ce_mode ce_sourceCode ce_competitionSlug].
  intros [[Hp Hs]%andb_true_iff Hslug]%andb_true_iff.
  unfold createExecutionSchema, createExecution_json, parse_uuid.
  destruct slug as [slug|]; cbn -[parse_string_if parse_enum enum_json source_ok];
    rewrite (parse_string_if_true z_uuid p) by done; cbn -[parse_string_if parse_enum enum_json source_ok];
    simpl_enum; cbn -[parse_string_if source_ok];
    rewrite parse_string_if_true by done; cbn -[parse_string_if]; [|done].
  by rewrite parse_string_if_true.
Qed.

(** A request with any key outside the schema (an owner, a runtime image, ...) is
    rejected, whatever its other fields say; an accepted one satisfies the source, identifier
    and slug bounds. *)
Lemma createExecution_accepts j c :
  createExecutionSchema j = Some c →
  createExecution_ok c = true ∧
  ∃ o, j = JObj o ∧ ∀ k v, (k, v) ∈ o → k ∈ createExecution_keys.
Proof.
  unfold createExecutionSchema. destruct j as [| | | | |o]; try done.
  destruct (strict createExecution_keys o) eqn:Es; cbn [negb]; [|done].
  intros (p & Hp & (l & Hl & (m & Hm & (s & Hs & (g & Hg & E)%bind_Some)%bind_Some)%bind_Some)%bind_Some)%bind_Some.
  simplify_eq. split.
  - apply bind_Some in Hp as (? & _ & Hp%parse_string_if_Some).
    apply bind_Some in Hs as (? & _ & Hs%parse_string_if_Some).
    unfold createExecution_ok. cbn. rewrite Hp, Hs. cbn.
    destruct g as [g|]; [|done]. unfold optional in Hg. case_match; [|done].
    apply fmap_Some in Hg as (? & Hg%parse_string_if_Some & ?). by simplify_eq.
  - exists o. split; [done|]. intros k v Hkv. unfold strict in Es.
    rewrite forallb_forall in Es. apply list_elem_of_In, Es, existsb_exists in Hkv as (k' & Hk & E).
    apply String.eqb_eq in E as <-. by apply list_elem_of_In.
Qed.
End SchemaFacts.
