(* ===== verification/Judge.v ===== *)
(** * The trusted judge ([packages/judge/src/judge.ts])

    Case selection, the classification of supervisor observations into learner verdicts, and
    the bounded public projection of RUN results. *)

From S2P Require Import Prelude JsText Contracts.
Local Open Scope Z_scope.

(** ** Data *)

Inductive Visibility := PUBLIC | HIDDEN.
#[export] Instance Visibility_eq_dec : EqDecision Visibility. Proof. solve_decision. Defined.

Record JudgeCase := mkJudgeCase {
  jc_id : jsstr; jc_ordinal : Z; jc_visibility : Visibility; jc_input : jsstr;
  jc_files : list (jsstr * jsstr); jc_expectedOutput : jsstr
}.
Record JudgePlan := mkJudgePlan {
  jp_versionId : jsstr; jp_comparator : string; jp_timeMs : Z; jp_memoryKiB : Z;
  jp_cases : list JudgeCase
}.

Inductive ResourceFailure := F_TIME_LIMIT | F_MEMORY_LIMIT | F_OUTPUT_LIMIT.
Definition failure_verdict (f : ResourceFailure) : Verdict :=
  match f with
  | F_TIME_LIMIT => TIME_LIMIT_EXCEEDED
  | F_MEMORY_LIMIT => MEMORY_LIMIT_EXCEEDED
  | F_OUTPUT_LIMIT => OUTPUT_LIMIT_EXCEEDED
  end.

Record ObservedCase := mkObservedCase {
  oc_caseId : jsstr; oc_stdout : jsstr; oc_stderr : jsstr; oc_exitCode : option Z;
  oc_failure : option ResourceFailure; oc_wallMs : Z; oc_cpuMs : option Z; oc_memoryKiB : option Z
}.
Record Compilation := mkCompilation { co_ok : bool; co_stdout : jsstr; co_stderr : jsstr }.
Record JudgeObservation := mkObservation {
  ob_cancellationConfirmed : bool; ob_compilation : option Compilation;
  ob_cases : list ObservedCase
}.

Record PublicCaseResult := mkCaseResult {
  pr_caseId : jsstr; pr_verdict : Verdict; pr_outputTruncated : option bool;
  pr_stdout : option jsstr; pr_stderr : option jsstr; pr_exitCode : option Z;
  pr_runtimeMs : option Z; pr_memoryKiB : option Z
}.
Record JudgedResult := mkJudged {
  jr_verdict : Verdict; jr_runtimeMs : option Z; jr_memoryKiB : option Z;
  jr_publicCaseResults : option (list PublicCaseResult)
}.

Definition JudgeProtocolError : error := JsError "INVALID_JUDGE_PROTOCOL".

(** ** Case selection *)

Definition ordinal_le (a b : JudgeCase) : Prop := jc_ordinal a ≤ jc_ordinal b.
#[export] Instance ordinal_le_dec : RelDecision ordinal_le.
Proof. intros a b. unfold ordinal_le. apply _. Defined.

Definition selected (mode : ExecutionMode) (c : JudgeCase) : bool :=
  bool_decide (mode = SUBMIT) || bool_decide (jc_visibility c = PUBLIC).

Section Judge.
Context `{Zod} (stripVT : jsstr → jsstr).

Definition plan_invalid (plan : JudgePlan) : bool :=
  negb (String.eqb (jp_comparator plan) "EXACT_NEWLINE")
  || (length (jp_cases plan) =? 0)%nat || (100 <? length (jp_cases plan))%nat
  || negb (bool_decide (NoDup (jc_id <$> jp_cases plan)))
  || negb (bool_decide (NoDup (jc_ordinal <$> jp_cases plan)))
  || existsb (λ c, negb (z_uuid (jc_id c)) || (jc_ordinal c <? 0)) (jp_cases plan).

Definition selectCases (plan : JudgePlan) (mode : ExecutionMode) : result (list JudgeCase) :=
  if plan_invalid plan then Err JudgeProtocolError else
  let cases := merge_sort ordinal_le (filter (λ c, selected mode c = true) (jp_cases plan)) in
  if (length cases =? 0)%nat then Err JudgeProtocolError else Ok cases.

(** ** Observation schema *)

Definition opt_check {A} (p : A → bool) (o : option A) : bool :=
  match o with None => true | Some a => p a end.
Definition nonneg_int (n : Z) : bool := safe_int n && (0 <=? n).

Definition observedCase_ok (o : ObservedCase) : bool :=
  z_uuid (oc_caseId o)
  && opt_check (λ n, (0 <=? n) && (n <=? 255)) (oc_exitCode o)
  && (0 <=? oc_wallMs o)
  && opt_check nonneg_int (oc_cpuMs o) && opt_check nonneg_int (oc_memoryKiB o)
  && Bool.eqb (bool_decide (is_Some (oc_cpuMs o))) (bool_decide (is_Some (oc_memoryKiB o))).

Definition observation_ok (ob : JudgeObservation) : bool :=
  forallb observedCase_ok (ob_cases ob) && (length (ob_cases ob) <=? 100)%nat.

Definition outputBytes (ob : JudgeObservation) : Z :=
  sumZ ((λ c, byteLength (oc_stdout c) + byteLength (oc_stderr c)) <$> ob_cases ob)
  + match ob_compilation ob with
    | Some c => byteLength (co_stdout c) + byteLength (co_stderr c)
    | None => 0
    end.

(** ** Judging *)

(** The verdict of one observed case against its test. *)
Definition case_verdict (o : ObservedCase) (test : JudgeCase) : Verdict :=
  match oc_failure o with
  | Some f => failure_verdict f
  | None =>
      if negb (bool_decide (oc_exitCode o = Some 0)) then RUNTIME_ERROR
      else if compareOutput (oc_stdout o) (jc_expectedOutput test) then ACCEPTED
      else WRONG_ANSWER
  end.

Record JudgeState := mkJudgeState {
  js_verdict : Verdict; js_budget : Z; js_results : list PublicCaseResult
}.

Definition public_result (o : ObservedCase) (test : JudgeCase) (budget : Z) : PublicCaseResult * Z :=
  let out := display stripVT (oc_stdout o) (Z.min 4096 budget) in
  let budget1 := budget - byteLength out in
  let err := display stripVT (oc_stderr o) (Z.min 4096 budget1) in
  let budget2 := budget1 - byteLength err in
  let outputTruncated :=
    (byteLength out <? byteLength (sanitized stripVT (oc_stdout o)))
    || (byteLength err <? byteLength (sanitized stripVT (oc_stderr o))) in
  (mkCaseResult (jc_id test) (case_verdict o test)
     (if outputTruncated then Some true else None) (Some out) (Some err) (oc_exitCode o)
     (oc_cpuMs o) (match oc_cpuMs o with Some _ => oc_memoryKiB o | None => None end),
   budget2).

(** One iteration of [observed.cases.forEach]: [last] says whether it is the last one. *)
Definition judge_step (mode : ExecutionMode) (last : bool) (o : ObservedCase)
    (test : JudgeCase) (s : JudgeState) : result JudgeState :=
  if negb (bool_decide (oc_caseId o = jc_id test))
     || (negb (bool_decide (is_Some (oc_failure o))) && bool_decide (oc_exitCode o = None))
     || (bool_decide (is_Some (oc_failure o)) && negb last)
  then Err JudgeProtocolError else
  let current := case_verdict o test in
  let verdict := if bool_decide (js_verdict s = ACCEPTED) && negb (bool_decide (current = ACCEPTED))
                 then current else js_verdict s in
  match mode with
  | RUN =>
      let '(r, budget) := public_result o test (js_budget s) in
      Ok (mkJudgeState verdict budget (js_results s ++ [r]))
  | SUBMIT => Ok (mkJudgeState verdict (js_budget s) (js_results s))
  end.

Fixpoint judge_loop (mode : ExecutionMode) (os : list ObservedCase) (tests : list JudgeCase)
    (s : JudgeState) : result JudgeState :=
  match os, tests with
  | [], _ => Ok s
  | o :: os', test :: tests' =>
      match judge_step mode (length os' =? 0)%nat o test s with
      | Ok s' => judge_loop mode os' tests' s'
      | Err e => Err e
      end
  | _ :: _, [] => Err (JsError "TypeError")
  end.

Definition measured (os : list ObservedCase) : bool :=
  forallb (λ c, bool_decide (is_Some (oc_cpuMs c)) && bool_decide (is_Some (oc_memoryKiB c))) os.
Definition maxZ (l : list Z) : Z := foldr Z.max 0 l.

Definition judge (plan : JudgePlan) (mode : ExecutionMode) (language : Language)
    (observed : JudgeObservation) : result JudgedResult :=
  match selectCases plan mode with
  | Err e => Err e
  | Ok cases =>
      if negb (observation_ok observed) then Err JudgeProtocolError else
      if 1024 * 1024 <? outputBytes observed then Err JudgeProtocolError else
      if ob_cancellationConfirmed observed then Err (JsError "SANDBOX_CANCELLED") else
      if negb (Bool.eqb (bool_decide (language = java)) (bool_decide (is_Some (ob_compilation observed))))
      then Err JudgeProtocolError else
      if match ob_compilation observed with Some c => negb (co_ok c) | None => false end then
        if negb (length (ob_cases observed) =? 0)%nat then Err JudgeProtocolError
        else Ok (mkJudged COMPILATION_ERROR None None None)
      else
      match last (ob_cases observed) with
      | None => Err JudgeProtocolError
      | Some lastCase =>
          if (length cases <? length (ob_cases observed))%nat then Err JudgeProtocolError else
          if negb (length (ob_cases observed) =? length cases)%nat
             && negb (bool_decide (is_Some (oc_failure lastCase)))
          then Err JudgeProtocolError else
          match judge_loop mode (ob_cases observed) cases (mkJudgeState ACCEPTED (24 * 1024) []) with
          | Err e => Err e
          | Ok s =>
              let m := measured (ob_cases observed) in
              Ok (mkJudged (js_verdict s)
                    (if m then Some (maxZ (omap oc_cpuMs (ob_cases observed))) else None)
                    (if m then Some (maxZ (omap oc_memoryKiB (ob_cases observed))) else None)
                    (match mode with RUN => Some (js_results s) | SUBMIT => None end))
          end
      end
  end.
End Judge.

(** ** Reference notions *)

(** The verdict of a suite: the first case, in order, that is not accepted. *)
Fixpoint first_failure (vs : list Verdict) : Verdict :=
  match vs with
  | [] => ACCEPTED
  | v :: vs' => if bool_decide (v = ACCEPTED) then first_failure vs' else v
  end.

Lemma first_failure_accepted vs : first_failure vs = ACCEPTED ↔ Forall (λ v, v = ACCEPTED) vs.
Proof.
  induction vs as [|v vs IH]; [done|]. cbn. case_bool_decide; rewrite Forall_cons; naive_solver.
Qed.

(** A case passes: the observation is of that test, no resource stop, exit status 0, and
    the output the comparator accepts. *)
Definition passes (o : ObservedCase) (test : JudgeCase) : Prop :=
  oc_caseId o = jc_id test ∧ oc_failure o = None ∧ oc_exitCode o = Some 0 ∧
  compareOutput (oc_stdout o) (jc_expectedOutput test) = true.

Lemma case_verdict_accepted o test :
  case_verdict o test = ACCEPTED ↔
  oc_failure o = None ∧ oc_exitCode o = Some 0 ∧
  compareOutput (oc_stdout o) (jc_expectedOutput test) = true.
Proof.
  unfold case_verdict. destruct (oc_failure o) as [[]|]; cbn; try naive_solver.
  case_bool_decide; cbn; [|naive_solver]. case_match; naive_solver.
Qed.

Section JudgeFacts.
Context `{Zod} (stripVT : jsstr → jsstr).

(** *** Selection *)

Lemma selectCases_Ok plan mode cases :
  selectCases plan mode = Ok cases ↔
  plan_invalid plan = false ∧ cases ≠ [] ∧
  cases = merge_sort ordinal_le (filter (λ c, selected mode c = true) (jp_cases plan)).
Proof.
  unfold selectCases. destruct (plan_invalid plan); [naive_solver|].
  destruct (Nat.eqb_spec (length (merge_sort ordinal_le (filter (λ c, selected mode c = true) (jp_cases plan)))) 0) as [E|E].
  - apply nil_length_inv in E. rewrite E. naive_solver.
  - split; [intros [= <-]; split_and!; try done|naive_solver].
    intros E'. by rewrite E' in E.
Qed.

Lemma plan_valid plan :
  plan_invalid plan = false →
  NoDup (jc_id <$> jp_cases plan) ∧ NoDup (jc_ordinal <$> jp_cases plan) ∧
  (length (jp_cases plan) ≤ 100)%nat.
Proof.
  unfold plan_invalid. rewrite !orb_false_iff, !negb_false_iff, !bool_decide_eq_true, Nat.ltb_ge.
  naive_solver.
Qed.

Lemma ordinal_le_total : Total ordinal_le.
Proof. intros a b. unfold ordinal_le. lia. Qed.
Lemma ordinal_le_trans : Transitive ordinal_le.
Proof. intros a b c. unfold ordinal_le. lia. Qed.

Lemma selectCases_perm plan mode cases :
  selectCases plan mode = Ok cases →
  cases ≡ₚ filter (λ c, selected mode c = true) (jp_cases plan) ∧ StronglySorted ordinal_le cases.
Proof.
  intros (_ & _ & ->)%selectCases_Ok. split; [apply merge_sort_Permutation|].
  apply StronglySorted_merge_sort; [apply ordinal_le_trans|apply ordinal_le_total].
Qed.

Lemma selectCases_elem plan mode cases c :
  selectCases plan mode = Ok cases → c ∈ cases →
  c ∈ jp_cases plan ∧ (mode = RUN → jc_visibility c = PUBLIC).
Proof.
  intros [Hp _]%selectCases_perm Hc. rewrite Hp, list_elem_of_filter in Hc.
  destruct Hc as [Hs Hc]. split; [done|]. intros ->. unfold selected in Hs.
  cbn in Hs. by apply bool_decide_eq_true in Hs.
Qed.

(** *** The judging loop *)

Lemma judge_step_Ok mode last o test s s' :
  judge_step stripVT mode last o test s = Ok s' →
  oc_caseId o = jc_id test ∧ (is_Some (oc_failure o) → last = true) ∧
  (oc_failure o = None → is_Some (oc_exitCode o)) ∧
  js_verdict s' = (if bool_decide (js_verdict s = ACCEPTED) then case_verdict o test else js_verdict s) ∧
  (js_results s', js_budget s') =
    match mode with
    | RUN => (js_results s ++ [(public_result stripVT o test (js_budget s)).1],
              (public_result stripVT o test (js_budget s)).2)
    | SUBMIT => (js_results s, js_budget s)
    end.
Proof.
  unfold judge_step.
  destruct (_ || _) eqn:E; [done|].
  rewrite !orb_false_iff, !andb_false_iff, !negb_false_iff in E.
  rewrite !bool_decide_eq_true, !bool_decide_eq_false in E.
  destruct E as [[Hid Hexit] Hlast]. intros Hr. split; [done|].
  split; [naive_solver|]. split.
  { intros Hf. destruct (oc_exitCode o); [eauto|]. rewrite Hf in Hexit. destruct Hexit as [[? [=]]|]; done. }
  destruct mode.
  - destruct (public_result stripVT o test (js_budget s)) as [r b] eqn:Er. simplify_eq/=.
    split; [|done]. do 2 case_bool_decide; cbn; congruence.
  - simplify_eq/=. split; [|done]. do 2 case_bool_decide; cbn; congruence.
Qed.

Lemma judge_loop_Ok mode os tests s s' :
  judge_loop stripVT mode os tests s = Ok s' →
  Forall2 (λ o t, oc_caseId o = jc_id t) os (take (length os) tests) ∧
  js_verdict s' = (if bool_decide (js_verdict s = ACCEPTED)
                   then first_failure (zip_with case_verdict os tests) else js_verdict s).
Proof.
  revert tests s. induction os as [|o os IH]; intros tests s; cbn.
  - intros [= <-]. split; [constructor|]. case_bool_decide; done.
  - destruct tests as [|test tests]; [done|].
    destruct (judge_step _ _ _ _ _ _) as [s1|] eqn:E1; [|done].
    intros [Hf Hv]%IH. apply judge_step_Ok in E1 as (Hid & _ & _ & Hv1 & _).
    split; [cbn; by constructor|]. rewrite Hv. cbn.
    destruct (bool_decide_reflect (js_verdict s = ACCEPTED)) as [Hs|Hs].
    + rewrite <- Hv1. case_bool_decide; done.
    + by rewrite Hv1, bool_decide_eq_false_2.
Qed.

(** A suite whose every case passes goes through the loop. *)
Lemma judge_loop_passes mode os tests s :
  Forall2 passes os tests → js_verdict s = ACCEPTED →
  ∃ s', judge_loop stripVT mode os tests s = Ok s' ∧ js_verdict s' = ACCEPTED.
Proof.
  intros HF. revert s. induction HF as [|o t os tests Hp HF IH]; intros s Hs; cbn; [eauto|].
  destruct Hp as (Hid & Hf & Hx & Hc).
  assert (case_verdict o t = ACCEPTED) as Hv by (apply case_verdict_accepted; done).
  unfold judge_step. rewrite Hid, Hf, Hx, Hv, Hs. rewrite bool_decide_eq_true_2 by done.
  rewrite (bool_decide_eq_false_2 (is_Some None)) by (by intros [? [=]]).
  cbn. destruct mode; by apply IH.
Qed.

(** *** Verdicts *)

(** The observation passes the judge's protocol checks for a suite that ran. *)
Definition observation_usable (language : Language) (ob : JudgeObservation) : Prop :=
  observation_ok ob = true ∧ outputBytes ob ≤ 1024 * 1024 ∧
  ob_cancellationConfirmed ob = false ∧ (language = java ↔ is_Some (ob_compilation ob)).

Lemma usable_checks language ob :
  observation_usable language ob ↔
  negb (observation_ok ob) = false ∧ (1024 * 1024 <? outputBytes ob) = false ∧
  ob_cancellationConfirmed ob = false ∧
  negb (Bool.eqb (bool_decide (language = java)) (bool_decide (is_Some (ob_compilation ob)))) = false.
Proof.
  unfold observation_usable. rewrite !negb_false_iff, Z.ltb_ge, Bool.eqb_true_iff.
  do 2 case_bool_decide; naive_solver.
Qed.

(** Every successful judgement is of one of two kinds: a failed compilation without cases, or
    a run of a prefix of the selected suite through the loop. *)
Lemma judge_Ok plan mode language ob r :
  judge stripVT plan mode language ob = Ok r →
  observation_usable language ob ∧ ∃ cases, selectCases plan mode = Ok cases ∧
  ((∃ c, ob_compilation ob = Some c ∧ co_ok c = false ∧ ob_cases ob = [] ∧
         r = mkJudged COMPILATION_ERROR None None None) ∨
   ((∀ c, ob_compilation ob = Some c → co_ok c = true) ∧
    ∃ s lastCase, last (ob_cases ob) = Some lastCase ∧
      (length (ob_cases ob) ≤ length cases)%nat ∧
      (length (ob_cases ob) = length cases ∨ is_Some (oc_failure lastCase)) ∧
      judge_loop stripVT mode (ob_cases ob) cases (mkJudgeState ACCEPTED (24 * 1024) []) = Ok s ∧
      jr_verdict r = js_verdict s ∧
      jr_publicCaseResults r = match mode with RUN => Some (js_results s) | SUBMIT => None end)).
Proof.
  unfold judge. destruct (selectCases plan mode) as [cases|]; [|done].
  destruct (negb (observation_ok ob)) eqn:E1; [done|].
  destruct (1024 * 1024 <? outputBytes ob) eqn:E2; [done|].
  destruct (ob_cancellationConfirmed ob) eqn:E3; [done|].
  destruct (negb (Bool.eqb _ _)) eqn:E4; [done|]. intros Hr.
  split; [by apply usable_checks|]. exists cases. split; [done|].
  destruct (match ob_compilation ob with Some c => negb (co_ok c) | None => false end) eqn:E5.
  { left. destruct (ob_compilation ob) as [c|]; [|done]. exists c.
    destruct (ob_cases ob); [|done]. cbn in Hr. simplify_eq. by destruct (co_ok c). }
  right. split. { intros c Hc. rewrite Hc in E5. by destruct (co_ok c). }
  destruct (last (ob_cases ob)) as [lc|] eqn:El; [|done].
  destruct (Nat.ltb_spec (length cases) (length (ob_cases ob))); [done|].
  destruct (_ && _) eqn:E6; [done|].
  destruct (judge_loop _ _ _ _ _) as [s|] eqn:E7; [|done]. simplify_eq.
  exists s, lc. split_and!; try done.
  rewrite andb_false_iff, !negb_false_iff, Nat.eqb_eq, bool_decide_eq_true in E6. done.
Qed.

Lemma Forall2_passes os tests :
  length os = length tests →
  Forall2 (λ o t, oc_caseId o = jc_id t) os tests →
  first_failure (zip_with case_verdict os tests) = ACCEPTED → Forall2 passes os tests.
Proof.
  intros _ HF. induction HF as [|o t os tests Hid HF IH]; [constructor|]. cbn.
  case_bool_decide as Hv; [|congruence]. intros Hff. constructor; [|by apply IH].
  split; [done|]. by apply case_verdict_accepted.
Qed.

(** A resource stop on the last case is not an accepted verdict. *)
Lemma stopped_not_accepted os tests lc :
  last os = Some lc → (length os ≤ length tests)%nat → is_Some (oc_failure lc) →
  first_failure (zip_with case_verdict os tests) ≠ ACCEPTED.
Proof.
  revert tests. induction os as [|o os IH]; intros tests Hl Hle Hf; [done|].
  destruct tests as [|t tests]; cbn in Hle; [lia|]. cbn.
  case_bool_decide as Hv; [|done].
  destruct os as [|o' os].
  - cbn in Hl. simplify_eq. apply case_verdict_accepted in Hv as [Hn _].
    rewrite Hn in Hf. by destruct Hf.
  - apply IH; [done|cbn in *; lia|done].
Qed.

(** C4: a submission is ACCEPTED exactly when the observation is usable (schema, total output
    bytes, no cancellation, compilation evidence for Java only), any compilation succeeded,
    and every selected case, in ordinal order and with none missing or extra, was observed
    without a resource stop, exited with status 0 and produced an output the comparator
    accepts. *)
Theorem judge_accepts_exactly plan mode language ob :
  (∃ r, judge stripVT plan mode language ob = Ok r ∧ jr_verdict r = ACCEPTED) ↔
  observation_usable language ob ∧
  (∀ c, ob_compilation ob = Some c → co_ok c = true) ∧
  ∃ cases, selectCases plan mode = Ok cases ∧ Forall2 passes (ob_cases ob) cases.
Proof.
  split.
  - intros (r & (Hu & cases & Hsel & [(c & _ & _ & _ & ->)|(Hc & s & lc & Hl & Hle & Hlen & Hloop & Hv & _)])%judge_Ok & Hacc);
      [done|].
    split_and!; [done..|]. exists cases. split; [done|].
    apply judge_loop_Ok in Hloop as [HF Hs]. rewrite bool_decide_eq_true_2 in Hs by done.
    assert (first_failure (zip_with case_verdict (ob_cases ob) cases) = ACCEPTED) as Hff by congruence.
    destruct Hlen as [Hlen|Hf]; [|by destruct (stopped_not_accepted _ _ _ Hl Hle Hf)].
    rewrite Hlen, firstn_all in HF. by apply Forall2_passes.
  - intros ((H1 & H2 & H3 & H4)%usable_checks & Hc & cases & Hsel & HF).
    destruct (judge_loop_passes mode _ _ (mkJudgeState ACCEPTED (24 * 1024) []) HF) as (s & Hloop & Hs);
      [done|].
    pose proof (Forall2_length _ _ _ HF) as Hlen.
    unfold judge. rewrite Hsel, H1, H2, H3, H4.
    assert (match ob_compilation ob with Some c => negb (co_ok c) | None => false end = false) as ->.
    { destruct (ob_compilation ob) as [c|]; [|done]. by rewrite (Hc c). }
    apply selectCases_Ok in Hsel as (_ & Hne & _).
    destruct (last (ob_cases ob)) as [lc|] eqn:El.
    + rewrite Hlen, Nat.ltb_irrefl, Nat.eqb_refl, Hloop. cbn. eauto.
    + apply last_None in El. rewrite El in HF. apply Forall2_nil_inv_l in HF. by destruct Hne.
Qed.

(** When the program compiled, the verdict is that of the first case, in ordinal order,
    that is not accepted. *)
Lemma judge_verdict_first plan mode language ob r :
  judge stripVT plan mode language ob = Ok r → jr_verdict r ≠ COMPILATION_ERROR →
  ∃ cases, selectCases plan mode = Ok cases ∧
    jr_verdict r = first_failure (zip_with case_verdict (ob_cases ob) cases).
Proof.
  intros (_ & cases & Hsel & [(c & _ & _ & _ & ->)|(_ & s & lc & _ & _ & _ & [_ Hs]%judge_loop_Ok & Hv & _)])%judge_Ok Hne;
    [done|].
  exists cases. split; [done|]. by rewrite Hv, Hs.
Qed.

(** *** The public projection *)

Definition opt_bytes (o : option jsstr) : Z := match o with Some s => byteLength s | None => 0 end.
Definition result_bytes (r : PublicCaseResult) : Z :=
  opt_bytes (pr_stdout r) + opt_bytes (pr_stderr r).

(** A displayed stream: at most four KiB, and free of control and bidirectional characters. *)
Definition stream_ok (o : option jsstr) : Prop :=
  ∀ s, o = Some s → byteLength s ≤ 4096 ∧ ∀ u, u ∈ s → unsafe_unit u = false.
Definition projection_ok (r : PublicCaseResult) : Prop :=
  stream_ok (pr_stdout r) ∧ stream_ok (pr_stderr r).

Lemma display_ok text budget :
  0 ≤ budget → byteLength (display stripVT text (Z.min 4096 budget)) ≤ budget ∧
  stream_ok (Some (display stripVT text (Z.min 4096 budget))).
Proof.
  intros Hb. destruct (display_spec stripVT text (Z.min 4096 budget)) as (k & _ & Hle & _); [lia|].
  split; [lia|]. intros s [= <-]. split; [lia|]. intros u. apply display_units.
Qed.

Lemma public_result_ok o test budget r b :
  0 ≤ budget → public_result stripVT o test budget = (r, b) →
  0 ≤ b ∧ result_bytes r + b = budget ∧ projection_ok r ∧
  pr_caseId r = jc_id test ∧ pr_verdict r = case_verdict o test.
Proof.
  intros Hb. unfold public_result. intros [= <- <-].
  destruct (display_ok (oc_stdout o) budget Hb) as [H1 H2].
  set (b1 := budget - _) in *. assert (0 ≤ b1) as Hb1 by lia.
  destruct (display_ok (oc_stderr o) b1 Hb1) as [H3 H4].
  unfold result_bytes, projection_ok. cbn. split_and!; try done; lia.
Qed.

Lemma judge_loop_results os tests s s' :
  judge_loop stripVT RUN os tests s = Ok s' → 0 ≤ js_budget s →
  ∃ l, js_results s' = js_results s ++ l ∧ 0 ≤ js_budget s' ∧
    sumZ (result_bytes <$> l) + js_budget s' = js_budget s ∧
    Forall projection_ok l ∧ pr_caseId <$> l = jc_id <$> take (length os) tests ∧
    pr_verdict <$> l = zip_with case_verdict os tests.
Proof.
  revert tests s. induction os as [|o os IH]; intros tests s; cbn.
  - intros [= <-] Hb. exists []. rewrite app_nil_r. split_and!; try done.
  - destruct tests as [|test tests]; [done|].
    destruct (judge_step _ _ _ _ _ _) as [s1|] eqn:E1; [|done]. intros Hloop Hb.
    apply judge_step_Ok in E1 as (_ & _ & _ & _ & Hrb).
    destruct (public_result stripVT o test (js_budget s)) as [r b] eqn:Er. cbn in Hrb.
    injection Hrb as Hres Hbud.
    apply public_result_ok in Er as (Hb' & Hsum & Hok & Hid & Hv); [|done].
    destruct (IH _ _ Hloop) as (l & Hl & Hbl & Hsl & Hfl & Hidl & Hvl); [by rewrite Hbud|].
    exists (r :: l). rewrite Hl, Hres, <- app_assoc. split_and!; try done.
    + cbn. fold (sumZ (result_bytes <$> l)). lia.
    + by constructor.
    + cbn. congruence.
    + cbn. congruence.
Qed.

(** A SUBMIT judgement carries no case result at all, and a RUN judgement carries exactly
    the results of the observed prefix of the public cases, in ordinal order, each with its
    own verdict: no identifier, verdict or output of a hidden case is ever projected. *)
Lemma judge_public_projection plan mode language ob r :
  judge stripVT plan mode language ob = Ok r →
  match mode, jr_publicCaseResults r with
  | SUBMIT, o => o = None
  | RUN, None => jr_verdict r = COMPILATION_ERROR
  | RUN, Some l =>
      ∃ cases, selectCases plan RUN = Ok cases ∧ Forall (λ c, jc_visibility c = PUBLIC) cases ∧
        pr_caseId <$> l = jc_id <$> take (length (ob_cases ob)) cases ∧
        pr_verdict <$> l = zip_with case_verdict (ob_cases ob) cases
  end.
Proof.
  intros (_ & cases & Hsel & [(c & _ & _ & _ & ->)|(_ & s & lc & _ & _ & _ & Hloop & _ & Hr)])%judge_Ok;
    [by destruct mode|].
  rewrite Hr. destruct mode; [|done].
  apply judge_loop_results in Hloop as (l & Hl & _ & _ & _ & Hid & Hv); [|cbn; lia].
  cbn in Hl. rewrite Hl. exists cases. split_and!; [done| |done..].
  apply Forall_forall. intros c Hc. by eapply selectCases_elem.
Qed.

(** The public text of a RUN judgement is bounded: at most 24 KiB over all cases and both
    streams, at most 4 KiB per stream, and without terminal control, C0/C1 or bidirectional
    override characters. *)
Lemma judge_output_bounded plan language ob r l :
  judge stripVT plan RUN language ob = Ok r → jr_publicCaseResults r = Some l →
  sumZ (result_bytes <$> l) ≤ 24 * 1024 ∧ Forall projection_ok l.
Proof.
  intros (_ & cases & Hsel & [(c & _ & _ & _ & ->)|(_ & s & lc & _ & _ & _ & Hloop & _ & Hr)])%judge_Ok Hl;
    [done|].
  apply judge_loop_results in Hloop as (l' & Hl' & Hb & Hs & Hok & _); [|cbn; lia].
  rewrite Hl in Hr. cbn in *. simplify_eq. split; [lia|done].
Qed.

(** The selected suite does not depend on the order in which the plan lists its cases. *)
Lemma selectCases_permutation plan plan' mode cases :
  jp_comparator plan' = jp_comparator plan → jp_cases plan' ≡ₚ jp_cases plan →
  selectCases plan mode = Ok cases → selectCases plan' mode = Ok cases.
Proof.
  intros Hc Hp Hsel. pose proof (selectCases_perm _ _ _ Hsel) as [Hperm Hsort].
  apply selectCases_Ok in Hsel as (Hval & Hne & _).
  assert (plan_invalid plan' = false) as Hval'.
  { revert Hval. unfold plan_invalid.
    rewrite !orb_false_iff, !negb_false_iff, !bool_decide_eq_true, Hc, !(Permutation_length Hp).
    rewrite <- !not_true_iff_false, !existsb_exists. setoid_rewrite <- list_elem_of_In.
    by setoid_rewrite Hp. }
  apply selectCases_Ok. split_and!; [done..|].
  apply (StronglySorted_unique_strong ordinal_le); [|done| |].
  - intros a b Ha Hb Hab Hba. rewrite Hperm in Ha. rewrite merge_sort_Permutation, Hp in Hb.
    apply list_elem_of_filter in Ha as [_ Ha], Hb as [_ Hb].
    destruct (plan_valid _ Hval) as (_ & Hnd & _).
    apply list_elem_of_lookup in Ha as [i Hi], Hb as [j Hj].
    assert (i = j) as ->; [|congruence].
    eapply NoDup_lookup; [exact Hnd|by rewrite list_lookup_fmap, Hi|].
    rewrite list_lookup_fmap, Hj. cbn. f_equal. unfold ordinal_le in *. lia.
  - apply StronglySorted_merge_sort; [apply ordinal_le_trans|apply ordinal_le_total].
  - by rewrite merge_sort_Permutation, Hp.
Qed.
End JudgeFacts.
