(* ===== verification/Io.v ===== *)
(** * Asynchronous code as a state monad

    Code outside a database transaction (the supervisor, the judging backend, the worker, the
    outbox dispatcher) acts on a world [S]: what it did before an exception stays done.  A
    computation therefore returns the world with its result, in both cases. *)

From S2P Require Import Prelude.

Definition io (S A : Type) : Type := S → result A * S.

#[export] Instance io_ret {S} : MRet (io S) := λ A a s, (Ok a, s).
#[export] Instance io_bind {S} : MBind (io S) := λ A B f m s,
  match m s with
  | (Ok a, s') => f a s'
  | (Err e, s') => (Err e, s')
  end.

Definition raise {S A} (e : error) : io S A := λ s, (Err e, s).
Definition ask {S A} (f : S → A) : io S A := λ s, (Ok (f s), s).
Definition update {S} (f : S → S) : io S unit := λ s, (Ok tt, f s).
Definition of_result {S A} (r : result A) : io S A := λ s, (r, s).
Definition raise_when {S} (b : bool) (e : error) : io S unit := if b then raise e else mret tt.

(** [try { m } catch (e) { h(e) }]. *)
Definition catch {S A} (m : io S A) (h : error → io S A) : io S A := λ s,
  match m s with
  | (Ok a, s') => (Ok a, s')
  | (Err e, s') => h e s'
  end.

(** [try { m } finally { f }]: an exception of [f] replaces the outcome of [m]. *)
Definition finally {S A} (m : io S A) (f : io S unit) : io S A := λ s,
  let '(r, s1) := m s in
  match f s1 with
  | (Ok _, s2) => (r, s2)
  | (Err e, s2) => (Err e, s2)
  end.

(** A database transaction run from such code, as [transaction] gives it, is an [io]. *)
Definition atomically {S A} (m : tx S A) : io S A := transaction m.

Fixpoint io_each {S A} (f : A → io S unit) (l : list A) : io S unit :=
  match l with
  | [] => mret tt
  | a :: l' => _ ← f a; io_each f l'
  end.

(** ** Rules for taking runs apart *)

Lemma io_bind_inv {S A B} (m : io S A) (f : A → io S B) s r s' :
  (m ≫= f) s = (r, s') →
  (∃ e, m s = (Err e, s') ∧ r = Err e) ∨ (∃ a s1, m s = (Ok a, s1) ∧ f a s1 = (r, s')).
Proof. unfold mbind, io_bind. destruct (m s) as [[a|e] s1]; [eauto|]. intros [= <- <-]. eauto. Qed.

Lemma io_bind_Ok {S A B} (m : io S A) (f : A → io S B) s b s' :
  (m ≫= f) s = (Ok b, s') ↔ ∃ a s1, m s = (Ok a, s1) ∧ f a s1 = (Ok b, s').
Proof.
  unfold mbind, io_bind. split.
  - destruct (m s) as [[a|e] s1]; [eauto|done].
  - by intros (a & s1 & -> & ?).
Qed.

Lemma io_bind_run {S A B} (m : io S A) (f : A → io S B) s a s1 :
  m s = (Ok a, s1) → (m ≫= f) s = f a s1.
Proof. unfold mbind, io_bind. by intros ->. Qed.

Lemma io_bind_raise {S A B} (m : io S A) (f : A → io S B) s e s1 :
  m s = (Err e, s1) → (m ≫= f) s = (Err e, s1).
Proof. unfold mbind, io_bind. by intros ->. Qed.

Lemma catch_Ok {S A} (m : io S A) h s a s' :
  catch m h s = (Ok a, s') →
  m s = (Ok a, s') ∨ ∃ e s1, m s = (Err e, s1) ∧ h e s1 = (Ok a, s').
Proof. unfold catch. destruct (m s) as [[b|e] s1]; [by left|]. intros Hh. right. eauto. Qed.

Lemma finally_Ok {S A} (m : io S A) f s a s' :
  finally m f s = (Ok a, s') → ∃ s1, m s = (Ok a, s1).
Proof. unfold finally. destruct (m s) as [r s1]. destruct (f s1) as [[]]; [|done]. intros [= -> _]. eauto. Qed.

Lemma raise_when_inv {S} b e (s : S) r s' :
  raise_when b e s = (r, s') → s' = s ∧ ((b = true ∧ r = Err e) ∨ (b = false ∧ r = Ok tt)).
Proof. unfold raise_when, raise. destruct b; intros [= <- <-]; auto. Qed.

(** ** Relational invariants

    [R] is a preorder on worlds that every step of a computation respects. *)
Section Respects.
Context {S : Type} (R : relation S) `{!PreOrder R}.

Definition respects {A} (m : io S A) : Prop := ∀ s, R s (m s).2.

Lemma respects_ret {A} (a : A) : respects (mret a).
Proof. intros s. cbn. reflexivity. Qed.
Lemma respects_raise {A} e : respects (raise (A := A) e).
Proof. intros s. cbn. reflexivity. Qed.
Lemma respects_ask {A} (f : S → A) : respects (ask f).
Proof. intros s. cbn. reflexivity. Qed.
Lemma respects_of_result {A} (r : result A) : respects (of_result r).
Proof. intros s. cbn. reflexivity. Qed.
Lemma respects_raise_when b e : respects (raise_when b e).
Proof. intros s. by destruct b. Qed.

Lemma respects_bind {A B} (m : io S A) (f : A → io S B) :
  respects m → (∀ a, respects (f a)) → respects (m ≫= f).
Proof.
  intros Hm Hf s. unfold mbind, io_bind. specialize (Hm s).
  destruct (m s) as [[a|e] s1]; cbn in *; [etrans; [exact Hm|apply Hf]|done].
Qed.

Lemma respects_bind_result {A B} (r : result A) (f : A → io S B) :
  (∀ a, r = Ok a → respects (f a)) → respects (of_result r ≫= f).
Proof.
  intros Hf s. unfold mbind, io_bind, of_result. destruct r as [a|e]; cbn; [by apply Hf|reflexivity].
Qed.

Lemma respects_catch {A} (m : io S A) h :
  respects m → (∀ e, respects (h e)) → respects (catch m h).
Proof.
  intros Hm Hh s. unfold catch. specialize (Hm s).
  destruct (m s) as [[a|e] s1]; cbn in *; [done|etrans; [exact Hm|apply Hh]].
Qed.

Lemma respects_finally {A} (m : io S A) f : respects m → respects f → respects (finally m f).
Proof.
  intros Hm Hf s. unfold finally. specialize (Hm s).
  destruct (m s) as [r s1]; cbn in *. specialize (Hf s1).
  destruct (f s1) as [[[]|e] s2]; cbn in *; by etrans.
Qed.

Lemma respects_each {A} (f : A → io S unit) l : (∀ a, respects (f a)) → respects (io_each f l).
Proof.
  intros Hf. induction l as [|a l IH]; cbn; [apply respects_ret|].
  apply respects_bind; [apply Hf|done].
Qed.
End Respects.

(** Walks a computation down to its primitive steps. *)
Ltac go_io :=
  repeat first
    [ solve [auto with io]
    | apply respects_bind; [apply _| |intros ?]
    | apply respects_catch; [apply _| |intros ?]
    | apply respects_finally; [apply _| |]
    | apply respects_each; [apply _|intros ?]
    | match goal with |- respects _ (match ?x with _ => _ end) => destruct x end
    | match goal with |- respects _ (let _ := _ in _) => cbv zeta end ].

Create HintDb io discriminated.
#[export] Hint Resolve respects_ret respects_raise respects_ask respects_of_result
  respects_raise_when : io.
#[export] Hint Extern 0 (PreOrder _) => apply _ : io.
