(* ===== verification/JsString.v ===== *)
(** * String methods and regular expressions

    The [String.prototype] methods the runner and the administration code call ([startsWith],
    [endsWith], [trim], [split]) and the character classes and anchored shapes of the
    source's regular expressions, on UTF-16 strings. *)

From S2P Require Import Prelude JsText Contracts.
Local Open Scope Z_scope.

(** ** Methods *)

Fixpoint startsWith (p s : jsstr) : bool :=
  match p, s with
  | [], _ => true
  | u :: p', v :: s' => (u =? v) && startsWith p' s'
  | _ :: _, [] => false
  end.

Definition endsWith (p s : jsstr) : bool := startsWith (reverse p) (reverse s).

Lemma startsWith_spec p s : startsWith p s = true ↔ ∃ r, s = p ++ r.
Proof.
  revert s. induction p as [|u p IH]; intros s; cbn; [split; eauto|].
  destruct s as [|v s]; [split; [done|by intros [? [=]]]|].
  rewrite andb_true_iff, Z.eqb_eq, IH. naive_solver.
Qed.

Lemma endsWith_spec p s : endsWith p s = true ↔ ∃ r, s = r ++ p.
Proof.
  unfold endsWith. rewrite startsWith_spec. split.
  - intros [r E]. exists (reverse r). by rewrite <- (reverse_involutive s), E, reverse_app, reverse_involutive.
  - intros [r ->]. rewrite reverse_app. eauto.
Qed.

(** ECMAScript [WhiteSpace] and [LineTerminator], which [trim] removes at both ends. *)
Definition is_space (u : Z) : bool :=
  ((9 <=? u) && (u <=? 13)) || (u =? 32) || (u =? 0xA0) || (u =? 0x1680)
  || ((0x2000 <=? u) && (u <=? 0x200A)) || (u =? 0x2028) || (u =? 0x2029) || (u =? 0x202F)
  || (u =? 0x205F) || (u =? 0x3000) || (u =? 0xFEFF).

Fixpoint trimStart (s : jsstr) : jsstr :=
  match s with
  | [] => []
  | u :: s' => if is_space u then trimStart s' else s
  end.
Definition trim (s : jsstr) : jsstr := reverse (trimStart (reverse (trimStart s))).

Lemma trimStart_suffix s : ∃ p, s = p ++ trimStart s.
Proof.
  induction s as [|u s [p IH]]; cbn; [by exists []|].
  destruct (is_space u); [exists (u :: p); cbn; congruence|by exists []].
Qed.

Lemma trim_infix s : ∃ p q, s = p ++ trim s ++ q.
Proof.
  unfold trim. destruct (trimStart_suffix s) as [p Ep], (trimStart_suffix (reverse (trimStart s))) as [q Eq].
  exists p, (reverse q). rewrite <- reverse_app, <- Eq, reverse_involutive. done.
Qed.

(** [s.split(sep)] for a one-unit separator. *)
Fixpoint split (sep : Z) (s : jsstr) : list jsstr :=
  match s with
  | [] => [[]]
  | u :: s' =>
      if u =? sep then [] :: split sep s'
      else match split sep s' with
           | [] => [[u]]
           | l :: ls => (u :: l) :: ls
           end
  end.

Lemma split_join sep s : intercalate [sep] (split sep s) = s.
Proof.
  induction s as [|u s IH]; [done|]. cbn [split]. destruct (Z.eqb_spec u sep) as [->|Hne].
  - destruct (split sep s) as [|l ls] eqn:E; cbn [intercalate app] in *; [by subst s|].
    by rewrite IH.
  - destruct (split sep s) as [|l ls] eqn:E; cbn [intercalate] in *; [by subst s|].
    destruct ls; cbn in *; by rewrite IH.
Qed.

Lemma intercalate_last sep l b : last l = Some b → ∃ p, intercalate sep l = p ++ b.
Proof.
  induction l as [|x l IH]; [done|]. rewrite last_cons. destruct (last l) as [c|] eqn:E.
  - intros [= <-]. destruct (IH eq_refl) as [p Hp]. destruct l; [done|].
    exists (x ++ sep ++ p). cbn [intercalate] in *. by rewrite Hp, !app_assoc.
  - intros [= <-]. destruct l; [by exists []|]. by apply last_None in E.
Qed.

Lemma split_last sep s b : last (split sep s) = Some b → ∃ p, s = p ++ b.
Proof. intros [p Hp]%(intercalate_last [sep]). exists p. by rewrite <- Hp, split_join. Qed.

(** The elements of a list that are the first with their value: [[...new Set(l)]]. *)
Definition unique (l : list jsstr) : list jsstr := reverse (remove_dups (reverse l)).

(** ** Regular expressions *)

Definition in_units (chars : string) (u : Z) : bool := bool_decide (u ∈ js chars).
Definition is_alnum (u : Z) : bool := is_lower u || is_upper u || is_digit u.
Definition is_hex (u : Z) : bool := is_digit u || ((97 <=? u) && (u <=? 102)).

(** [^[first][rest]*$]. *)
Definition matches (first rest : Z → bool) (s : jsstr) : bool :=
  match s with
  | [] => false
  | u :: s' => first u && forallb rest s'
  end.

(** [toLowerCase] before a match with a class of lower-case ASCII letters, digits and [-]: the
    only units it maps into such a class are those of the class, the upper-case ASCII letters
    and U+212A (Kelvin sign, to [k]); what it does to any other unit stays outside. *)
Definition fold_unit (u : Z) : Z :=
  if is_upper u then u + 32 else if u =? 0x212A then 107 else u.
Definition toLowerCase (s : jsstr) : jsstr := fold_unit <$> s.

(** [s.length] as a number. *)
Definition slen (s : jsstr) : Z := Z.of_nat (length s).
