(* ===== verification/RuntimePolicy.v ===== *)
(** * The runtime policy ([packages/runtime-policy/src/index.ts])

    The operator's manifest, the resource caps, the schema every sandbox request must satisfy,
    the interpreter profiles and the Docker arguments that isolate a container. *)

From S2P Require Import Prelude JsText Contracts JsString.
Local Open Scope Z_scope.

(** ** The manifest *)

Definition is_image_char (u : Z) : bool := is_lower u || is_digit u || in_units "./:_-" u.

(** [/^[a-z0-9][a-z0-9./:_-]*@sha256:[a-f0-9]{64}$/]: the last 72 units are the digest. *)
Definition image_ok (s : jsstr) : bool :=
  let n := (length s - 72)%nat in
  let digest := drop n s in
  (72 <? length s)%nat
  && matches (λ u, is_lower u || is_digit u) is_image_char (take n s)
  && startsWith (js "@sha256:") digest && forallb is_hex (drop 8 digest).

Record RuntimeManifest := mkManifest { m_java : jsstr; m_python : jsstr; m_javascript : jsstr }.
Definition manifest_ok (m : RuntimeManifest) : bool :=
  image_ok (m_java m) && image_ok (m_python m) && image_ok (m_javascript m).
Definition manifest_image (m : RuntimeManifest) (l : Language) : jsstr :=
  match l with java => m_java m | python => m_python m | javascript => m_javascript m end.

(** ** Caps *)

Module CAPS.
Definition sourceBytes : Z := MAX_SOURCE_BYTES.
Definition outputBytes : Z := 256 * 1024.
Definition artifactBytes : Z := 8 * 1024 * 1024.
Definition artifactFiles : nat := 256.
Definition inputBytes : Z := 256 * 1024.
Definition inputFiles : nat := 16.
Definition maxCases : nat := 100.
Definition scratchBytes : Z := 32 * 1024 * 1024.
Definition pids : Z := 64.
Definition compileMs : Z := 15000.
Definition totalMs : Z := 30000.
Definition caseMs : Z := 10000.
Definition compileMemoryMiB : Z := 512.
Definition maxMemoryMiB : Z := 1024.
Definition maxFileBytes : Z := 8 * 1024 * 1024.
End CAPS.

(** ** Sandbox requests *)

(** [/^[A-Za-z0-9][A-Za-z0-9._-]*$/]. *)
Definition is_file_char (u : Z) : bool := is_alnum u || in_units "._-" u.
Definition reserved_names : list jsstr :=
  [js "Solution.java"; js "Solution.class"; js "solution.py"; js "solution.js"].
Definition safe_file_name (name : jsstr) : bool :=
  matches is_alnum is_file_char name && negb (bool_decide (name ∈ reserved_names))
  && negb (endsWith (js ".class") name).
Definition inputFileName_ok (name : jsstr) : bool :=
  (1 <=? length name)%nat && (length name <=? 100)%nat && safe_file_name name.

Record SandboxCase := mkSandboxCase {
  sc_id : jsstr; sc_input : jsstr; sc_files : list (jsstr * jsstr)
}.

(** The requested memory is [plan.memoryKiB / 1024], a JavaScript number: [None] stands for a
    quotient that is not an integer. *)
Record SandboxRequest := mkSandboxRequest {
  sr_executionId : jsstr; sr_attempt : Z; sr_language : Language; sr_sourceCode : jsstr;
  sr_cases : list SandboxCase; sr_timeMs : Z; sr_memoryMiB : option Z
}.

Definition kibToMib (k : Z) : option Z := if k mod 1024 =? 0 then Some (k / 1024) else None.

Definition case_bytes (c : SandboxCase) : Z :=
  byteLength (sc_input c) + sumZ (byteLength ∘ snd <$> sc_files c).
Definition input_budget (cases : list SandboxCase) : Z := sumZ (case_bytes <$> cases).

Section Policy.
Context `{Zod}.

Definition inputFile_ok (f : jsstr * jsstr) : bool :=
  inputFileName_ok f.1 && (byteLength f.2 <=? CAPS.inputBytes).

Definition sandboxCase_ok (c : SandboxCase) : bool :=
  z_uuid (sc_id c) && (byteLength (sc_input c) <=? CAPS.inputBytes)
  && forallb inputFile_ok (sc_files c) && (length (sc_files c) <=? CAPS.inputFiles)%nat
  && bool_decide (NoDup (fst <$> sc_files c)).

Definition sandboxRequest_ok (r : SandboxRequest) : bool :=
  z_uuid (sr_executionId r)
  && safe_int (sr_attempt r) && (0 <? sr_attempt r)
  && (1 <=? length (sr_sourceCode r))%nat && (byteLength (sr_sourceCode r) <=? CAPS.sourceBytes)
  && forallb sandboxCase_ok (sr_cases r)
  && (1 <=? length (sr_cases r))%nat && (length (sr_cases r) <=? CAPS.maxCases)%nat
  && (1 <=? sr_timeMs r) && (sr_timeMs r <=? CAPS.caseMs)
  && match sr_memoryMiB r with
     | Some m => (32 <=? m) && (m <=? CAPS.maxMemoryMiB)
     | None => false
     end
  && bool_decide (NoDup (sc_id <$> sr_cases r))
  && (input_budget (sr_cases r) <=? 1024 * 1024).

(** [sandboxRequestSchema.parse]. *)
Definition sandboxRequest_parse (r : SandboxRequest) : result SandboxRequest :=
  if sandboxRequest_ok r then Ok r else Err ZodError.
End Policy.

(** ** Profiles and container arguments *)

Definition profile_filename (l : Language) : jsstr :=
  js match l with java => "Solution.java" | python => "solution.py" | javascript => "solution.js" end.
Definition profile_command (l : Language) : list jsstr :=
  js <$> match l with
         | java => ["/opt/java/openjdk/bin/java"; "-XX:ActiveProcessorCount=1"; "-XX:+UseSerialGC";
                    "-Xmx128m"; "-XX:MaxMetaspaceSize=96m"; "-XX:ReservedCodeCacheSize=32m"; "-cp";
                    "/work"; "Solution"]
         | python => ["/usr/local/bin/python3"; "-I"; "-B"; "/work/solution.py"]
         | javascript => ["/usr/local/bin/node"; "--max-old-space-size=128"; "/work/solution.js"]
         end%string.

Definition num (n : Z) : jsstr := js (pretty n).

(** [/^ac-[a-f0-9-]{36}$/]. *)
Definition container_name_ok (name : jsstr) : bool :=
  startsWith (js "ac-") name && (length name =? 39)%nat
  && forallb (λ u, is_hex u || (u =? 45)) (drop 3 name).

Record Owner := mkOwner { ow_executionId : jsstr; ow_attempt : Z; ow_deadline : Z }.

Definition containerArgs (name image : jsstr) (memoryMiB : option Z) (owner : Owner) :
    result (list jsstr) :=
  if negb (container_name_ok name) then Err (JsError "INVALID_CONTAINER_NAME") else
  if negb (image_ok image) then Err ZodError else
  match memoryMiB with
  | None => Err (JsError "INVALID_MEMORY_LIMIT")
  | Some m =>
      if (m <? 32) || (CAPS.maxMemoryMiB <? m) then Err (JsError "INVALID_MEMORY_LIMIT") else
      Ok ([js "create"; js "--name"; name; js "--pull=never"; js "--runtime=runsc";
           js "--network=none"; js "--ipc=private"; js "--read-only"; js "--user=10001:10001";
           js "--cap-drop=ALL"; js "--security-opt=no-new-privileges:true"; js "--pids-limit";
           num CAPS.pids; js "--cpus=1"; js "--memory"; num m ++ js "m"; js "--memory-swap";
           num m ++ js "m"; js "--ulimit"; js "nofile=128:128"; js "--ulimit";
           js "fsize=" ++ num CAPS.maxFileBytes ++ js ":" ++ num CAPS.maxFileBytes;
           js "--ulimit"; js "core=0:0"; js "--ulimit";
           js "nproc=" ++ num CAPS.pids ++ js ":" ++ num CAPS.pids;
           js "--tmpfs";
           js "/work:rw,nosuid,nodev,noexec,size=" ++ num CAPS.scratchBytes ++ js ",mode=1777";
           js "--tmpfs"; js "/tmp:rw,nosuid,nodev,noexec,size=8388608,mode=1777";
           js "--workdir=/work"; js "--log-driver=none";
           js "--label"; js "arenacore.managed=true";
           js "--label"; js "arenacore.execution=" ++ ow_executionId owner;
           js "--label"; js "arenacore.attempt=" ++ num (ow_attempt owner);
           js "--label"; js "arenacore.deadline=" ++ num (ow_deadline owner);
           js "--entrypoint=/bin/sleep"; image; js "infinity"])
  end.

(** ** Facts *)

Section PolicyFacts.
Context `{Zod}.

Lemma sandboxRequest_parse_Ok r r' :
  sandboxRequest_parse r = Ok r' ↔ r' = r ∧ sandboxRequest_ok r = true.
Proof. unfold sandboxRequest_parse. case_match; naive_solver. Qed.

Record request_facts (r : SandboxRequest) : Prop := {
  rf_ids : NoDup (sc_id <$> sr_cases r);
  rf_uuids : ∀ c, c ∈ sr_cases r → z_uuid (sc_id c) = true;
  rf_some : sr_cases r ≠ [];
  rf_many : (length (sr_cases r) ≤ 100)%nat;
  rf_mem : ∃ m, sr_memoryMiB r = Some m ∧ 32 ≤ m ≤ CAPS.maxMemoryMiB;
  rf_time : 1 ≤ sr_timeMs r ≤ CAPS.caseMs
}.

Lemma sandboxRequest_ok_facts r : sandboxRequest_ok r = true → request_facts r.
Proof.
  unfold sandboxRequest_ok. rewrite !andb_true_iff, !bool_decide_eq_true, !Nat.leb_le, !Z.leb_le.
  rewrite forallb_forall. intros [[[[[[[[[[[[? ?] ?] ?] ?] Hc] ?] ?] ?] ?] Hm] ?] ?].
  split; try done.
  - intros c Hin%list_elem_of_In%Hc. unfold sandboxCase_ok in Hin. by rewrite !andb_true_iff in Hin; apply Hin.
  - by intros E; rewrite E in *; cbn in *; lia.
  - destruct (sr_memoryMiB r) as [m|]; [|done]. exists m. split; [done|lia].
Qed.

(** A request the schema accepts always gets container arguments for its own memory limit. *)
Lemma containerArgs_total r name image owner :
  sandboxRequest_ok r = true → container_name_ok name = true → image_ok image = true →
  ∃ args, containerArgs name image (sr_memoryMiB r) owner = Ok args.
Proof.
  intros Hr%sandboxRequest_ok_facts Hn Hi. destruct (rf_mem _ Hr) as (m & Em & ?).
  unfold containerArgs. rewrite Hn, Hi, Em. cbn [negb].
  destruct (_ || _) eqn:E; [unfold CAPS.maxMemoryMiB in *; lia|eauto].
Qed.

Lemma containerArgs_Ok name image mem owner args :
  containerArgs name image mem owner = Ok args →
  take 3 args = [js "create"; js "--name"; name] ∧
  js "--network=none" ∈ args ∧ js "--read-only" ∈ args ∧ js "--runtime=runsc" ∈ args ∧
  js "--cap-drop=ALL" ∈ args ∧ js "--user=10001:10001" ∈ args.
Proof.
  unfold containerArgs. destruct (negb _); [done|]. destruct (negb _); [done|].
  destruct mem as [m|]; [|done]. destruct (_ || _); [done|]. intros [= <-].
  split; [done|]. split_and!; repeat first [left; reflexivity|right].
Qed.
End PolicyFacts.
