(* ===== verification/Catalogue.v ===== *)
(** * The problem catalogue

    The part of [apps/api/src/admin/admin.ts] that writes problems (its input schema and
    [createProblem], [editProblem], [setProblemPublication], [deleteProblem]), the triggers and
    constraints of [prisma/migrations] on the tables it writes, and the two readers of published
    versions: [Problems.detail] of [apps/api/src/problems/problems.ts] for learners and
    [loadJudgePlan] of [apps/runner/src/judging-backend.ts] for the judge. *)

From S2P Require Import Prelude JsText Contracts Judge JsString RuntimePolicy.
Local Open Scope Z_scope.

Abbreviation rowid := (list Z).

(** ** The input schema *)

Inductive Difficulty := EASY | MEDIUM | HARD.
Inductive InputMode := STDIN | FILES.
#[export] Instance InputMode_eq_dec : EqDecision InputMode. Proof. solve_decision. Defined.

Record TestInput := mkTestInput {
  ti_visibility : Visibility; ti_input : jsstr; ti_files : list (jsstr * jsstr);
  ti_expectedOutput : jsstr
}.
Record Templates := mkTemplates { tp_java : jsstr; tp_python : jsstr; tp_javascript : jsstr }.
Record ProblemInput := mkProblemInput {
  pi_slug : jsstr; pi_title : jsstr; pi_difficulty : Difficulty; pi_tags : list jsstr;
  pi_statementMarkdown : jsstr; pi_constraints : list jsstr; pi_timeMs : Z; pi_memoryKiB : Z;
  pi_inputMode : InputMode; pi_templates : Templates; pi_tests : list TestInput; pi_publish : bool
}.

Definition len_in (lo hi : Z) (s : jsstr) : bool := (lo <=? slen s) && (slen s <=? hi).

(** [/^[a-z0-9][a-z0-9-]{0,29}$/]. *)
Definition tag_ok (s : jsstr) : bool :=
  matches (λ u, is_lower u || is_digit u) (λ u, is_lower u || is_digit u || (u =? 45)) s
  && (length s <=? 30)%nat.

Definition testFile_ok (f : jsstr * jsstr) : bool :=
  len_in 1 100 f.1 && safe_file_name f.1 && (slen f.2 <=? 64000).

Definition test_ok (t : TestInput) : bool :=
  (slen (ti_input t) <=? 64000) && forallb testFile_ok (ti_files t)
  && (length (ti_files t) <=? 16)%nat && (slen (ti_expectedOutput t) <=? 64000)
  && bool_decide (NoDup (fst <$> ti_files t)).

Definition inputMode_ok (m : InputMode) (t : TestInput) : bool :=
  match m with
  | STDIN => (length (ti_files t) =? 0)%nat
  | FILES => negb (length (ti_files t) =? 0)%nat && (length (ti_input t) =? 0)%nat
  end.

Definition is_visible (v : Visibility) (t : TestInput) : bool := bool_decide (ti_visibility t = v).

(** The [trim] and [toLowerCase] transformations of the schema. *)
Definition normalise_test (t : TestInput) : TestInput :=
  mkTestInput (ti_visibility t) (ti_input t) (prod_map trim id <$> ti_files t) (ti_expectedOutput t).
Definition normalise (p : ProblemInput) : ProblemInput :=
  mkProblemInput (toLowerCase (trim (pi_slug p))) (trim (pi_title p)) (pi_difficulty p)
    (toLowerCase ∘ trim <$> pi_tags p) (trim (pi_statementMarkdown p)) (trim <$> pi_constraints p)
    (pi_timeMs p) (pi_memoryKiB p) (pi_inputMode p) (pi_templates p)
    (normalise_test <$> pi_tests p) (pi_publish p).

Definition problemInput_ok (p : ProblemInput) : bool :=
  slug_ok (pi_slug p) && (length (pi_slug p) <=? 100)%nat
  && len_in 3 160 (pi_title p)
  && forallb tag_ok (pi_tags p) && (length (pi_tags p) <=? 12)%nat
  && len_in 20 50000 (pi_statementMarkdown p)
  && forallb (len_in 1 500) (pi_constraints p) && (length (pi_constraints p) <=? 30)%nat
  && (100 <=? pi_timeMs p) && (pi_timeMs p <=? 30000)
  && (16384 <=? pi_memoryKiB p) && (pi_memoryKiB p <=? 1048576)
  && (slen (tp_java (pi_templates p)) <=? 64000)
  && (slen (tp_python (pi_templates p)) <=? 64000)
  && (slen (tp_javascript (pi_templates p)) <=? 64000)
  && forallb test_ok (pi_tests p)
  && (2 <=? length (pi_tests p))%nat && (length (pi_tests p) <=? 100)%nat
  && existsb (is_visible PUBLIC) (pi_tests p) && existsb (is_visible HIDDEN) (pi_tests p)
  && forallb (inputMode_ok (pi_inputMode p)) (pi_tests p).

(** [validate(createProblemInput, body)]. *)
Definition createProblemInput (body : ProblemInput) : result ProblemInput :=
  let p := normalise body in
  if problemInput_ok p then Ok p else Err (ApiError 400 "INVALID_REQUEST" None).

(** ** Tables *)

Record ProblemRow := mkProblemRow { pb_slug : jsstr; pb_currentVersionId : option rowid }.
Record VersionRow := mkVersionRow {
  vr_id : rowid; vr_problemId : rowid; vr_number : Z; vr_title : jsstr; vr_difficulty : Difficulty;
  vr_tags : list jsstr; vr_statementMarkdown : jsstr; vr_constraints : list jsstr;
  vr_timeMs : Z; vr_memoryKiB : Z; vr_inputMode : InputMode; vr_templates : Templates;
  vr_comparator : string; vr_published : bool
}.
Record TestRow := mkTestRow {
  tr_id : rowid; tr_problemVersionId : rowid; tr_ordinal : Z; tr_visibility : Visibility;
  tr_input : jsstr; tr_expectedOutput : jsstr; tr_files : list (jsstr * jsstr)
}.
Record AuditEvent := mkAudit { au_actorId : rowid; au_action : string; au_targetId : rowid }.

(** The problem tables; [cat_executed] and [cat_contested] are the version ids that
    [Execution] rows and the problem ids that [CompetitionProblem] rows refer to. *)
Record catalogue := mkCatalogue {
  cat_problems : gmap rowid ProblemRow; cat_versions : gmap rowid VersionRow;
  cat_tests : list TestRow; cat_executed : gset rowid; cat_contested : gset rowid;
  cat_audit : list AuditEvent
}.

Definition set_problems (p : gmap rowid ProblemRow) (c : catalogue) : catalogue :=
  mkCatalogue p (cat_versions c) (cat_tests c) (cat_executed c) (cat_contested c) (cat_audit c).
Definition set_versions (v : gmap rowid VersionRow) (c : catalogue) : catalogue :=
  mkCatalogue (cat_problems c) v (cat_tests c) (cat_executed c) (cat_contested c) (cat_audit c).
Definition set_tests (t : list TestRow) (c : catalogue) : catalogue :=
  mkCatalogue (cat_problems c) (cat_versions c) t (cat_executed c) (cat_contested c) (cat_audit c).
Definition add_audit (a : AuditEvent) (c : catalogue) : catalogue :=
  mkCatalogue (cat_problems c) (cat_versions c) (cat_tests c) (cat_executed c) (cat_contested c)
    (cat_audit c ++ [a]).

Definition raise_if {S} (b : bool) (e : error) : tx S unit := if b then throw e else mret tt.

Definition get : tx catalogue catalogue := gets (λ c, c).

(** A unique index: [INSERT] of a key that is present fails. *)
Definition problem_create (id slug : rowid) : tx catalogue unit :=
  c ← get;
  _ ← raise_if (bool_decide (is_Some (cat_problems c !! id))
                || existsb (λ r, bool_decide (pb_slug r.2 = slug)) (map_to_list (cat_problems c)))
        (DbError "P2002");
  modify (set_problems (<[id := mkProblemRow slug None]> (cat_problems c))).

Definition version_create (v : VersionRow) : tx catalogue unit :=
  c ← get;
  _ ← raise_if (negb ((0 <? vr_timeMs v) && (0 <? vr_memoryKiB v) && (0 <? vr_number v)))
        (DbError "23514");
  _ ← raise_if (bool_decide (is_Some (cat_versions c !! vr_id v))
                || existsb (λ r, bool_decide (vr_problemId r.2 = vr_problemId v)
                                 && (vr_number r.2 =? vr_number v)) (map_to_list (cat_versions c)))
        (DbError "P2002");
  _ ← raise_if (bool_decide (cat_problems c !! vr_problemId v = None)) (DbError "P2003");
  modify (set_versions (<[vr_id v := v]> (cat_versions c))).

Definition published_in (c : catalogue) (vid : rowid) : bool :=
  match cat_versions c !! vid with Some v => vr_published v | None => false end.

(** The CHECK constraints [safe_test_file_name] and [bounded_test_file_content]. *)
Definition file_checks (f : jsstr * jsstr) : bool :=
  matches is_alnum is_file_char f.1 && (length f.1 <=? 100)%nat
  && negb (bool_decide (f.1 ∈ reserved_names)) && negb (endsWith (js ".class") f.1)
  && (byteLength f.2 <=? 262144).

(** Inserting a test and its files, with the triggers [protect_published_tests] and
    [protect_published_test_files]. *)
Definition test_create (t : TestRow) : tx catalogue unit :=
  c ← get;
  _ ← raise_if (published_in c (tr_problemVersionId t)) (DbError "P0001");
  _ ← raise_if (bool_decide (cat_versions c !! tr_problemVersionId t = None)) (DbError "P2003");
  _ ← raise_if (tr_ordinal t <? 0) (DbError "23514");
  _ ← raise_if (existsb (λ r, bool_decide (tr_id r = tr_id t)
                    || (bool_decide (tr_problemVersionId r = tr_problemVersionId t)
                        && (tr_ordinal r =? tr_ordinal t))) (cat_tests c)) (DbError "P2002");
  _ ← raise_if (negb (forallb file_checks (tr_files t))) (DbError "23514");
  _ ← raise_if (negb (bool_decide (NoDup (fst <$> tr_files t)))) (DbError "P2002");
  modify (set_tests (cat_tests c ++ [t])).

Definition tests_of (c : catalogue) (vid : rowid) : list TestRow :=
  filter (λ t, tr_problemVersionId t = vid) (cat_tests c).

(** The trigger [validate_problem_input_contract]. *)
Definition input_contract (v : VersionRow) (ts : list TestRow) : bool :=
  match vr_inputMode v with
  | STDIN => forallb (λ t, (length (tr_files t) =? 0)%nat) ts
  | FILES => forallb (λ t, (length (tr_input t) =? 0)%nat && negb (length (tr_files t) =? 0)%nat) ts
  end.

Definition with_published (v : VersionRow) : VersionRow :=
  mkVersionRow (vr_id v) (vr_problemId v) (vr_number v) (vr_title v) (vr_difficulty v) (vr_tags v)
    (vr_statementMarkdown v) (vr_constraints v) (vr_timeMs v) (vr_memoryKiB v) (vr_inputMode v)
    (vr_templates v) (vr_comparator v) true.

Definition version_publish (vid : rowid) : tx catalogue unit :=
  c ← get;
  match cat_versions c !! vid with
  | None => throw (DbError "P2025")
  | Some v =>
      _ ← raise_if (vr_published v) (DbError "P0001");
      _ ← raise_if (negb (input_contract v (tests_of c vid))) (DbError "P0001");
      modify (set_versions (<[vid := with_published v]> (cat_versions c)))
  end.

(** [tx.problem.update({where:{id},data:{currentVersionId}})] with the trigger
    [validate_current_version]. *)
Definition problem_set_current (id : rowid) (cur : option rowid) : tx catalogue unit :=
  c ← get;
  match cat_problems c !! id with
  | None => throw (DbError "P2025")
  | Some p =>
      _ ← raise_if match cur with
                   | None => false
                   | Some vid =>
                       match cat_versions c !! vid with
                       | Some v => negb (bool_decide (vr_problemId v = id) && vr_published v)
                       | None => true
                       end
                   end (DbError "P0001");
      modify (set_problems (<[id := mkProblemRow (pb_slug p) cur]> (cat_problems c)))
  end.

Definition version_of_problem (c : catalogue) (id vid : rowid) : bool :=
  match cat_versions c !! vid with Some v => bool_decide (vr_problemId v = id) | None => false end.

(** [testCase.deleteMany({where:{problemVersion:{problemId:id}}})]. *)
Definition tests_delete (id : rowid) : tx catalogue unit :=
  c ← get;
  let doomed t := version_of_problem c id (tr_problemVersionId t) in
  _ ← raise_if (existsb (λ t, doomed t && published_in c (tr_problemVersionId t)) (cat_tests c))
        (DbError "P0001");
  modify (set_tests (filter (λ t, doomed t = false) (cat_tests c))).

(** [problemVersion.deleteMany({where:{problemId:id}})]: the immutability trigger, and the
    foreign keys of executions and tests. *)
Definition versions_delete (id : rowid) : tx catalogue unit :=
  c ← get;
  let doomed (r : rowid * VersionRow) := bool_decide (vr_problemId r.2 = id) in
  _ ← raise_if (existsb (λ r, doomed r && vr_published r.2) (map_to_list (cat_versions c)))
        (DbError "P0001");
  _ ← raise_if (existsb (λ r, doomed r && bool_decide (r.1 ∈ cat_executed c))
                  (map_to_list (cat_versions c))) (DbError "P2003");
  _ ← raise_if (existsb (λ t, version_of_problem c id (tr_problemVersionId t)) (cat_tests c))
        (DbError "P2003");
  modify (set_versions (filter (λ r, doomed r = false) (cat_versions c))).

Definition problem_delete (id : rowid) : tx catalogue unit :=
  c ← get;
  _ ← raise_if (bool_decide (cat_problems c !! id = None)) (DbError "P2025");
  _ ← raise_if (bool_decide (id ∈ cat_contested c)) (DbError "P2003");
  modify (set_problems (delete id (cat_problems c))).

Definition audit (actorId : rowid) (action : string) (targetId : rowid) : tx catalogue unit :=
  modify (add_audit (mkAudit actorId action targetId)).

(** ** Administration

    [fresh] supplies the identifiers the database draws: 0 for a problem, 1 for a version and
    [2 + i] for the [i]-th test.  What a handler reads before it opens its transaction is read
    from [seen], which may be older than the state the transaction runs on. *)

Record Published := mkPublishedReply {
  rp_id : rowid; rp_slug : jsstr; rp_versionId : rowid; rp_published : bool
}.

Definition new_version (vid pid : rowid) (number : Z) (input : ProblemInput) : VersionRow :=
  mkVersionRow vid pid number (pi_title input) (pi_difficulty input) (unique (pi_tags input))
    (pi_statementMarkdown input) (pi_constraints input) (pi_timeMs input) (pi_memoryKiB input)
    (pi_inputMode input) (pi_templates input) "EXACT_NEWLINE" false.

Definition new_test (fresh : nat → rowid) (vid : rowid) (entry : nat * TestInput) : TestRow :=
  let '(index, test) := entry in
  mkTestRow (fresh (2 + index)%nat) vid (Z.of_nat index + 1) (ti_visibility test) (ti_input test)
    (ti_expectedOutput test) (ti_files test).

Definition entries {A} (l : list A) : list (nat * A) := imap pair l.

(** The body shared by [createProblem] and [editProblem]: the version, its tests in order, and
    the publication when it was asked for. *)
Definition write_version (fresh : nat → rowid) (pid : rowid) (number : Z) (input : ProblemInput) :
    tx catalogue unit :=
  let vid := fresh 1%nat in
  _ ← version_create (new_version vid pid number input);
  _ ← for_each (λ e, test_create (new_test fresh vid e)) (entries (pi_tests input));
  if pi_publish input then
    _ ← version_publish vid; problem_set_current pid (Some vid)
  else mret tt.

(** [catch (error) { if P2002 throw SLUG_TAKEN }]. *)
Definition slug_taken {A} (r : result A * catalogue) : result A * catalogue :=
  match r with
  | (Err (DbError code), c) =>
      if String.eqb code "P2002" then (Err (ApiError 409 "SLUG_TAKEN" None), c) else r
  | _ => r
  end.

Definition createProblem (fresh : nat → rowid) (actorId : rowid) (input : ProblemInput)
    (c : catalogue) : result Published * catalogue :=
  slug_taken (transaction
    (let pid := fresh 0%nat in
     _ ← problem_create pid (pi_slug input);
     _ ← write_version fresh pid 1 input;
     _ ← audit actorId (if pi_publish input then "PROBLEM_PUBLISH" else "PROBLEM_DRAFT_CREATE") pid;
     mret (mkPublishedReply pid (pi_slug input) (fresh 1%nat) (pi_publish input))) c).

Definition versions_of (c : catalogue) (id : rowid) : list VersionRow :=
  filter (λ v, vr_problemId v = id) (snd <$> map_to_list (cat_versions c)).

(** [versions: {orderBy: {number: 'desc'}, take: 1}]. *)
Definition later (a b : option VersionRow) : option VersionRow :=
  match a, b with
  | Some x, Some y => if vr_number x <? vr_number y then b else a
  | None, _ => b
  | _, None => a
  end.
Definition latest_version (c : catalogue) (id : rowid) : option VersionRow :=
  foldr (λ v, later (Some v)) None (versions_of c id).

Definition editProblem (fresh : nat → rowid) (actorId id : rowid) (input : ProblemInput)
    (seen c : catalogue) : result Published * catalogue :=
  match cat_problems seen !! id with
  | None => (Err (ApiError 404 "NOT_FOUND" None), c)
  | Some p =>
      if negb (bool_decide (pb_slug p = pi_slug input))
      then (Err (ApiError 409 "SLUG_IMMUTABLE" None), c) else
      transaction
        (c1 ← get;
         let number := match latest_version c1 id with Some v => vr_number v | None => 0 end + 1 in
         _ ← write_version fresh id number input;
         _ ← audit actorId (if pi_publish input then "PROBLEM_VERSION_PUBLISH"
                            else "PROBLEM_VERSION_DRAFT_CREATE") id;
         mret (mkPublishedReply id (pb_slug p) (fresh 1%nat) (pi_publish input))) c
  end.

Definition setProblemPublication (actorId id : rowid) (published : bool) (seen c : catalogue) :
    result (option rowid) * catalogue :=
  match cat_problems seen !! id with
  | None => (Err (ApiError 404 "NOT_FOUND" None), c)
  | Some _ =>
      let latest := latest_version seen id in
      if published && bool_decide (latest = None) then (Err (ApiError 409 "NO_VERSION" None), c) else
      let current := if published then vr_id <$> latest else None in
      transaction
        (_ ← match latest with
             | Some v => if published && negb (vr_published v) then version_publish (vr_id v) else mret tt
             | None => mret tt
             end;
         _ ← problem_set_current id current;
         _ ← audit actorId (if published then "PROBLEM_PUBLISH" else "PROBLEM_UNPUBLISH") id;
         mret current) c
  end.

Definition deleteProblem (actorId id : rowid) (seen c : catalogue) : result unit * catalogue :=
  match cat_problems seen !! id with
  | None => (Err (ApiError 404 "NOT_FOUND" None), c)
  | Some _ =>
      if bool_decide (id ∈ cat_contested seen)
         || existsb (λ v, vr_published v || bool_decide (vr_id v ∈ cat_executed seen))
              (versions_of seen id)
      then (Err (ApiError 409 "PROBLEM_IN_USE" None), c) else
      transaction
        (_ ← problem_set_current id None;
         _ ← tests_delete id;
         _ ← versions_delete id;
         _ ← problem_delete id;
         audit actorId "PROBLEM_DELETE" id) c
  end.

(** ** Readers *)

Definition by_ordinal (a b : TestRow) : Prop := tr_ordinal a ≤ tr_ordinal b.
#[export] Instance by_ordinal_dec : RelDecision by_ordinal.
Proof. intros a b. unfold by_ordinal. apply _. Defined.

Section Readers.
(** The collation of [orderBy: {name: 'asc'}] is the database's. *)
Context (collate : jsstr → jsstr → bool).

Definition by_name (a b : jsstr * jsstr) : Prop := collate a.1 b.1 = true.
#[global] Instance by_name_dec : RelDecision by_name.
Proof. intros a b. unfold by_name. apply _. Defined.

Definition judge_case (t : TestRow) : JudgeCase :=
  mkJudgeCase (tr_id t) (tr_ordinal t) (tr_visibility t) (tr_input t)
    (merge_sort by_name (tr_files t)) (tr_expectedOutput t).

Definition loadJudgePlan (c : catalogue) (versionId : rowid) (mode : ExecutionMode) : result JudgePlan :=
  match cat_versions c !! versionId with
  | None => Err (JsError "JUDGE_PLAN_UNAVAILABLE")
  | Some v =>
      if negb (vr_published v) || negb (String.eqb (vr_comparator v) "EXACT_NEWLINE")
      then Err (JsError "JUDGE_PLAN_UNAVAILABLE") else
      let chosen := match mode with
                    | RUN => filter (λ t, tr_visibility t = PUBLIC) (tests_of c versionId)
                    | SUBMIT => tests_of c versionId
                    end in
      Ok (mkJudgePlan versionId (vr_comparator v) (vr_timeMs v) (vr_memoryKiB v)
            (judge_case <$> merge_sort by_ordinal chosen))
  end.

Record ExampleRow := mkExample {
  ex_id : rowid; ex_input : jsstr; ex_files : list (jsstr * jsstr); ex_expectedOutput : jsstr
}.
Record ProblemDetail := mkDetail {
  pd_id : rowid; pd_slug : jsstr; pd_title : jsstr; pd_difficulty : Difficulty; pd_tags : list jsstr;
  pd_statementMarkdown : jsstr; pd_constraints : list jsstr; pd_timeMs : Z; pd_memoryKiB : Z;
  pd_inputMode : InputMode; pd_examples : list ExampleRow; pd_templates : Templates
}.

Definition detail (c : catalogue) (slug : jsstr) : result ProblemDetail :=
  match list_find (λ r, pb_slug r.2 = slug) (map_to_list (cat_problems c)) with
  | Some (_, (id, p)) =>
      match pb_currentVersionId p ≫= (cat_versions c !!.) with
      | Some v =>
          if negb (vr_published v) then Err (ApiError 404 "NOT_FOUND" None) else
          let shown := merge_sort by_ordinal
                         (filter (λ t, tr_visibility t = PUBLIC) (tests_of c (vr_id v))) in
          Ok (mkDetail id (pb_slug p) (vr_title v) (vr_difficulty v) (vr_tags v)
                (vr_statementMarkdown v) (vr_constraints v) (vr_timeMs v) (vr_memoryKiB v)
                (vr_inputMode v)
                ((λ t, mkExample (tr_id t) (tr_input t) (merge_sort by_name (tr_files t))
                         (tr_expectedOutput t)) <$> shown)
                (vr_templates v))
      | None => Err (ApiError 404 "NOT_FOUND" None)
      end
  | None => Err (ApiError 404 "NOT_FOUND" None)
  end.
End Readers.
