(* ===== verification/Discussions.v ===== *)
(** * Discussions and their moderation

    [apps/api/src/discussions/discussions.ts] (posts, replies, likes, reports and the write quota),
    the moderation part of [apps/api/src/admin/admin.ts] ([moderate], [resolveReport],
    [bulkResolveReports], the moderation queue), and the tables, CHECKs and the trigger of the
    migrations [problem_discussions] and [moderation_and_restrictions].

    Handlers that read before they open their transaction read from [seen], which may be older than
    the state the transaction runs on.  Times are milliseconds since the epoch. *)

From S2P Require Import Prelude Paging JsText Contracts Judge JsString RuntimePolicy Catalogue.
Local Open Scope Z_scope.

(** ** Tables *)

Inductive DiscussionStatus := VISIBLE | HIDDEN_POST | DELETED.
#[export] Instance DiscussionStatus_eq_dec : EqDecision DiscussionStatus. Proof. solve_decision. Defined.
Inductive ReportReason := SPAM | HARASSMENT | SOLUTION_LEAK | OFF_TOPIC | OTHER.
Inductive ReportStatus := PENDING | RESOLVED | DISMISSED.
#[export] Instance ReportStatus_eq_dec : EqDecision ReportStatus. Proof. solve_decision. Defined.

Record Author := mkAuthor { at_username : jsstr; at_displayName : jsstr }.
Record PostRow := mkPost {
  po_id : rowid; po_problemId : rowid; po_authorId : rowid; po_parentId : option rowid;
  po_title : option jsstr; po_body : jsstr; po_status : DiscussionStatus;
  po_createdAt : Z; po_updatedAt : Z
}.
Record ReportRow := mkReport {
  rr_id : rowid; rr_postId : rowid; rr_reporterId : rowid; rr_reason : ReportReason;
  rr_details : option jsstr; rr_status : ReportStatus; rr_moderatorId : option rowid;
  rr_moderatorNote : option jsstr; rr_createdAt : Z; rr_resolvedAt : option Z
}.
Record LimitRow := mkLimit { lm_count : Z; lm_expiresAt : Z }.

(** The discussion tables beside the catalogue they refer to; the audit log is the catalogue's. *)
Record forum := mkForum {
  fo_catalogue : catalogue; fo_users : gmap rowid Author; fo_posts : gmap rowid PostRow;
  fo_likes : gset (rowid * rowid); fo_limits : gmap rowid LimitRow; fo_reports : gmap rowid ReportRow
}.

Definition set_catalogue (c : catalogue) (f : forum) : forum :=
  mkForum c (fo_users f) (fo_posts f) (fo_likes f) (fo_limits f) (fo_reports f).
Definition set_posts (p : gmap rowid PostRow) (f : forum) : forum :=
  mkForum (fo_catalogue f) (fo_users f) p (fo_likes f) (fo_limits f) (fo_reports f).
Definition set_likes (l : gset (rowid * rowid)) (f : forum) : forum :=
  mkForum (fo_catalogue f) (fo_users f) (fo_posts f) l (fo_limits f) (fo_reports f).
Definition set_limits (l : gmap rowid LimitRow) (f : forum) : forum :=
  mkForum (fo_catalogue f) (fo_users f) (fo_posts f) (fo_likes f) l (fo_reports f).
Definition set_reports (r : gmap rowid ReportRow) (f : forum) : forum :=
  mkForum (fo_catalogue f) (fo_users f) (fo_posts f) (fo_likes f) (fo_limits f) r.

Definition with_status (s : DiscussionStatus) (now : Z) (p : PostRow) : PostRow :=
  mkPost (po_id p) (po_problemId p) (po_authorId p) (po_parentId p) (po_title p) (po_body p) s
    (po_createdAt p) now.

Definition the_forum : tx forum forum := gets (λ f, f).
Definition forum_audit (actorId : rowid) (action : string) (targetId : rowid) : tx forum unit :=
  modify (λ f, set_catalogue (add_audit (mkAudit actorId action targetId) (fo_catalogue f)) f).

Definition has_user (f : forum) (u : rowid) : bool := bool_decide (is_Some (fo_users f !! u)).

(** PostgreSQL's [char_length] counts code points, where JavaScript's [length] counts UTF-16
    units; a text column stores no NUL. *)
Definition char_length (s : jsstr) : Z := Z.of_nat (length (points s)).
Definition storable (s : jsstr) : bool := forallb (λ u, negb (u =? 0)) s.
Definition chars_in (lo hi : Z) (s : jsstr) : bool := (lo <=? char_length s) && (char_length s <=? hi).

(** The trigger [enforce_discussion_parent]. *)
Definition enforce_discussion_parent (f : forum) (p : PostRow) : bool :=
  match po_parentId p with
  | None => true
  | Some parent =>
      match fo_posts f !! parent with
      | None => false
      | Some q => bool_decide (po_parentId q = None) && bool_decide (po_problemId q = po_problemId p)
      end
  end.

(** The CHECKs [DiscussionPost_shape], [DiscussionPost_body_bounds] and
    [DiscussionPost_not_self_parent]. *)
Definition post_checks (p : PostRow) : bool :=
  match po_parentId p, po_title p with
  | None, Some title => chars_in 5 120 title
  | Some _, None => true
  | _, _ => false
  end
  && chars_in 1 4000 (po_body p)
  && negb (bool_decide (po_parentId p = Some (po_id p))).

Definition post_create (p : PostRow) : tx forum unit :=
  f ← the_forum;
  _ ← raise_if (negb (storable (default [] (po_title p)) && storable (po_body p))) (DbError "22021");
  _ ← raise_if (negb (enforce_discussion_parent f p)) (DbError "P0001");
  _ ← raise_if (negb (post_checks p)) (DbError "23514");
  _ ← raise_if (bool_decide (is_Some (fo_posts f !! po_id p))) (DbError "P2002");
  _ ← raise_if (bool_decide (cat_problems (fo_catalogue f) !! po_problemId p = None)
                || negb (has_user f (po_authorId p))) (DbError "P2003");
  modify (set_posts (<[po_id p := p]> (fo_posts f))).

(** The CHECKs on the texts of a report and [ContentReport_resolution_check]. *)
Definition report_checks (r : ReportRow) : bool :=
  match rr_details r with None => true | Some d => chars_in 3 1000 d end
  && match rr_moderatorNote r with None => true | Some n => chars_in 3 1000 n end
  && match rr_status r with
     | PENDING => bool_decide (rr_moderatorId r = None) && bool_decide (rr_resolvedAt r = None)
     | _ => bool_decide (is_Some (rr_resolvedAt r))
     end.

Definition report_create (r : ReportRow) : tx forum unit :=
  f ← the_forum;
  _ ← raise_if (negb (storable (default [] (rr_details r)))) (DbError "22021");
  _ ← raise_if (negb (report_checks r)) (DbError "23514");
  _ ← raise_if (bool_decide (is_Some (fo_reports f !! rr_id r))
                || existsb (λ q, bool_decide (rr_postId q.2 = rr_postId r)
                                 && bool_decide (rr_reporterId q.2 = rr_reporterId r))
                     (map_to_list (fo_reports f))) (DbError "P2002");
  _ ← raise_if (bool_decide (fo_posts f !! rr_postId r = None) || negb (has_user f (rr_reporterId r)))
        (DbError "P2003");
  modify (set_reports (<[rr_id r := r]> (fo_reports f))).

(** ** Input schemas *)

Definition invalid_request : error := ApiError 400 "INVALID_REQUEST" None.
Definition not_found : error := ApiError 404 "NOT_FOUND" None.

Record CreateDiscussion := mkCreateDiscussion { cd_title : jsstr; cd_body : jsstr }.
Definition createDiscussionSchema (input : CreateDiscussion) : result CreateDiscussion :=
  let title := trim (cd_title input) in
  let body := trim (cd_body input) in
  if len_in 5 120 title && len_in 1 4000 body then Ok (mkCreateDiscussion title body)
  else Err invalid_request.

Definition createDiscussionReplySchema (body : jsstr) : result jsstr :=
  let body := trim body in if len_in 1 4000 body then Ok body else Err invalid_request.

Record ReportInput := mkReportInput { ri_reason : ReportReason; ri_details : option jsstr }.
Definition reportSchema (input : ReportInput) : result ReportInput :=
  let details := trim <$> ri_details input in
  if match details with None => true | Some d => len_in 3 1000 d end
  then Ok (mkReportInput (ri_reason input) details) else Err invalid_request.

Definition slugSchema (slug : jsstr) : result jsstr :=
  if slug_ok slug && (slen slug <=? 100) then Ok slug else Err invalid_request.

Record ResolveInput := mkResolveInput {
  rv_status : ReportStatus; rv_moderatorNote : jsstr; rv_postStatus : option DiscussionStatus
}.
Definition resolveReportInput (input : ResolveInput) : result ResolveInput :=
  let note := trim (rv_moderatorNote input) in
  if negb (bool_decide (rv_status input = PENDING)) && len_in 3 1000 note
  then Ok (mkResolveInput (rv_status input) note (rv_postStatus input)) else Err invalid_request.
Definition bulkResolveReportsInput (input : ResolveInput) (reportIds : list rowid) :
    result (ResolveInput * list rowid) :=
  match resolveReportInput input with
  | Err e => Err e
  | Ok decision =>
      if (1 <=? length reportIds)%nat && (length reportIds <=? 25)%nat && bool_decide (NoDup reportIds)
      then Ok (decision, reportIds) else Err invalid_request
  end.

(** ** Views *)

Record DiscussionPost := mkDiscussionPost {
  dv_id : rowid; dv_author : option Author; dv_title : option jsstr; dv_body : jsstr;
  dv_createdAt : Z; dv_updatedAt : Z; dv_replyCount : nat; dv_likeCount : nat
}.

Definition posts (f : forum) : list PostRow := (map_to_list (fo_posts f)).*2.
Definition likes_of (f : forum) (postId : rowid) : list (rowid * rowid) :=
  filter (λ l, l.1 = postId) (elements (fo_likes f)).

(** [postSelect] and [project]; an empty title is dropped. *)
Definition project (f : forum) (row : PostRow) : DiscussionPost :=
  mkDiscussionPost (po_id row) (fo_users f !! po_authorId row)
    (title ← po_title row; if bool_decide (title = []) then None else Some title) (po_body row)
    (po_createdAt row) (po_updatedAt row)
    (length (filter (λ r, po_parentId r = Some (po_id row) ∧ po_status r = VISIBLE) (posts f)))
    (length (likes_of f (po_id row))).

(** [problem: {currentVersion: {is: {published: true}}}]. *)
Definition problem_published (c : catalogue) (id : rowid) : bool :=
  match p ← cat_problems c !! id; v ← pb_currentVersionId p; cat_versions c !! v with
  | Some v => vr_published v
  | None => false
  end.

Definition publishedProblem (c : catalogue) (slug : jsstr) : result rowid :=
  match list_find (λ r, pb_slug r.2 = slug) (map_to_list (cat_problems c)) with
  | Some (_, (id, _)) => if problem_published c id then Ok id else Err not_found
  | None => Err not_found
  end.

(** The visible post of a published problem that a handler looks up first. *)
Definition open_post (f : forum) (id : rowid) : option PostRow :=
  p ← fo_posts f !! id;
  if bool_decide (po_status p = VISIBLE) && problem_published (fo_catalogue f) (po_problemId p)
  then Some p else None.
Definition open_thread (f : forum) (id : rowid) : option PostRow :=
  p ← open_post f id; if bool_decide (po_parentId p = None) then Some p else None.

(** ** Reading *)

Definition POSTS : nat := 20.

Definition thread (problemId : rowid) (p : PostRow) : Prop :=
  po_problemId p = problemId ∧ po_parentId p = None ∧ po_status p = VISIBLE.
Definition answer (postId : rowid) (p : PostRow) : Prop :=
  po_parentId p = Some postId ∧ po_status p = VISIBLE.
#[export] Instance thread_dec i p : Decision (thread i p). Proof. unfold thread. apply _. Defined.
#[export] Instance answer_dec i p : Decision (answer i p). Proof. unfold answer. apply _. Defined.

(** The row a cursor names, if the query of the boundary finds it. *)
Definition boundary (P : PostRow → Prop) `{!∀ p, Decision (P p)} (f : forum) (cursor : option rowid) :
    option PostRow :=
  c ← cursor; p ← fo_posts f !! c; if decide (P p) then Some p else None.

Definition list_ (slug : jsstr) (cursor : option rowid) (f : forum) :
    result (list DiscussionPost * option rowid) :=
  match publishedProblem (fo_catalogue f) slug with
  | Err e => Err e
  | Ok problemId =>
      match cursor, boundary (thread problemId) f cursor with
      | Some _, None => Err (ApiError 400 "INVALID_CURSOR" None)
      | _, b =>
          let rows := query_skip (newest po_createdAt po_id) POSTS b
                        (filter (thread problemId) (posts f)) in
          Ok (page_rows po_id (project f) POSTS rows)
      end
  end.

Definition replies (postId : rowid) (cursor : option rowid) (f : forum) :
    result (list DiscussionPost * option rowid) :=
  match open_thread f postId with
  | None => Err not_found
  | Some _ =>
      match cursor, boundary (answer postId) f cursor with
      | Some _, None => Err (ApiError 400 "INVALID_CURSOR" None)
      | _, b =>
          let rows := query_skip (oldest po_createdAt po_id) POSTS b (filter (answer postId) (posts f)) in
          Ok (page_rows po_id (project f) POSTS rows)
      end
  end.

(** ** Writing *)

(** [INSERT ... ON CONFLICT DO UPDATE ... RETURNING count] at the transaction's time [now]. *)
Definition next_limit (now : Z) (l : option LimitRow) : LimitRow :=
  match l with
  | None => mkLimit 1 (now + 60000)
  | Some r => if lm_expiresAt r <=? now then mkLimit 1 (now + 60000)
              else mkLimit (lm_count r + 1) (lm_expiresAt r)
  end.

Definition consumeWriteQuota (now : Z) (userId : rowid) : tx forum unit :=
  f ← the_forum;
  _ ← raise_if (negb (has_user f userId)) (DbError "P2003");
  let row := next_limit now (fo_limits f !! userId) in
  _ ← modify (set_limits (<[userId := row]> (fo_limits f)));
  raise_if (10 <? lm_count row) (ApiError 429 "DISCUSSION_RATE_LIMITED" (Some 60)).

(** [at_] is the time Prisma stamps on the row. *)
Definition create (id : rowid) (now at_ : Z) (slug : jsstr) (userId : rowid) (input : CreateDiscussion)
    (seen f : forum) : result DiscussionPost * forum :=
  match publishedProblem (fo_catalogue seen) slug with
  | Err e => (Err e, f)
  | Ok problemId =>
      transaction
        (_ ← consumeWriteQuota now userId;
         let row := mkPost id problemId userId None (Some (cd_title input)) (cd_body input) VISIBLE at_ at_ in
         _ ← post_create row;
         f1 ← the_forum;
         _ ← forum_audit userId "DISCUSSION_CREATE" id;
         mret (project f1 row)) f
  end.

Definition reply (id : rowid) (now at_ : Z) (postId userId : rowid) (body : jsstr) (seen f : forum) :
    result DiscussionPost * forum :=
  match open_thread seen postId with
  | None => (Err not_found, f)
  | Some parent =>
      transaction
        (_ ← consumeWriteQuota now userId;
         let row := mkPost id (po_problemId parent) userId (Some (po_id parent)) None body VISIBLE at_ at_ in
         _ ← post_create row;
         f1 ← the_forum;
         _ ← forum_audit userId "DISCUSSION_REPLY_CREATE" id;
         mret (project f1 row)) f
  end.

Record LikeState := mkLikeState { ls_postId : rowid; ls_liked : bool; ls_likeCount : nat }.

Definition like (postId userId : rowid) (liked : bool) (seen f : forum) : result LikeState * forum :=
  match open_post seen postId with
  | None => (Err not_found, f)
  | Some _ =>
      transaction
        (f0 ← the_forum;
         _ ← (if liked then
                _ ← raise_if (bool_decide (fo_posts f0 !! postId = None) || negb (has_user f0 userId))
                      (DbError "P2003");
                modify (set_likes ({[(postId, userId)]} ∪ fo_likes f0))
              else modify (set_likes (fo_likes f0 ∖ {[(postId, userId)]})));
         f1 ← the_forum;
         mret (mkLikeState postId liked (length (likes_of f1 postId)))) f
  end.

Record ReportReceipt := mkReportReceipt {
  rc_id : rowid; rc_status : ReportStatus; rc_reason : ReportReason; rc_createdAt : Z
}.
(** [catch (error) { if P2002 throw ALREADY_REPORTED }]. *)
Definition already_reported {A S} (r : result A * S) : result A * S :=
  match r with
  | (Err (DbError code), f) =>
      if String.eqb code "P2002" then (Err (ApiError 409 "ALREADY_REPORTED" None), f) else r
  | _ => r
  end.

Definition report (id : rowid) (at_ : Z) (postId userId : rowid) (input : ReportInput) (seen f : forum) :
    result ReportReceipt * forum :=
  match open_post seen postId with
  | None => (Err not_found, f)
  | Some post =>
      if bool_decide (po_authorId post = userId) then (Err (ApiError 409 "SELF_REPORT_FORBIDDEN" None), f) else
      already_reported (transaction
        (_ ← report_create (mkReport id postId userId (ri_reason input) (ri_details input) PENDING None None
                              at_ None);
         _ ← forum_audit userId "DISCUSSION_REPORT_CREATE" id;
         mret (mkReportReceipt id PENDING (ri_reason input) at_)) f)
  end.

(** The user's own last hundred reports. *)
Definition reports (userId : rowid) (f : forum) : list ReportRow :=
  take 100 (merge_sort (newest rr_createdAt rr_id)
    (filter (λ r, rr_reporterId r = userId) (map_to_list (fo_reports f)).*2)).

(** ** Moderation *)

Definition status_name (s : DiscussionStatus) : string :=
  match s with VISIBLE => "VISIBLE" | HIDDEN_POST => "HIDDEN" | DELETED => "DELETED" end.
Definition report_status_name (s : ReportStatus) : string :=
  match s with PENDING => "PENDING" | RESOLVED => "RESOLVED" | DISMISSED => "DISMISSED" end.

Definition moderate (now : Z) (actorId postId : rowid) (status : DiscussionStatus) (seen f : forum) :
    result DiscussionStatus * forum :=
  match fo_posts seen !! postId with
  | None => (Err not_found, f)
  | Some _ =>
      transaction
        (f0 ← the_forum;
         _ ← raise_if (bool_decide (fo_posts f0 !! postId = None)) (DbError "P2025");
         _ ← modify (set_posts (alter (with_status status now) postId (fo_posts f0)));
         _ ← forum_audit actorId ("DISCUSSION_" +:+ status_name status) postId;
         mret status) f
  end.

(** The reports a list of ids names. *)
Definition named (ids : list rowid) (r : ReportRow) : Prop := rr_id r ∈ ids.
#[export] Instance named_dec ids r : Decision (named ids r). Proof. unfold named. apply _. Defined.

(** [updateMany({where: {id: {in: ids}, status: 'PENDING'}, data})]. *)
Definition settle_report (actorId : rowid) (input : ResolveInput) (resolvedAt : Z) (r : ReportRow) : ReportRow :=
  mkReport (rr_id r) (rr_postId r) (rr_reporterId r) (rr_reason r) (rr_details r) (rv_status input)
    (Some actorId) (Some (rv_moderatorNote input)) (rr_createdAt r) (Some resolvedAt).
Definition settle_named (ids : list rowid) (actorId : rowid) (input : ResolveInput) (resolvedAt : Z)
    (r : ReportRow) : ReportRow :=
  if bool_decide (rr_id r ∈ ids) && bool_decide (rr_status r = PENDING)
  then settle_report actorId input resolvedAt r else r.
Definition restatus (postIds : list rowid) (status : DiscussionStatus) (now : Z) (p : PostRow) : PostRow :=
  if bool_decide (po_id p ∈ postIds) then with_status status now p else p.

(** [[...reportIds].sort()]. *)
Definition sort_ids (ids : list rowid) : list rowid := merge_sort uuid_before ids.

Definition resolveReportsAtomic (resolvedAt now : Z) (actorId : rowid) (reportIds : list rowid)
    (input : ResolveInput) (f : forum) : result (list (rowid * ReportStatus * Z)) * forum :=
  let ids := sort_ids reportIds in
  transaction
    (f0 ← the_forum;
     let found := filter (named ids) (map_to_list (fo_reports f0)).*2 in
     _ ← raise_if (negb (length found =? length ids)%nat) not_found;
     _ ← raise_if (existsb (λ r, negb (bool_decide (rr_status r = PENDING))) found)
           (ApiError 409 "REPORT_ALREADY_REVIEWED" None);
     _ ← match rv_postStatus input with
         | Some status => modify (set_posts (restatus (rr_postId <$> found) status now <$> fo_posts f0))
         | None => mret tt
         end;
     _ ← raise_if (negb (storable (rv_moderatorNote input))) (DbError "22021");
     _ ← raise_if (existsb (λ r, negb (report_checks (settle_report actorId input resolvedAt r))) found)
           (DbError "23514");
     _ ← raise_if (negb (has_user f0 actorId)) (DbError "P2003");
     f1 ← the_forum;
     _ ← modify (set_reports (settle_named ids actorId input resolvedAt <$> fo_reports f1));
     _ ← for_each (λ id, forum_audit actorId ("CONTENT_REPORT_" +:+ report_status_name (rv_status input)) id) ids;
     mret ((λ id, (id, rv_status input, resolvedAt)) <$> ids)) f.

Definition resolveReport (resolvedAt now : Z) (actorId reportId : rowid) (input : ResolveInput) (f : forum) :
    result (option (rowid * ReportStatus * Z)) * forum :=
  match resolveReportsAtomic resolvedAt now actorId [reportId] input f with
  | (Ok l, f') => (Ok (head l), f')
  | (Err e, f') => (Err e, f')
  end.
Definition bulkResolveReports (resolvedAt now : Z) (actorId : rowid) (input : ResolveInput * list rowid)
    (f : forum) : result (list (rowid * ReportStatus * Z)) * forum :=
  resolveReportsAtomic resolvedAt now actorId input.2 input.1 f.

(** The moderation queue: fifty reports of a status. *)
Definition REPORTS : nat := 50.
Definition moderation (status : ReportStatus) (cursor : option rowid) (f : forum) :
    result (list ReportRow * option rowid) :=
  let row := c ← cursor; r ← fo_reports f !! c;
             if decide (rr_status r = status) then Some r else None in
  match cursor, row with
  | Some _, None => Err (ApiError 400 "INVALID_CURSOR" None)
  | _, _ =>
      let rows := query_before rr_createdAt rr_id REPORTS row
                    (filter (λ r, rr_status r = status) (map_to_list (fo_reports f)).*2) in
      let items := take REPORTS rows in
      Ok (items, if (REPORTS <? length rows)%nat then rr_id <$> last items else None)
  end.
