(* ===== verification/Publication.v ===== *)
(** * Published versions are immutable

    Whatever the administrators do, and however stale the reads their handlers start from, the
    judge plan of a published version stays the same. *)

From S2P Require Import Prelude JsText Contracts Judge JsString RuntimePolicy Catalogue.
Local Open Scope Z_scope.

(** ** Administration as a sequence of steps *)

Inductive admin_op :=
| A_create (fresh : nat → rowid) (actorId : rowid) (input : ProblemInput)
| A_edit (fresh : nat → rowid) (actorId id : rowid) (input : ProblemInput) (seen : catalogue)
| A_publication (actorId id : rowid) (published : bool) (seen : catalogue)
| A_delete (actorId id : rowid) (seen : catalogue)
| A_references (executed contested : gset rowid).

Definition admin_step (c : catalogue) (o : admin_op) : catalogue :=
  match o with
  | A_create fresh actorId input => (createProblem fresh actorId input c).2
  | A_edit fresh actorId id input seen => (editProblem fresh actorId id input seen c).2
  | A_publication actorId id published seen => (setProblemPublication actorId id published seen c).2
  | A_delete actorId id seen => (deleteProblem actorId id seen c).2
  | A_references executed contested =>
      mkCatalogue (cat_problems c) (cat_versions c) (cat_tests c) executed contested (cat_audit c)
  end.

(** Published versions and their tests are as they were. *)
Definition frozen (c c' : catalogue) : Prop :=
  ∀ vid v, cat_versions c !! vid = Some v → vr_published v = true →
  cat_versions c' !! vid = Some v ∧ tests_of c' vid = tests_of c vid.

#[export] Instance frozen_preorder : PreOrder frozen.
Proof.
  split; [intros c vid v ? ?; done|]. intros c1 c2 c3 H12 H23 vid v Hv Hp.
  destruct (H12 vid v Hv Hp) as [Hv2 E2]. destruct (H23 vid v Hv2 Hp) as [Hv3 E3].
  split; congruence.
Qed.

(** Every test belongs to a version (the foreign key). *)
Definition tests_owned (c : catalogue) : Prop :=
  ∀ t, t ∈ cat_tests c → is_Some (cat_versions c !! tr_problemVersionId t).

(** ** Primitives *)

Lemma raise_if_Ok {S} b e (s : S) u s' : raise_if b e s = Ok (u, s') → b = false ∧ s' = s.
Proof. unfold raise_if, throw. destruct b; [done|]. by intros [= _ <-]. Qed.

Ltac inv_cat :=
  repeat match goal with
  | H : get _ = Ok _ |- _ => apply gets_Ok in H as [-> ->]
  | H : raise_if _ _ _ = Ok _ |- _ =>
      let H1 := fresh "Hck" in apply raise_if_Ok in H as [H1 ->]
  | H : audit _ _ _ _ = Ok _ |- _ => apply modify_Ok in H; subst
  | _ => progress inv_tx
  end.

Lemma existsb_false {A} (p : A → bool) l x : existsb p l = false → x ∈ l → p x = false.
Proof.
  intros H Hx. destruct (p x) eqn:E; [|done]. rewrite <- H. symmetry. apply existsb_exists.
  exists x. by rewrite <- list_elem_of_In.
Qed.

Lemma problem_create_keeps id slug c u c' :
  problem_create id slug c = Ok (u, c') → cat_versions c' = cat_versions c ∧ cat_tests c' = cat_tests c.
Proof. unfold problem_create. intros H. inv_cat. done. Qed.

Lemma problem_set_current_keeps id cur c u c' :
  problem_set_current id cur c = Ok (u, c') →
  cat_versions c' = cat_versions c ∧ cat_tests c' = cat_tests c.
Proof.
  unfold problem_set_current. intros H. inv_cat. destruct (cat_problems c !! id); [|done].
  inv_cat. done.
Qed.

Lemma problem_delete_keeps id c u c' :
  problem_delete id c = Ok (u, c') → cat_versions c' = cat_versions c ∧ cat_tests c' = cat_tests c.
Proof. unfold problem_delete. intros H. inv_cat. done. Qed.

Lemma version_create_Ok v c u c' :
  version_create v c = Ok (u, c') →
  cat_versions c !! vr_id v = None ∧ c' = set_versions (<[vr_id v := v]> (cat_versions c)) c.
Proof.
  unfold version_create. intros H. inv_cat.
  match goal with Hck : _ || _ = false |- _ => apply orb_false_iff in Hck as [Hck _];
    rewrite bool_decide_eq_false, <- eq_None_not_Some in Hck end. done.
Qed.

Record inserted (t : TestRow) (c c' : catalogue) : Prop := {
  in_row : c' = set_tests (cat_tests c ++ [t]) c;
  in_draft : published_in c (tr_problemVersionId t) = false;
  in_owner : is_Some (cat_versions c !! tr_problemVersionId t);
  in_fresh : ∀ r, r ∈ cat_tests c → tr_id r ≠ tr_id t;
  in_files : forallb file_checks (tr_files t) = true
}.

Lemma test_create_Ok t c u c' : test_create t c = Ok (u, c') → inserted t c c'.
Proof.
  unfold test_create. intros H. inv_cat. split; try done.
  - by rewrite bool_decide_eq_false, not_eq_None_Some in Hck3.
  - intros r Hr E. apply (existsb_false _ _ r) in Hck1; [|done].
    rewrite orb_false_iff, bool_decide_eq_false in Hck1. naive_solver.
  - by apply negb_false_iff in Hck0.
Qed.

Lemma version_publish_Ok vid c u c' :
  version_publish vid c = Ok (u, c') →
  ∃ v, cat_versions c !! vid = Some v ∧ vr_published v = false ∧
       c' = set_versions (<[vid := with_published v]> (cat_versions c)) c.
Proof.
  unfold version_publish. intros H. inv_cat. destruct (cat_versions c !! vid) as [v|] eqn:Ev; [|done].
  inv_cat. eauto.
Qed.

(** ** Every write keeps published versions and the ownership of tests *)

Definition good (c c' : catalogue) : Prop := frozen c c' ∧ (tests_owned c → tests_owned c').

#[export] Instance good_preorder : PreOrder good.
Proof.
  split; [by intros c|]. intros c1 c2 c3 [F1 O1] [F2 O2]. split; [by etrans|auto].
Qed.

Lemma good_same c c' :
  cat_versions c' = cat_versions c → cat_tests c' = cat_tests c → good c c'.
Proof.
  intros Ev Et. split.
  - intros vid v Hv _. unfold tests_of. by rewrite Ev, Et.
  - intros Ho t. rewrite Et, Ev. apply Ho.
Qed.

Lemma problem_create_good id slug c u c' : problem_create id slug c = Ok (u, c') → good c c'.
Proof. intros [? ?]%problem_create_keeps. by apply good_same. Qed.
Lemma problem_set_current_good id cur c u c' : problem_set_current id cur c = Ok (u, c') → good c c'.
Proof. intros [? ?]%problem_set_current_keeps. by apply good_same. Qed.
Lemma problem_delete_good id c u c' : problem_delete id c = Ok (u, c') → good c c'.
Proof. intros [? ?]%problem_delete_keeps. by apply good_same. Qed.

Lemma version_create_good v c u c' : version_create v c = Ok (u, c') → good c c'.
Proof.
  intros [Hn ->]%version_create_Ok. split.
  - intros vid w Hw _. cbn. rewrite lookup_insert_ne by congruence. done.
  - intros Ho t Ht. cbn in *. destruct (decide (vr_id v = tr_problemVersionId t)) as [<-|Hne].
    + rewrite lookup_insert_eq. eauto.
    + rewrite lookup_insert_ne by done. by apply Ho.
Qed.

Lemma test_create_good t c u c' : test_create t c = Ok (u, c') → good c c'.
Proof.
  intros [-> Hd Ho _ _]%test_create_Ok. split.
  - intros vid v Hv Hp. split; [done|]. unfold tests_of. cbn. rewrite filter_app, filter_cons_False.
    + by rewrite filter_nil, app_nil_r.
    + intros <-. unfold published_in in Hd. by rewrite Hv, Hp in Hd.
  - intros Hc r. cbn. rewrite elem_of_app, list_elem_of_singleton. intros [Hr| ->]; [by apply Hc|done].
Qed.

Lemma version_publish_good vid c u c' : version_publish vid c = Ok (u, c') → good c c'.
Proof.
  intros (v & Hv & Hp & ->)%version_publish_Ok. split.
  - intros w x Hx Hpx. cbn. rewrite lookup_insert_ne by congruence. done.
  - intros Ho t Ht. cbn in *. destruct (decide (vid = tr_problemVersionId t)) as [<-|Hne].
    + rewrite lookup_insert_eq. eauto.
    + rewrite lookup_insert_ne by done. by apply Ho.
Qed.

Lemma tests_delete_good id c u c' : tests_delete id c = Ok (u, c') → good c c'.
Proof.
  unfold tests_delete. intros H. inv_cat. split.
  - intros vid v Hv Hp. split; [done|]. unfold tests_of. cbn.
    rewrite list_filter_filter. apply filter_ext_in. intros t Ht.
    apply (existsb_false _ _ t) in Hck; [|done]. cbn in Hck. split; [by intros [? _]|].
    intros <-. split; [done|]. unfold published_in in Hck. rewrite Hv, Hp, andb_true_r in Hck. done.
  - intros Ho t. cbn. rewrite list_elem_of_filter. intros [_ Ht]. by apply Ho.
Qed.

Lemma versions_delete_good id c u c' : versions_delete id c = Ok (u, c') → good c c'.
Proof.
  unfold versions_delete. intros H. inv_cat. split.
  - intros vid v Hv Hp. split; [|done]. cbn. apply map_lookup_filter_Some. split; [done|].
    apply (existsb_false _ _ (vid, v)) in Hck1; [|by apply elem_of_map_to_list].
    cbn in *. by rewrite Hp, andb_true_r in Hck1.
  - intros Ho t Ht. cbn in *. destruct (Ho t Ht) as [v Hv]. exists v.
    apply map_lookup_filter_Some. split; [done|].
    apply (existsb_false _ _ t) in Hck; [|done]. unfold version_of_problem in Hck.
    by rewrite Hv in Hck.
Qed.

Lemma audit_good a s i c u c' : audit a s i c = Ok (u, c') → good c c'.
Proof. intros ->%modify_Ok. by apply good_same. Qed.

(** ** Handlers *)

Create HintDb catalogue.
#[export] Hint Resolve version_create_good test_create_good version_publish_good tests_delete_good
  versions_delete_good audit_good problem_create_good problem_set_current_good
  problem_delete_good : catalogue.
Lemma for_each_good {A} (f : A → tx catalogue unit) l c u c' :
  (∀ a c1 u1 c2, f a c1 = Ok (u1, c2) → good c1 c2) → for_each f l c = Ok (u, c') → good c c'.
Proof.
  intros Hf. apply (for_each_inv (good c)); [|reflexivity]. intros a c1 u1 c2 _ Hc H.
  etrans; [exact Hc|by eapply Hf].
Qed.

Lemma write_version_good fresh pid n input c u c' :
  write_version fresh pid n input c = Ok (u, c') → good c c'.
Proof.
  unfold write_version. intros H. inv_cat. apply version_create_good in Hrun.
  apply for_each_good in Hrun0; [|eauto with catalogue].
  etrans; [exact Hrun|]. etrans; [exact Hrun0|].
  destruct (pi_publish input); inv_cat; [|done]. apply version_publish_good in Hrun1.
  etrans; [exact Hrun1|eauto with catalogue].
Qed.

Lemma transaction_good {A} (m : tx catalogue A) c :
  (∀ a c', m c = Ok (a, c') → good c c') → good c (transaction m c).2.
Proof.
  intros Hm. unfold transaction. destruct (m c) as [[a c']|e] eqn:E; cbn; [by eapply Hm|done].
Qed.

Lemma createProblem_good fresh a input c : good c (createProblem fresh a input c).2.
Proof.
  unfold createProblem. assert (∀ A (r : result A * catalogue), (slug_taken r).2 = r.2) as E.
  { intros A [[?|[]] ?]; cbn; try done. by destruct (String.eqb _ _). }
  rewrite E. apply transaction_good. intros r c' H. cbn in H. inv_cat.
  apply write_version_good in Hrun0. etrans; [by eauto with catalogue|].
  etrans; [exact Hrun0|by apply good_same].
Qed.

Lemma editProblem_good fresh a id input seen c : good c (editProblem fresh a id input seen c).2.
Proof.
  unfold editProblem. destruct (cat_problems seen !! id); [|done]. destruct (negb _); [done|].
  apply transaction_good. intros r c' H. inv_cat. apply write_version_good in Hrun0.
  etrans; [exact Hrun0|by apply good_same].
Qed.

Lemma setProblemPublication_good a id p seen c : good c (setProblemPublication a id p seen c).2.
Proof.
  unfold setProblemPublication. destruct (cat_problems seen !! id); [|done].
  destruct (_ && _); [done|]. apply transaction_good. intros r c' H. inv_cat.
  etrans; [|etrans; [by eauto with catalogue|by apply good_same]].
  destruct (latest_version seen id) as [v|]; [destruct (_ && _)|]; inv_cat; eauto with catalogue; done.
Qed.

Lemma deleteProblem_good a id seen c : good c (deleteProblem a id seen c).2.
Proof.
  unfold deleteProblem. destruct (cat_problems seen !! id); [|done]. destruct (_ || _); [done|].
  apply transaction_good. intros r c' H. inv_cat.
  do 4 (etrans; [by eauto with catalogue|]). by apply good_same.
Qed.

Lemma admin_step_good c o : good c (admin_step c o).
Proof.
  destruct o; cbn; [apply createProblem_good|apply editProblem_good|apply setProblemPublication_good
    |apply deleteProblem_good|by apply good_same].
Qed.

Lemma admin_run_good ops c : good c (foldl admin_step c ops).
Proof.
  revert c. induction ops as [|o ops IH]; intros c; cbn; [reflexivity|].
  etrans; [apply admin_step_good|apply IH].
Qed.

(** C11: a published version is immutable for the judge.  Once [loadJudgePlan] loads a plan for
    a version, it loads the same plan (limits, test cases, files, expected outputs) after any
    sequence of problem administration (creations, edits, publications, unpublications and
    deletions, with arbitrarily stale initial reads) and of new executions and competitions:
    every execution of a version is judged against the same tests. *)
Theorem published_plan_immutable collate ops c versionId mode plan :
  loadJudgePlan collate c versionId mode = Ok plan →
  loadJudgePlan collate (foldl admin_step c ops) versionId mode = Ok plan.
Proof.
  unfold loadJudgePlan. destruct (cat_versions c !! versionId) as [v|] eqn:Ev; [|done].
  destruct (negb (vr_published v) || _) eqn:Ep; [done|].
  destruct (admin_run_good ops c) as [HF _].
  destruct (HF versionId v Ev) as [Ev' Et]; [by destruct (vr_published v)|].
  by rewrite Ev', Ep, Et.
Qed.
