(* ===== verification/Forum.v ===== *)
(** * What the discussions keep

    The operations of [Discussions.v] as steps of a run, each with its stale reads taken from an
    earlier state, and what every run keeps: the shape of threads, the references between the
    tables, one report per reader and post, never by its author, and the write quota. *)

From S2P Require Import Prelude Paging JsText Contracts Judge JsString RuntimePolicy Catalogue.
From S2P Require Import Publication Discussions.
Local Open Scope Z_scope.

(** ** Runs *)

Inductive forum_op :=
| F_create (id : rowid) (now at_ : Z) (slug : jsstr) (userId : rowid) (input : CreateDiscussion) (seen : forum)
| F_reply (id : rowid) (now at_ : Z) (postId userId : rowid) (body : jsstr) (seen : forum)
| F_like (postId userId : rowid) (liked : bool) (seen : forum)
| F_report (id : rowid) (at_ : Z) (postId userId : rowid) (input : ReportInput) (seen : forum)
| F_moderate (now : Z) (actorId postId : rowid) (status : DiscussionStatus) (seen : forum)
| F_resolve (resolvedAt now : Z) (actorId : rowid) (reportIds : list rowid) (input : ResolveInput)
| F_catalogue (o : admin_op)
| F_user (id : rowid) (author : Author).

(** [ON DELETE CASCADE] of the foreign keys to problems and posts. *)
Definition cascade (f : forum) : forum :=
  let kept := filter (λ r, is_Some (cat_problems (fo_catalogue f) !! po_problemId r.2)) (fo_posts f) in
  mkForum (fo_catalogue f) (fo_users f) kept
    (filter (λ l, is_Some (kept !! l.1)) (fo_likes f)) (fo_limits f)
    (filter (λ r, is_Some (kept !! rr_postId r.2)) (fo_reports f)).

Definition forum_step (f : forum) (o : forum_op) : forum :=
  match o with
  | F_create id now at_ slug userId input seen => (create id now at_ slug userId input seen f).2
  | F_reply id now at_ postId userId body seen => (reply id now at_ postId userId body seen f).2
  | F_like postId userId liked seen => (like postId userId liked seen f).2
  | F_report id at_ postId userId input seen => (report id at_ postId userId input seen f).2
  | F_moderate now actorId postId status seen => (moderate now actorId postId status seen f).2
  | F_resolve resolvedAt now actorId reportIds input =>
      (resolveReportsAtomic resolvedAt now actorId reportIds input f).2
  | F_catalogue o => cascade (set_catalogue (admin_step (fo_catalogue f) o) f)
  | F_user id author =>
      mkForum (fo_catalogue f) (<[id := author]> (fo_users f)) (fo_posts f) (fo_likes f) (fo_limits f)
        (fo_reports f)
  end.

(** What a step read before its transaction, and the id it drew for a new post or report. *)
Definition op_seen (o : forum_op) : option forum :=
  match o with
  | F_create _ _ _ _ _ _ seen | F_reply _ _ _ _ _ _ seen | F_like _ _ _ seen
  | F_report _ _ _ _ _ seen | F_moderate _ _ _ _ seen => Some seen
  | _ => None
  end.
Definition op_post (o : forum_op) : option rowid :=
  match o with F_create id _ _ _ _ _ _ | F_reply id _ _ _ _ _ _ => Some id | _ => None end.
Definition op_report (o : forum_op) : option rowid :=
  match o with F_report id _ _ _ _ _ => Some id | _ => None end.

(** A run, latest state first: every read before a transaction saw some state of the run, and
    no id is drawn twice. *)
Inductive forum_run (f0 : forum) : list forum → Prop :=
| run_start : forum_run f0 [f0]
| run_step f hist o :
    forum_run f0 (f :: hist) →
    (∀ seen, op_seen o = Some seen → seen ∈ f :: hist) →
    (∀ id g, op_post o = Some id → g ∈ f :: hist → fo_posts g !! id = None) →
    (∀ id g, op_report o = Some id → g ∈ f :: hist → fo_reports g !! id = None) →
    forum_run f0 (forum_step f o :: f :: hist).

(** ** What each transaction does when it commits *)

Record posted (now : Z) (p : PostRow) (f f' : forum) : Prop := {
  pt_posts : fo_posts f' = <[po_id p := p]> (fo_posts f);
  pt_limits : fo_limits f' = <[po_authorId p := next_limit now (fo_limits f !! po_authorId p)]> (fo_limits f);
  pt_quota : lm_count (next_limit now (fo_limits f !! po_authorId p)) ≤ 10;
  pt_same : fo_users f' = fo_users f ∧ fo_likes f' = fo_likes f ∧ fo_reports f' = fo_reports f
            ∧ cat_problems (fo_catalogue f') = cat_problems (fo_catalogue f);
  pt_parent : enforce_discussion_parent f p = true;
  pt_checks : post_checks p = true;
  pt_fresh : fo_posts f !! po_id p = None;
  pt_problem : is_Some (cat_problems (fo_catalogue f) !! po_problemId p);
  pt_user : is_Some (fo_users f !! po_authorId p)
}.

Ltac inv_forum :=
  repeat match goal with
  | H : the_forum _ = Ok _ |- _ => apply gets_Ok in H as [-> ->]
  | H : forum_audit _ _ _ _ = Ok _ |- _ => apply modify_Ok in H; subst
  | _ => progress inv_cat
  end.

Lemma has_user_true f u : has_user f u = true ↔ is_Some (fo_users f !! u).
Proof. apply bool_decide_eq_true. Qed.

(** Reads the guards that a committed transaction passed. *)
Ltac guards :=
  repeat match goal with
  | H : negb _ = false |- _ => apply negb_false_iff in H
  | H : (_ || _) = false |- _ => let H1 := fresh "Hg" in let H2 := fresh "Hg" in
      apply orb_false_iff in H as [H1 H2]
  | H : (_ && _) = true |- _ => let H1 := fresh "Hg" in let H2 := fresh "Hg" in
      apply andb_true_iff in H as [H1 H2]
  | H : bool_decide (_ = None) = false |- _ => apply bool_decide_eq_false, not_eq_None_Some in H
  | H : bool_decide (is_Some _) = false |- _ => apply bool_decide_eq_false, eq_None_not_Some in H
  | H : has_user _ _ = true |- _ => apply has_user_true in H
  | H : (_ <? _) = false |- _ => apply Z.ltb_ge in H
  end.

Lemma post_posted now p (k : forum → tx forum DiscussionPost) f r f' :
  (∀ g a g', k g g = Ok (a, g') →
     fo_posts g' = fo_posts g ∧ fo_limits g' = fo_limits g ∧ fo_users g' = fo_users g ∧
     fo_likes g' = fo_likes g ∧ fo_reports g' = fo_reports g ∧
     cat_problems (fo_catalogue g') = cat_problems (fo_catalogue g)) →
  (_ ← consumeWriteQuota now (po_authorId p); _ ← post_create p; g ← the_forum; k g) f = Ok (r, f') →
  posted now p f f'.
Proof.
  intros Hk H. unfold consumeWriteQuota, post_create in H. inv_forum.
  apply Hk in H as (E1 & E2 & E3 & E4 & E5 & E6).
  guards. by split.
Qed.

(** A transaction commits or leaves the state. *)
Lemma transaction_cases {S A} (m : tx S A) s :
  (transaction m s).2 = s ∨ ∃ a, m s = Ok (a, (transaction m s).2).
Proof. unfold transaction. destruct (m s) as [[a s']|]; eauto. Qed.

Ltac commits f' r E :=
  match goal with
  | |- context [transaction ?m ?s] =>
      destruct (transaction_cases m s) as [->|[r E]]; [by left|right]; revert E;
      generalize (transaction m s).2; intros f' E
  end.

Lemma create_posted id now at_ slug u input seen f :
  (create id now at_ slug u input seen f).2 = f ∨
  ∃ p, po_id p = id ∧ po_authorId p = u ∧ posted now p f (create id now at_ slug u input seen f).2.
Proof.
  unfold create. destruct (publishedProblem _ _) as [pid|]; [|by left].
  commits f' r E.
  eexists. split_and!; [| |eapply post_posted; [|exact E]]; [done..|].
  intros g a g' H. cbn in H. inv_forum. done.
Qed.
Lemma reply_posted id now at_ postId u body seen f :
  (reply id now at_ postId u body seen f).2 = f ∨
  ∃ p, po_id p = id ∧ po_authorId p = u ∧ posted now p f (reply id now at_ postId u body seen f).2.
Proof.
  unfold reply. destruct (open_thread _ _) as [parent|]; [|by left].
  commits f' r E.
  eexists. split_and!; [| |eapply post_posted; [|exact E]]; [done..|].
  intros g a g' H. cbn in H. inv_forum. done.
Qed.

(** Tables other than the named one are the same. *)
Definition same_but_posts (f f' : forum) : Prop :=
  fo_users f' = fo_users f ∧ fo_likes f' = fo_likes f ∧ fo_limits f' = fo_limits f ∧
  cat_problems (fo_catalogue f') = cat_problems (fo_catalogue f).

Record liked_by (postId userId : rowid) (liked : bool) (f f' : forum) : Prop := {
  lb_likes : fo_likes f' = if liked then {[(postId, userId)]} ∪ fo_likes f
                           else fo_likes f ∖ {[(postId, userId)]};
  lb_same : same_but_posts (set_likes (fo_likes f') f) f' ∧ fo_posts f' = fo_posts f ∧ fo_reports f' = fo_reports f;
  lb_refs : liked = true → is_Some (fo_posts f !! postId) ∧ is_Some (fo_users f !! userId)
}.
Lemma like_liked postId u liked seen f :
  (like postId u liked seen f).2 = f ∨ liked_by postId u liked f (like postId u liked seen f).2.
Proof.
  unfold like. destruct (open_post _ _); [|by left].
  commits f' r E. destruct liked; inv_forum; guards; by split.
Qed.

Record reported (r : ReportRow) (f f' : forum) : Prop := {
  rd_reports : fo_reports f' = <[rr_id r := r]> (fo_reports f);
  rd_same : same_but_posts f f' ∧ fo_posts f' = fo_posts f;
  rd_checks : report_checks r = true;
  rd_fresh : fo_reports f !! rr_id r = None;
  rd_unique : ∀ k q, fo_reports f !! k = Some q → rr_postId q = rr_postId r → rr_reporterId q ≠ rr_reporterId r;
  rd_post : is_Some (fo_posts f !! rr_postId r);
  rd_user : is_Some (fo_users f !! rr_reporterId r)
}.
Lemma already_reported_state {A S} (r : result A * S) : (already_reported r).2 = r.2.
Proof. destruct r as [[|[]] ?]; cbn; try done. by destruct (String.eqb _ _). Qed.

Lemma report_reported id at_ postId u input seen f :
  (report id at_ postId u input seen f).2 = f ∨
  ∃ r post, rr_id r = id ∧ rr_postId r = postId ∧ rr_reporterId r = u ∧ rr_status r = PENDING ∧
    fo_posts seen !! postId = Some post ∧ po_authorId post ≠ u ∧
    reported r f (report id at_ postId u input seen f).2.
Proof.
  unfold report. destruct (open_post seen postId) as [post|] eqn:Eo; [|by left].
  case_bool_decide as Hu; [by left|]. rewrite already_reported_state.
  commits f' r E. unfold report_create in E. inv_forum. guards.
  exists (mkReport id postId u (ri_reason input) (ri_details input) PENDING None None at_ None), post.
  split_and!; [done..| | |].
  - unfold open_post in Eo. destruct (fo_posts seen !! postId); [|done]. cbn in Eo. by case_match; simplify_eq.
  - done.
  - split; try done. intros k q Hq E1 E2. cbn in *.
    match goal with H : existsb _ _ = false |- _ => apply (existsb_false _ _ (k, q)) in H as Hq' end;
      [|by apply elem_of_map_to_list].
    cbn in Hq'. by rewrite !bool_decide_eq_true_2 in Hq'.
Qed.

Record restated (now : Z) (postId : rowid) (s : DiscussionStatus) (f f' : forum) : Prop := {
  rs_posts : fo_posts f' = alter (with_status s now) postId (fo_posts f);
  rs_same : same_but_posts f f' ∧ fo_reports f' = fo_reports f
}.
Lemma moderate_restated now a postId s seen f :
  (moderate now a postId s seen f).2 = f ∨ restated now postId s f (moderate now a postId s seen f).2.
Proof.
  unfold moderate. destruct (fo_posts seen !! postId); [|by left].
  commits f' r E. inv_forum. by split.
Qed.

Definition found (ids : list rowid) (f : forum) : list ReportRow :=
  filter (named ids) (map_to_list (fo_reports f)).*2.

Record resolved (resolvedAt now : Z) (actorId : rowid) (ids : list rowid) (input : ResolveInput)
    (f f' : forum) : Prop := {
  rz_reports : fo_reports f' = settle_named ids actorId input resolvedAt <$> fo_reports f;
  rz_posts : fo_posts f' = match rv_postStatus input with
                           | Some s => restatus (rr_postId <$> found ids f) s now <$> fo_posts f
                           | None => fo_posts f
                           end;
  rz_same : same_but_posts f f';
  rz_count : length (found ids f) = length ids;
  rz_pending : ∀ r, r ∈ found ids f → rr_status r = PENDING ∧
                 report_checks (settle_report actorId input resolvedAt r) = true
}.

Lemma audits_keep actorId action ids f u f' :
  for_each (λ id, forum_audit actorId action id) ids f = Ok (u, f') →
  same_but_posts f f' ∧ fo_posts f' = fo_posts f ∧ fo_reports f' = fo_reports f.
Proof.
  apply (for_each_inv (λ g, same_but_posts f g ∧ fo_posts g = fo_posts f ∧ fo_reports g = fo_reports f)); [|done].
  intros id g u1 g' _ Hg H. by inv_forum.
Qed.

Lemma resolve_Ok resolvedAt now a ids input f l f' :
  resolveReportsAtomic resolvedAt now a ids input f = (Ok l, f') →
  l = (λ id, (id, rv_status input, resolvedAt)) <$> sort_ids ids ∧
  resolved resolvedAt now a (sort_ids ids) input f f'.
Proof.
  unfold resolveReportsAtomic. set (ids' := sort_ids ids). rewrite transaction_Ok. intros E.
  apply bind_Ok in E as (f0 & s0 & E0 & E). apply gets_Ok in E0 as [-> ->]. fold (found ids' f) in E.
  inv_forum. apply audits_keep in Hrun7 as (Hs & Hp & Hr).
  assert (∀ r, r ∈ found ids' f → rr_status r = PENDING ∧
            report_checks (settle_report a input resolvedAt r) = true) as Hall.
  { intros r Hin. apply (existsb_false _ _ r) in Hck0, Hck2; [|done..].
    apply negb_false_iff in Hck0, Hck2. by apply bool_decide_eq_true in Hck2. }
  apply negb_false_iff, Nat.eqb_eq in Hck3.
  split; [done|]. destruct (rv_postStatus input) eqn:Eps; inv_forum; split; rewrite ?Eps; done.
Qed.
Lemma resolve_resolved resolvedAt now a ids input f :
  (resolveReportsAtomic resolvedAt now a ids input f).2 = f ∨
  resolved resolvedAt now a (sort_ids ids) input f (resolveReportsAtomic resolvedAt now a ids input f).2.
Proof.
  destruct (resolveReportsAtomic resolvedAt now a ids input f) as [[l|e] f'] eqn:E; cbn.
  - right. by apply resolve_Ok in E as [_ ?].
  - left. unfold resolveReportsAtomic in E. by eapply transaction_err.
Qed.

(** ** The invariant *)

Record forum_ok (f : forum) : Prop := {
  fk_post : ∀ k p, fo_posts f !! k = Some p →
    po_id p = k ∧ post_checks p = true ∧
    is_Some (cat_problems (fo_catalogue f) !! po_problemId p) ∧ is_Some (fo_users f !! po_authorId p);
  fk_parent : ∀ k p q, fo_posts f !! k = Some p → po_parentId p = Some q →
    ∃ r, fo_posts f !! q = Some r ∧ po_parentId r = None ∧ po_problemId r = po_problemId p;
  fk_like : ∀ l, l ∈ fo_likes f → is_Some (fo_posts f !! l.1) ∧ is_Some (fo_users f !! l.2);
  fk_limit : ∀ u l, fo_limits f !! u = Some l → 1 ≤ lm_count l ≤ 10;
  fk_report : ∀ k r, fo_reports f !! k = Some r →
    rr_id r = k ∧ report_checks r = true ∧ is_Some (fo_posts f !! rr_postId r) ∧
    is_Some (fo_users f !! rr_reporterId r);
  fk_once : ∀ k k' r r', fo_reports f !! k = Some r → fo_reports f !! k' = Some r' →
    rr_postId r = rr_postId r' → rr_reporterId r = rr_reporterId r' → k = k'
}.

(** Moderation changes the status of a post and nothing else of it. *)
Definition core (p : PostRow) : PostRow := with_status VISIBLE 0 p.
Definition posts_kept (f f' : forum) : Prop := ∀ k, core <$> fo_posts f' !! k = core <$> fo_posts f !! k.

Lemma posts_kept_Some f f' k p' :
  posts_kept f f' → fo_posts f' !! k = Some p' → ∃ p, fo_posts f !! k = Some p ∧ core p = core p'.
Proof.
  intros Hk Hp. specialize (Hk k). rewrite Hp in Hk. cbn in Hk.
  destruct (fo_posts f !! k) as [p|]; [|done]. apply (inj Some) in Hk. eauto.
Qed.
Lemma posts_kept_back f f' k p :
  posts_kept f f' → fo_posts f !! k = Some p → ∃ p', fo_posts f' !! k = Some p' ∧ core p = core p'.
Proof.
  intros Hk Hp. specialize (Hk k). rewrite Hp in Hk. destruct (fo_posts f' !! k) as [p'|]; [|done].
  apply (inj Some) in Hk. eauto.
Qed.
Lemma posts_kept_is_Some f f' k :
  posts_kept f f' → is_Some (fo_posts f !! k) → is_Some (fo_posts f' !! k).
Proof. intros Hk [p Hp]. destruct (posts_kept_back _ _ _ _ Hk Hp) as (p' & -> & _). eauto. Qed.

Lemma core_eq p q :
  core p = core q →
  po_id p = po_id q ∧ po_problemId p = po_problemId q ∧ po_authorId p = po_authorId q ∧
  po_parentId p = po_parentId q ∧ post_checks p = post_checks q.
Proof. destruct p, q. unfold core, with_status, post_checks. cbn. intros [= -> -> -> -> -> -> ->]. done. Qed.

(** The posts, likes, limits and users of a valid forum stay valid when posts keep their core. *)
Lemma ok_posts_kept f f' :
  posts_kept f f' → same_but_posts f f' → fo_reports f' = fo_reports f → forum_ok f → forum_ok f'.
Proof.
  intros Hk (Eu & El & Em & Ec) Er [H1 H2 H3 H4 H5 H6]. split; rewrite ?Eu, ?El, ?Em, ?Er, ?Ec; try done.
  - intros k p' Hp'. destruct (posts_kept_Some _ _ _ _ Hk Hp') as (p & Hp & (<- & <- & <- & _ & <-)%core_eq).
    by apply H1.
  - intros k p' q Hp' Hq. destruct (posts_kept_Some _ _ _ _ Hk Hp') as (p & Hp & (_ & <- & _ & Epar & _)%core_eq).
    destruct (H2 k p q Hp) as (r & Hr & Hn & Epr); [congruence|].
    destruct (posts_kept_back _ _ _ _ Hk Hr) as (r' & Hr' & (_ & E1 & _ & E2 & _)%core_eq).
    exists r'. split_and!; [done|congruence..].
  - intros l [Hp Hu]%H3. split; [by eapply posts_kept_is_Some|done].
  - intros k r (? & ? & ? & ?)%H5. split_and!; try done. by eapply posts_kept_is_Some.
Qed.

Lemma restated_kept now postId s f f' : restated now postId s f f' → posts_kept f f'.
Proof.
  intros [Hp _] k. rewrite Hp. destruct (decide (k = postId)) as [->|Hne].
  - rewrite lookup_alter_eq. by destruct (fo_posts f !! postId).
  - by rewrite lookup_alter_ne.
Qed.
Lemma resolved_kept resolvedAt now a ids input f f' : resolved resolvedAt now a ids input f f' → posts_kept f f'.
Proof.
  intros [_ Hp _ _ _] k. rewrite Hp. destruct (rv_postStatus input); [|done]. rewrite lookup_fmap.
  destruct (fo_posts f !! k); [|done]. cbn. unfold restatus. by case_bool_decide.
Qed.

Lemma posted_ok now p f f' : posted now p f f' → forum_ok f → forum_ok f'.
Proof.
  intros [Ep Em Hq (Eu & El & Er & Ec) Hpar Hck Hf Hpr Hus] [H1 H2 H3 H4 H5 H6].
  assert (Hsome : ∀ k, is_Some (fo_posts f !! k) → is_Some (fo_posts f' !! k)).
  { intros k Hk. rewrite Ep. destruct (decide (po_id p = k)) as [<-|]; [rewrite lookup_insert_eq; eauto|].
    by rewrite lookup_insert_ne. }
  split; rewrite ?Eu, ?El, ?Er, ?Ec.
  - intros k q. rewrite Ep, lookup_insert_Some. intros [[<- <-]|[_ Hq']]; [done|by apply H1].
  - intros k q par. rewrite Ep, lookup_insert_Some. intros [[<- <-]|[_ Hq']] Hpq.
    + unfold enforce_discussion_parent in Hpar. rewrite Hpq in Hpar.
      destruct (fo_posts f !! par) as [r|] eqn:Hr; [|done]. guards. exists r.
      rewrite lookup_insert_ne by congruence. split_and!; [done|by eapply bool_decide_eq_true..].
    + destruct (H2 k q par Hq' Hpq) as (r & Hr & ? & ?). exists r. by rewrite lookup_insert_ne by congruence.
  - intros l [? ?]%H3. auto.
  - intros u l. rewrite Em, lookup_insert_Some. intros [[<- <-]|[_ Hl]]; [|by eapply H4].
    split; [|done]. unfold next_limit. destruct (fo_limits f !! po_authorId p) as [l|] eqn:El'; [|done].
    apply H4 in El'. destruct (_ <=? _); cbn; lia.
  - intros k r (? & ? & ? & ?)%H5. auto.
  - done.
Qed.

Lemma liked_ok postId u b f f' : liked_by postId u b f f' → forum_ok f → forum_ok f'.
Proof.
  intros [El ((Eu & _ & Em & Ec) & Ep & Er) Href] [H1 H2 H3 H4 H5 H6]. cbn in *.
  split; rewrite ?Eu, ?Ep, ?Er, ?Ec, ?Em; try done.
  intros l. rewrite El. destruct b; [|intros [Hl _]%elem_of_difference; by apply H3].
  rewrite elem_of_union, elem_of_singleton. intros [->|Hl]; [by apply Href|by apply H3].
Qed.

Lemma reported_ok r f f' : reported r f f' → forum_ok f → forum_ok f'.
Proof.
  intros [Er ((Eu & El & Em & Ec) & Ep) Hck Hf Hun Hpo Hus] [H1 H2 H3 H4 H5 H6].
  split; rewrite ?Eu, ?El, ?Ep, ?Ec, ?Em; try done.
  - intros k q. rewrite Er, lookup_insert_Some. intros [[<- <-]|[_ Hq]]; [done|by apply H5].
  - intros k k' q q'. rewrite Er, !lookup_insert_Some.
    intros [[<- <-]|[_ Hq]] [[<- <-]|[_ Hq']] E1 E2; try done.
    + by destruct (Hun k' q' Hq').
    + by destruct (Hun k q Hq).
    + by eapply H6.
Qed.

Lemma found_elem ids f r :
  forum_ok f → r ∈ found ids f ↔ fo_reports f !! rr_id r = Some r ∧ rr_id r ∈ ids.
Proof.
  intros Hok. unfold found, named. rewrite list_elem_of_filter, list_elem_of_fmap. split.
  - intros (Hi & [k q] & -> & Hk%elem_of_map_to_list). cbn in *.
    by destruct (fk_report f Hok k q Hk) as [<- _].
  - intros [Hr Hi]. split; [done|]. exists (rr_id r, r). by rewrite elem_of_map_to_list.
Qed.

Lemma settle_named_kept ids a input t r :
  rr_id (settle_named ids a input t r) = rr_id r ∧ rr_postId (settle_named ids a input t r) = rr_postId r ∧
  rr_reporterId (settle_named ids a input t r) = rr_reporterId r.
Proof. unfold settle_named. by destruct (_ && _). Qed.

Lemma resolved_ok resolvedAt now a ids input f f' :
  resolved resolvedAt now a ids input f f' → forum_ok f → forum_ok f'.
Proof.
  intros Hr Hok. pose proof (resolved_kept _ _ _ _ _ _ _ Hr) as Hk. destruct Hr as [Er _ Hs Hc Hp].
  assert (forum_ok (set_reports (fo_reports f) f')) as [H1 H2 H3 H4 H5 H6] by by apply (ok_posts_kept f).
  cbn in *. split; try done; rewrite Er.
  - intros k r'. rewrite lookup_fmap_Some. intros (r & <- & Hr). destruct (settle_named_kept ids a input resolvedAt r) as (-> & -> & ->).
    destruct (H5 k r Hr) as (<- & Hck & ? & ?). split_and!; try done.
    unfold settle_named. case_bool_decide; [|done]. case_bool_decide; [|done]. cbn.
    apply Hp. by rewrite found_elem.
  - intros k k' r1 r2. rewrite !lookup_fmap_Some. intros (q1 & <- & Hq1) (q2 & <- & Hq2).
    destruct (settle_named_kept ids a input resolvedAt q1) as (_ & -> & ->).
    destruct (settle_named_kept ids a input resolvedAt q2) as (_ & -> & ->). by eapply H6.
Qed.

Lemma cascade_lookup f k p :
  fo_posts (cascade f) !! k = Some p ↔
  fo_posts f !! k = Some p ∧ is_Some (cat_problems (fo_catalogue f) !! po_problemId p).
Proof. unfold cascade. cbn. by rewrite map_lookup_filter_Some. Qed.

(** After a cascade only the references to catalogue and users remain to be checked. *)
Lemma cascade_ok c f : forum_ok f → forum_ok (cascade (set_catalogue c f)).
Proof.
  intros [H1 H2 H3 H4 H5 H6]. split.
  - intros k p [Hp Hc]%cascade_lookup. cbn in *. destruct (H1 k p Hp) as (? & ? & _ & ?). done.
  - intros k p q [Hp Hc]%cascade_lookup Hq. destruct (H2 k p q Hp Hq) as (r & Hr & Hn & E).
    exists r. rewrite cascade_lookup. cbn in *. by rewrite E.
  - intros l. cbn. rewrite elem_of_filter. intros [Hl Hin]. split; [done|by apply H3].
  - done.
  - intros k r. cbn. rewrite map_lookup_filter_Some. intros [Hr Hs]. destruct (H5 k r Hr) as (? & ? & _ & ?). done.
  - intros k k' r r'. cbn. rewrite !map_lookup_filter_Some. intros [Hr _] [Hr' _]. by eapply H6.
Qed.

Lemma user_ok id a f : forum_ok f → forum_ok (forum_step f (F_user id a)).
Proof.
  intros [H1 H2 H3 H4 H5 H6].
  assert (Hu : ∀ u, is_Some (fo_users f !! u) → is_Some (<[id := a]> (fo_users f) !! u)).
  { intros u Hu. destruct (decide (id = u)) as [<-|]; [rewrite lookup_insert_eq; eauto|by rewrite lookup_insert_ne]. }
  split; cbn; try done.
  - intros k p (? & ? & ? & ?)%H1. auto.
  - intros l [? ?]%H3. auto.
  - intros k r (? & ? & ? & ?)%H5. auto.
Qed.

(** A step changes nothing or does what its transaction does. *)
Inductive effect (f : forum) : forum_op → forum → Prop :=
| eff_none o : effect f o f
| eff_create id now at_ slug u input seen p f' :
    po_id p = id → po_authorId p = u → posted now p f f' → effect f (F_create id now at_ slug u input seen) f'
| eff_reply id now at_ postId u body seen p f' :
    po_id p = id → po_authorId p = u → posted now p f f' → effect f (F_reply id now at_ postId u body seen) f'
| eff_like postId u b seen f' : liked_by postId u b f f' → effect f (F_like postId u b seen) f'
| eff_report id at_ postId u input seen r post f' :
    rr_id r = id → rr_postId r = postId → rr_reporterId r = u → rr_status r = PENDING →
    fo_posts seen !! postId = Some post → po_authorId post ≠ u → reported r f f' →
    effect f (F_report id at_ postId u input seen) f'
| eff_moderate now a postId s seen f' : restated now postId s f f' → effect f (F_moderate now a postId s seen) f'
| eff_resolve t now a ids input f' :
    resolved t now a (sort_ids ids) input f f' → effect f (F_resolve t now a ids input) f'
| eff_catalogue o : effect f (F_catalogue o) (cascade (set_catalogue (admin_step (fo_catalogue f) o) f))
| eff_user id a : effect f (F_user id a) (forum_step f (F_user id a)).

Lemma step_effect f o : effect f o (forum_step f o).
Proof.
  destruct o; cbn [forum_step]; [| | | | | |by constructor..].
  - destruct (create_posted id now at_ slug userId input seen f) as [->|(p & <- & <- & Hp)];
      [constructor|by econstructor].
  - destruct (reply_posted id now at_ postId userId body seen f) as [->|(p & <- & <- & Hp)];
      [constructor|by econstructor].
  - destruct (like_liked postId userId liked seen f) as [->|H]; by constructor.
  - destruct (report_reported id at_ postId userId input seen f) as [->|(r & post & <- & <- & <- & ? & ? & ? & ?)];
      [constructor|by econstructor].
  - destruct (moderate_restated now actorId postId status seen f) as [->|H]; by constructor.
  - destruct (resolve_resolved resolvedAt now actorId reportIds input f) as [->|H]; by constructor.
Qed.

Lemma step_ok f o : forum_ok f → forum_ok (forum_step f o).
Proof.
  intros Hok. destruct (step_effect f o) as [|? ? ? ? ? ? ? ? ? _ _ H|? ? ? ? ? ? ? ? ? _ _ H|? ? ? ? ? H|
    ? ? ? ? ? ? ? ? ? _ _ _ _ _ _ H|? ? ? ? ? ? H|? ? ? ? ? ? H|o|id a].
  - done.
  - by eapply posted_ok.
  - by eapply posted_ok.
  - by eapply liked_ok.
  - by eapply reported_ok.
  - apply (ok_posts_kept f); [by eapply restated_kept|apply H|apply H|done].
  - by eapply resolved_ok.
  - by apply cascade_ok.
  - by apply user_ok.
Qed.

(** ** What a step may do to a post and to a report *)

Lemma step_posts f o k p' :
  fo_posts (forum_step f o) !! k = Some p' →
  (∃ p, fo_posts f !! k = Some p ∧ core p = core p') ∨ op_post o = Some k.
Proof.
  destruct (step_effect f o) as [|? ? ? ? ? ? ? p ? <- _ H|? ? ? ? ? ? ? p ? <- _ H|? ? ? ? ? H|
    ? ? ? ? ? ? ? ? ? _ _ _ _ _ _ H|? ? ? ? ? ? H|? ? ? ? ? ? H|o|id a]; [eauto| | | | | | | |cbn; eauto].
  1,2: rewrite (pt_posts _ _ _ _ H), lookup_insert_Some; intros [[<- <-]|[_ Hp]]; eauto.
  - destruct H as [_ (_ & -> & _) _]. eauto.
  - destruct H as [_ (_ & ->) _ _ _ _ _]. eauto.
  - intros Hp. left. eapply posts_kept_Some; [by eapply restated_kept|done].
  - intros Hp. left. eapply posts_kept_Some; [by eapply resolved_kept|done].
  - intros [Hp _]%cascade_lookup. eauto.
Qed.

(** A report keeps its post and reporter, and once reviewed it never changes. *)
Definition report_kept (r r' : ReportRow) : Prop :=
  rr_postId r' = rr_postId r ∧ rr_reporterId r' = rr_reporterId r ∧ (rr_status r ≠ PENDING → r' = r).
Lemma report_kept_refl r : report_kept r r. Proof. done. Qed.
Lemma report_kept_trans r1 r2 r3 : report_kept r1 r2 → report_kept r2 r3 → report_kept r1 r3.
Proof.
  intros (E1 & E2 & H1) (E3 & E4 & H2). split_and!; [congruence..|]. intros Hs.
  specialize (H1 Hs) as ->. auto.
Qed.

Lemma settle_named_report ids a input t r : report_kept r (settle_named ids a input t r).
Proof.
  destruct (settle_named_kept ids a input t r) as (_ & E1 & E2). split_and!; [done..|].
  intros Hs. unfold settle_named. by rewrite (bool_decide_eq_false_2 _ Hs), andb_false_r.
Qed.

Lemma step_reports f o k r' :
  fo_reports (forum_step f o) !! k = Some r' →
  (∃ r, fo_reports f !! k = Some r ∧ report_kept r r') ∨
  (op_report o = Some k ∧ ∃ seen post, op_seen o = Some seen ∧
     fo_posts seen !! rr_postId r' = Some post ∧ po_authorId post ≠ rr_reporterId r').
Proof.
  destruct (step_effect f o) as [|? ? ? ? ? ? ? p ? <- _ H|? ? ? ? ? ? ? p ? <- _ H|? ? ? ? ? H|
    ? ? ? ? ? ? r post ? <- <- <- _ Hpost Hne H|? ? ? ? ? ? H|? ? ? ? ? ? H|o|id a];
    [eauto using report_kept_refl| | | | | | | |cbn; eauto using report_kept_refl].
  1,2: destruct (pt_same _ _ _ _ H) as (_ & _ & -> & _); eauto using report_kept_refl.
  - destruct H as [_ (_ & _ & ->) _]. eauto using report_kept_refl.
  - rewrite (rd_reports _ _ _ H), lookup_insert_Some. intros [[<- <-]|[_ Hr]]; [right|eauto using report_kept_refl].
    split; [done|]. by exists seen, post.
  - destruct H as [_ (_ & ->)]. eauto using report_kept_refl.
  - rewrite (rz_reports _ _ _ _ _ _ _ H), lookup_fmap_Some. intros (r & <- & Hr). left.
    exists r. split; [done|apply settle_named_report].
  - cbn. rewrite map_lookup_filter_Some. intros [Hr _]. eauto using report_kept_refl.
Qed.

(** ** The history of a run *)

(** Between an earlier and a later state, posts keep their content and reports their review. *)
Definition remembers (g f : forum) : Prop :=
  (∀ k p p', fo_posts g !! k = Some p → fo_posts f !! k = Some p' → core p = core p') ∧
  (∀ k r r', fo_reports g !! k = Some r → fo_reports f !! k = Some r' → report_kept r r').

Lemma remembers_refl f : remembers f f.
Proof. split; intros; simplify_eq; [done|apply report_kept_refl]. Qed.

Lemma run_remembers f0 f hist g : forum_run f0 (f :: hist) → g ∈ f :: hist → remembers g f.
Proof.
  remember (f :: hist) as l eqn:El. intros Hr. revert f hist El g.
  induction Hr as [|f1 hist1 o Hrun IH Hseen Hnp Hnr]; intros f hist [= <- <-] g.
  { intros ->%list_elem_of_singleton. apply remembers_refl. }
  rewrite elem_of_cons. intros [->|Hg]; [apply remembers_refl|].
  destruct (IH f1 hist1 eq_refl g Hg) as [IHp IHr]. split.
  - intros k p p' Hp Hp'. destruct (step_posts _ _ _ _ Hp') as [(q & Hq & <-)|Hk]; [by eapply IHp|].
    by rewrite (Hnp k g) in Hp.
  - intros k r r' Hr Hr'. destruct (step_reports _ _ _ _ Hr') as [(q & Hq & Hkq)|[Hk _]];
      [|by rewrite (Hnr k g) in Hr]. eapply report_kept_trans; [by eapply IHr|done].
Qed.

Definition no_self_reports (f : forum) : Prop :=
  ∀ k r p, fo_reports f !! k = Some r → fo_posts f !! rr_postId r = Some p → po_authorId p ≠ rr_reporterId r.

Lemma no_self_step f0 f hist o :
  forum_run f0 (forum_step f o :: f :: hist) → (∀ seen, op_seen o = Some seen → seen ∈ f :: hist) →
  forum_ok f → no_self_reports f → no_self_reports (forum_step f o).
Proof.
  intros Hrun Hseen Hok Hn k r p Hr Hp.
  assert (Hpast : ∀ g q, g ∈ f :: hist → fo_posts g !! rr_postId r = Some q → po_authorId q = po_authorId p).
  { intros g q Hg Hq. destruct (run_remembers _ _ _ g Hrun) as [H _]; [by right|].
    by destruct (core_eq _ _ (H _ _ _ Hq Hp)) as (_ & _ & E & _). }
  destruct (step_reports _ _ _ _ Hr) as [(r0 & Hr0 & E1 & E2 & _)|(_ & seen & post & Hs & Hpost & Hne)].
  - destruct (fk_report _ Hok _ _ Hr0) as (_ & _ & [q Hq] & _). rewrite <- E1 in Hq.
    rewrite <- (Hpast f q), E2 by (done || left). eapply Hn; [done|by rewrite <- E1].
  - by rewrite <- (Hpast seen post) by auto.
Qed.

(** C32: along every run, whatever state each operation read before its transaction, threads stay one
    level deep within one problem, posts, likes and reports refer to what exists, nobody reports a
    post twice or reports an own post, the texts of a post never change, and a report that was
    reviewed is never touched again. *)
Theorem forum_run_safe f0 f hist :
  forum_ok f0 → no_self_reports f0 → forum_run f0 (f :: hist) →
  forum_ok f ∧ no_self_reports f ∧ ∀ g, g ∈ f :: hist → remembers g f.
Proof.
  intros Hok Hns Hrun.
  assert (forum_ok f ∧ no_self_reports f) as [? ?]; [|split_and!; [done..|intros g; by apply (run_remembers f0)]].
  remember (f :: hist) as l eqn:El. revert f hist El.
  induction Hrun as [|f1 hist1 o Hrun IH Hseen Hnp Hnr]; intros f hist [= <- <-]; [done|].
  destruct (IH f1 hist1 eq_refl) as [H1 H2]. split; [by apply step_ok|].
  eapply no_self_step; [by constructor|done..].
Qed.

(** ** The write quota *)

Definition posts_by (u : rowid) (f : forum) : nat := size (filter (λ r, po_authorId r.2 = u) (fo_posts f)).

(** The time of the transaction that writes a post. *)
Definition op_now (o : forum_op) : option Z :=
  match o with F_create _ now _ _ _ _ _ | F_reply _ now _ _ _ _ _ => Some now | _ => None end.
Definition in_minute (t : Z) (o : forum_op) : Prop :=
  match op_now o with Some now => t ≤ now < t + 60000 | None => True end.

(** How many posts a user may still write in the minute that starts at [t]. *)
Definition room (t : Z) (u : rowid) (f : forum) : Z :=
  match fo_limits f !! u with
  | None => 10
  | Some l => if lm_expiresAt l <=? t then 10
              else if t + 60000 <=? lm_expiresAt l then 10 - lm_count l else 20 - lm_count l
  end.

Lemma posts_by_mono u f f' :
  (∀ k p', fo_posts f' !! k = Some p' → po_authorId p' = u →
     ∃ p, fo_posts f !! k = Some p ∧ po_authorId p = u) →
  (posts_by u f' ≤ posts_by u f)%nat.
Proof.
  intros H. unfold posts_by. rewrite <- !size_dom. apply subseteq_size. intros k.
  rewrite !elem_of_dom. intros [p' [Hp' Ha]%map_lookup_filter_Some]. destruct (H k p' Hp' Ha) as (p & Hp & Hau).
  exists p. by apply map_lookup_filter_Some.
Qed.

Lemma posts_by_kept u f o : op_post o = None → (posts_by u (forum_step f o) ≤ posts_by u f)%nat.
Proof.
  intros Ho. apply posts_by_mono. intros k p' Hp' Ha.
  destruct (step_posts _ _ _ _ Hp') as [(p & Hp & (_ & _ & E & _)%core_eq)|Hk]; [|congruence].
  exists p. split; [done|congruence].
Qed.

Lemma posted_by now p f f' u :
  posted now p f f' → posts_by u f' = (posts_by u f + if bool_decide (po_authorId p = u) then 1 else 0)%nat.
Proof.
  intros H. unfold posts_by. rewrite (pt_posts _ _ _ _ H). pose proof (pt_fresh _ _ _ _ H) as Hf.
  case_bool_decide as Ha.
  - rewrite map_filter_insert_True by done. rewrite map_size_insert_None; [lia|].
    apply map_lookup_filter_None. by left.
  - rewrite map_filter_insert_False by done. rewrite delete_id by done. lia.
Qed.

(** Writing a post uses up room. *)
Lemma posted_room t now p f f' u :
  forum_ok f → t ≤ now < t + 60000 → posted now p f f' →
  Z.of_nat (posts_by u f') + room t u f' ≤ Z.of_nat (posts_by u f) + room t u f.
Proof.
  intros Hok Ht H. rewrite (posted_by _ _ _ _ u H). unfold room. rewrite (pt_limits _ _ _ _ H).
  pose proof (pt_quota _ _ _ _ H) as Hq. case_bool_decide as Ha; cycle 1.
  { rewrite lookup_insert_ne by done. lia. }
  rewrite <- Ha, lookup_insert_eq. unfold next_limit in *.
  destruct (fo_limits f !! po_authorId p) as [l|] eqn:El; cbn in *.
  - pose proof (fk_limit _ Hok _ _ El). repeat case_match; cbn in *; lia.
  - repeat case_match; lia.
Qed.

Lemma limits_kept f o : op_post o = None → fo_limits (forum_step f o) = fo_limits f.
Proof.
  destruct (step_effect f o) as [|? ? ? ? ? ? ? ? ? _ _ H|? ? ? ? ? ? ? ? ? _ _ H|? ? ? ? ? H|
    ? ? ? ? ? ? ? ? ? _ _ _ _ _ _ H|? ? ? ? ? ? H|? ? ? ? ? ? H|o|id a]; try done.
  - by destruct H as [_ ((_ & _ & -> & _) & _) _].
  - by destruct H as [_ ((_ & _ & -> & _) & _) _ _ _ _ _].
  - by destruct H as [_ ((_ & _ & -> & _) & _)].
  - by destruct H as [_ _ (_ & _ & -> & _) _ _].
Qed.

Lemma step_room t f o u :
  forum_ok f → in_minute t o →
  Z.of_nat (posts_by u (forum_step f o)) + room t u (forum_step f o) ≤ Z.of_nat (posts_by u f) + room t u f.
Proof.
  intros Hok Ht. destruct (op_post o) as [id|] eqn:Eo; cycle 1.
  { pose proof (posts_by_kept u f o Eo). unfold room. rewrite limits_kept by done. lia. }
  destruct o; try done; cbn [forum_step].
  - destruct (create_posted id0 now at_ slug userId input seen f) as [->|(p & _ & _ & Hp)]; [lia|].
    by eapply posted_room; [|exact Ht|exact Hp].
  - destruct (reply_posted id0 now at_ postId userId body seen f) as [->|(p & _ & _ & Hp)]; [lia|].
    by eapply posted_room; [|exact Ht|exact Hp].
Qed.

Lemma ops_room t ops f u :
  forum_ok f → (∀ o, o ∈ ops → in_minute t o) →
  Z.of_nat (posts_by u (foldl forum_step f ops)) + room t u (foldl forum_step f ops)
    ≤ Z.of_nat (posts_by u f) + room t u f
  ∧ forum_ok (foldl forum_step f ops).
Proof.
  revert f. induction ops as [|o ops IH]; intros f Hok Ht; cbn; [by split; [lia|]|].
  destruct (IH (forum_step f o)) as [IH1 IH2]; [by apply step_ok|intros o' Ho'; apply Ht; by right|].
  split; [|done]. pose proof (step_room t f o u Hok (Ht o ltac:(left))). lia.
Qed.

Lemma room_bounds t u f : forum_ok f → 0 ≤ room t u f ≤ 20.
Proof.
  intros Hok. unfold room. destruct (fo_limits f !! u) as [l|] eqn:El; [|lia].
  pose proof (fk_limit _ Hok _ _ El). repeat case_match; lia.
Qed.

(** The write quota.  Within any minute, whatever else happens, a user gains at most twenty posts,
    and at most ten when no window of the quota was open at its start: the window is fixed, so two
    of them can meet within a minute. *)
Lemma write_quota t u f ops :
  forum_ok f → (∀ o, o ∈ ops → in_minute t o) →
  (posts_by u (foldl forum_step f ops) ≤ posts_by u f + 20)%nat ∧
  ((∀ l, fo_limits f !! u = Some l → lm_expiresAt l ≤ t) →
   (posts_by u (foldl forum_step f ops) ≤ posts_by u f + 10)%nat).
Proof.
  intros Hok Ht. destruct (ops_room t ops f u Hok Ht) as [Hr Hok'].
  pose proof (room_bounds t u _ Hok). pose proof (room_bounds t u _ Hok'). split; [lia|].
  intros Hl. assert (room t u f = 10); [|lia]. unfold room.
  destruct (fo_limits f !! u) as [l|]; [|done]. by rewrite (proj2 (Z.leb_le _ _) (Hl l eq_refl)).
Qed.
