(* ===== verification/Threads.v ===== *)
(** * What readers and moderators get

    The pages of threads and replies enumerate exactly the visible posts; likes count readers;
    reports are reviewed all or none. *)

From S2P Require Import Prelude Paging JsText Contracts Judge JsString RuntimePolicy Catalogue.
From S2P Require Import Publication Discussions Forum.
Local Open Scope Z_scope.

Section Reading.
Context (f : forum) (Hok : forum_ok f).

Lemma posts_elem (P : PostRow → Prop) `{!∀ p, Decision (P p)} p :
  p ∈ filter P (posts f) ↔ fo_posts f !! po_id p = Some p ∧ P p.
Proof.
  unfold posts. rewrite list_elem_of_filter, list_elem_of_fmap. split.
  - intros (HP & [k q] & -> & Hk%elem_of_map_to_list). cbn in *.
    by destruct (fk_post f Hok k q Hk) as [-> _].
  - intros [Hp HP]. split; [done|]. exists (po_id p, p). by rewrite elem_of_map_to_list.
Qed.

Lemma posts_ids (P : PostRow → Prop) `{!∀ p, Decision (P p)} : NoDup (po_id <$> filter P (posts f)).
Proof. apply filter_keys_NoDup. intros k p Hp. symmetry. apply (fk_post f Hok k p Hp). Qed.

Lemma boundary_row (P : PostRow → Prop) `{!∀ p, Decision (P p)} c :
  c ∈ filter P (posts f) → boundary P f (Some (po_id c)) = Some c.
Proof. intros [Hc HP]%posts_elem. unfold boundary. cbn. rewrite Hc. cbn. by rewrite decide_True. Qed.

(** The posts a reader may see, in the order of the pages. *)
Definition threads (problemId : rowid) : list PostRow :=
  merge_sort (newest po_createdAt po_id) (filter (thread problemId) (posts f)).
Definition answers (postId : rowid) : list PostRow :=
  merge_sort (oldest po_createdAt po_id) (filter (answer postId) (posts f)).

#[local] Instance threads_pager slug problemId :
  publishedProblem (fo_catalogue f) slug = Ok problemId →
  Pager po_id (project f) POSTS (λ c, list_ slug c f) (threads problemId).
Proof.
  intros Hp. split.
  - unfold list_. rewrite Hp. cbn [boundary mbind option_bind query_skip].
    by rewrite page_rows_take by (unfold POSTS; lia).
  - intros pre c post E. unfold list_. rewrite Hp.
    rewrite boundary_row; cycle 1.
    { rewrite <- (merge_sort_Permutation (newest po_createdAt po_id)). fold (threads problemId).
      rewrite E. set_solver. }
    rewrite (query_newest_next po_createdAt po_id _ (posts_ids _) _ pre c post E).
    by rewrite page_rows_take by (unfold POSTS; lia).
Qed.

#[local] Instance answers_pager postId parent :
  open_thread f postId = Some parent →
  Pager po_id (project f) POSTS (λ c, replies postId c f) (answers postId).
Proof.
  intros Hp. split.
  - unfold replies. rewrite Hp. cbn [boundary mbind option_bind query_skip].
    by rewrite page_rows_take by (unfold POSTS; lia).
  - intros pre c post E. unfold replies. rewrite Hp.
    rewrite boundary_row; cycle 1.
    { rewrite <- (merge_sort_Permutation (oldest po_createdAt po_id)). fold (answers postId).
      rewrite E. set_solver. }
    rewrite (query_oldest_next po_createdAt po_id _ (posts_ids _) _ pre c post E).
    by rewrite page_rows_take by (unfold POSTS; lia).
Qed.

Lemma sorted_once (R : relation PostRow) `{!RelDecision R} (P : PostRow → Prop) `{!∀ p, Decision (P p)} :
  NoDup (merge_sort R (filter P (posts f))) ∧
  ∀ p, p ∈ merge_sort R (filter P (posts f)) ↔ fo_posts f !! po_id p = Some p ∧ P p.
Proof.
  split; [rewrite merge_sort_Permutation; apply (NoDup_fmap_1 po_id), posts_ids|].
  intros p. rewrite merge_sort_Permutation. apply posts_elem.
Qed.

(** C33: following the cursors of a published problem's discussions lists its visible threads, newest
    first, and following those of a thread lists its visible replies, oldest first: each exactly
    once, in at most one request more than there are rows. *)
Theorem threads_enumerated slug problemId fuel :
  publishedProblem (fo_catalogue f) slug = Ok problemId →
  (length (threads problemId) < fuel)%nat →
  follow (λ c, list_ slug c f) fuel None = project f <$> threads problemId ∧
  NoDup (threads problemId) ∧
  (∀ p, p ∈ threads problemId ↔ fo_posts f !! po_id p = Some p ∧ thread problemId p) ∧
  ∀ p fuel', p ∈ threads problemId → (length (answers (po_id p)) < fuel')%nat →
    follow (λ c, replies (po_id p) c f) fuel' None = project f <$> answers (po_id p) ∧
    NoDup (answers (po_id p)) ∧
    ∀ q, q ∈ answers (po_id p) ↔ fo_posts f !! po_id q = Some q ∧ answer (po_id p) q.
Proof.
  intros Hp Hf. destruct (sorted_once (newest po_createdAt po_id) (thread problemId)) as [Hn He].
  split_and!; [|done..|].
  - apply (follow_all po_id (project f) POSTS); [by apply threads_pager|unfold POSTS; lia|done].
  - intros p fuel' (Hpo & Epr & Epa & Est)%He Hf'.
    assert (open_thread f (po_id p) = Some p) as Ho.
    { unfold open_thread, open_post. rewrite Hpo. cbn.
      unfold publishedProblem in Hp. destruct (list_find _ _) as [[i [id row]]|]; [|done].
      destruct (problem_published _ id) eqn:Epub; [injection Hp as ->|done].
      rewrite bool_decide_eq_true_2, Epr, Epub by done. cbn. by rewrite bool_decide_eq_true_2. }
    split; [|apply (sorted_once (oldest po_createdAt po_id) (answer (po_id p)))].
    apply (follow_all po_id (project f) POSTS); [by eapply answers_pager|unfold POSTS; lia|done].
Qed.
End Reading.

(** ** Likes *)

Definition likes_after (postId u : rowid) (liked : bool) (f : forum) : gset (rowid * rowid) :=
  if liked then {[(postId, u)]} ∪ fo_likes f else fo_likes f ∖ {[(postId, u)]}.

Lemma like_Ok postId u liked seen f s f' :
  like postId u liked seen f = (Ok s, f') ↔
  is_Some (open_post seen postId) ∧
  (liked = true → is_Some (fo_posts f !! postId) ∧ is_Some (fo_users f !! u)) ∧
  f' = set_likes (likes_after postId u liked f) f ∧
  s = mkLikeState postId liked (length (likes_of f' postId)).
Proof.
  unfold like. destruct (open_post seen postId) as [p|]; [|split; [done|by intros ([? ?] & _)]].
  rewrite transaction_Ok. split.
  - intros H. destruct liked; inv_forum; guards; split_and!; eauto; done.
  - intros (_ & Href & -> & ->). destruct liked; cbn; [|done].
    destruct Href as [Hp Hu]; [done|]. unfold mbind, tx_bind, raise_if. cbn.
    rewrite bool_decide_eq_false_2 by (by apply not_eq_None_Some). by rewrite (proj2 (has_user_true f u) Hu).
Qed.

Lemma likes_elem postId f l : l ∈ likes_of f postId ↔ l.1 = postId ∧ l ∈ fo_likes f.
Proof. unfold likes_of. by rewrite list_elem_of_filter, elem_of_elements. Qed.
Lemma likes_after_elem postId u liked f l :
  l ∈ fo_likes (set_likes (likes_after postId u liked f) f) ↔
  if decide (l = (postId, u)) then liked = true else l ∈ fo_likes f.
Proof. unfold likes_after. cbn. case_decide; destruct liked; set_solver. Qed.

Lemma likes_after_idem postId u liked f :
  likes_after postId u liked (set_likes (likes_after postId u liked f) f) = likes_after postId u liked f.
Proof. unfold likes_after. apply set_eq. intros l. destruct liked; cbn; set_solver. Qed.

(** A post's like count is the number of readers who like it, each counted once: liking or
    unliking sets that reader's entry and no other, the count returned is that of the new state, and
    repeating the request returns the same reply and changes nothing. *)
Lemma like_idempotent postId u liked seen f s f' :
  like postId u liked seen f = (Ok s, f') →
  ls_likeCount s = length (likes_of f' postId) ∧ NoDup (likes_of f' postId) ∧
  (∀ v, (postId, v) ∈ likes_of f' postId ↔ if decide (v = u) then liked = true else (postId, v) ∈ likes_of f postId) ∧
  (∀ other, other ≠ postId → likes_of f' other ≡ₚ likes_of f other) ∧
  like postId u liked seen f' = (Ok s, f').
Proof.
  intros (Hs & Href & -> & ->)%like_Ok. split_and!.
  - done.
  - apply NoDup_filter, NoDup_elements.
  - intros v. rewrite likes_elem, likes_after_elem. cbn. case_decide as E; case_decide as E'; try naive_solver.
    rewrite likes_elem. naive_solver.
  - intros other Hne. apply NoDup_Permutation; [apply NoDup_filter, NoDup_elements..|].
    intros [p v]. rewrite !likes_elem, likes_after_elem. cbn. case_decide; naive_solver.
  - apply like_Ok. cbn. split_and!; try done; by rewrite likes_after_idem.
Qed.

(** ** Reports *)

(** A list of distinct ids of existing reports finds as many rows as it has ids. *)
Lemma found_all f ids :
  forum_ok f →
  length (found ids f) = length ids ↔ NoDup ids ∧ ∀ id, id ∈ ids → is_Some (fo_reports f !! id).
Proof.
  intros Hok. assert (NoDup (rr_id <$> found ids f)) as Hn.
  { apply filter_keys_NoDup. intros k r Hr. symmetry. apply (fk_report f Hok k r Hr). }
  assert (∀ x, x ∈ rr_id <$> found ids f ↔ x ∈ ids ∧ is_Some (fo_reports f !! x)) as Hin.
  { intros x. rewrite list_elem_of_fmap. split.
    - intros (r & -> & [Hr ?]%found_elem); [eauto|done].
    - intros [Hx [r Hr]]. destruct (fk_report f Hok x r Hr) as [<- _]. exists r. by rewrite found_elem. }
  rewrite <- (length_fmap rr_id). split.
  - intros Hl. assert ((rr_id <$> found ids f) ≡ₚ ids) as Hp.
    { apply submseteq_length_Permutation; [|lia]. apply NoDup_submseteq; [done|]. intros x. rewrite Hin. tauto. }
    rewrite <- Hp at 1. split; [done|]. intros id. rewrite <- Hp. rewrite Hin. tauto.
  - intros [Hd Hs]. apply Permutation_length, NoDup_Permutation; [done..|]. intros x. rewrite Hin. naive_solver.
Qed.

Lemma sort_ids_perm ids : sort_ids ids ≡ₚ ids.
Proof. apply merge_sort_Permutation. Qed.

Lemma found_sorted ids f : found (sort_ids ids) f = found ids f.
Proof. apply list_filter_iff. intros r. unfold named. by rewrite sort_ids_perm. Qed.

(** The reports a decision may settle: distinct, existing and not yet reviewed. *)
Definition reviewable (f : forum) (ids : list rowid) : Prop :=
  NoDup ids ∧ ∀ id, id ∈ ids → ∃ r, fo_reports f !! id = Some r ∧ rr_status r = PENDING.
(** The decision as the database can store it, by a moderator who exists. *)
Definition decidable (f : forum) (actorId : rowid) (input : ResolveInput) : Prop :=
  rv_status input ≠ PENDING ∧ storable (rv_moderatorNote input) = true ∧
  chars_in 3 1000 (rv_moderatorNote input) = true ∧ is_Some (fo_users f !! actorId).

Lemma reviewable_found f ids :
  forum_ok f →
  reviewable f ids ↔ length (found (sort_ids ids) f) = length (sort_ids ids) ∧
    ∀ r, r ∈ found (sort_ids ids) f → rr_status r = PENDING.
Proof.
  intros Hok. rewrite found_all, sort_ids_perm by done.
  assert (∀ id, id ∈ sort_ids ids ↔ id ∈ ids) as Hi by (intros; by rewrite sort_ids_perm). split.
  - intros [Hn Hp]. split_and!; [done| |].
    + intros id Hid%Hi. destruct (Hp id Hid) as (r & ? & _). eauto.
    + intros r [Hr Hid%Hi]%found_elem; [|done]. destruct (Hp _ Hid) as (r' & Hr' & ?). congruence.
  - intros [[Hn Hs] Hp]. split; [done|]. intros id Hid. destruct (Hs id) as [r Hr]; [by apply Hi|].
    exists r. split; [done|]. apply Hp, found_elem; [done|].
    destruct (fk_report f Hok id r Hr) as [<- _]. split; [done|by apply Hi].
Qed.

Lemma settled_checks f a input t r :
  decidable f a input → report_checks r = true → report_checks (settle_report a input t r) = true.
Proof.
  intros (Hs & _ & Hn & _). unfold report_checks, settle_report. cbn. rewrite Hn.
  intros [[-> _]%andb_true_iff _]%andb_true_iff. by destruct (rv_status input).
Qed.

Lemma audits_run actorId action ids f : ∃ f', for_each (λ id, forum_audit actorId action id) ids f = Ok (tt, f').
Proof.
  revert f. induction ids as [|i ids IH]; intros f; cbn; [by eexists|].
  erewrite bind_run by done. apply IH.
Qed.

Lemma resolve_succeeds t now a ids input f :
  forum_ok f → reviewable f ids → decidable f a input →
  ∃ f', resolveReportsAtomic t now a ids input f
        = (Ok ((λ id, (id, rv_status input, t)) <$> sort_ids ids), f').
Proof.
  intros Hok [Hl Hp]%reviewable_found Hd; [|done]. unfold resolveReportsAtomic. setoid_rewrite transaction_Ok.
  erewrite bind_run by done. fold (found (sort_ids ids) f).
  rewrite Hl, Nat.eqb_refl. erewrite bind_run by done.
  assert (∀ (p : ReportRow → bool), (∀ r, r ∈ found (sort_ids ids) f → p r = false) →
            existsb p (found (sort_ids ids) f) = false) as He.
  { intros p H. apply not_true_iff_false. rewrite existsb_exists. intros (r & Hr%list_elem_of_In & E).
    by rewrite H in E. }
  rewrite (He (λ r, negb (bool_decide (rr_status r = PENDING)))), (He (λ r, negb (report_checks _))).
  2:{ intros r Hr. apply found_elem in Hr as [Hr _]; [|done]. apply negb_false_iff.
      eapply settled_checks; [exact Hd|]. by apply (fk_report f Hok (rr_id r)). }
  2:{ intros r Hr%Hp. by rewrite (bool_decide_eq_true_2 _ Hr). }
  erewrite bind_run by done. destruct Hd as (_ & Hst & _ & Hu%has_user_true).
  destruct (rv_postStatus input); (erewrite bind_run by done); rewrite Hst, Hu; cbn [negb];
    do 5 (erewrite bind_run by done);
    match goal with |- context [(for_each _ _ ≫= _) ?g] => destruct (audits_run a
      ("CONTENT_REPORT_" +:+ report_status_name (rv_status input)) (sort_ids ids) g) as [f' E] end;
    (erewrite bind_run by exact E); by eexists.
Qed.

(** A decision over several reports settles all of them, restates their posts and nothing else,
    exactly when they are distinct, existing and still pending and the decision can be stored;
    otherwise nothing changes. *)
Lemma resolve_all_or_none t now a ids input f :
  forum_ok f →
  match resolveReportsAtomic t now a ids input f with
  | (Ok l, f') =>
      reviewable f ids ∧ l ≡ₚ ((λ id, (id, rv_status input, t)) <$> ids) ∧
      (∀ k, fo_reports f' !! k = if decide (k ∈ ids) then settle_report a input t <$> fo_reports f !! k
                                 else fo_reports f !! k) ∧
      (∀ k, fo_posts f' !! k =
         match rv_postStatus input with
         | Some s => if decide (k ∈ rr_postId <$> found ids f)
                     then with_status s now <$> fo_posts f !! k else fo_posts f !! k
         | None => fo_posts f !! k
         end)
  | (Err _, f') => f' = f ∧ ¬ (reviewable f ids ∧ decidable f a input)
  end.
Proof.
  intros Hok. destruct (resolveReportsAtomic t now a ids input f) as [[l|e] f'] eqn:E.
  - apply resolve_Ok in E as [-> [Er Ep _ Hc Hp]].
    assert (reviewable f ids) as Hrev by (apply reviewable_found; [done|]; naive_solver).
    split_and!; [done|by rewrite sort_ids_perm| |].
    + intros k. rewrite Er, lookup_fmap. destruct (fo_reports f !! k) as [r|] eqn:Hr; cbn; [|by case_decide].
      destruct (fk_report f Hok k r Hr) as [<- _]. unfold settle_named. case_decide as Hk.
      * destruct Hrev as [_ Hrev]. destruct (Hrev _ Hk) as (r' & Hr' & Hs). simplify_eq.
        rewrite !bool_decide_eq_true_2; [done|done|by rewrite sort_ids_perm].
      * rewrite bool_decide_eq_false_2; [done|by rewrite sort_ids_perm].
    + intros k. rewrite Ep, found_sorted. destruct (rv_postStatus input); [|done]. rewrite lookup_fmap.
      destruct (fo_posts f !! k) as [p|] eqn:Hpk; cbn; [|by case_decide].
      destruct (fk_post f Hok k p Hpk) as [<- _]. unfold restatus. case_bool_decide; by case_decide.
  - split; [unfold resolveReportsAtomic in E; by eapply transaction_err|]. intros [Hr Hd].
    destruct (resolve_succeeds t now a ids input f) as [g Eg]; [done..|]. congruence.
Qed.

(** ** Creating a thread *)

(** Code points and code units of a text: between half as many and as many. *)
Lemma char_length_bounds s : slen s ≤ 2 * char_length s ∧ char_length s ≤ slen s.
Proof.
  unfold slen, char_length.
  induction s as [|u|u v s E IH|u v s E IH] using points_ind; autorewrite with js_text; cbn [length points] in *; lia.
Qed.

(** The row a creation inserts. *)
Definition thread_row (id problemId u : rowid) (input : CreateDiscussion) (at_ : Z) : PostRow :=
  mkPost id problemId u None (Some (cd_title input)) (cd_body input) VISIBLE at_ at_.

Lemma schema_bounds raw input :
  createDiscussionSchema raw = Ok input →
  5 ≤ slen (cd_title input) ≤ 120 ∧ 1 ≤ slen (cd_body input) ≤ 4000.
Proof.
  unfold createDiscussionSchema, len_in. destruct (_ && _) eqn:E; [|done]. intros [= <-]. cbn.
  rewrite !andb_true_iff, !Z.leb_le in E. lia.
Qed.

(** For an accepted input the CHECKs come down to the length of the title in code points. *)
Lemma schema_checks raw input id pid u at_ :
  createDiscussionSchema raw = Ok input →
  post_checks (thread_row id pid u input at_) = (5 <=? char_length (cd_title input)).
Proof.
  intros Hs%schema_bounds. unfold post_checks, chars_in. cbn.
  pose proof (char_length_bounds (cd_title input)). pose proof (char_length_bounds (cd_body input)).
  rewrite bool_decide_eq_false_2 by done. lia.
Qed.

(** A new thread has neither replies nor likes. *)
Lemma project_fresh f f' now id pid u input at_ :
  forum_ok f' → posted now (thread_row id pid u input at_) f f' → forum_ok f → cd_title input ≠ [] →
  project f' (thread_row id pid u input at_)
  = mkDiscussionPost id (fo_users f !! u) (Some (cd_title input)) (cd_body input) at_ at_ 0 0.
Proof.
  intros Hok' [Ep _ _ (Eu & El & _) _ _ Hf _ _] Hok Ht. unfold project. cbn in *.
  rewrite (bool_decide_eq_false_2 _ Ht), Eu. f_equal.
  - match goal with |- length ?l = _ => assert (l = []) as ->; [|done] end. apply elem_of_nil_inv.
    intros r [Hr [Hp _]]%(posts_elem f' Hok'). rewrite Ep, lookup_insert_Some in Hr.
    destruct Hr as [[_ <-]|[_ Hr]]; [done|]. destruct (fk_parent f Hok _ _ _ Hr Hp) as (q & Hq & _). congruence.
  - assert (likes_of f' id = []) as ->; [|done]. apply elem_of_nil_inv. intros l [E Hl]%likes_elem.
    rewrite El in Hl. destruct (fk_like f Hok l Hl) as [[q Hq] _]. rewrite E in Hq. congruence.
Qed.

(** What creating a thread does with an input the schema accepts.  The thread is stored under the
    published problem and shown with its author, without replies or likes; or the user has written
    ten posts in the open window; or the title has fewer than five code points, which the schema,
    counting UTF-16 units, lets through and the database rejects. *)
Lemma create_outcome id now at_ slug pid u raw input f :
  forum_ok f → publishedProblem (fo_catalogue f) slug = Ok pid → createDiscussionSchema raw = Ok input →
  is_Some (fo_users f !! u) → fo_posts f !! id = None →
  storable (cd_title input) = true → storable (cd_body input) = true →
  match create id now at_ slug u input f f with
  | (Ok v, f') =>
      v = mkDiscussionPost id (fo_users f !! u) (Some (cd_title input)) (cd_body input) at_ at_ 0 0 ∧
      posted now (thread_row id pid u input at_) f f' ∧ 5 ≤ char_length (cd_title input)
  | (Err e, f') =>
      f' = f ∧
      ((e = ApiError 429 "DISCUSSION_RATE_LIMITED" (Some 60) ∧
        ∃ l, fo_limits f !! u = Some l ∧ now < lm_expiresAt l ∧ lm_count l = 10)
       ∨ (e = DbError "23514" ∧ char_length (cd_title input) < 5))
  end.
Proof.
  intros Hok Hp Hs Hu Hf Hst Hsb.
  destruct (create id now at_ slug u input f f) as [[v|e] f'] eqn:E; unfold create in E; rewrite Hp in E.
  - apply transaction_Ok in E. fold (thread_row id pid u input at_) in E.
    assert (posted now (thread_row id pid u input at_) f f') as Hpo.
    { eapply post_posted; [|exact E]. intros g a g' H. cbn in H. inv_forum. done. }
    assert (cd_title input ≠ []) as Hne.
    { apply schema_bounds in Hs as [Hx _]. intros E0. rewrite E0 in Hx. unfold slen in Hx. cbn in Hx. lia. }
    split_and!; [|done|].
    + inv_forum.
      match goal with H : post_create _ _ = Ok (_, ?g) |- _ => assert (posted now (thread_row id pid u input at_) f g) as Hg end.
      { eapply (post_posted now _ (λ g, mret (project g (thread_row id pid u input at_)))); [|].
        - intros g b g' H. by inv_forum.
        - erewrite bind_run by eassumption. erewrite bind_run by eassumption. done. }
      eapply project_fresh; [eapply posted_ok; [exact Hg|done]|exact Hg|done..].
    + pose proof (pt_checks _ _ _ _ Hpo) as Hc. rewrite (schema_checks _ _ _ _ _ _ Hs) in Hc. lia.
  - assert (Hf' := E). apply transaction_err in Hf' as ->. split; [done|].
    assert (is_Some (cat_problems (fo_catalogue f) !! pid)) as Hprob.
    { revert Hp. unfold publishedProblem, problem_published. destruct (list_find _ _) as [[i [k row]]|]; [|done].
      destruct (cat_problems (fo_catalogue f) !! k) eqn:Ek; [|done]. case_match; [|done]. intros [= <-]. eauto. }
    revert E. unfold transaction, consumeWriteQuota, post_create, mbind, tx_bind, the_forum, gets, raise_if. cbn -[storable post_checks char_length next_limit].
    rewrite (proj2 (has_user_true f u) Hu). cbn -[storable post_checks char_length next_limit].
    destruct (10 <? lm_count (next_limit now (fo_limits f !! u))) eqn:Eq; cbn -[storable post_checks char_length next_limit].
    { intros [= <-]. left. split; [done|]. apply Z.ltb_lt in Eq. unfold next_limit in Eq.
      destruct (fo_limits f !! u) as [l|] eqn:El; [|cbn in Eq; lia]. exists l. split; [done|].
      pose proof (fk_limit f Hok u l El). destruct (Z.leb_spec (lm_expiresAt l) now); cbn in Eq; lia. }
    rewrite Hst, Hsb. cbn -[storable post_checks char_length next_limit]. fold (thread_row id pid u input at_). rewrite (schema_checks raw) by done.
    destruct (5 <=? char_length (cd_title input)) eqn:E5; cbn -[storable post_checks char_length next_limit].
    + rewrite Hf. rewrite bool_decide_eq_false_2 by (by intros []). cbn -[storable post_checks char_length next_limit].
      rewrite bool_decide_eq_false_2 by (by apply not_eq_None_Some).
      unfold has_user. cbn -[storable post_checks char_length next_limit]. by rewrite bool_decide_eq_true_2.
    + intros [= <-]. right. split; [done|lia].
Qed.
