(* ===== verification/Backend.v ===== *)
(** * The judging backend ([apps/runner/src/judging-backend.ts])

    One execution from the worker's side: load the plan of the pinned version, build the sandbox
    request, have the supervisor observe it, judge the observation and report progress through
    the callbacks of the worker's lease. *)

From S2P Require Import Prelude JsText Contracts Judge Io JsString RuntimePolicy.
Local Open Scope Z_scope.

Record BackendExecution := mkBackendExecution {
  be_id : jsstr; be_attempt : Z; be_problemVersionId : jsstr; be_language : Language;
  be_mode : ExecutionMode; be_sourceCode : jsstr
}.

Definition sandbox_case (c : JudgeCase) : SandboxCase :=
  mkSandboxCase (jc_id c) (jc_input c) (jc_files c).

Definition sandbox_request (e : BackendExecution) (plan : JudgePlan) (cases : list JudgeCase) :
    SandboxRequest :=
  mkSandboxRequest (be_id e) (be_attempt e) (be_language e) (be_sourceCode e)
    (sandbox_case <$> cases) (jp_timeMs plan) (kibToMib (jp_memoryKiB plan)).

(** [ObservationExecutor]: what the backend needs of the supervisor. *)
Abbreviation ObservationExecutor S := (SandboxRequest → io S JudgeObservation).

Section Backend.
Context `{Zod} (stripVT : jsstr → jsstr) {S : Type}.
Context (executor : ObservationExecutor S).
Context (load : jsstr → ExecutionMode → io S JudgePlan).
Context (markRunning : io S bool) (console : jsstr → Stream → jsstr → io S bool).

(** One stream of one public case: an empty or absent text is skipped. *)
Definition report_stream (r : PublicCaseResult) (s : Stream) : io S unit :=
  match match s with stdout => pr_stdout r | stderr => pr_stderr r end with
  | None | Some [] => mret tt
  | Some text =>
      ok ← console (pr_caseId r) s text;
      raise_when (negb ok) (JsError "WORKER_AUTHORITY_LOST")
  end.

Definition backend_execute (e : BackendExecution) : io S JudgedResult :=
  plan ← load (be_problemVersionId e) (be_mode e);
  _ ← raise_when (negb (bool_decide (jp_versionId plan = be_problemVersionId e)))
        (JsError "JUDGE_VERSION_MISMATCH");
  selected ← of_result (selectCases plan (be_mode e));
  request ← of_result (sandboxRequest_parse (sandbox_request e plan selected));
  observed ← executor request;
  result ← of_result (judge stripVT plan (be_mode e) (be_language e) observed);
  _ ← (if bool_decide (jr_verdict result = COMPILATION_ERROR) then mret tt
       else ok ← markRunning; raise_when (negb ok) (JsError "WORKER_AUTHORITY_LOST"));
  _ ← (if bool_decide (be_mode e = RUN)
       then io_each (λ r, io_each (report_stream r) [stdout; stderr]) (default [] (jr_publicCaseResults result))
       else mret tt);
  mret result.
End Backend.
