(* ===== verification/Runnable.v ===== *)
(** * Which published problems can be executed

    What [createProblemInput] lets an administrator publish against what the runtime policy
    lets the judging backend request. *)

From S2P Require Import Prelude JsText Contracts Judge JsString RuntimePolicy Catalogue Publication.
From S2P Require Import Io Backend.
Local Open Scope Z_scope.

Lemma filter_map {A B} (f : A → B) (P : B → Prop) `{!∀ b, Decision (P b)} (l : list A) :
  filter P (f <$> l) = f <$> filter (λ a, P (f a)) l.
Proof.
  induction l as [|a l IH]; [done|]. rewrite fmap_cons, !filter_cons, IH. by case_decide.
Qed.

(** ** What creating a problem stores *)

Lemma tests_loop fresh vid es c u c' :
  for_each (λ e, test_create (new_test fresh vid e)) es c = Ok (u, c') →
  c' = set_tests (cat_tests c ++ (new_test fresh vid <$> es)) c ∧
  NoDup (tr_id ∘ new_test fresh vid <$> es) ∧
  ∀ e r, e ∈ es → r ∈ cat_tests c → tr_id r ≠ tr_id (new_test fresh vid e).
Proof.
  revert c. induction es as [|e es IH]; intros c; cbn [for_each].
  - intros [_ ->]%mret_Ok. split_and!; [|constructor|by intros ? ? ?%elem_of_nil].
    rewrite fmap_nil, app_nil_r. by destruct c.
  - intros (u1 & c1 & H1 & H2)%bind_Ok. apply test_create_Ok in H1 as [-> _ _ Hf _].
    apply IH in H2 as (-> & Hnd & Hne). cbn in *. split_and!.
    + by rewrite <- app_assoc.
    + constructor; [|done]. intros (e' & E & He')%list_elem_of_fmap.
      apply (Hne e' (new_test fresh vid e)); [done| |done]. rewrite elem_of_app. right. left.
    + intros e' r [->|He']%elem_of_cons Hr; [by apply Hf|]. apply Hne; [done|].
      rewrite elem_of_app. by left.
Qed.

Definition stored_tests (fresh : nat → rowid) (input : ProblemInput) : list TestRow :=
  new_test fresh (fresh 1%nat) <$> entries (pi_tests input).

(** A committed creation with publication leaves the published version and its tests. *)
Lemma createProblem_stores fresh actor input c reply c' :
  tests_owned c → pi_publish input = true → createProblem fresh actor input c = (Ok reply, c') →
  cat_versions c' !! fresh 1%nat = Some (with_published (new_version (fresh 1%nat) (fresh 0%nat) 1 input)) ∧
  tests_of c' (fresh 1%nat) = stored_tests fresh input ∧
  NoDup (tr_id <$> stored_tests fresh input).
Proof.
  intros Ho Hp H. unfold createProblem in H.
  assert (∀ A (r : result A * catalogue) a c1, slug_taken r = (Ok a, c1) → r = (Ok a, c1)) as Hs.
  { intros A [[?|[]] ?]; cbn; try done. by destruct (String.eqb _ _). }
  apply Hs, transaction_Ok in H. cbn in H. inv_cat.
  apply problem_create_keeps in Hrun as [Ev Et]. unfold write_version in Hrun0. rewrite Hp in Hrun0.
  inv_cat. apply version_create_Ok in Hrun as [Hn ->]. cbn [vr_id new_version] in *.
  apply tests_loop in Hrun1 as (-> & Hnd & _).
  apply version_publish_Ok in Hrun2 as (v & Hv & _ & ->). cbn in Hv.
  rewrite lookup_insert_eq in Hv. injection Hv as <-.
  apply problem_set_current_keeps in Hrun0 as [Ev' Et']. cbn in *. rewrite Ev'. unfold tests_of. cbn.
  rewrite Et', lookup_insert_eq. split_and!; [done| |unfold stored_tests; by rewrite <- list_fmap_compose].
  rewrite filter_app. rewrite filter_none_in.
  - rewrite filter_all_in; [done|]. intros t (e & -> & _)%list_elem_of_fmap. by destruct e.
  - intros t Ht E. rewrite Et in Ht. destruct (Ho t Ht) as [w Hw]. rewrite <- Ev, E in Hw. congruence.
Qed.

(** ** From a stored test to a sandbox case *)

Section Runnable.
Context `{Zod} (collate : jsstr → jsstr → bool).

Lemma files_perm t : jc_files (judge_case collate t) ≡ₚ tr_files t.
Proof. apply merge_sort_Permutation. Qed.

(** The tests an execution of each mode runs: all of them, or the public ones. *)
Definition tests_for (mode : ExecutionMode) (input : ProblemInput) : list TestInput :=
  match mode with
  | SUBMIT => pi_tests input
  | RUN => filter (λ t, ti_visibility t = PUBLIC) (pi_tests input)
  end.
Definition test_bytes (t : TestInput) : Z :=
  byteLength (ti_input t) + sumZ (byteLength ∘ snd <$> ti_files t).
(** The bytes of all inputs and input files of a mode's tests. *)
Definition problem_bytes (mode : ExecutionMode) (input : ProblemInput) : Z := sumZ (test_bytes <$> tests_for mode input).

Definition case_of (fresh : nat → rowid) (vid : rowid) (e : nat * TestInput) : SandboxCase :=
  sandbox_case (judge_case collate (new_test fresh vid e)).

Lemma case_of_bytes fresh vid e : case_bytes (case_of fresh vid e) = test_bytes e.2.
Proof.
  destruct e as [i t]. unfold case_bytes, test_bytes. cbn [case_of sandbox_case sc_input sc_files jc_input judge_case].
  f_equal. apply sumZ_perm. by rewrite files_perm.
Qed.

Lemma case_of_ok fresh vid e :
  (∀ i, z_uuid (fresh i) = true) → test_ok e.2 = true → sandboxCase_ok (case_of fresh vid e) = true.
Proof.
  destruct e as [i t]. intros Hu. unfold test_ok, sandboxCase_ok. cbn [snd].
  rewrite !andb_true_iff, !bool_decide_eq_true, !Z.leb_le, !Nat.leb_le, !forallb_forall.
  intros [[[[Hi Hf] Hn] _] Hd].
  assert (sc_files (case_of fresh vid (i, t)) ≡ₚ ti_files t) as Hp by apply files_perm.
  split_and!.
  - apply Hu.
  - cbn. pose proof (byteLength_le3 (ti_input t)). unfold slen, CAPS.inputBytes in *. lia.
  - intros f Hin%list_elem_of_In. rewrite Hp, list_elem_of_In in Hin. apply Hf in Hin.
    unfold testFile_ok, inputFile_ok, inputFileName_ok, len_in, slen in *.
    rewrite !andb_true_iff, !Z.leb_le in Hin. destruct Hin as [[[? ?] ->] ?].
    pose proof (byteLength_le3 f.2). unfold slen, CAPS.inputBytes in *.
    rewrite !andb_true_iff, !Nat.leb_le, Z.leb_le. lia.
  - by rewrite Hp.
  - by rewrite Hp.
Qed.

(** ** The plan of a created problem *)

Lemma entries_spec {A} (l : list A) : snd <$> entries l = l.
Proof.
  apply list_eq. intros i. unfold entries. rewrite list_lookup_fmap, list_lookup_imap.
  by destruct (l !! i).
Qed.

Lemma entries_nodup {A} (l : list A) : NoDup (fst <$> entries l).
Proof.
  apply NoDup_alt. intros i j n. unfold entries. rewrite !list_lookup_fmap, !list_lookup_imap.
  destruct (l !! i), (l !! j); cbn; congruence.
Qed.

Lemma entries_length {A} (l : list A) : length (entries l) = length l.
Proof. apply length_imap. Qed.

(** The numbered tests of a mode, and their stored rows. *)
Definition chosen (mode : ExecutionMode) (input : ProblemInput) : list (nat * TestInput) :=
  match mode with
  | SUBMIT => entries (pi_tests input)
  | RUN => filter (λ e, ti_visibility e.2 = PUBLIC) (entries (pi_tests input))
  end.
Lemma chosen_sublist mode input : chosen mode input `sublist_of` entries (pi_tests input).
Proof. destruct mode; cbn; [apply sublist_filter|done]. Qed.
Lemma chosen_tests mode input : snd <$> chosen mode input = tests_for mode input.
Proof.
  destruct mode; cbn; [|apply entries_spec].
  rewrite <- (entries_spec (pi_tests input)) at 2. by rewrite filter_map.
Qed.
Lemma chosen_rows fresh mode input :
  match mode with
  | RUN => filter (λ t, tr_visibility t = PUBLIC) (stored_tests fresh input)
  | SUBMIT => stored_tests fresh input
  end = new_test fresh (fresh 1%nat) <$> chosen mode input.
Proof.
  destruct mode; [|done]. unfold stored_tests. cbn. rewrite filter_map. f_equal.
  apply list_filter_iff. by intros [i t].
Qed.

Definition stored_plan (fresh : nat → rowid) (mode : ExecutionMode) (input : ProblemInput) : JudgePlan :=
  mkJudgePlan (fresh 1%nat) "EXACT_NEWLINE" (pi_timeMs input) (pi_memoryKiB input)
    (judge_case collate <$> merge_sort by_ordinal (new_test fresh (fresh 1%nat) <$> chosen mode input)).

Lemma loadJudgePlan_stored fresh actor mode input c reply c' :
  tests_owned c → pi_publish input = true → createProblem fresh actor input c = (Ok reply, c') →
  loadJudgePlan collate c' (fresh 1%nat) mode = Ok (stored_plan fresh mode input).
Proof.
  intros Ho Hp Hc. destruct (createProblem_stores _ _ _ _ _ _ Ho Hp Hc) as (Hv & Ht & _).
  unfold loadJudgePlan. rewrite Hv. cbn [vr_published with_published negb orb vr_comparator new_version].
  unfold stored_plan. by rewrite Ht, <- chosen_rows.
Qed.

Lemma stored_cases_perm fresh mode input :
  jp_cases (stored_plan fresh mode input) ≡ₚ judge_case collate ∘ new_test fresh (fresh 1%nat) <$> chosen mode input.
Proof. cbn. by rewrite merge_sort_Permutation, list_fmap_compose. Qed.

Lemma problemInput_tests input :
  problemInput_ok input = true →
  (2 ≤ length (pi_tests input) ≤ 100)%nat ∧ (∀ t, t ∈ pi_tests input → test_ok t = true) ∧
  (∃ t, t ∈ pi_tests input ∧ ti_visibility t = PUBLIC) ∧
  100 ≤ pi_timeMs input ≤ 30000 ∧ 16384 ≤ pi_memoryKiB input ≤ 1048576.
Proof.
  unfold problemInput_ok. rewrite !andb_true_iff, !Nat.leb_le, !Z.leb_le, !forallb_forall, !existsb_exists.
  intros H0. destruct_and! H0. split_and!; try done; [intros t Ht%list_elem_of_In; auto|].
  match goal with H : ∃ x, In x _ ∧ is_visible PUBLIC x = true |- _ => destruct H as (t & Hin & Hv) end.
  exists t. rewrite list_elem_of_In. split; [done|]. by apply bool_decide_eq_true in Hv.
Qed.

Lemma chosen_length mode input :
  problemInput_ok input = true → (1 ≤ length (chosen mode input) ≤ 100)%nat.
Proof.
  intros (Hlen & _ & (t & Ht & Hv) & _)%problemInput_tests. split.
  - destruct mode; cbn; [|rewrite entries_length; lia].
    assert (t ∈ tests_for RUN input) as Hin by (apply list_elem_of_filter; auto).
    rewrite <- chosen_tests in Hin. apply list_elem_of_fmap in Hin as (e & _ & He).
    cbn in He. destruct (filter _ _); [by apply elem_of_nil in He|cbn; lia].
  - etrans; [apply sublist_length, chosen_sublist|]. rewrite entries_length. lia.
Qed.

Lemma chosen_ids fresh vid mode input :
  NoDup (tr_id <$> (new_test fresh vid <$> entries (pi_tests input))) →
  NoDup (tr_id ∘ new_test fresh vid <$> chosen mode input).
Proof.
  rewrite <- list_fmap_compose. intros Hnd. eapply sublist_NoDup; [exact Hnd|]. apply fmap_sublist, chosen_sublist.
Qed.

Lemma stored_selectable fresh mode input :
  (∀ i, z_uuid (fresh i) = true) → problemInput_ok input = true →
  NoDup (tr_id <$> stored_tests fresh input) →
  ∃ cases, selectCases (stored_plan fresh mode input) mode = Ok cases ∧
    sandbox_case <$> cases ≡ₚ case_of fresh (fresh 1%nat) <$> chosen mode input.
Proof.
  intros Hu Hok Hnd. pose proof (chosen_length mode input Hok) as Hlen.
  pose proof (stored_cases_perm fresh mode input) as Hp.
  assert (length (jp_cases (stored_plan fresh mode input)) = length (chosen mode input)) as El.
  { by rewrite Hp, length_fmap. }
  assert (plan_invalid (stored_plan fresh mode input) = false) as Hvalid.
  { unfold plan_invalid. rewrite El, !orb_false_iff, !negb_false_iff, !bool_decide_eq_true.
    split_and!; [done|apply Nat.eqb_neq; lia|apply Nat.ltb_ge; lia| | |].
    - rewrite Hp, <- list_fmap_compose. by apply (chosen_ids fresh (fresh 1%nat)).
    - rewrite Hp, <- list_fmap_compose.
      apply (NoDup_fmap_1 (λ z, Z.to_nat (z - 1))). rewrite <- list_fmap_compose.
      rewrite (list_fmap_ext _ fst).
      + eapply sublist_NoDup; [apply (entries_nodup (pi_tests input))|]. apply fmap_sublist, chosen_sublist.
      + intros i [k t] _. cbn. lia.
    - apply not_true_iff_false. rewrite existsb_exists. intros (x & Hx & Hbad).
      rewrite <- list_elem_of_In, Hp in Hx. apply list_elem_of_fmap in Hx as ([k t] & -> & _).
      cbn [compose judge_case jc_id jc_ordinal new_test tr_id tr_ordinal] in Hbad.
      rewrite Hu in Hbad. cbn [negb orb] in Hbad. apply Z.ltb_lt in Hbad. lia. }
  set (cases := merge_sort ordinal_le (filter (λ c, selected mode c = true) (jp_cases (stored_plan fresh mode input)))).
  assert (cases ≡ₚ judge_case collate ∘ new_test fresh (fresh 1%nat) <$> chosen mode input) as Hc.
  { unfold cases. rewrite merge_sort_Permutation, filter_all_in; [exact Hp|]. intros x. rewrite Hp, list_elem_of_fmap.
    intros ([k t] & -> & He). unfold selected. destruct mode; [|done]. cbn in He |- *.
    apply list_elem_of_filter in He as [He _]. by apply bool_decide_eq_true. }
  exists cases. split.
  - apply selectCases_Ok. split_and!; [done| |done]. intros E. rewrite E in Hc. apply Permutation_length in Hc.
    rewrite length_fmap in Hc. cbn in Hc. lia.
  - rewrite Hc. by rewrite <- list_fmap_compose.
Qed.

(** What the schema checks of the cases, for the cases of an accepted problem. *)
Lemma cases_checked fresh vid mode input l :
  (∀ i, z_uuid (fresh i) = true) → (∀ t, t ∈ pi_tests input → test_ok t = true) →
  NoDup (tr_id ∘ new_test fresh vid <$> chosen mode input) →
  l ≡ₚ case_of fresh vid <$> chosen mode input →
  forallb sandboxCase_ok l = true ∧ length l = length (chosen mode input) ∧ NoDup (sc_id <$> l) ∧
  input_budget l = problem_bytes mode input.
Proof.
  intros Hu Hts Hnd Hp. split_and!.
  - apply forallb_forall. intros x Hx. rewrite <- list_elem_of_In, Hp in Hx.
    apply list_elem_of_fmap in Hx as (e & -> & He). apply case_of_ok; [done|]. apply Hts.
    rewrite <- (entries_spec (pi_tests input)). apply list_elem_of_fmap_2.
    eapply elem_of_sublist; [exact He|apply chosen_sublist].
  - by rewrite Hp, length_fmap.
  - rewrite Hp, <- list_fmap_compose. exact Hnd.
  - unfold input_budget, problem_bytes.
    transitivity (sumZ (case_bytes <$> (case_of fresh vid <$> chosen mode input))).
    { apply sumZ_perm. by rewrite Hp. }
    rewrite <- chosen_tests, <- !list_fmap_compose. f_equal.
    apply list_fmap_ext. intros i e _. apply case_of_bytes.
Qed.

Definition execution_ok (e : BackendExecution) : bool :=
  z_uuid (be_id e) && safe_int (be_attempt e) && (0 <? be_attempt e) && source_ok (be_sourceCode e).

(** C12: which published problems can be executed.  A problem that [createProblemInput] accepts
    and [createProblem] publishes gets a judge plan for each mode, and the case selection always
    succeeds on it; the sandbox request of a valid execution is then accepted by the runtime
    policy exactly when the time limit is at most 10 seconds, the memory limit is a whole number
    of MiB and at least 32 MiB, and the inputs of the mode's tests (all tests for SUBMIT, the public ones
    for RUN) fit together in 1 MiB.  The input schema requires none of these: the other problems are
    published although each of their submissions fails. *)
Theorem published_problem_runs fresh actor body input c reply c' mode :
  tests_owned c → (∀ i, z_uuid (fresh i) = true) →
  createProblemInput body = Ok input → pi_publish input = true →
  createProblem fresh actor input c = (Ok reply, c') →
  ∃ plan cases,
    loadJudgePlan collate c' (fresh 1%nat) mode = Ok plan ∧ selectCases plan mode = Ok cases ∧
    ∀ e, execution_ok e = true →
      sandboxRequest_parse (sandbox_request e plan cases) = Ok (sandbox_request e plan cases) ↔
      pi_timeMs input ≤ 10000 ∧ pi_memoryKiB input mod 1024 = 0 ∧ 32768 ≤ pi_memoryKiB input ∧
      problem_bytes mode input ≤ 1024 * 1024.
Proof.
  intros Ho Hu Hin Hp Hc. unfold createProblemInput in Hin.
  destruct (problemInput_ok (normalise body)) eqn:Hok; [|done]. injection Hin as <-.
  set (input := normalise body) in *.
  destruct (createProblem_stores _ _ _ _ _ _ Ho Hp Hc) as (_ & _ & Hnd).
  destruct (stored_selectable fresh mode input Hu Hok Hnd) as (cases & Hsel & Hperm).
  exists (stored_plan fresh mode input), cases.
  split; [by eapply loadJudgePlan_stored|]. split; [done|]. intros e He.
  pose proof (chosen_length mode input Hok) as Hlen.
  apply problemInput_tests in Hok as (_ & Hts & _ & Htime & Hmem).
  destruct (cases_checked _ _ _ _ _ Hu Hts (chosen_ids _ _ _ _ Hnd) Hperm) as (Hcs & El & Hids & Hb).
  rewrite sandboxRequest_parse_Ok. unfold execution_ok, source_ok in He.
  rewrite !andb_true_iff in He. destruct He as [[[Hid Hs] Ha] [Hsrc Hbytes]].
  unfold sandboxRequest_ok.
  cbn [sandbox_request sr_executionId sr_attempt sr_sourceCode sr_cases sr_timeMs sr_memoryMiB
       stored_plan jp_timeMs jp_memoryKiB].
  rewrite Hid, Hs, Ha, Hsrc, Hcs, El, Hb, bool_decide_eq_true_2 by done.
  change CAPS.sourceBytes with MAX_SOURCE_BYTES. rewrite Hbytes.
  unfold kibToMib, CAPS.maxCases, CAPS.caseMs, CAPS.maxMemoryMiB.
  rewrite (proj2 (Nat.leb_le 1 _)), (proj2 (Nat.leb_le _ 100)) by lia. cbn [andb].
  destruct (Z.eqb_spec (pi_memoryKiB input mod 1024) 0) as [Em|Em].
  - rewrite !andb_true_iff, !Z.leb_le. split; [intros [_ ?]|intros ?; split; [done|]]; split_and!; zdiv.
  - rewrite !andb_false_r, !andb_false_l. split; [intros [_ ?]; done|tauto].
Qed.
End Runnable.
