(* ===== verification/Buffers.v ===== *)
(** * Node buffers

    [Buffer.from(text)] (UTF-8 encoding) and [buffer.toString()] (the WHATWG UTF-8 decoder: a
    maximal ill-formed subsequence becomes one U+FFFD), with the size relations the runner's
    output budget relies on. *)

From S2P Require Import Prelude JsText.
Local Open Scope Z_scope.

Abbreviation buffer := (list Z).
Definition size (b : buffer) : Z := Z.of_nat (length b).
Definition REPLACEMENT : Z := 0xFFFD.

(** ** Encoding *)

(** The scalar value of a surrogate pair. *)
Definition scalar (hi lo : Z) : Z := 0x10000 + (hi - 0xD800) * 0x400 + (lo - 0xDC00).
Definition cont (u : Z) : Z := 0x80 + u mod 0x40.
Definition encode4 (c : Z) : buffer :=
  [0xF0 + c / 0x40000; cont (c / 0x1000); cont (c / 0x40); cont c].
Definition encode_unit (u : Z) : buffer :=
  if u <? 0x80 then [u]
  else if u <? 0x800 then [0xC0 + u / 0x40; cont u]
  else let u' := if is_high u || is_low u then REPLACEMENT else u in
       [0xE0 + u' / 0x1000; cont (u' / 0x40); cont u'].

Fixpoint encode (s : jsstr) : buffer :=
  match s with
  | [] => []
  | u :: s' =>
      match s' with
      | v :: s'' => if is_high u && is_low v then encode4 (scalar u v) ++ encode s''
                    else encode_unit u ++ encode s'
      | [] => encode_unit u
      end
  end.

Lemma encode_lone u v s :
  is_high u && is_low v = false → encode (u :: v :: s) = encode_unit u ++ encode (v :: s).
Proof. intros E. cbn [encode]. by rewrite E. Qed.

(** ** Decoding *)

Definition between (lo hi b : Z) : bool := (lo <=? b) && (b <=? hi).
Definition is_cont (b : Z) : bool := between 0x80 0xBF b.

(** The range of the second byte after a three-byte lead [b], and after a four-byte lead. *)
Definition second3 (b c : Z) : bool :=
  between (if b =? 0xE0 then 0xA0 else 0x80) (if b =? 0xED then 0x9F else 0xBF) c.
Definition second4 (b c : Z) : bool :=
  between (if b =? 0xF0 then 0x90 else 0x80) (if b =? 0xF4 then 0x8F else 0xBF) c.

Definition pair_of (c : Z) : jsstr :=
  [0xD800 + (c - 0x10000) / 0x400; 0xDC00 + (c - 0x10000) mod 0x400].
Definition low6 (b : Z) : Z := b - 0x80.

Fixpoint decode (b : buffer) : jsstr :=
  match b with
  | [] => []
  | x :: r =>
      if x <? 0x80 then x :: decode r
      else if between 0xC2 0xDF x then
        match r with
        | y :: r1 => if is_cont y then ((x - 0xC0) * 0x40 + low6 y) :: decode r1
                     else REPLACEMENT :: decode r
        | [] => [REPLACEMENT]
        end
      else if between 0xE0 0xEF x then
        match r with
        | y :: r1 =>
            if second3 x y then
              match r1 with
              | z :: r2 => if is_cont z
                           then ((x - 0xE0) * 0x1000 + low6 y * 0x40 + low6 z) :: decode r2
                           else REPLACEMENT :: decode r1
              | [] => [REPLACEMENT]
              end
            else REPLACEMENT :: decode r
        | [] => [REPLACEMENT]
        end
      else if between 0xF0 0xF4 x then
        match r with
        | y :: r1 =>
            if second4 x y then
              match r1 with
              | z :: r2 =>
                  if is_cont z then
                    match r2 with
                    | w :: r3 => if is_cont w
                                 then pair_of ((x - 0xF0) * 0x40000 + low6 y * 0x1000
                                               + low6 z * 0x40 + low6 w) ++ decode r3
                                 else REPLACEMENT :: decode r2
                    | [] => [REPLACEMENT]
                    end
                  else REPLACEMENT :: decode r1
              | [] => [REPLACEMENT]
              end
            else REPLACEMENT :: decode r
        | [] => [REPLACEMENT]
        end
      else REPLACEMENT :: decode r
  end.

(** ** Sizes *)

Lemma encode_unit_size u : size (encode_unit u) = unit_bytes u.
Proof. unfold encode_unit, unit_bytes, size. by repeat case_match. Qed.

Lemma size_app a b : size (a ++ b) = size a + size b.
Proof. unfold size. rewrite length_app. lia. Qed.

(** [Buffer.byteLength] is the length of the encoding. *)
Lemma encode_size s : size (encode s) = byteLength s.
Proof.
  induction s as [|u|u v s E IH|u v s E IH] using points_ind; [done|apply encode_unit_size| |].
  - rewrite byteLength_pair by done. cbn [encode]. by rewrite E, size_app, IH.
  - rewrite byteLength_unit by done. by rewrite <- IH, <- encode_unit_size, <- size_app, <- encode_lone.
Qed.

(** A decoded buffer has at most as many code units as the buffer has bytes. *)
Lemma decode_length b : (length (decode b) ≤ length b)%nat.
Proof.
  remember (length b) as n eqn:En. assert (length b ≤ n)%nat as Hn by lia. rewrite En. clear En.
  revert b Hn. induction n as [|n IH]; intros [|x r] Hn; try done; cbn [length] in Hn; [lia|].
  cbn [decode].
  repeat match goal with
  | |- context [if ?c then _ else _] => destruct c
  | |- context [match ?l with [] => _ | _ :: _ => _ end] => is_var l; destruct l; cbn [length] in Hn
  end; cbn [length app pair_of];
  try match goal with
  | |- context [length (decode ?r)] => pose proof (IH r ltac:(cbn [length]; lia)); cbn [length] in *
  end; lia.
Qed.

(** The size of decoded output.  However ill-formed the bytes a program wrote are, the text
    the supervisor decodes from them has at most three UTF-8 bytes per byte: the 256 KiB budget
    of the supervisor can never exceed the judge's limit of 1 MiB on observed text. *)
Lemma toString_bytes b : byteLength (decode b) ≤ 3 * size b.
Proof.
  pose proof (byteLength_le3 (decode b)). pose proof (decode_length b). unfold size. lia.
Qed.

(** ** Round trip *)

(** Well-formed UTF-16: every surrogate is part of a pair. *)
Fixpoint well_formed (s : jsstr) : bool :=
  match s with
  | [] => true
  | u :: s' =>
      match s' with
      | v :: s'' => if is_high u && is_low v then well_formed s''
                    else negb (is_high u || is_low u) && well_formed s'
      | [] => negb (is_high u || is_low u)
      end
  end.

Lemma decode2 x y r :
  between 0xC2 0xDF x = true → is_cont y = true →
  decode (x :: y :: r) = ((x - 0xC0) * 0x40 + low6 y) :: decode r.
Proof.
  intros Hx Hy. assert ((x <? 0x80) = false) as E by (unfold between in Hx; lia).
  cbn [decode]. by rewrite E, Hx, Hy.
Qed.

Lemma decode3 x y z r :
  between 0xE0 0xEF x = true → second3 x y = true → is_cont z = true →
  decode (x :: y :: z :: r) = ((x - 0xE0) * 0x1000 + low6 y * 0x40 + low6 z) :: decode r.
Proof.
  intros Hx Hy Hz.
  assert ((x <? 0x80) = false ∧ between 0xC2 0xDF x = false) as [E1 E2] by (unfold between in *; lia).
  cbn [decode]. by rewrite E1, E2, Hx, Hy, Hz.
Qed.

Lemma decode4 x y z w r :
  between 0xF0 0xF4 x = true → second4 x y = true → is_cont z = true → is_cont w = true →
  decode (x :: y :: z :: w :: r) =
    pair_of ((x - 0xF0) * 0x40000 + low6 y * 0x1000 + low6 z * 0x40 + low6 w) ++ decode r.
Proof.
  intros Hx Hy Hz Hw.
  assert ((x <? 0x80) = false ∧ between 0xC2 0xDF x = false ∧ between 0xE0 0xEF x = false)
    as (E1 & E2 & E3) by (unfold between in *; lia).
  cbn [decode]. by rewrite E1, E2, E3, Hx, Hy, Hz, Hw.
Qed.

Lemma cont_ok n : is_cont (cont n) = true.
Proof. unfold is_cont, between, cont. zdiv. Qed.
Lemma low6_cont n : low6 (cont n) = n mod 0x40.
Proof. unfold low6, cont. lia. Qed.

(** A number in base 64. *)
Lemma base64 n : n = n / 0x40 * 0x40 + n mod 0x40 ∧ 0 ≤ n mod 0x40 < 0x40.
Proof. zdiv. Qed.
Lemma div64 n : n / 0x1000 = n / 0x40 / 0x40 ∧ n / 0x40000 = n / 0x40 / 0x40 / 0x40.
Proof. by rewrite !Z.div_div by lia. Qed.

Lemma decode_encode_unit u r :
  unit_ok u → is_high u || is_low u = false → decode (encode_unit u ++ r) = u :: decode r.
Proof.
  intros [H0 H1] Hs. unfold encode_unit. rewrite Hs. unfold is_high, is_low in Hs.
  pose proof (base64 u) as [E0 B0]. pose proof (base64 (u / 0x40)) as [E1 B1].
  destruct (Z.ltb_spec u 0x80); [|destruct (Z.ltb_spec u 0x800)]; cbn [app].
  - cbn [decode]. by rewrite (proj2 (Z.ltb_lt _ _)).
  - rewrite decode2, low6_cont; [f_equal; lia|unfold between; lia|apply cont_ok].
  - rewrite (proj1 (div64 u)). set (q := u / 0x40) in *. set (m := u mod 0x40) in *.
    rewrite decode3, !low6_cont; [|unfold between; lia| |apply cont_ok].
    + f_equal. fold m. lia.
    + unfold second3, between, cont. set (q1 := q / 0x40) in *. set (q2 := q mod 0x40) in *.
      repeat case_match; lia.
Qed.

Lemma decode_encode_pair u v r :
  is_high u && is_low v = true → decode (encode4 (scalar u v) ++ r) = u :: v :: decode r.
Proof.
  unfold is_high, is_low. intros Hs. set (c := scalar u v).
  assert (0x10000 ≤ c ≤ 0x10FFFF) as Hc by (unfold c, scalar; lia).
  assert (pair_of c = [u; v]) as Hp by (unfold pair_of, c, scalar; f_equal; [|f_equal]; zdiv).
  pose proof (base64 c) as [E0 B0]. pose proof (base64 (c / 0x40)) as [E1 B1].
  pose proof (base64 (c / 0x40 / 0x40)) as [E2 B2].
  unfold encode4. cbn [app]. destruct (div64 c) as [-> ->].
  set (q := c / 0x40) in *. set (q1 := q / 0x40) in *.
  rewrite decode4, !low6_cont; [|unfold between; lia| |apply cont_ok..].
  - match goal with |- pair_of ?x ++ _ = _ => replace x with c by lia end. by rewrite Hp.
  - unfold second4, between, cont. repeat case_match; lia.
Qed.

(** Text survives the transport to a sandbox and back: decoding the encoding of a
    well-formed UTF-16 string gives the string. *)
Lemma decode_encode s : Forall unit_ok s → well_formed s = true → decode (encode s) = s.
Proof.
  induction s as [|u|u v s E IH|u v s E IH] using points_ind; intros Hs Hw.
  - done.
  - cbn in Hw. apply negb_true_iff in Hw. inversion_clear Hs.
    rewrite <- (app_nil_r (encode [u])). cbn [encode]. by rewrite decode_encode_unit.
  - inversion_clear Hs as [|? ? ? Hs']. inversion_clear Hs' as [|? ? ? Hs]. cbn in Hw. rewrite E in Hw.
    cbn [encode]. rewrite E, decode_encode_pair by done. by rewrite IH.
  - inversion_clear Hs as [|? ? ? Hs']. cbn in Hw. rewrite E, andb_true_iff, negb_true_iff in Hw.
    destruct Hw as [Hu Hw]. by rewrite encode_lone, decode_encode_unit, IH.
Qed.
