(* ===== verification/Transport.v ===== *)
(** * The Docker transport ([apps/runner/src/transport.ts])

    [DockerCli.command] as the machine it is: chunks, the timer, the abort signal and the end of
    the child process arrive as events; output beyond the limit is dropped and the first reason
    to stop decides the outcome.  [DockerTransport] is what the supervisor relies on. *)

From S2P Require Import Prelude JsText Buffers.
Local Open Scope Z_scope.

Record CommandResult := mkCommandResult {
  cr_stdout : buffer; cr_stderr : buffer; cr_exitCode : Z
}.
Record Options := mkOptions {
  op_input : buffer; op_signal : bool; op_timeoutMs : Z; op_maxBytes : Z; op_allowFailure : bool
}.
Definition default_options : Options := mkOptions [] false 5000 65536 false.

(** ** The child process *)

Inductive child_event :=
| Stdout (chunk : buffer)
| Stderr (chunk : buffer)
| TimerFired
| SignalAborted
| SpawnFailed.

Record Collected := mkCollected {
  cl_out : buffer; cl_err : buffer; cl_bytes : Z; cl_reason : option string
}.

(** [reason ??= new DockerError(code)]. *)
Definition stop (code : string) (c : Collected) : Collected :=
  mkCollected (cl_out c) (cl_err c) (cl_bytes c) (Some (default code (cl_reason c))).

Definition collect (maxBytes : Z) (is_err : bool) (chunk : buffer) (c : Collected) : Collected :=
  let bytes := cl_bytes c + size chunk in
  if maxBytes <? bytes
  then stop "OUTPUT_LIMIT" (mkCollected (cl_out c) (cl_err c) bytes (cl_reason c))
  else if is_err then mkCollected (cl_out c) (cl_err c ++ chunk) bytes (cl_reason c)
  else mkCollected (cl_out c ++ chunk) (cl_err c) bytes (cl_reason c).

Definition on_event (maxBytes : Z) (c : Collected) (e : child_event) : Collected :=
  match e with
  | Stdout chunk => collect maxBytes false chunk c
  | Stderr chunk => collect maxBytes true chunk c
  | TimerFired => stop "COMMAND_TIMEOUT" c
  | SignalAborted => stop "ABORTED" c
  | SpawnFailed => stop "DOCKER_UNAVAILABLE" c
  end.

(** What happened to a child until its ['close'] event, with the exit code of that event:
    [None] when a signal ended it. *)
Record ChildRun := mkChildRun { ch_events : list child_event; ch_code : option Z }.

Definition cli_command (aborted : bool) (o : Options) (run : ChildRun) : result CommandResult :=
  if op_signal o && aborted then Err (DockerError "ABORTED") else
  let c := foldl (on_event (op_maxBytes o)) (mkCollected [] [] 0 None) (ch_events run) in
  let exitCode := default (-1) (ch_code run) in
  match cl_reason c with
  | Some reason => Err (DockerError reason)
  | None =>
      if negb (exitCode =? 0) && negb (op_allowFailure o) then Err (DockerError "COMMAND_FAILED")
      else Ok (mkCommandResult (cl_out c) (cl_err c) exitCode)
  end.

(** ** The limit on collected output *)

Definition within (maxBytes : Z) (c : Collected) : Prop :=
  cl_reason c = None → size (cl_out c) + size (cl_err c) = cl_bytes c ∧ cl_bytes c ≤ maxBytes.

Lemma on_event_within maxBytes c e : within maxBytes c → within maxBytes (on_event maxBytes c e).
Proof.
  unfold within. intros Hw. destruct e; cbn; try done; unfold collect.
  - destruct (Z.ltb_spec maxBytes (cl_bytes c + size chunk)); cbn; [done|].
    intros Hr. destruct (Hw Hr). rewrite size_app. lia.
  - destruct (Z.ltb_spec maxBytes (cl_bytes c + size chunk)); cbn; [done|].
    intros Hr. destruct (Hw Hr). rewrite size_app. lia.
Qed.

Lemma events_within maxBytes es c :
  within maxBytes c → within maxBytes (foldl (on_event maxBytes) c es).
Proof. revert c. induction es as [|e es IH]; intros c Hc; cbn; [done|]. by apply IH, on_event_within. Qed.

(** A command that resolves has collected all the child wrote. *)
Definition all_output (is_err : bool) (es : list child_event) : buffer :=
  mjoin ((λ e, match e with
               | Stdout b => if is_err then [] else b
               | Stderr b => if is_err then b else []
               | _ => []
               end) <$> es).

Lemma reason_sticky maxBytes es c : cl_reason c ≠ None → cl_reason (foldl (on_event maxBytes) c es) ≠ None.
Proof.
  revert c. induction es as [|e es IH]; intros c Hc; [done|]. cbn. apply IH.
  destruct e; cbn; try done; unfold collect; destruct (_ <? _); done.
Qed.

Lemma events_complete maxBytes es c :
  cl_reason (foldl (on_event maxBytes) c es) = None →
  cl_out (foldl (on_event maxBytes) c es) = cl_out c ++ all_output false es ∧
  cl_err (foldl (on_event maxBytes) c es) = cl_err c ++ all_output true es.
Proof.
  unfold all_output. revert c. induction es as [|e es IH]; intros c; cbn [foldl fmap list_fmap mjoin list_join].
  { by rewrite !app_nil_r. }
  intros Hr. destruct (IH _ Hr) as [-> ->].
  destruct e; cbn [on_event] in *; try (exfalso; by apply (reason_sticky maxBytes es (stop _ c)) in Hr).
  - unfold collect in *. destruct (_ <? _); [exfalso; revert Hr; by apply reason_sticky|].
    cbn. by rewrite <- app_assoc.
  - unfold collect in *. destruct (_ <? _); [exfalso; revert Hr; by apply reason_sticky|].
    cbn. by rewrite <- app_assoc.
Qed.

(** A Docker command resolves only with the complete output of its child, within the
    caller's byte limit, and with exit status 0 unless the caller allowed failure; every other
    run (a limit, a timeout, an abort, a failed spawn) is a [DockerError]. *)
Lemma cli_command_complete aborted o run r :
  0 ≤ op_maxBytes o → cli_command aborted o run = Ok r →
  cr_stdout r = all_output false (ch_events run) ∧ cr_stderr r = all_output true (ch_events run) ∧
  size (cr_stdout r) + size (cr_stderr r) ≤ op_maxBytes o ∧
  (op_allowFailure o = false → cr_exitCode r = 0) ∧
  Forall (λ e, match e with Stdout _ | Stderr _ => True | _ => False end) (ch_events run).
Proof.
  unfold cli_command. intros H0. destruct (_ && _); [done|].
  pose proof (events_within (op_maxBytes o) (ch_events run) (mkCollected [] [] 0 None)) as Hw.
  pose proof (events_complete (op_maxBytes o) (ch_events run) (mkCollected [] [] 0 None)) as Hc.
  set (c := foldl _ _ _) in *. destruct (cl_reason c) eqn:Er; [done|].
  destruct (_ && _) eqn:E; [done|]. intros [= <-]. cbn.
  destruct (Hc eq_refl) as [-> ->]. destruct Hw as [Hs Hb]; [done|done|].
  destruct (Hc eq_refl) as [Eo Ee]. rewrite Eo, Ee in Hs. cbn in Hs. split_and!; [done..|cbn; lia| |].
  - intros Ha. rewrite Ha, andb_true_r, negb_false_iff in E. by apply Z.eqb_eq.
  - clear -Er. subst c. generalize dependent (mkCollected [] [] 0 None).
    induction (ch_events run) as [|e es IH]; intros c Hr; [constructor|]. constructor; [|by eapply IH].
    destruct e; [done|done|..]; cbn [foldl on_event] in Hr; by apply (reason_sticky (op_maxBytes o) es (stop _ c)) in Hr.
Qed.

(** ** What the supervisor relies on *)

(** A transport answers a command in a history of the host; its results respect the limit. *)
Class DockerTransport (history : Type) := {
  docker : history → list jsstr → Options → result CommandResult;
  docker_bounded h args o r :
    0 ≤ op_maxBytes o → docker h args o = Ok r →
    size (cr_stdout r) + size (cr_stderr r) ≤ op_maxBytes o;
  docker_errors h args o e : docker h args o = Err e → ∃ code, e = DockerError code
}.

(** [DockerCli] is a transport, whatever its children do. *)
Program Definition DockerCli {history} (aborted : history → bool)
    (child : history → list jsstr → Options → ChildRun) : DockerTransport history :=
  {| docker h args o := cli_command (aborted h) o (child h args o) |}.
Next Obligation.
  intros history aborted child h args o r Ho. cbn. unfold cli_command.
  destruct (_ && _); [done|].
  pose proof (events_within (op_maxBytes o) (ch_events (child h args o)) (mkCollected [] [] 0 None)) as Hw.
  destruct (cl_reason _) eqn:Er; [done|]. destruct (_ && _); [done|]. intros [= <-]. cbn.
  destruct Hw as [Hs Hb]; [done|done|]. lia.
Qed.
Next Obligation.
  intros history aborted child h args o e. cbn. unfold cli_command.
  destruct (_ && _); [intros [= <-]; eauto|].
  destruct (cl_reason _); [intros [= <-]; eauto|]. destruct (_ && _); [|done]. intros [= <-]. eauto.
Qed.
