(* ===== verification/Host.v ===== *)
(** * The runner's host

    What the supervisor process acts on: its own state and the host around it.  The host is
    outside the repository, so its answers are parameters: each answer is a function of the
    history of the interactions before it, which makes a run of the supervisor executable for a
    given host and lets theorems speak about the commands that were issued. *)

From S2P Require Import Prelude JsText Contracts Io Buffers RuntimePolicy Transport.
Local Open Scope Z_scope.

Inductive call :=
| C_docker (args : list jsstr) (r : result CommandResult)
| C_readFile (path : jsstr)
| C_now
| C_uuid.
Abbreviation history := (list call).

(** Docker, the file system, the clock, [randomUUID], the state of the execution's abort
    signal, and the engine's [JSON.parse] and [Number] ([None] when the result of [Number(text)]
    is not a safe integer). *)
Class Host := {
  host_docker : DockerTransport history;
  readFile_at : history → jsstr → option jsstr;
  now_at : history → Z;
  uuid_at : history → jsstr;
  aborted_at : history → bool;
  JSON_parse : jsstr → option json;
  Number_of : jsstr → option Z
}.
#[export] Existing Instance host_docker.

(** The fields of [SandboxSupervisor]; [active] holds the keys of the running executions. *)
Record World := mkWorld {
  w_history : history; w_manifest : RuntimeManifest; w_ready : bool; w_active : list jsstr;
  w_shuttingDown : bool
}.
Definition set_history (h : history) (w : World) : World :=
  mkWorld h (w_manifest w) (w_ready w) (w_active w) (w_shuttingDown w).
Definition set_ready (b : bool) (w : World) : World :=
  mkWorld (w_history w) (w_manifest w) b (w_active w) (w_shuttingDown w).
Definition set_active (a : list jsstr) (w : World) : World :=
  mkWorld (w_history w) (w_manifest w) (w_ready w) a (w_shuttingDown w).
Definition set_shuttingDown (w : World) : World :=
  mkWorld (w_history w) (w_manifest w) (w_ready w) (w_active w) true.
Definition log (c : call) (w : World) : World := set_history (w_history w ++ [c]) w.

Section Primitives.
Context `{Host}.

Definition command (args : list jsstr) (o : Options) : io World CommandResult := λ w,
  let r := docker (w_history w) args o in (r, log (C_docker args r) w).
Definition readFile (path : jsstr) (failure : error) : io World jsstr := λ w,
  (match readFile_at (w_history w) path with Some s => Ok s | None => Err failure end,
   log (C_readFile path) w).
Definition date_now : io World Z := λ w, (Ok (now_at (w_history w)), log C_now w).
Definition randomUUID : io World jsstr := λ w, (Ok (uuid_at (w_history w)), log C_uuid w).
Definition signal_aborted : io World bool := ask (λ w, aborted_at (w_history w)).
Definition parse_json (b : buffer) : io World json := λ w,
  (match JSON_parse (decode b) with Some j => Ok j | None => Err (JsError "SyntaxError") end, w).
End Primitives.

(** ** Histories only grow *)

Definition extends (w w' : World) : Prop := w_history w `prefix_of` w_history w'.
#[export] Instance extends_preorder : PreOrder extends.
Proof. split; [intros w|intros w1 w2 w3]; unfold extends; [done|]. intros H1 H2. by etrans. Qed.

Lemma extends_log c w : extends w (log c w).
Proof. apply prefix_app_r. done. Qed.

(** What an execution of one request leaves alone: the manifest, the other executions and the
    shutdown flag; readiness can only be lost. *)
Record quiet (w w' : World) : Prop := {
  q_history : extends w w';
  q_manifest : w_manifest w' = w_manifest w;
  q_active : w_active w' = w_active w;
  q_shuttingDown : w_shuttingDown w' = w_shuttingDown w;
  q_ready : w_ready w' = true → w_ready w = true
}.
#[export] Instance quiet_preorder : PreOrder quiet.
Proof.
  split; [intros w; by split|]. intros w1 w2 w3 [] []. split; [by etrans|congruence..|auto].
Qed.
Lemma quiet_log c w : quiet w (log c w).
Proof. split; try done. apply extends_log. Qed.

Section Quiet.
Context `{Host}.
Lemma command_quiet args o : respects quiet (command args o).
Proof. intros w. apply quiet_log. Qed.
Lemma readFile_quiet path e : respects quiet (readFile path e).
Proof. intros w. apply quiet_log. Qed.
Lemma date_now_quiet : respects quiet date_now.
Proof. intros w. apply quiet_log. Qed.
Lemma randomUUID_quiet : respects quiet randomUUID.
Proof. intros w. apply quiet_log. Qed.
Lemma signal_aborted_quiet : respects quiet signal_aborted.
Proof. apply respects_ask, _. Qed.
Lemma parse_json_quiet b : respects quiet (parse_json b).
Proof. intros w. cbn. reflexivity. Qed.
End Quiet.
#[export] Hint Resolve command_quiet readFile_quiet date_now_quiet randomUUID_quiet
  signal_aborted_quiet parse_json_quiet : io.
