(* ===== verification/Metrics.v ===== *)
(** * Cgroup metrics ([apps/runner/src/metrics.ts])

    Parsing the kernel's counter files, locating the cgroup of a container under the cgroup
    root, and the difference of two snapshots that becomes the learner's CPU time and memory. *)

From S2P Require Import Prelude JsText Contracts Io JsString RuntimePolicy Buffers Transport Host.
Local Open Scope Z_scope.

Record CgroupSnapshot := mkSnapshot {
  cg_path : jsstr; cg_cpuUsec : Z; cg_memoryPeakBytes : Z; cg_oomKills : Z
}.

Definition METRIC_ERROR_CODES : list string :=
  ["INVALID_CGROUP_PID"; "INVALID_CGROUP_COUNTER"; "UNIFIED_CGROUP_REQUIRED";
   "SCOPED_CGROUP_REQUIRED"; "INVALID_CGROUP_PATH"; "INVALID_CGROUP_COUNTERS";
   "CGROUP_FILES_UNAVAILABLE"; "CGROUP_METRICS_MISSING"; "INVALID_CGROUP_MEMORY_PEAK";
   "CGROUP_IDENTITY_CHANGED"; "CGROUP_COUNTER_REGRESSION"]%string.

(** ** Numbers *)

(** The number a string of decimal digits denotes. *)
Definition digits (s : jsstr) : Z := foldl (λ n u, n * 10 + (u - 48)) 0 s.

(** [integer(value, name)]: digits only, and exactly representable ([Number.isSafeInteger]
    rejects every decimal beyond [2^53 - 1], since its rounding is at least [2^53]). *)
Definition integer (value : jsstr) (name : string) : result Z :=
  let failure := Err (JsError ("INVALID_CGROUP_" +:+ name)) in
  if (length value =? 0)%nat || negb (forallb is_digit value) then failure else
  let parsed := digits value in
  if MAX_SAFE_INTEGER <? parsed then failure else Ok parsed.

(** ** The unified cgroup *)

Definition SLASH : Z := 47.
Definition unifiedCgroupPath (value : jsstr) : result jsstr :=
  match filter (λ line, startsWith (js "0::") line = true) (split LF (trim value)) with
  | [line] =>
      let path := drop 3 line in
      if negb (startsWith (js "/") path) || bool_decide (path = js "/") || bool_decide (0 ∈ path)
      then Err (JsError "SCOPED_CGROUP_REQUIRED") else Ok path
  | _ => Err (JsError "UNIFIED_CGROUP_REQUIRED")
  end.

(** ** Counter files *)

Definition is_counter_char (u : Z) : bool := is_lower u || is_digit u || in_units "_.-" u.

(** [/^([a-z0-9_.-]+) ([0-9]+)$/]: the key has no space, so the first space ends it. *)
Fixpoint split_key (s : jsstr) : option (jsstr * jsstr) :=
  match s with
  | [] => None
  | u :: s' => if u =? 32 then Some ([], s') else prod_map (cons u) id <$> split_key s'
  end.
Definition counter_line (line : jsstr) : option (jsstr * jsstr) :=
  match split_key line with
  | Some (key, value) =>
      if negb (length key =? 0)%nat && forallb is_counter_char key
         && negb (length value =? 0)%nat && forallb is_digit value
      then Some (key, value) else None
  | None => None
  end.

Fixpoint counters_loop (lines : list jsstr) (acc : gmap jsstr Z) : result (gmap jsstr Z) :=
  match lines with
  | [] => Ok acc
  | line :: rest =>
      match counter_line line with
      | None => Err (JsError "INVALID_CGROUP_COUNTERS")
      | Some (key, value) =>
          if bool_decide (is_Some (acc !! key)) then Err (JsError "INVALID_CGROUP_COUNTERS") else
          match integer value "COUNTER" with
          | Err e => Err e
          | Ok n => counters_loop rest (<[key := n]> acc)
          end
      end
  end.
Definition keyedCounters (value : jsstr) : result (gmap jsstr Z) :=
  counters_loop (split LF (trim value)) ∅.

(** ** Paths *)

(** The segments of a path after [.], [..] and empty segments are resolved. *)
Definition push_segment (stack : list jsstr) (seg : jsstr) : list jsstr :=
  if bool_decide (seg = []) || bool_decide (seg = js ".") then stack
  else if bool_decide (seg = js "..") then removelast stack
  else stack ++ [seg].
Definition segments (path : jsstr) : list jsstr := foldl push_segment [] (split SLASH path).
Definition absolute (segs : list jsstr) : jsstr := js "/" ++ intercalate (js "/") segs.

(** [path.resolve(root, relative)] for an absolute [root] and a relative second argument. *)
Definition resolve (root relative : jsstr) : jsstr := absolute (segments (root ++ [SLASH] ++ relative)).

(** ** Snapshots *)

Section Snapshot.
Context `{Host} (root proc : jsstr).

Definition snapshot (container : jsstr) : io World CgroupSnapshot :=
  _ ← raise_when (negb (container_name_ok container)) (JsError "INVALID_CONTAINER_NAME");
  pidResult ← command [js "inspect"; container; js "--format"; js "{{.State.Pid}}"] default_options;
  pid ← of_result (integer (trim (decode (cr_stdout pidResult))) "PID");
  _ ← raise_when (pid <? 2) (JsError "INVALID_CGROUP_PID");
  membership ← readFile (proc ++ js "/" ++ num pid ++ js "/cgroup") (JsError "CGROUP_FILES_UNAVAILABLE");
  relative ← of_result (unifiedCgroupPath membership);
  let directory := resolve root (js "." ++ relative) in
  let root' := absolute (segments root) in
  _ ← raise_when (negb (startsWith (root' ++ js "/") directory)) (JsError "INVALID_CGROUP_PATH");
  cpuText ← readFile (directory ++ js "/cpu.stat") (JsError "CGROUP_FILES_UNAVAILABLE");
  peakText ← readFile (directory ++ js "/memory.peak") (JsError "CGROUP_FILES_UNAVAILABLE");
  eventText ← readFile (directory ++ js "/memory.events") (JsError "CGROUP_FILES_UNAVAILABLE");
  cpu ← of_result (keyedCounters cpuText);
  events ← of_result (keyedCounters eventText);
  match cpu !! js "usage_usec", events !! js "oom_kill" with
  | Some cpuUsec, Some oomKills =>
      peak ← of_result (integer (trim peakText) "MEMORY_PEAK");
      mret (mkSnapshot relative cpuUsec peak oomKills)
  | _, _ => raise (JsError "CGROUP_METRICS_MISSING")
  end.

Lemma snapshot_quiet container : respects quiet (snapshot container).
Proof.
  unfold snapshot. go_io.
Qed.
End Snapshot.

(** ** Differences *)

Record MetricDelta := mkDelta { md_cpuMs : Z; md_memoryKiB : Z; md_oomKilled : bool }.

(** [Math.ceil(a / b)] on non-negative safe integers: the quotient of two doubles is a whole
    number exactly when [b] divides [a]. *)
Definition ceil_div (a b : Z) : Z := - (- a / b).

Definition metricDelta (before after : CgroupSnapshot) : result MetricDelta :=
  if negb (bool_decide (cg_path after = cg_path before)) then Err (JsError "CGROUP_IDENTITY_CHANGED") else
  if (cg_cpuUsec after <? cg_cpuUsec before) || (cg_memoryPeakBytes after <? cg_memoryPeakBytes before)
     || (cg_oomKills after <? cg_oomKills before)
  then Err (JsError "CGROUP_COUNTER_REGRESSION") else
  Ok (mkDelta (ceil_div (cg_cpuUsec after - cg_cpuUsec before) 1000)
        (ceil_div (cg_memoryPeakBytes after) 1024) (cg_oomKills before <? cg_oomKills after)).

(** ** Facts *)

Definition counter_range (n : Z) : Prop := 0 ≤ n ≤ MAX_SAFE_INTEGER.

Lemma digits_nonneg_from l n : 0 ≤ n → forallb is_digit l = true → 0 ≤ foldl (λ n u, n * 10 + (u - 48)) n l.
Proof.
  revert n. induction l as [|u l IH]; intros n Hn; cbn; [done|].
  rewrite andb_true_iff. intros [Hu Hl]. apply IH; [|done]. unfold is_digit in Hu. lia.
Qed.

Lemma integer_Ok value name n : integer value name = Ok n → counter_range n.
Proof.
  unfold integer, counter_range. destruct (_ || _) eqn:E; [done|].
  apply orb_false_iff in E as [_ E]. apply negb_false_iff in E.
  destruct (Z.ltb_spec MAX_SAFE_INTEGER (digits value)); [done|]. intros [= <-].
  split; [by apply digits_nonneg_from|done].
Qed.

Lemma counters_loop_range lines acc m k n :
  (∀ k n, acc !! k = Some n → counter_range n) →
  counters_loop lines acc = Ok m → m !! k = Some n → counter_range n.
Proof.
  revert acc. induction lines as [|line lines IH]; intros acc Hacc; cbn.
  { intros [= <-]. apply Hacc. }
  destruct (counter_line line) as [[key value]|]; [|done]. case_bool_decide; [done|].
  destruct (integer value "COUNTER") as [x|] eqn:Ex; [|done]. apply IH.
  intros k' n'. destruct (decide (key = k')) as [<-|Hne].
  - rewrite lookup_insert_eq. intros [= <-]. by eapply integer_Ok.
  - rewrite lookup_insert_ne by done. apply Hacc.
Qed.

Lemma keyedCounters_range text m k n : keyedCounters text = Ok m → m !! k = Some n → counter_range n.
Proof. apply counters_loop_range. intros ? ?. by rewrite lookup_empty. Qed.

Definition snapshot_range (s : CgroupSnapshot) : Prop :=
  counter_range (cg_cpuUsec s) ∧ counter_range (cg_memoryPeakBytes s) ∧ counter_range (cg_oomKills s).

Lemma snapshot_Ok `{Host} root proc container w sn w' :
  snapshot root proc container w = (Ok sn, w') → snapshot_range sn.
Proof.
  unfold snapshot. intros Hr.
  repeat match goal with
  | Hx : (_ ≫= _) _ = (Ok _, _) |- _ =>
      let a := fresh "a" in let w := fresh "w" in let Ha := fresh "Ha" in
      apply io_bind_Ok in Hx as (a & w & Ha & Hx)
  end.
  destruct (a9 !! _) as [c|] eqn:E1; [|done]. destruct (a10 !! _) as [k|] eqn:E2; [|done].
  apply io_bind_Ok in Hr as (p & wp & Hp & [= <- <-]).
  unfold of_result in *. simplify_eq. split_and!; cbn.
  - eapply keyedCounters_range; [|exact E1]. done.
  - by eapply integer_Ok.
  - eapply keyedCounters_range; [|exact E2]. done.
Qed.

(** Reported metrics.  The difference of two snapshots of the same cgroup is reported only
    when no counter went backwards; the reported CPU time is the least whole number of
    milliseconds, and the memory the least number of KiB, that covers what was measured, and a
    kill by the memory controller is reported exactly when its counter grew. *)
Lemma metricDelta_spec before after d :
  metricDelta before after = Ok d ↔
  cg_path after = cg_path before ∧ cg_cpuUsec before ≤ cg_cpuUsec after ∧
  cg_memoryPeakBytes before ≤ cg_memoryPeakBytes after ∧ cg_oomKills before ≤ cg_oomKills after ∧
  1000 * (md_cpuMs d - 1) < cg_cpuUsec after - cg_cpuUsec before ≤ 1000 * md_cpuMs d ∧
  1024 * (md_memoryKiB d - 1) < cg_memoryPeakBytes after ≤ 1024 * md_memoryKiB d ∧
  md_oomKilled d = bool_decide (cg_oomKills before ≠ cg_oomKills after).
Proof.
  unfold metricDelta, ceil_div. case_bool_decide; cbn [negb]; [|naive_solver].
  destruct (_ || _) eqn:E; [split; [done|lia]|].
  split.
  - intros [= <-]. cbn [md_cpuMs md_memoryKiB md_oomKilled]. split_and!; try done; try lia; try zdiv.
    case_bool_decide; lia.
  - intros (_ & _ & _ & _ & H1 & H2 & H3). f_equal. destruct d as [c m o]. cbn in *. f_equal; [zdiv|zdiv|].
    rewrite H3. case_bool_decide; lia.
Qed.

Lemma metricDelta_range before after d :
  snapshot_range before → snapshot_range after → metricDelta before after = Ok d →
  counter_range (md_cpuMs d) ∧ counter_range (md_memoryKiB d).
Proof.
  unfold snapshot_range, counter_range, metricDelta, ceil_div. intros Hb Ha.
  case_bool_decide; cbn [negb]; [|done]. destruct (_ || _) eqn:E; [done|]. intros [= <-].
  cbn [md_cpuMs md_memoryKiB]. unfold MAX_SAFE_INTEGER in *. split; zdiv.
Qed.
