(* ===== verification/Artifacts.v ===== *)
(** * Build artifacts ([apps/runner/src/artifacts.ts])

    Source files are packed into tar archives for the sandbox, and the class files a compiler
    container produced are rewritten into a fresh archive that holds nothing else.  The tar
    format is the business of [tar-stream]: packing and extraction are parameters. *)

From S2P Require Import Prelude JsText Contracts JsString RuntimePolicy Buffers.
Local Open Scope Z_scope.

Inductive EntryType := E_file | E_directory | E_other.
#[export] Instance EntryType_eq_dec : EqDecision EntryType. Proof. solve_decision. Defined.
Record TarEntry := mkTarEntry {
  te_name : jsstr; te_type : EntryType; te_size : option Z; te_data : buffer
}.

(** [tar_extract] is [None] when the bytes are not a tar archive. *)
Class TarStream := {
  tar_pack : list (jsstr * buffer) → buffer;
  tar_extract : buffer → option (list TarEntry)
}.

Section Artifacts.
Context `{TarStream}.

Definition packFiles (files : list (jsstr * buffer)) : result buffer :=
  let archive := tar_pack files in
  if CAPS.artifactBytes <? size archive then Err (JsError "ARTIFACT_LIMIT") else Ok archive.

(** [[A-Za-z_$][A-Za-z0-9_$]*]: a segment of a Java class path. *)
Definition is_ident_start (u : Z) : bool := is_lower u || is_upper u || in_units "_$" u.
Definition is_ident_char (u : Z) : bool := is_ident_start u || is_digit u.
Definition ident (s : jsstr) : bool := matches is_ident_start is_ident_char s.

(** [/^(?:ident\/)+$/]. *)
Definition package_dir (name : jsstr) : bool :=
  let segs := split 47 name in
  (2 <=? length segs)%nat && bool_decide (last segs = Some []) && forallb ident (removelast segs).

(** [/^(?:ident\/)*ident\.class$/]. *)
Definition class_file (name : jsstr) : bool :=
  let segs := split 47 name in
  match last segs with
  | Some base => forallb ident (removelast segs) && endsWith (js ".class") base
                 && ident (take (length base - 6) base)
  | None => false
  end.

(** [header.name.replace(/^\.\//, '')]. *)
Definition strip_dot (name : jsstr) : jsstr := if startsWith (js "./") name then drop 2 name else name.

Record Extracted := mkExtracted { xt_files : list (jsstr * buffer); xt_total : Z }.

Definition on_entry (e : TarEntry) (x : Extracted) : result Extracted :=
  let name := strip_dot (te_name e) in
  if bool_decide (te_type e = E_directory)
     && (bool_decide (name = []) || bool_decide (name = js ".") || package_dir name)
  then Ok x
  else if negb (bool_decide (te_type e = E_file)) || negb (class_file name)
          || bool_decide (name ∈ fst <$> xt_files x)
          || match te_size e with Some n => CAPS.maxFileBytes <? n | None => true end
          || (CAPS.artifactFiles <=? length (xt_files x))%nat
  then Err (JsError "INVALID_ARTIFACT_ARCHIVE")
  else let total := xt_total x + size (te_data e) in
       if CAPS.artifactBytes <? total then Err (JsError "INVALID_ARTIFACT_ARCHIVE")
       else Ok (mkExtracted (xt_files x ++ [(name, te_data e)]) total).

Fixpoint extract_loop (es : list TarEntry) (x : Extracted) : result Extracted :=
  match es with
  | [] => Ok x
  | e :: es' =>
      match on_entry e x with
      | Ok x' => extract_loop es' x'
      | Err err => Err err
      end
  end.

Definition normalizeJavaArtifacts (bytes : buffer) : result buffer :=
  if CAPS.artifactBytes <? size bytes then Err (JsError "ARTIFACT_LIMIT") else
  match tar_extract bytes with
  | None => Err (JsError "INVALID_ARTIFACT_ARCHIVE")
  | Some entries =>
      match extract_loop entries (mkExtracted [] 0) with
      | Err e => Err e
      | Ok x =>
          if negb (bool_decide (js "Solution.class" ∈ fst <$> xt_files x))
          then Err (JsError "MISSING_ENTRYPOINT") else packFiles (xt_files x)
      end
  end.

(** ** What leaves the compiler container *)

Record extracted_ok (x : Extracted) : Prop := {
  xo_names : NoDup (fst <$> xt_files x);
  xo_class : Forall (λ f, class_file f.1 = true) (xt_files x);
  xo_count : (length (xt_files x) ≤ CAPS.artifactFiles)%nat;
  xo_total : xt_total x = sumZ (size ∘ snd <$> xt_files x);
  xo_bytes : xt_total x ≤ CAPS.artifactBytes
}.

Lemma on_entry_ok e x x' : extracted_ok x → on_entry e x = Ok x' → extracted_ok x'.
Proof.
  intros [Hn Hc Hl Ht Hb]. unfold on_entry. destruct (_ && _); [by intros [= <-]|].
  destruct (_ || _) eqn:E; [done|]. rewrite !orb_false_iff, negb_false_iff, bool_decide_eq_false in E.
  destruct E as [[[[_ Ecls] Enew] _] Ecnt]. apply Nat.leb_gt in Ecnt.
  destruct (Z.ltb_spec CAPS.artifactBytes (xt_total x + size (te_data e))); [done|]. intros [= <-].
  split; cbn [xt_files xt_total].
  - rewrite fmap_app. apply NoDup_app. split_and!; [done| |apply NoDup_singleton].
    intros n Hx Hy. apply list_elem_of_singleton in Hy as ->. done.
  - apply Forall_app. split; [done|]. constructor; [|done]. by apply negb_false_iff in Ecls.
  - rewrite length_app. cbn [length]. lia.
  - rewrite fmap_app, sumZ_app, Ht. cbn. lia.
  - done.
Qed.

Lemma extract_loop_ok es x x' : extracted_ok x → extract_loop es x = Ok x' → extracted_ok x'.
Proof.
  revert x. induction es as [|e es IH]; intros x Hx; cbn; [by intros [= <-]|].
  destruct (on_entry e x) as [x1|] eqn:E; [|done]. apply IH. by eapply on_entry_ok.
Qed.

(** A class path is relative and has no parent segment. *)
Definition confined (name : jsstr) : Prop :=
  ∀ seg, seg ∈ split 47 name → seg ≠ [] ∧ seg ≠ js "." ∧ seg ≠ js "..".

Lemma ident_confined s : ident s = true → s ≠ [] ∧ s ≠ js "." ∧ s ≠ js "..".
Proof. intros Hi. split_and!; intros ->; vm_compute in Hi; discriminate. Qed.

Lemma class_file_confined name : class_file name = true → confined name.
Proof.
  unfold class_file, confined. destruct (last (split 47 name)) as [base|] eqn:El; [|done].
  rewrite !andb_true_iff, forallb_forall. intros [[Hi He] _] seg Hs.
  apply last_Some in El as [segs El]. rewrite El in *. rewrite removelast_last in Hi.
  apply elem_of_app in Hs as [Hs|Hs].
  - apply ident_confined, Hi. by apply list_elem_of_In.
  - apply list_elem_of_singleton in Hs as ->.
    split_and!; intros ->; vm_compute in He; discriminate.
Qed.

(** C39: compiled artifacts are confined.  Whatever archive the untrusted compiler container
    returns, the archive that is unpacked into the run containers is a fresh pack of at most 256
    distinct class files of at most 8 MiB together, each at a relative path without empty, [.]
    or [..] segments, and it has the entry point. *)
Theorem artifacts_confined bytes archive :
  normalizeJavaArtifacts bytes = Ok archive →
  ∃ files, archive = tar_pack files ∧ size archive ≤ CAPS.artifactBytes ∧
    NoDup (fst <$> files) ∧ (length files ≤ 256)%nat ∧
    sumZ (size ∘ snd <$> files) ≤ 8 * 1024 * 1024 ∧
    js "Solution.class" ∈ fst <$> files ∧
    ∀ f, f ∈ files → confined f.1 ∧ endsWith (js ".class") f.1 = true.
Proof.
  unfold normalizeJavaArtifacts. destruct (_ <? _); [done|].
  destruct (tar_extract bytes) as [es|]; [|done].
  destruct (extract_loop es _) as [x|] eqn:E; [|done].
  apply extract_loop_ok in E; [|split; [constructor|constructor|cbn; lia|done|done]].
  destruct (bool_decide_reflect (js "Solution.class" ∈ fst <$> xt_files x)); [|done]. cbn [negb].
  unfold packFiles. destruct (Z.ltb_spec CAPS.artifactBytes (size (tar_pack (xt_files x)))); [done|].
  intros [= <-]. destruct E as [Hn Hc Hl Ht Hb]. exists (xt_files x).
  split_and!; try done; [rewrite <- Ht; exact Hb|]. intros f Hf.
  rewrite Forall_forall in Hc. specialize (Hc f Hf). split; [by apply class_file_confined|].
  unfold class_file in Hc. destruct (last (split 47 f.1)) as [base|] eqn:El; [|done].
  rewrite !andb_true_iff in Hc. destruct Hc as [[_ He] _].
  apply endsWith_spec in He as [p ->]. apply split_last in El as [q ->]. apply endsWith_spec.
  exists (q ++ p). by rewrite app_assoc.
Qed.
End Artifacts.
