(* ===== verification/Supervisor.v ===== *)
(** * The sandbox supervisor ([apps/runner/src/supervisor.ts])

    Preflight, the life of one container (create, verify, start, unpack, run, destroy and check
    that it is gone), compilation and the case loop, and the reaper of expired containers. *)

From S2P Require Import Prelude JsText Contracts Judge Io JsString RuntimePolicy Buffers Artifacts.
From S2P Require Import Transport Host Metrics.
Local Open Scope Z_scope.

(** ** Reading Docker's JSON *)

Definition as_object (j : json) : option jsobject := match j with JObj o => Some o | _ => None end.
Definition as_array (j : json) : option (list json) := match j with JArr l => Some l | _ => None end.
Definition parse_array {A} (p : json → option A) (j : json) : option (list A) :=
  l ← as_array j; mapM p l.
Definition literal_str (s : string) (j : json) : option unit :=
  match j with JStr t => if bool_decide (t = js s) then Some tt else None | _ => None end.
Definition literal_bool (b : bool) (j : json) : option unit :=
  match j with JBool c => if Bool.eqb b c then Some tt else None | _ => None end.
Definition literal_num (n : Z) (j : json) : option unit :=
  match j with JNum m => if n =? m then Some tt else None | _ => None end.
Definition parse_number (j : json) : option Z := match j with JNum n => Some n | _ => None end.
Definition parse_nullable {A} (p : json → option A) (j : json) : option (option A) :=
  match j with JNull => Some None | _ => Some <$> p j end.

(** [schema.parse] of a value: a rejection is a [ZodError]. *)
Definition zod_parse {S A} (p : json → option A) (j : json) : io S A :=
  match p j with Some a => mret a | None => raise ZodError end.

(** [text.includes(part)]. *)
Fixpoint includes (part text : jsstr) : bool :=
  startsWith part text || match text with [] => false | _ :: t => includes part t end.

(** ** Preflight *)

Record Info := mkInfo { nf_runtimes : list string; nf_securityOptions : list jsstr }.
Definition infoSchema (j : json) : option Info :=
  o ← as_object j;
  _ ← field "OSType" o ≫= literal_str "linux";
  _ ← field "CgroupVersion" o ≫= literal_str "2";
  d ← field "CgroupDriver" o ≫= parse_string_if (λ d, bool_decide (d = js "systemd") || bool_decide (d = js "cgroupfs"));
  runtimes ← field "Runtimes" o ≫= as_object;
  security ← field "SecurityOptions" o ≫= parse_array parse_string;
  _ ← field "MemoryLimit" o ≫= literal_bool true;
  _ ← field "PidsLimit" o ≫= literal_bool true;
  _ ← field "CPUCfsQuota" o ≫= literal_bool true;
  Some (mkInfo (fst <$> runtimes) security).

Record ImageData := mkImageData { im_repoDigests : list jsstr; im_env : option (list jsstr) }.
Definition imageDataSchema (j : json) : option ImageData :=
  o ← as_object j;
  digests ← field "RepoDigests" o ≫= parse_array parse_string;
  config ← field "Config" o ≫= as_object;
  _ ← field "User" config ≫= literal_str "10001:10001";
  env ← field "Env" config ≫= parse_nullable (parse_array parse_string);
  Some (mkImageData digests env).

(** The variables an image may set: [/^(PATH|LANG|...)=/]. *)
Definition allowed_env : list string :=
  ["PATH"; "LANG"; "LANGUAGE"; "LC_ALL"; "JAVA_HOME"; "JAVA_VERSION"; "NODE_VERSION";
   "YARN_VERSION"; "PYTHON_VERSION"; "PYTHON_SHA256"; "GPG_KEY"]%string.
Definition env_ok (v : jsstr) : bool := existsb (λ n, startsWith (js (n +:+ "=")) v) allowed_env.

(** The template [dockerInfoFormat], with each field written as [docker info] prints it. *)
Definition dockerInfoFormat : jsstr :=
  let q := [34] in
  let item (name : string) := q ++ js name ++ q ++ js (":{{json ." +:+ name +:+ "}}") in
  js "{" ++ intercalate (js ",")
    (item <$> ["OSType"; "CgroupVersion"; "CgroupDriver"; "Runtimes"; "SecurityOptions";
               "MemoryLimit"; "PidsLimit"; "CPUCfsQuota"]%string) ++ js "}".

Inductive ContainerState := CS_RUNNING | CS_STOPPED | CS_OOM.

(** [{OOMKilled, Running, Pid}] of a container. *)
Definition stateSchema (j : json) : option (bool * bool * Z) :=
  o ← as_object j;
  oom ← field "OOMKilled" o ≫= parse_bool;
  running ← field "Running" o ≫= parse_bool;
  pid ← field "Pid" o ≫= parse_int_if (λ n, 0 <=? n);
  Some (oom, running, pid).

(** What [verifyContainer] reads of a created container. *)
Record Inspected := mkInspected {
  in_capDrop : list jsstr; in_securityOpt : list jsstr; in_ulimits : list (jsstr * Z * Z)
}.
Definition ulimitSchema (j : json) : option (jsstr * Z * Z) :=
  o ← as_object j;
  name ← field "Name" o ≫= parse_string;
  hard ← field "Hard" o ≫= parse_number;
  soft ← field "Soft" o ≫= parse_number;
  Some (name, hard, soft).
Definition inspectSchema (memoryMiB : Z) (j : json) : option Inspected :=
  o ← as_object j;
  config ← field "Config" o ≫= as_object;
  _ ← field "User" config ≫= literal_str "10001:10001";
  mounts ← field "Mounts" o ≫= as_array;
  _ ← check (λ l : list json, (length l =? 0)%nat) mounts;
  host ← field "HostConfig" o ≫= as_object;
  _ ← field "Runtime" host ≫= literal_str "runsc";
  _ ← field "NetworkMode" host ≫= literal_str "none";
  _ ← field "ReadonlyRootfs" host ≫= literal_bool true;
  _ ← field "Privileged" host ≫= literal_bool false;
  _ ← field "Memory" host ≫= literal_num (memoryMiB * 1024 * 1024);
  _ ← field "MemorySwap" host ≫= literal_num (memoryMiB * 1024 * 1024);
  _ ← field "NanoCpus" host ≫= literal_num 1000000000;
  _ ← field "PidsLimit" host ≫= literal_num CAPS.pids;
  capDrop ← field "CapDrop" host ≫= parse_array parse_string;
  securityOpt ← field "SecurityOpt" host ≫= parse_array parse_string;
  _ ← field "Binds" host ≫= (λ j, match j with JNull => Some tt | _ => None end);
  ulimits ← field "Ulimits" host ≫= parse_array ulimitSchema;
  Some (mkInspected capDrop securityOpt ulimits).

Definition policy_ok (d : Inspected) : bool :=
  bool_decide (js "ALL" ∈ in_capDrop d)
  && existsb (startsWith (js "no-new-privileges")) (in_securityOpt d)
  && match list_find (λ u : jsstr * Z * Z, u.1.1 = js "nproc") (in_ulimits d) with
     | Some (_, (_, hard, soft)) => (hard =? CAPS.pids) && (soft =? CAPS.pids)
     | None => false
     end.

(** ** Command lines *)

Definition with_signal (input : buffer) : Options := mkOptions input true 5000 65536 false.
Definition rm_args (name : jsstr) : list jsstr := [js "rm"; js "--force"; name].
Definition ps_args (name : jsstr) : list jsstr :=
  [js "ps"; js "--all"; js "--quiet"; js "--filter"; js "name=^/" ++ name ++ js "$"].
Definition unpack_args (name : jsstr) : list jsstr :=
  [js "exec"; js "--interactive"; name; js "/bin/tar"; js "-x"; js "-f"; js "-"; js "-C"; js "/work"].
Definition javac_args (name : jsstr) : list jsstr :=
  [js "exec"; name; js "/opt/java/openjdk/bin/javac"; js "-J-Xmx256m"; js "-proc:none";
   js "-encoding"; js "UTF-8"; js "-d"; js "/work/classes"; js "/work/Solution.java"].
Definition run_args (name : jsstr) (l : Language) : list jsstr :=
  [js "exec"; js "--interactive"; name] ++ profile_command l.

Section Supervisor.
Context `{Zod} `{TarStream} `{Host} (root proc : jsstr).

Definition preflight_image (image : jsstr) : io World unit :=
  result ← command [js "image"; js "inspect"; image; js "--format"; js "{{json .}}"] default_options;
  j ← parse_json (cr_stdout result);
  data ← zod_parse imageDataSchema j;
  raise_when (negb (bool_decide (image ∈ im_repoDigests data))
              || existsb (λ v, negb (env_ok v)) (default [] (im_env data)))
    (JsError "UNTRUSTED_RUNTIME_IMAGE").

Definition preflight : io World unit :=
  _ ← update (set_ready false);
  result ← command [js "info"; js "--format"; dockerInfoFormat] default_options;
  j ← parse_json (cr_stdout result);
  info ← zod_parse infoSchema j;
  _ ← raise_when (negb (existsb (String.eqb "runsc") (nf_runtimes info))
                  || negb (existsb (includes (js "seccomp")) (nf_securityOptions info)))
        (JsError "ISOLATION_UNAVAILABLE");
  manifest ← ask w_manifest;
  _ ← io_each preflight_image [m_java manifest; m_python manifest; m_javascript manifest];
  update (set_ready true).

(** ** One container *)

(** Success of [rm] alone is no acknowledgement: absence is checked independently. *)
Definition destroy (name : jsstr) : io World unit :=
  _ ← command (rm_args name) (mkOptions [] false 5000 65536 true);
  result ← command (ps_args name) default_options;
  raise_when (negb (length (trim (decode (cr_stdout result))) =? 0)%nat) SandboxCleanupError.

Definition verifyContainer (name : jsstr) (memoryMiB : Z) : io World unit :=
  result ← command [js "inspect"; name; js "--format"; js "{{json .}}"] default_options;
  j ← parse_json (cr_stdout result);
  data ← zod_parse (inspectSchema memoryMiB) j;
  raise_when (negb (policy_ok data)) (JsError "SANDBOX_POLICY_MISMATCH").

Definition check_signal : io World unit :=
  aborted ← signal_aborted; raise_when aborted (DockerError "ABORTED").

(** The [finally] clause of [sandbox]. *)
Definition cleanup (name : jsstr) : io World unit :=
  catch (destroy name) (λ _, _ ← update (set_ready false); raise SandboxCleanupError).

Definition sandbox {A} (request : SandboxRequest) (memoryMiB : option Z) (archive : buffer)
    (deadline : Z) (body : jsstr → io World A) : io World A :=
  u ← randomUUID;
  let name := js "ac-" ++ u in
  finally
    (_ ← check_signal;
     manifest ← ask w_manifest;
     args ← of_result (containerArgs name (manifest_image manifest (sr_language request)) memoryMiB
                         (mkOwner (sr_executionId request) (sr_attempt request) deadline));
     _ ← command args (with_signal []);
     _ ← check_signal;
     _ ← verifyContainer name (default 0 memoryMiB);
     _ ← command [js "start"; name] (with_signal []);
     _ ← command (unpack_args name) (with_signal archive);
     body name)
    (cleanup name).

Definition containerState (name : jsstr) : io World ContainerState :=
  result ← command [js "inspect"; name; js "--format"; js "{{json .State}}"] default_options;
  j ← parse_json (cr_stdout result);
  match stateSchema j with
  | None => raise (JsError "INVALID_CONTAINER_STATE")
  | Some (oom, running, pid) =>
      if oom && negb running && (pid =? 0) then mret CS_OOM
      else if negb oom && negb running && (pid =? 0) then mret CS_STOPPED
      else if negb oom && running && (2 <=? pid) then mret CS_RUNNING
      else raise (JsError "INVALID_CONTAINER_STATE")
  end.

(** ** Executing a request *)

(** The compilation of a Java source: the compiler's observation, the remaining output budget
    and the archive the cases run with. *)
Definition compile (deadline : Z) (budget : Z) (archive : buffer) (name : jsstr) :
    io World (Compilation * Z * buffer) :=
  _ ← command [js "exec"; name; js "/bin/mkdir"; js "/work/classes"] (with_signal []);
  now ← date_now;
  result ← command (javac_args name)
             (mkOptions [] true (Z.min CAPS.compileMs (deadline - now)) budget true);
  let spare := budget - (size (cr_stdout result) + size (cr_stderr result)) in
  let observed := mkCompilation (cr_exitCode result =? 0) (decode (cr_stdout result))
                    (decode (cr_stderr result)) in
  if cr_exitCode result =? 0 then
    classes ← command [js "exec"; name; js "/bin/tar"; js "-c"; js "-f"; js "-"; js "-C";
                       js "/work/classes"; js "."]
                (mkOptions [] true 5000 CAPS.artifactBytes false);
    normalized ← of_result (normalizeJavaArtifacts (cr_stdout classes));
    mret (observed, spare, normalized)
  else mret (observed, spare, archive).

(** The failure an observation records when the sandbox command itself was stopped. *)
Definition stopped_case (id : jsstr) (f : ResourceFailure) (wallMs : Z) : ObservedCase :=
  mkObservedCase id [] [] None (Some f) wallMs None None.

(** The measured run of one case.  [inl] is a measured run, [inr] a run whose final snapshot
    failed because the container is no longer running. *)
Definition measured_run (request : SandboxRequest) (test : SandboxCase) (deadline budget started : Z)
    (name : jsstr) : io World (ObservedCase * Z) :=
  before ← snapshot root proc name;
  now ← date_now;
  result ← command (run_args name (sr_language request))
             (mkOptions (encode (sc_input test)) true
                (Z.max 1 (Z.min (sr_timeMs request) (deadline - now))) budget true);
  let spare := budget - (size (cr_stdout result) + size (cr_stderr result)) in
  measured ← catch (after ← snapshot root proc name; d ← of_result (metricDelta before after); mret (inl d))
               (λ e, state ← containerState name;
                     match state with CS_RUNNING => raise e | _ => mret (inr state) end);
  ended ← date_now;
  let out := decode (cr_stdout result) in
  let err := decode (cr_stderr result) in
  let exit := Some (cr_exitCode result) in
  let observed := match measured with
    | inl d => mkObservedCase (sc_id test) out err exit
                 (if md_oomKilled d then Some F_MEMORY_LIMIT else None) (ended - started)
                 (Some (md_cpuMs d)) (Some (md_memoryKiB d))
    | inr state => mkObservedCase (sc_id test) out err exit
                 (match state with CS_OOM => Some F_MEMORY_LIMIT | _ => None end) (ended - started)
                 None None
    end in
  mret (observed, spare).

(** [catch(e)] of the case: a stopped command becomes a resource failure.  No later case runs
    after a failure, so the budget it leaves is not read again. *)
Definition stopped_run (id : jsstr) (started budget : Z) (e : error) : io World (ObservedCase * Z) :=
  match e with
  | DockerError code =>
      if String.eqb code "COMMAND_TIMEOUT" then
        ended ← date_now; mret (stopped_case id F_TIME_LIMIT (ended - started), budget)
      else if String.eqb code "OUTPUT_LIMIT" then
        ended ← date_now; mret (stopped_case id F_OUTPUT_LIMIT (ended - started), 0)
      else raise e
  | _ => raise e
  end.

Definition run_case (request : SandboxRequest) (test : SandboxCase) (deadline budget : Z)
    (name : jsstr) : io World (ObservedCase * Z) :=
  _ ← (if (length (sc_files test) =? 0)%nat then mret tt else
       files ← of_result (packFiles (prod_map id encode <$> sc_files test));
       _ ← command (unpack_args name) (with_signal files); mret tt);
  started ← date_now;
  catch (measured_run request test deadline budget started name)
        (stopped_run (sc_id test) started budget).

Fixpoint run_cases (request : SandboxRequest) (archive : buffer) (deadline : Z)
    (cases : list SandboxCase) (budget : Z) : io World (list ObservedCase) :=
  match cases with
  | [] => mret []
  | test :: rest =>
      _ ← check_signal;
      if budget <=? 0 then mret [stopped_case (sc_id test) F_OUTPUT_LIMIT 0] else
      r ← sandbox request (sr_memoryMiB request) archive deadline (run_case request test deadline budget);
      let '(observed, spare) := r in
      if bool_decide (is_Some (oc_failure observed)) then mret [observed] else
      others ← run_cases request archive deadline rest spare;
      mret (observed :: others)
  end.

(** The [try] block of [execute]. *)
Definition observe (request : SandboxRequest) (deadline : Z) : io World JudgeObservation :=
  archive ← of_result (packFiles [(profile_filename (sr_language request), encode (sr_sourceCode request))]);
  match sr_language request with
  | java =>
      r ← sandbox request (Some CAPS.compileMemoryMiB) archive deadline
            (compile deadline CAPS.outputBytes archive);
      let '(compilation, spare, classes) := r in
      if negb (co_ok compilation) then mret (mkObservation false (Some compilation) []) else
      cases ← run_cases request classes deadline (sr_cases request) spare;
      mret (mkObservation false (Some compilation) cases)
  | _ =>
      cases ← run_cases request archive deadline (sr_cases request) CAPS.outputBytes;
      mret (mkObservation false None cases)
  end.

Definition attempt_key (request : SandboxRequest) : jsstr :=
  sr_executionId request ++ js ":" ++ num (sr_attempt request).

Definition supervise (input : SandboxRequest) : io World JudgeObservation :=
  request ← of_result (sandboxRequest_parse input);
  w ← ask (λ w, w);
  _ ← raise_when (negb (w_ready w) || w_shuttingDown w) (JsError "RUNNER_NOT_READY");
  _ ← raise_when (2 <=? length (w_active w))%nat (JsError "RUNNER_CAPACITY");
  let key := attempt_key request in
  _ ← raise_when (bool_decide (key ∈ w_active w)) (JsError "DUPLICATE_ATTEMPT");
  _ ← update (λ w, set_active (w_active w ++ [key]) w);
  now ← date_now;
  finally (observe request (now + CAPS.totalMs))
          (update (λ w, set_active (filter (λ k, k ≠ key) (w_active w)) w)).

(** ** The reaper and shutdown *)

(** [/^[a-f0-9]{12,64}$/]. *)
Definition container_id_ok (id : jsstr) : bool :=
  forallb is_hex id && (12 <=? length id)%nat && (length id <=? 64)%nat.

Definition labelsSchema (j : json) : option (list (string * jsstr)) :=
  o ← as_object j; mapM (λ kv, pair kv.1 <$> parse_string kv.2) o.
Fixpoint label (k : string) (l : list (string * jsstr)) : option jsstr :=
  match l with
  | [] => None
  | (k', v) :: l' => if String.eqb k k' then Some v else label k l'
  end.

Definition reap_one (now : Z) (id : jsstr) : io World unit :=
  _ ← raise_when (negb (container_id_ok id)) (JsError "INVALID_CONTAINER_ID");
  detail ← command [js "inspect"; id; js "--format"; js "{{json .Config.Labels}}"] default_options;
  j ← parse_json (cr_stdout detail);
  labels ← zod_parse labelsSchema j;
  let expired := match label "arenacore.deadline" labels ≫= Number_of with
                 | Some deadline => deadline <=? now
                 | None => true
                 end in
  if negb expired then mret tt else
  _ ← command (rm_args id) default_options;
  remaining ← command [js "ps"; js "--all"; js "--quiet"; js "--filter"; js "id=" ++ id] default_options;
  if (length (trim (decode (cr_stdout remaining))) =? 0)%nat then mret tt
  else _ ← update (set_ready false); raise SandboxCleanupError.

Definition reapExpired (now : Z) : io World unit :=
  result ← command [js "ps"; js "--all"; js "--quiet"; js "--filter"; js "label=arenacore.managed=true"]
             default_options;
  let ids := take 100 (filter (λ id, id ≠ []) (split LF (trim (decode (cr_stdout result))))) in
  io_each (reap_one now) ids.

Definition stopAccepting : io World unit := update set_shuttingDown.
End Supervisor.
