(* ===== verification/SupervisorFacts.v ===== *)
(** * Container cleanup

    Every container an execution creates is confirmed gone before the execution settles, or the
    execution reports the failure and the supervisor stops being ready. *)

From S2P Require Import Prelude JsText Contracts Judge Io JsString RuntimePolicy Buffers Artifacts.
From S2P Require Import Transport Host Metrics Supervisor.
Local Open Scope Z_scope.

(** ** Traces of Docker commands *)

(** A [docker create] of the container [name]. *)
Definition creates (c : call) (name : jsstr) : Prop :=
  ∃ args r, c = C_docker args r ∧ take 3 args = [js "create"; js "--name"; name].

(** A [docker ps] that resolved and listed no container with that name. *)
Definition confirms_absent (c : call) (name : jsstr) : Prop :=
  ∃ r, c = C_docker (ps_args name) (Ok r) ∧ trim (decode (cr_stdout r)) = [].

(** Every created container is later confirmed absent. *)
Definition settled (l : history) : Prop :=
  ∀ i c name, l !! i = Some c → creates c name →
  ∃ j d, (i < j)%nat ∧ l !! j = Some d ∧ confirms_absent d name.

Lemma settled_app l k : settled l → settled k → settled (l ++ k).
Proof.
  intros Hl Hk i c name Hi Hc. apply lookup_app_Some in Hi as [Hi|[Hlen Hi]].
  - destruct (Hl i c name Hi Hc) as (j & d & ? & Hj & Hd). exists j, d. split_and!; try done.
    by apply lookup_app_l_Some.
  - destruct (Hk _ c name Hi Hc) as (j & d & ? & Hj & Hd). exists (length l + j)%nat, d.
    split_and!; [lia| |done]. rewrite lookup_app_r by lia. by replace (length l + j - length l)%nat with j by lia.
Qed.

(** The calls of [l] create no container but [name]. *)
Definition only (name : option jsstr) (l : history) : Prop :=
  ∀ c n, c ∈ l → creates c n → name = Some n.

Lemma only_app name l k : only name l → only name k → only name (l ++ k).
Proof. intros Hl Hk c n [Hc|Hc]%elem_of_app; eauto. Qed.

Lemma only_none_settled l : only None l → settled l.
Proof. intros Hl i c name Hi%list_elem_of_lookup_2 Hc. by specialize (Hl c name Hi Hc). Qed.

Lemma only_confirmed name l c d :
  only (Some name) l → only None [c] → confirms_absent d name → settled (l ++ [c; d]).
Proof.
  intros Hl Hn Hd i x n Hi Hx.
  assert (name = n ∧ (i < length l)%nat) as [<- Hlt].
  { apply lookup_app_Some in Hi as [Hi|[_ Hi]].
    - split; [|by apply lookup_lt_Some in Hi]. apply list_elem_of_lookup_2 in Hi.
      specialize (Hl x n Hi Hx). congruence.
    - exfalso. destruct (i - length l)%nat as [|[|m]]; cbn in Hi; simplify_eq.
      + by specialize (Hn x n ltac:(left) Hx).
      + destruct Hd as (r & -> & _), Hx as (args & r' & [= <- _] & E). done. }
  exists (length l + 1)%nat, d. split_and!; [lia| |done].
  rewrite lookup_app_r by lia. by replace (length l + 1 - length l)%nat with 1%nat by lia.
Qed.

(** ** Relations on worlds *)

Definition grows (name : option jsstr) (w w' : World) : Prop :=
  ∃ l, w_history w' = w_history w ++ l ∧ only name l.

#[export] Instance grows_preorder name : PreOrder (grows name).
Proof.
  split.
  - intros w. exists []. split; [by rewrite app_nil_r|]. by intros c n ?%elem_of_nil.
  - intros w1 w2 w3 (l & E1 & H1) (k & E2 & H2). exists (l ++ k).
    split; [by rewrite E2, E1, app_assoc|by apply only_app].
Qed.

Lemma grows_log name c w : only name [c] → grows name w (log c w).
Proof. intros Hc. by exists [c]. Qed.

Definition creating (args : list jsstr) : option jsstr :=
  match args with
  | a :: b :: n :: _ => if bool_decide (a = js "create") && bool_decide (b = js "--name") then Some n else None
  | _ => None
  end.

Lemma creates_creating args r n : creates (C_docker args r) n → creating args = Some n.
Proof.
  intros (a & r' & [= <- <-] & E). destruct args as [|x [|y [|z t]]]; try done. cbn in E.
  injection E as -> -> ->. done.
Qed.

Section Facts.
Context `{Zod} `{TarStream} `{Host} (root proc : jsstr).

Lemma command_grows name args o :
  (∀ n, creating args = Some n → name = Some n) → respects (grows name) (command args o).
Proof.
  intros Ha w. apply grows_log. intros c n ->%list_elem_of_singleton Hc.
  by apply Ha, (creates_creating _ (docker (w_history w) args o)).
Qed.
Lemma command_plain name args o : creating args = None → respects (grows name) (command args o).
Proof. intros E. apply command_grows. by rewrite E. Qed.

Lemma other_grows name c w : (∀ args r, c ≠ C_docker args r) → grows name w (log c w).
Proof.
  intros Hc. apply grows_log. intros d n ->%list_elem_of_singleton (args & r & -> & _).
  by destruct (Hc args r).
Qed.
Lemma readFile_grows name p e : respects (grows name) (readFile p e).
Proof. intros w. by apply other_grows. Qed.
Lemma date_now_grows name : respects (grows name) date_now.
Proof. intros w. by apply other_grows. Qed.
Lemma randomUUID_grows name : respects (grows name) randomUUID.
Proof. intros w. by apply other_grows. Qed.
Lemma parse_json_grows name b : respects (grows name) (parse_json b).
Proof. intros w. cbn. reflexivity. Qed.
Lemma signal_aborted_grows name : respects (grows name) signal_aborted.
Proof. apply respects_ask, _. Qed.
Lemma update_grows name f : (∀ w, w_history (f w) = w_history w) → respects (grows name) (update f).
Proof. intros Hf w. exists []. rewrite app_nil_r. split; [apply Hf|]. by intros c n ?%elem_of_nil. Qed.
Lemma zod_parse_grows {A} name (p : json → option A) j : respects (grows name) (zod_parse p j).
Proof. unfold zod_parse. destruct (p j); intros w; cbn; reflexivity. Qed.

Hint Resolve readFile_grows date_now_grows randomUUID_grows parse_json_grows signal_aborted_grows
  zod_parse_grows : io.
Hint Extern 1 (respects (grows _) (command _ _)) => apply command_plain; reflexivity : io.
Hint Extern 1 (respects (grows _) (update _)) => apply update_grows; reflexivity : io.

Lemma snapshot_grows name c : respects (grows name) (snapshot root proc c).
Proof. unfold snapshot. go_io. Qed.
Lemma containerState_grows name c : respects (grows name) (containerState c).
Proof. unfold containerState. go_io. Qed.
Lemma verifyContainer_grows name c m : respects (grows name) (verifyContainer c m).
Proof. unfold verifyContainer. go_io. Qed.
Hint Resolve snapshot_grows containerState_grows verifyContainer_grows : io.

Lemma compile_grows name deadline budget archive c :
  respects (grows name) (compile deadline budget archive c).
Proof. unfold compile. go_io. Qed.
Lemma measured_run_grows name request test deadline budget started c :
  respects (grows name) (measured_run root proc request test deadline budget started c).
Proof. unfold measured_run. go_io. Qed.
Lemma stopped_run_grows name id started budget e :
  respects (grows name) (stopped_run id started budget e).
Proof. unfold stopped_run. go_io. Qed.
Hint Resolve compile_grows measured_run_grows stopped_run_grows : io.
Lemma run_case_grows name request test deadline budget c :
  respects (grows name) (run_case root proc request test deadline budget c).
Proof. unfold run_case. go_io. Qed.
Hint Resolve run_case_grows : io.

(** ** Which computations settle *)

(** What [m] adds to the history is settled, unless it reports an unconfirmed cleanup; then the
    supervisor is no longer ready. *)
Definition settles {A} (m : io World A) : Prop :=
  ∀ w, (∃ l, w_history (m w).2 = w_history w ++ l ∧
             ((m w).1 ≠ Err SandboxCleanupError → settled l)) ∧
       ((m w).1 = Err SandboxCleanupError → w_ready (m w).2 = false).

(** [m] never reports an unconfirmed cleanup itself. *)
Definition calm {A} (m : io World A) : Prop := ∀ w, (m w).1 ≠ Err SandboxCleanupError.

Lemma settles_grows {A} (m : io World A) : respects (grows None) m → calm m → settles m.
Proof.
  intros Hg Hc w. split; [|intros E; by apply Hc in E]. destruct (Hg w) as (l & El & Hl).
  exists l. split; [done|]. intros _. by apply only_none_settled.
Qed.

Lemma settles_bind {A B} (m : io World A) (f : A → io World B) :
  settles m → (∀ a, settles (f a)) → settles (m ≫= f).
Proof.
  intros Hm Hf w. unfold mbind, io_bind. destruct (Hm w) as [(l & El & Hl) Hr].
  destruct (m w) as [[a|e] w1]; cbn in *.
  - destruct (Hf a w1) as [(k & Ek & Hk) Hr']. split; [|done]. exists (l ++ k).
    rewrite Ek, El, app_assoc. split; [done|]. intros Hne. apply settled_app; auto.
  - split; [|by intros [= ->]; apply Hr]. exists l. split; [done|]. intros Hne. apply Hl. congruence.
Qed.

Lemma calm_bind {A B} (m : io World A) (f : A → io World B) :
  calm m → (∀ a, calm (f a)) → calm (m ≫= f).
Proof.
  intros Hm Hf w. unfold mbind, io_bind. specialize (Hm w). destruct (m w) as [[a|e] w1]; cbn in *.
  - apply Hf.
  - congruence.
Qed.
Lemma calm_catch {A} (m : io World A) h : (∀ e, e ≠ SandboxCleanupError → calm (h e)) → calm m → calm (catch m h).
Proof.
  intros Hh Hm w. unfold catch. specialize (Hm w). destruct (m w) as [[a|e] w1]; cbn in *; [done|].
  apply Hh. congruence.
Qed.
Lemma calm_ret {A} (a : A) : calm (mret a).
Proof. by intros w. Qed.
Lemma calm_raise {A} e : e ≠ SandboxCleanupError → calm (raise (A := A) e).
Proof. intros He w. cbn. congruence. Qed.
Lemma calm_raise_when b e : e ≠ SandboxCleanupError → calm (raise_when b e).
Proof. intros He w. unfold raise_when, raise. destruct b; cbn; congruence. Qed.
Lemma calm_of_result {A} (r : result A) : r ≠ Err SandboxCleanupError → calm (of_result r).
Proof. intros He w. done. Qed.
Lemma calm_ask {A} (f : World → A) : calm (ask f).
Proof. by intros w. Qed.
Lemma calm_command args o : calm (command args o).
Proof. intros w E. cbn in E. apply docker_errors in E as [? [=]]. Qed.
Lemma calm_readFile p e : e ≠ SandboxCleanupError → calm (readFile p e).
Proof. intros He w. unfold readFile. cbn. case_match; congruence. Qed.
Lemma calm_date_now : calm date_now.
Proof. by intros w. Qed.
Lemma calm_parse_json b : calm (parse_json b).
Proof. intros w. unfold parse_json. cbn. by case_match. Qed.
Lemma calm_zod_parse {A} (p : json → option A) j : calm (zod_parse p j).
Proof. unfold zod_parse. destruct (p j); intros w; done. Qed.

Hint Resolve calm_ret calm_ask calm_command calm_date_now calm_parse_json calm_zod_parse : io.
Hint Extern 1 (calm (raise _)) => apply calm_raise; congruence : io.
Hint Extern 1 (calm (raise_when _ _)) => apply calm_raise_when; congruence : io.
Hint Extern 1 (calm (readFile _ _)) => apply calm_readFile; congruence : io.
Ltac go_calm :=
  repeat first
    [ solve [auto with io]
    | apply calm_bind; [|intros ?]
    | apply calm_catch; [intros ? ?|]
    | match goal with |- calm (match ?x with _ => _ end) => destruct x end ].

Lemma integer_error v n e : integer v n = Err e → e ≠ SandboxCleanupError.
Proof. unfold integer. repeat case_match; congruence. Qed.
Lemma unified_error v e : unifiedCgroupPath v = Err e → e ≠ SandboxCleanupError.
Proof. unfold unifiedCgroupPath. repeat case_match; congruence. Qed.
Lemma counters_error v e : keyedCounters v = Err e → e ≠ SandboxCleanupError.
Proof.
  unfold keyedCounters. generalize (∅ : gmap jsstr Z). induction (split LF (trim v)) as [|x l IH]; intros m; cbn; [done|].
  destruct (counter_line x) as [[k y]|]; [|congruence]. case_bool_decide; [congruence|].
  destruct (integer y "COUNTER") eqn:Ei; [apply IH|]. intros [= <-]. by eapply integer_error.
Qed.
Lemma metricDelta_error a b e : metricDelta a b = Err e → e ≠ SandboxCleanupError.
Proof. unfold metricDelta. repeat case_match; congruence. Qed.
Lemma packFiles_error fs e : packFiles fs = Err e → e ≠ SandboxCleanupError.
Proof. unfold packFiles. case_match; congruence. Qed.
Lemma containerArgs_error n i m ow e : containerArgs n i m ow = Err e → e ≠ SandboxCleanupError.
Proof. unfold containerArgs. repeat case_match; congruence. Qed.
Lemma extract_error es x e : extract_loop es x = Err e → e ≠ SandboxCleanupError.
Proof.
  revert x. induction es as [|y es IH]; intros x; cbn; [done|].
  destruct (on_entry y x) eqn:Ey; [apply IH|]. intros [= <-]. revert Ey. unfold on_entry.
  repeat case_match; congruence.
Qed.
Lemma normalize_error b e : normalizeJavaArtifacts b = Err e → e ≠ SandboxCleanupError.
Proof.
  unfold normalizeJavaArtifacts. case_match; [congruence|]. case_match; [|congruence].
  destruct (extract_loop _ _) eqn:Ex; [case_match; [congruence|apply packFiles_error]|].
  intros [= <-]. by eapply extract_error.
Qed.
Hint Extern 1 (calm (of_result _)) => apply calm_of_result; intros ?Hx;
  (apply integer_error in Hx || apply unified_error in Hx || apply counters_error in Hx
   || apply metricDelta_error in Hx || apply packFiles_error in Hx || apply containerArgs_error in Hx
   || apply normalize_error in Hx); done : io.

Lemma calm_snapshot c : calm (snapshot root proc c).
Proof. unfold snapshot. go_calm. Qed.
Lemma calm_containerState c : calm (containerState c).
Proof. unfold containerState. go_calm. Qed.
Lemma calm_verifyContainer c m : calm (verifyContainer c m).
Proof. unfold verifyContainer. go_calm. Qed.
Hint Resolve calm_snapshot calm_containerState calm_verifyContainer : io.
Lemma calm_compile deadline budget archive c : calm (compile deadline budget archive c).
Proof. unfold compile. go_calm. Qed.
Lemma calm_run_case request test deadline budget c : calm (run_case root proc request test deadline budget c).
Proof. unfold run_case, measured_run, stopped_run. go_calm. Qed.
Lemma calm_check_signal : calm check_signal.
Proof. unfold check_signal, signal_aborted. go_calm. Qed.

Hint Resolve calm_check_signal : io.

(** ** Sandboxes *)

Lemma cleanup_run name w :
  (∃ c d w', cleanup name w = (Ok tt, w') ∧ w_history w' = w_history w ++ [c; d] ∧
     only None [c] ∧ confirms_absent d name) ∨
  (∃ l w', cleanup name w = (Err SandboxCleanupError, w') ∧ w_history w' = w_history w ++ l ∧
     w_ready w' = false).
Proof.
  unfold cleanup, catch, destroy, mbind, io_bind, command, update, raise.
  set (r1 := docker (w_history w) (rm_args name) _). set (w1 := log (C_docker (rm_args name) r1) w).
  destruct r1 as [x1|e1] eqn:E1; [|right; eexists _, _; by split].
  set (r2 := docker (w_history w1) (ps_args name) _). set (w2 := log (C_docker (ps_args name) r2) w1).
  assert (w_history w2 = w_history w ++ [C_docker (rm_args name) (Ok x1); C_docker (ps_args name) r2]) as Eh.
  { cbn. by rewrite <- app_assoc. }
  destruct r2 as [x2|e2] eqn:E2; [|right; eexists _, _; by split].
  unfold raise_when, raise. destruct (Nat.eqb_spec (length (trim (decode (cr_stdout x2)))) 0) as [El|El];
    cbn [negb]; [left|right; eexists _, _; by split].
  eexists _, _, w2. split; [done|]. split; [exact Eh|]. split.
  - intros c n ->%list_elem_of_singleton Hc. by apply creates_creating in Hc.
  - exists x2. split; [done|]. by apply nil_length_inv.
Qed.

Lemma sandbox_settles {A} request mem archive deadline (body : jsstr → io World A) :
  (∀ name n, respects (grows n) (body name)) → (∀ name, calm (body name)) →
  settles (sandbox request mem archive deadline body).
Proof.
  intros Hg Hc. unfold sandbox. apply settles_bind.
  { apply settles_grows; [auto with io|by intros w]. }
  intros u. cbv zeta. set (name := js "ac-" ++ u). intros w. unfold finally.
  match goal with |- context [let '(_, _) := ?m w in _] => set (inner := m) end.
  assert (respects (grows (Some name)) inner) as Hi.
  { unfold inner, check_signal. apply respects_bind; [apply _|go_io|intros _].
    apply respects_bind; [apply _|auto with io|intros m]. apply respects_bind_result; [apply _|].
    intros args (E & _)%containerArgs_Ok. apply respects_bind; [apply _| |intros _].
    - apply command_grows. intros n Hn. destruct args as [|a [|b [|c t]]]; try done.
      cbn in E. injection E as -> -> ->. unfold creating in Hn.
      rewrite !bool_decide_eq_true_2 in Hn by done. exact Hn.
    - go_io. }
  assert (calm inner) as Hci.
  { unfold inner. go_calm. }
  destruct (Hi w) as (l & El & Hl). specialize (Hci w). destruct (inner w) as [r w1]. cbn in El, Hci.
  destruct (cleanup_run name w1) as [(c & d & w2 & -> & E2 & Hn & Hd)|(k & w2 & -> & E2 & Hr)]; cbn.
  - split; [|done]. exists (l ++ [c; d]). rewrite E2, El, app_assoc. split; [done|].
    intros _. by eapply only_confirmed.
  - split; [|done]. exists (l ++ k). rewrite E2, El, app_assoc. by split.
Qed.

Lemma run_cases_settles request archive deadline cases budget :
  settles (run_cases root proc request archive deadline cases budget).
Proof.
  revert budget. induction cases as [|test rest IH]; intros budget; cbn [run_cases].
  { apply settles_grows; [auto with io|by intros w]. }
  apply settles_bind.
  { apply settles_grows; [unfold check_signal; go_io|apply calm_check_signal]. }
  intros _. destruct (_ <=? _); [apply settles_grows; [auto with io|by intros w]|].
  apply settles_bind.
  { apply sandbox_settles; [auto with io|intros; apply calm_run_case]. }
  intros [o spare]. destruct (bool_decide _); [apply settles_grows; [auto with io|by intros w]|].
  apply settles_bind; [apply IH|]. intros os. apply settles_grows; [auto with io|by intros w].
Qed.

Lemma observe_settles request deadline : settles (observe root proc request deadline).
Proof.
  unfold observe. apply settles_bind.
  { apply settles_grows; [auto with io|]. auto with io. }
  intros archive.
  assert (∀ B (b : B), settles (mret b)) as Hret.
  { intros B b. apply settles_grows; [auto with io|by intros w]. }
  destruct (sr_language request).
  - apply settles_bind.
    { apply sandbox_settles; [auto with io|intros; apply calm_compile]. }
    intros [[c spare] classes]. destruct (negb _); [apply Hret|].
    apply settles_bind; [apply run_cases_settles|intros; apply Hret].
  - apply settles_bind; [apply run_cases_settles|intros; apply Hret].
  - apply settles_bind; [apply run_cases_settles|intros; apply Hret].
Qed.

(** ** What else an execution touches *)

Lemma update_ready_quiet : respects quiet (update (set_ready false)).
Proof. intros w. split; try done. unfold extends. by cbn. Qed.
Lemma zod_parse_quiet {A} (p : json → option A) j : respects quiet (zod_parse p j).
Proof. unfold zod_parse. destruct (p j); intros w; cbn; reflexivity. Qed.
Hint Resolve update_ready_quiet zod_parse_quiet snapshot_quiet : io.

Lemma sandbox_quiet {A} request mem archive deadline (body : jsstr → io World A) :
  (∀ name, respects quiet (body name)) → respects quiet (sandbox request mem archive deadline body).
Proof.
  intros Hb. unfold sandbox, check_signal, verifyContainer, cleanup, destroy. go_io.
Qed.
Lemma compile_quiet deadline budget archive c : respects quiet (compile deadline budget archive c).
Proof. unfold compile. go_io. Qed.
Lemma run_case_quiet request test deadline budget c :
  respects quiet (run_case root proc request test deadline budget c).
Proof. unfold run_case, measured_run, stopped_run, containerState. go_io. Qed.
Hint Resolve compile_quiet run_case_quiet sandbox_quiet : io.
Lemma run_cases_quiet request archive deadline cases budget :
  respects quiet (run_cases root proc request archive deadline cases budget).
Proof.
  revert budget. induction cases as [|test rest IH]; intros budget; cbn [run_cases]; unfold check_signal; go_io.
Qed.
Hint Resolve run_cases_quiet : io.
Lemma observe_quiet request deadline : respects quiet (observe root proc request deadline).
Proof. unfold observe. go_io. Qed.

Lemma settles_finally_update {A} (m : io World A) f :
  (∀ w, w_history (f w) = w_history w ∧ w_ready (f w) = w_ready w) →
  settles m → settles (finally m (update f)).
Proof.
  intros Hf Hm w. destruct (Hm w) as [(l & El & Hl) Hr]. unfold finally, update.
  destruct (m w) as [r w1]. cbn in *. destruct (Hf w1) as [-> ->]. split; [|done]. eauto.
Qed.

Lemma settles_quietly {A} (m : io World A) : (∀ w, (m w).2 = w) → calm m → settles m.
Proof.
  intros Hm Hc. apply settles_grows; [|done]. intros w. rewrite Hm. reflexivity.
Qed.

Lemma supervise_settles request : settles (supervise root proc request).
Proof.
  unfold supervise. apply settles_bind.
  { apply settles_quietly; [done|]. apply calm_of_result. unfold sandboxRequest_parse. by case_match. }
  intros r. apply settles_bind; [by apply settles_quietly; [|by intros w]|]. intros w0.
  do 3 (apply settles_bind; [apply settles_quietly; [by intros w; destruct (_ : bool)|auto with io]|intros _]).
  apply settles_bind.
  { apply settles_grows; [by apply update_grows|by intros w]. }
  intros _. apply settles_bind; [apply settles_grows; [auto with io|by intros w]|]. intros t.
  apply settles_finally_update; [done|apply observe_settles].
Qed.

(** C3: cleanup of containers.  Whatever Docker answers, [execute] leaves the set of running
    attempts as it was, and every container it asked Docker to create is confirmed absent by a
    later [docker ps] of its name before [execute] settles, unless it rejects with
    [SandboxCleanupError], which also takes the supervisor out of service; a supervisor out of
    service rejects an execution without touching Docker. *)
Theorem supervise_cleans request w :
  let '(r, w') := supervise root proc request w in
  w_active w' = w_active w ∧
  (∃ l, w_history w' = w_history w ++ l ∧ (r ≠ Err SandboxCleanupError → settled l)) ∧
  (r = Err SandboxCleanupError → w_ready w' = false) ∧
  (w_ready w = false → w' = w ∧ r ≠ Err SandboxCleanupError ∧ ∀ o, r ≠ Ok o).
Proof.
  destruct (supervise_settles request w) as [Hl Hr]. revert Hl Hr.
  unfold supervise, sandboxRequest_parse. destruct (sandboxRequest_ok request); [|done].
  unfold mbind, io_bind, of_result, ask, raise_when, raise.
  destruct (negb (w_ready w) || w_shuttingDown w) eqn:Er; [done|].
  destruct (2 <=? length (w_active w))%nat; [done|].
  destruct (bool_decide_reflect (attempt_key request ∈ w_active w)) as [|Hk]; [done|].
  apply orb_false_iff in Er as [Er _]. apply negb_false_iff in Er.
  cbn -[observe log]. unfold finally. set (w1 := log C_now _).
  destruct (observe_quiet request (now_at (w_history w) + CAPS.totalMs) w1) as [_ _ Ha _ _].
  set (m := observe _ _ _ _ w1) in *. clearbody m. destruct m as [r w2]. cbn in *. intros Hl Hr.
  split_and!; [|done|done|congruence].
  rewrite Ha, filter_app, filter_all_in, filter_cons_False, filter_nil, app_nil_r; [done|naive_solver|].
  by intros x Hx ->.
Qed.
End Facts.
