(* ===== verification/Supervised.v ===== *)
(** * From the supervisor to a verdict

    Which observations of the supervisor the judge accepts: all, but for those whose exit code is not
    an exit status or whose time is negative. *)

From S2P Require Import Prelude JsText Contracts Judge Io JsString RuntimePolicy Buffers Artifacts.
From S2P Require Import Transport Host Metrics Supervisor SupervisorFacts Backend.
Local Open Scope Z_scope.

(** ** Observations in order *)

(** The two numbers of an observation that the sandbox does not vouch for: the exit code is that of the
    Docker CLI ([-1] when a signal ended it) and the time is a difference of two readings of a clock that
    may be set back. *)
Definition reported (o : ObservedCase) : Prop :=
  (∀ x, oc_exitCode o = Some x → 0 ≤ x ≤ 255) ∧ 0 ≤ oc_wallMs o.
#[export] Instance reported_dec o : Decision (reported o).
Proof.
  destruct (oc_exitCode o) as [x|] eqn:E.
  - destruct (decide ((0 ≤ x ≤ 255) ∧ 0 ≤ oc_wallMs o)) as [[H1 H2]|Hn]; [left|right].
    + split; [|done]. intros y. rewrite E. by intros [= <-].
    + intros [H1 H2]. apply Hn. split; [by apply H1|done].
  - destruct (decide (0 ≤ oc_wallMs o)) as [Hy|Hn]; [left|right].
    + split; [|done]. intros y. by rewrite E.
    + by intros [_ ?].
Defined.

Section Supervised.
(** [regular] is what a host must satisfy for its observations to be [reported]. *)
Context `{Zod} (regular : Prop).

Definition observed_bytes (o : ObservedCase) : Z := byteLength (oc_stdout o) + byteLength (oc_stderr o).

Record sound_case (id : jsstr) (o : ObservedCase) : Prop := {
  so_ok : observedCase_ok o = true ↔ reported o;
  so_regular : regular → reported o;
  so_id : oc_caseId o = id;
  so_exit : oc_failure o = None → is_Some (oc_exitCode o)
}.

(** The observations of the cases [ids]: in order, stopped at the first failure, and complete
    when there is none. *)
Inductive in_order : list jsstr → list ObservedCase → Prop :=
| io_done : in_order [] []
| io_stopped id ids o : sound_case id o → is_Some (oc_failure o) → in_order (id :: ids) [o]
| io_next id ids o os :
    sound_case id o → oc_failure o = None → in_order ids os → in_order (id :: ids) (o :: os).

Lemma in_order_ok ids os : in_order ids os → forallb observedCase_ok os = true ↔ Forall reported os.
Proof.
  induction 1 as [|id ids o [Ho _ _ _] _|id ids o os [Ho _ _ _] _ _ IH]; cbn.
  - by split.
  - rewrite andb_true_r, Ho. by rewrite Forall_singleton.
  - rewrite andb_true_iff, Ho, IH. by rewrite Forall_cons.
Qed.
Lemma in_order_regular ids os : regular → in_order ids os → Forall reported os.
Proof. intros Hr. induction 1 as [|id ids o [_ Ho _ _] _|id ids o os [_ Ho _ _] _ _ IH]; constructor; auto. Qed.

Lemma in_order_length ids os : in_order ids os → (length os ≤ length ids)%nat.
Proof. induction 1; cbn; lia. Qed.

Lemma in_order_nonempty ids os : in_order ids os → ids ≠ [] → os ≠ [].
Proof. by destruct 1. Qed.

Lemma in_order_last ids os o :
  in_order ids os → last os = Some o → length os ≠ length ids → is_Some (oc_failure o).
Proof.
  induction 1 as [|id ids o' _ Hf|id ids o' os Hs _ Hr IH]; [done|by intros [= <-]|].
  rewrite last_cons. cbn. intros Hl Hne. destruct (last os) eqn:E; [apply IH; [congruence|lia]|].
  apply last_None in E as ->. inversion Hr; subst. done.
Qed.

(** The judge goes through every such list of observations. *)
Lemma judge_loop_total stripVT mode tests os s :
  in_order (jc_id <$> tests) os → ∃ s', judge_loop stripVT mode os tests s = Ok s'.
Proof.
  intros Ho. remember (jc_id <$> tests) as ids eqn:E. revert tests s E.
  induction Ho as [|id ids o [_ _ Hid _] Hf|id ids o os [_ _ Hid Hx] Hf Hr IH]; intros tests s E; cbn [judge_loop].
  - eauto.
  - destruct tests as [|t tests]; [done|]. cbn in E. injection E as -> ->.
    unfold judge_step. rewrite Hid, !bool_decide_eq_true_2 by done. cbn. destruct mode; eauto.
  - destruct tests as [|t tests]; [done|]. cbn in E. injection E as -> ->.
    unfold judge_step. rewrite Hid, Hf, bool_decide_eq_true_2 by done.
    rewrite (bool_decide_eq_false_2 (is_Some None)) by (by intros [? [=]]).
    rewrite (bool_decide_eq_false_2 (oc_exitCode o = None)) by (apply not_eq_None_Some; by apply Hx).
    cbn [negb andb orb]. destruct mode; [destruct (public_result _ _ _ _)|]; by apply IH.
Qed.

(** What the judge needs of an observation. *)
Record conforms (language : Language) (ids : list jsstr) (ob : JudgeObservation) : Prop := {
  cf_live : ob_cancellationConfirmed ob = false;
  cf_compiled : is_Some (ob_compilation ob) ↔ language = java;
  cf_cases : in_order ids (ob_cases ob) ∨
             (ob_cases ob = [] ∧ ∃ c, ob_compilation ob = Some c ∧ co_ok c = false);
  cf_failed : ∀ c, ob_compilation ob = Some c → co_ok c = false → ob_cases ob = [];
  cf_bytes : outputBytes ob ≤ 1024 * 1024
}.

Lemma conforms_ok language ids ob :
  (length ids ≤ 100)%nat → conforms language ids ob → observation_ok ob = true ↔ Forall reported (ob_cases ob).
Proof.
  intros Hlen [_ _ Hcases _ _]. unfold observation_ok. rewrite andb_true_iff, Nat.leb_le.
  destruct Hcases as [Ho|[-> _]]; [|split; [done|cbn; auto with lia]].
  rewrite (in_order_ok _ _ Ho). apply in_order_length in Ho. split; [by intros []|]. intros ?. split; [done|lia].
Qed.

Lemma selected_length plan mode cases : selectCases plan mode = Ok cases → (length cases ≤ 100)%nat.
Proof.
  intros (Hv & _ & ->)%selectCases_Ok. apply plan_valid in Hv as (_ & _ & Hlen).
  rewrite merge_sort_Permutation. etrans; [apply length_filter|done].
Qed.

(** What is not reported, the judge takes for a breach of the protocol. *)
Lemma judge_unreported stripVT plan mode language cases ob :
  selectCases plan mode = Ok cases → conforms language (jc_id <$> cases) ob → ¬ Forall reported (ob_cases ob) →
  judge stripVT plan mode language ob = Err JudgeProtocolError.
Proof.
  intros Hsel Hc Hn. unfold judge. rewrite Hsel. apply selected_length in Hsel.
  destruct (observation_ok ob) eqn:E; [|done]. destruct Hn.
  eapply conforms_ok; [|exact Hc|exact E]. by rewrite length_fmap.
Qed.

Lemma judge_total stripVT plan mode language cases ob :
  selectCases plan mode = Ok cases → conforms language (jc_id <$> cases) ob → Forall reported (ob_cases ob) →
  ∃ r, judge stripVT plan mode language ob = Ok r.
Proof.
  intros Hsel Hcf Hrep. pose proof (selected_length _ _ _ Hsel) as Hlen.
  assert (observation_ok ob = true) as Hob by (eapply conforms_ok; [|exact Hcf|exact Hrep]; by rewrite length_fmap).
  destruct Hcf as [Hlive Hcomp Hcases Hfail Hbytes]. unfold judge. rewrite Hsel.
  apply selectCases_Ok in Hsel as (_ & Hne & _). rewrite Hob.
  destruct (Z.ltb_spec (1024 * 1024) (outputBytes ob)); [lia|]. rewrite Hlive. cbn [negb].
  assert (Bool.eqb (bool_decide (language = java)) (bool_decide (is_Some (ob_compilation ob))) = true) as ->.
  { apply Bool.eqb_true_iff. apply bool_decide_ext. by rewrite Hcomp. }
  cbn [negb]. destruct (match ob_compilation ob with Some c => negb (co_ok c) | None => false end) eqn:Ec.
  - destruct (ob_compilation ob) as [c|] eqn:Eo; [|done]. apply negb_true_iff in Ec.
    rewrite (Hfail c) by done. cbn. eauto.
  - destruct Hcases as [Ho|(_ & c & Eo & Hbad)]; [|by rewrite Eo, Hbad in Ec].
    destruct (last (ob_cases ob)) as [o|] eqn:El.
    + pose proof (in_order_length _ _ Ho) as Hl. rewrite length_fmap in Hl.
      rewrite (proj2 (Nat.ltb_ge _ _)) by done.
      destruct (negb _ && negb _) eqn:E.
      { exfalso. rewrite andb_true_iff, !negb_true_iff, bool_decide_eq_false, Nat.eqb_neq in E.
        destruct E as [E1 E2]. apply E2. eapply in_order_last; [exact Ho|exact El|by rewrite length_fmap]. }
      destruct (judge_loop_total stripVT mode cases (ob_cases ob) (mkJudgeState ACCEPTED (24 * 1024) []) Ho) as [s' ->].
      eauto.
    + apply last_None in El. apply in_order_nonempty in Ho; [done|].
      intros E. by apply fmap_nil_inv in E.
Qed.
End Supervised.

(** ** What the supervisor observes *)

Section Observing.
Context `{Zod} `{TarStream} `{Host} (root proc : jsstr).

(** The Docker CLI ends with an exit status (it is not killed by a signal from elsewhere), and
    the clock of the host does not run backwards. *)
Definition regular : Prop :=
  (∀ h args o r, docker h args o = Ok r → 0 ≤ cr_exitCode r ≤ 255) ∧ (∀ h k, now_at h ≤ now_at (h ++ k)).
Abbreviation sound_case := (sound_case regular).
Abbreviation conforms := (conforms regular).
Abbreviation in_order := (in_order regular).

Lemma date_now_run w t w' : date_now w = (Ok t, w') → t = now_at (w_history w) ∧ w' = log C_now w.
Proof. by intros [= <- <-]. Qed.
Lemma command_run args o w r w' :
  command args o w = (Ok r, w') → docker (w_history w) args o = Ok r ∧ extends w w'.
Proof. intros Hr. unfold command in Hr. injection Hr as E <-. split; [done|apply extends_log]. Qed.
Lemma quiet_run {A} (m : io World A) w r w' : respects quiet m → m w = (r, w') → extends w w'.
Proof. intros Hm E. destruct (Hm w) as [He _ _ _ _]. by rewrite E in He. Qed.
Lemma clock_le w w' : regular → extends w w' → now_at (w_history w) ≤ now_at (w_history w').
Proof. intros [_ Hclock] [k ->]. apply Hclock. Qed.

Lemma decoded_bytes r :
  byteLength (decode (cr_stdout r)) + byteLength (decode (cr_stderr r))
    ≤ 3 * (size (cr_stdout r) + size (cr_stderr r)).
Proof.
  pose proof (byteLength_le3 (decode (cr_stdout r))). pose proof (decode_length (cr_stdout r)).
  pose proof (byteLength_le3 (decode (cr_stderr r))). pose proof (decode_length (cr_stderr r)).
  unfold size. lia.
Qed.

(** The outcome of one case: a sound observation whose text the budget pays for. *)
Definition paid (id : jsstr) (budget : Z) (r : ObservedCase * Z) : Prop :=
  sound_case id r.1 ∧ (oc_failure r.1 = None → 0 ≤ r.2 ∧ observed_bytes r.1 ≤ 3 * (budget - r.2)) ∧
  observed_bytes r.1 ≤ 3 * budget.

Lemma observedCase_run id out err exit f wall m :
  z_uuid id = true → (regular → 0 ≤ exit ≤ 255) → (regular → 0 ≤ wall) →
  match m with Some (c, k) => counter_range c ∧ counter_range k | None => True end →
  sound_case id (mkObservedCase id out err (Some exit) f wall (fst <$> m) (snd <$> m)).
Proof.
  intros Hu Hx Hw Hm. split; [| |done|by eauto].
  - assert (observedCase_ok (mkObservedCase id out err (Some exit) f wall (fst <$> m) (snd <$> m))
            = (0 <=? exit) && (exit <=? 255) && (0 <=? wall)) as ->.
    { unfold observedCase_ok. cbn. rewrite Hu. destruct m as [[c k]|]; cbn; [|by rewrite !andb_true_r].
      destruct Hm as [Hc Hk].
      assert (nonneg_int c = true ∧ nonneg_int k = true) as [-> ->]; [|by rewrite !andb_true_r].
      unfold nonneg_int, safe_int, counter_range, MAX_SAFE_INTEGER in *. lia. }
    unfold reported. cbn. rewrite !andb_true_iff, !Z.leb_le. split.
    + intros [? ?]. split; [|done]. by intros x [= <-].
    + intros [Hex ?]. split; [by apply Hex|done].
  - intros Hr. split; [|by apply Hw]. intros x [= <-]. by apply Hx.
Qed.

Lemma stopped_case_sound id f wall :
  z_uuid id = true → (regular → 0 ≤ wall) → sound_case id (stopped_case id f wall).
Proof.
  intros Hu Hw. split; [|by intros Hr; split; [|apply Hw]|done|done].
  unfold observedCase_ok, reported. cbn -[Z.leb]. rewrite Hu, !andb_true_iff, Z.leb_le. naive_solver.
Qed.

Lemma measured_run_paid request test deadline budget name w0 w r w' :
  z_uuid (sc_id test) = true → 0 ≤ budget → extends w0 w →
  measured_run root proc request test deadline budget (now_at (w_history w0)) name w = (Ok r, w') →
  paid (sc_id test) budget r.
Proof.
  intros Hu Hb He Hr. unfold measured_run in Hr.
  apply io_bind_Ok in Hr as (before & w1 & Hbefore & Hr).
  apply io_bind_Ok in Hr as (now & w2 & Hnow & Hr). apply date_now_run in Hnow as [-> ->].
  apply io_bind_Ok in Hr as (result & w3 & Hcmd & Hr).
  apply io_bind_Ok in Hr as (measured & w4 & Hmeas & Hr).
  apply io_bind_Ok in Hr as (ended & w5 & Hend & Hr). apply date_now_run in Hend as [-> ->].
  injection Hr as <- _. pose proof (command_run _ _ _ _ _ Hcmd) as [Hd He3].
  assert (regular → 0 ≤ cr_exitCode result ≤ 255) as Hx by (intros [Hcli _]; by eapply Hcli).
  apply docker_bounded in Hd; [|done]. cbn in Hd.
  assert (regular → now_at (w_history w0) ≤ now_at (w_history w4)) as Hclock.
  { intros Hreg. apply (clock_le _ _ Hreg). etrans; [exact He|]. etrans; [eapply quiet_run; [|exact Hbefore]; apply snapshot_quiet|].
    etrans; [apply extends_log|]. etrans; [exact He3|]. eapply quiet_run; [|exact Hmeas].
    unfold containerState. go_io; apply snapshot_quiet. }
  pose proof (decoded_bytes result) as Hdec.
  assert (∀ f m, match m with Some (c, k) => counter_range c ∧ counter_range k | None => True end →
    paid (sc_id test) budget
      (mkObservedCase (sc_id test) (decode (cr_stdout result)) (decode (cr_stderr result))
         (Some (cr_exitCode result)) f (now_at (w_history w4) - now_at (w_history w0))
         (fst <$> m) (snd <$> m), budget - (size (cr_stdout result) + size (cr_stderr result)))) as Hpaid.
  { intros f m Hm. split; [apply observedCase_run; [done|done|intros Hreg; specialize (Hclock Hreg); lia|done]|]. unfold observed_bytes. cbn. lia. }
  destruct measured as [d|st].
  - apply (Hpaid _ (Some (md_cpuMs d, md_memoryKiB d))).
    apply catch_Ok in Hmeas as [Em|(e & wx & _ & Hmeas)].
    + apply io_bind_Ok in Em as (after & wa & Hafter & Em).
      apply io_bind_Ok in Em as (d' & wd & Hdelta & Em). injection Em as -> ->.
      injection Hdelta as Hdelta ->. apply snapshot_Ok in Hbefore. apply snapshot_Ok in Hafter.
      eapply metricDelta_range; [exact Hbefore|exact Hafter|exact Hdelta].
    + apply io_bind_Ok in Hmeas as (state & ws & _ & Hmeas). destruct state; done.
  - apply (Hpaid _ None). done.
Qed.

Lemma stopped_run_paid id budget w0 w e r w' :
  z_uuid id = true → 0 ≤ budget → extends w0 w →
  stopped_run id (now_at (w_history w0)) budget e w = (Ok r, w') → paid id budget r.
Proof.
  intros Hu Hb He Hr.
  assert (∀ f k, paid id budget (stopped_case id f (now_at (w_history w) - now_at (w_history w0)), k)) as Hp.
  { intros f k. split; [|split; [done|unfold observed_bytes; cbn; lia]]. apply stopped_case_sound; [done|].
    intros Hreg. pose proof (clock_le w0 w Hreg He). lia. }
  unfold stopped_run in Hr. destruct e; try done. destruct (String.eqb _ _).
  - apply io_bind_Ok in Hr as (t & w1 & Ht & Hr). apply date_now_run in Ht as [-> ->].
    injection Hr as <- _. apply Hp.
  - destruct (String.eqb _ _); [|done]. apply io_bind_Ok in Hr as (t & w1 & Ht & Hr).
    apply date_now_run in Ht as [-> ->]. injection Hr as <- _. apply Hp.
Qed.

Lemma run_case_paid request test deadline budget name w r w' :
  z_uuid (sc_id test) = true → 0 ≤ budget →
  run_case root proc request test deadline budget name w = (Ok r, w') → paid (sc_id test) budget r.
Proof.
  intros Hu Hb Hr. unfold run_case in Hr.
  apply io_bind_Ok in Hr as (u & w1 & _ & Hr). apply io_bind_Ok in Hr as (t & w2 & Ht & Hr).
  apply date_now_run in Ht as [-> ->].
  apply catch_Ok in Hr as [Em|(e & wx & Em & Hr)].
  - eapply measured_run_paid; [done|done| |exact Em]. apply extends_log.
  - eapply stopped_run_paid; [done|done| |exact Hr]. etrans; [apply extends_log|].
    eapply quiet_run; [|exact Em]. unfold measured_run, containerState. go_io; apply snapshot_quiet.
Qed.

(** A result of a sandbox is the result of its body. *)
Lemma sandbox_Ok {A} request mem archive deadline (body : jsstr → io World A) w a w' :
  sandbox request mem archive deadline body w = (Ok a, w') →
  ∃ name w1 w2, body name w1 = (Ok a, w2).
Proof.
  intros Hr. unfold sandbox in Hr. apply io_bind_Ok in Hr as (u & w0 & _ & Hr).
  apply finally_Ok in Hr as (w2 & Ei).
  repeat (apply io_bind_Ok in Ei as (? & ? & _ & Ei)). eauto.
Qed.

Lemma run_cases_conform request archive deadline cases budget w os w' :
  (∀ c, c ∈ cases → z_uuid (sc_id c) = true) → 0 ≤ budget →
  run_cases root proc request archive deadline cases budget w = (Ok os, w') →
  in_order (sc_id <$> cases) os ∧ sumZ (observed_bytes <$> os) ≤ 3 * budget.
Proof.
  revert budget w os w'. induction cases as [|test rest IH]; intros budget w os w' Hu Hb Hr; cbn [run_cases] in Hr.
  { injection Hr as <- _. split; [constructor|cbn; lia]. }
  assert (z_uuid (sc_id test) = true) as Ht by (apply Hu; left).
  apply io_bind_Ok in Hr as (u & w1 & _ & Hr). destruct (Z.leb_spec budget 0).
  { injection Hr as <- _. cbn [fmap list_fmap]. split; [|unfold observed_bytes; cbn; lia].
    apply io_stopped; [|eauto]. apply stopped_case_sound; [done|lia]. }
  apply io_bind_Ok in Hr as ([o spare] & w2 & Hs & Hr). apply sandbox_Ok in Hs as (name & w3 & w4 & Hs).
  apply run_case_paid in Hs as (Hs & Hpay & Hmax); [|done|done]. cbn [fst snd] in *.
  destruct (bool_decide_reflect (is_Some (oc_failure o))) as [Hf|Hf].
  - injection Hr as <- _. split; [by apply io_stopped|]. unfold sumZ. cbn. lia.
  - apply io_bind_Ok in Hr as (others & w5 & Hrest & Hr). injection Hr as <- _.
    rewrite <- eq_None_not_Some in Hf. destruct (Hpay Hf) as [H0' Hb'].
    apply IH in Hrest as [Ho Hsum]; [|intros c Hc; apply Hu; by right|done].
    split; [cbn; by apply io_next|]. unfold sumZ in *. cbn. lia.
Qed.

Lemma outputBytes_cases comp os :
  outputBytes (mkObservation false comp os) =
    sumZ (observed_bytes <$> os)
    + match comp with Some c => byteLength (co_stdout c) + byteLength (co_stderr c) | None => 0 end.
Proof. done. Qed.

Lemma compile_Ok deadline budget archive name w c spare classes w' :
  0 ≤ budget → compile deadline budget archive name w = (Ok (c, spare, classes), w') →
  0 ≤ spare ∧ byteLength (co_stdout c) + byteLength (co_stderr c) ≤ 3 * (budget - spare).
Proof.
  intros Hb Hr. unfold compile in Hr. apply io_bind_Ok in Hr as (u & w1 & _ & Hr).
  apply io_bind_Ok in Hr as (t & w2 & _ & Hr). apply io_bind_Ok in Hr as (result & w3 & Hc & Hr).
  apply command_run in Hc as [Hd _]. apply docker_bounded in Hd; [|done]. cbn in Hd.
  pose proof (decoded_bytes result).
  assert (c = mkCompilation (cr_exitCode result =? 0) (decode (cr_stdout result)) (decode (cr_stderr result)) ∧
          spare = budget - (size (cr_stdout result) + size (cr_stderr result))) as [-> ->].
  { destruct (cr_exitCode result =? 0); [|by injection Hr as <- <- _].
    do 2 (apply io_bind_Ok in Hr as (? & ? & _ & Hr)). by injection Hr as <- <- _. }
  cbn. lia.
Qed.

Lemma observe_conforms request deadline w ob w' :
  (∀ c, c ∈ sr_cases request → z_uuid (sc_id c) = true) →
  observe root proc request deadline w = (Ok ob, w') →
  conforms (sr_language request) (sc_id <$> sr_cases request) ob.
Proof.
  intros Hu Hr. unfold observe in Hr. apply io_bind_Ok in Hr as (archive & w1 & _ & Hr).
  assert (∀ w2 archive budget os w3, budget = CAPS.outputBytes →
    run_cases root proc request archive deadline (sr_cases request) budget w2 = (Ok os, w3) →
    in_order (sc_id <$> sr_cases request) os ∧ outputBytes (mkObservation false None os) ≤ 1024 * 1024) as Hint.
  { intros w2 a budget os w3 -> Hc. apply run_cases_conform in Hc as [Ho Hs]; [|done|done].
    split; [done|]. rewrite outputBytes_cases. unfold CAPS.outputBytes in Hs. lia. }
  destruct (sr_language request).
  - apply io_bind_Ok in Hr as ([[c spare] classes] & w2 & Hs & Hr).
    apply sandbox_Ok in Hs as (name & w3 & w4 & Hs). apply compile_Ok in Hs as [Hsp Hby]; [|done].
    unfold CAPS.outputBytes in Hby. destruct (co_ok c) eqn:Ec; cbn [negb] in Hr.
    + apply io_bind_Ok in Hr as (os & w5 & Hc & Hr). injection Hr as <- _.
      apply run_cases_conform in Hc as [Ho Hsum]; [|done|done].
      split; cbn; try done; [by left|congruence|].
      rewrite outputBytes_cases. lia.
    + injection Hr as <- _. split; cbn; try done; [right; eauto|].
      rewrite outputBytes_cases. cbn. lia.
  - apply io_bind_Ok in Hr as (os & w5 & Hc & Hr). injection Hr as <- _.
    apply Hint in Hc as [Ho Hs]; [|done]. split; cbn; try done. by left.
  - apply io_bind_Ok in Hr as (os & w5 & Hc & Hr). injection Hr as <- _.
    apply Hint in Hc as [Ho Hs]; [|done]. split; cbn; try done. by left.
Qed.

(** C13: when a completed sandbox execution gets a verdict.  For the request the judging
    backend builds from a plan, take any observation the supervisor returns, whatever the program
    wrote, however it was stopped, with or without metrics.  The judge accepts it exactly when the exit code
    of every observed case is an exit status and no case took negative time, and refuses it as a breach
    of the protocol otherwise; nothing else about it can be wrong.  Both hold when the Docker CLI is not
    itself killed by a signal (its exit code is then passed on as -1) and the host's clock does not run
    backwards. *)
Theorem supervised_is_judged stripVT e plan cases w ob w' :
  selectCases plan (be_mode e) = Ok cases →
  supervise root proc (sandbox_request e plan cases) w = (Ok ob, w') →
  (Forall reported (ob_cases ob) → ∃ r, judge stripVT plan (be_mode e) (be_language e) ob = Ok r)
  ∧ (¬ Forall reported (ob_cases ob) → judge stripVT plan (be_mode e) (be_language e) ob = Err JudgeProtocolError)
  ∧ (regular → Forall reported (ob_cases ob)).
Proof.
  intros Hsel Hr. unfold supervise in Hr. apply io_bind_Ok in Hr as (request & w1 & Hp & Hr).
  injection Hp as Hp <-. apply sandboxRequest_parse_Ok in Hp as [-> Hok%sandboxRequest_ok_facts].
  repeat (apply io_bind_Ok in Hr as (? & ? & _ & Hr)). apply finally_Ok in Hr as [w2 Ho].
  apply observe_conforms in Ho; [|apply (rf_uuids _ Hok)].
  cbn in Ho. rewrite <- list_fmap_compose in Ho. split_and!.
  - by eapply judge_total.
  - by eapply judge_unreported.
  - intros Hreg. destruct Ho as [_ _ [Ho|[-> _]] _ _]; [by eapply in_order_regular|done].
Qed.
End Observing.
