(* ===== verification/Rpc.v ===== *)
(** * The runner's RPC ([apps/runner/src/server.ts], [apps/runner/src/client.ts])

    The HTTP handler in front of the supervisor and the client the judging backend calls.  What
    the client makes of a reply decides whether the worker may hand a job back: a failure to
    confirm the cleanup must never look like one that can be retried. *)

From S2P Require Import Prelude JsText Contracts Judge Io JsString RuntimePolicy Buffers Artifacts.
From S2P Require Import Transport Host Metrics Supervisor SupervisorFacts.
Local Open Scope Z_scope.

(** ** Messages *)

Inductive Endpoint := E_execute | E_cancel | E_unknown.
#[export] Instance Endpoint_eq_dec : EqDecision Endpoint. Proof. solve_decision. Defined.

(** The body after [JSON.parse]: not JSON or not of the shape the endpoint's schema wants, an
    execution request, or the identity of the attempt to cancel. *)
Inductive Body :=
| B_malformed
| B_execute (r : SandboxRequest)
| B_cancel (executionId : jsstr) (attempt : Z).

Record HttpRequest := mkHttpRequest {
  hr_post : bool; hr_endpoint : Endpoint; hr_json : bool; hr_bytes : Z; hr_body : Body
}.

Inductive Payload :=
| P_error (code : string)
| P_observation (ob : JudgeObservation)
| P_requested (b : bool).
Record Reply := mkReply { rp_status : Z; rp_payload : Payload }.

(** ** The server *)

(** [closing], [admitted] and the keys of [controllers], for the requests under way. *)
Record ServerState := mkServerState {
  ss_closing : bool; ss_admitted : Z; ss_controllers : list jsstr
}.

(** The code that is logged for a failure; it never carries a message of a foreign error. *)
Definition safeFailureCode (e : error) : string :=
  match e with
  | SandboxCleanupError => "SANDBOX_CLEANUP_UNCONFIRMED"
  | DockerError code => code
  | ZodError => "INVALID_EXECUTION_REQUEST"
  | JsError message =>
      if existsb (String.eqb message) METRIC_ERROR_CODES then message
      else if existsb (String.eqb message)
                ["RUNNER_NOT_READY"; "RUNNER_CAPACITY"; "DUPLICATE_ATTEMPT"; "SANDBOX_POLICY_MISMATCH";
                 "INVALID_CONTAINER_STATE"]%string
      then message else "UNCLASSIFIED_RUNNER_FAILURE"
  | _ => "UNCLASSIFIED_RUNNER_FAILURE"
  end%string.

Section Server.
Context `{Zod} `{TarStream} `{Host} (root proc : jsstr).

(** The [catch] clause of [handle]; [aborted] is the state of the request's own controller. *)
Definition failure_reply (aborted : bool) (e : error) : Reply :=
  if bool_decide (e = DockerError "ABORTED") && aborted
  then mkReply 200 (P_observation (mkObservation true None []))
  else mkReply 503 (P_error (if bool_decide (e = SandboxCleanupError)
                             then "SANDBOX_CLEANUP_UNCONFIRMED" else "EXECUTION_UNAVAILABLE")).

(** [{...result, ...(aborted ? {cancellationConfirmed: true} : {})}]. *)
Definition confirmed (aborted : bool) (ob : JudgeObservation) : JudgeObservation :=
  mkObservation (ob_cancellationConfirmed ob || aborted) (ob_compilation ob) (ob_cases ob).

Definition execute_reply (request : SandboxRequest) : io World Reply := λ w,
  match supervise root proc request w with
  | (Ok ob, w') => (Ok (mkReply 200 (P_observation (confirmed (aborted_at (w_history w')) ob))), w')
  | (Err e, w') => (Ok (failure_reply (aborted_at (w_history w')) e), w')
  end.

(** One request.  The counters and controllers of the request itself are gone when it ends. *)
Definition handle (s : ServerState) (req : HttpRequest) : io World Reply :=
  if ss_closing s || (8 <=? ss_admitted s) then mret (mkReply 503 (P_error "RUNNER_CAPACITY")) else
  if negb (hr_post req) || bool_decide (hr_endpoint req = E_unknown) || negb (hr_json req)
  then mret (mkReply 400 (P_error "INVALID_REQUEST")) else
  if 2 * 1024 * 1024 <? hr_bytes req then mret (mkReply 413 (P_error "REQUEST_TOO_LARGE")) else
  match hr_endpoint req, hr_body req with
  | E_cancel, B_cancel executionId attempt =>
      if negb (z_uuid executionId) || (attempt <=? 0) then mret (failure_reply false ZodError) else
      let key := executionId ++ js ":" ++ num attempt in
      if bool_decide (key ∈ ss_controllers s)
      then mret (mkReply 200 (P_requested true)) else mret (mkReply 409 (P_requested false))
  | E_execute, B_execute request =>
      if negb (sandboxRequest_ok request) then mret (failure_reply false ZodError) else
      if bool_decide (attempt_key request ∈ ss_controllers s)
      then mret (mkReply 503 (P_error "DUPLICATE_ATTEMPT")) else execute_reply request
  | _, _ => mret (failure_reply false ZodError)
  end.

(** ** The client *)

(** [runnerError]: the codes that leave the sandbox in a known state. *)
Definition runnerError (p : Payload) : option error :=
  match p with
  | P_error code =>
      if existsb (String.eqb code) ["RUNNER_CAPACITY"; "DUPLICATE_ATTEMPT"; "EXECUTION_UNAVAILABLE"]%string
      then Some (RunnerExecutionError code) else None
  | _ => None
  end.

(** What became of the exchange: a complete reply, or none (a connection error, a timeout, an
    oversized reply). *)
Definition client_outcome (reply : option Reply) : result JudgeObservation :=
  match reply with
  | None => Err SandboxCleanupError
  | Some r =>
      if negb (rp_status r =? 200) then Err (default SandboxCleanupError (runnerError (rp_payload r))) else
      match rp_payload r with
      | P_observation ob => if observation_ok ob then Ok ob else Err SandboxCleanupError
      | _ => Err SandboxCleanupError
      end
  end.

(** [SupervisorClient.execute] of a request whose encoding has [bytes] bytes; [delivered] says
    whether the reply arrives. *)
Definition client_execute (s : ServerState) (aborted delivered : bool) (bytes : Z) (input : SandboxRequest) :
    io World JudgeObservation :=
  request ← of_result (sandboxRequest_parse input);
  if aborted then mret (mkObservation true None []) else
  reply ← handle s (mkHttpRequest true E_execute true bytes (B_execute request));
  of_result (client_outcome (if delivered then Some reply else None)).

(** ** When a failure may be retried *)

(** A reply either left the host alone, or follows an execution of the supervisor. *)
Lemma handle_run s req w :
  ∃ reply w', handle s req w = (Ok reply, w') ∧
    (w' = w ∨ ∃ request r, supervise root proc request w = (r, w') ∧
       (r = Err SandboxCleanupError → reply = mkReply 503 (P_error "SANDBOX_CLEANUP_UNCONFIRMED"))).
Proof.
  assert (∀ reply, ∃ reply' w', mret (M := io World) reply w = (Ok reply', w') ∧ (w' = w ∨ ∃ request r,
    supervise root proc request w = (r, w') ∧
    (r = Err SandboxCleanupError → reply' = mkReply 503 (P_error "SANDBOX_CLEANUP_UNCONFIRMED")))) as Hret.
  { intros reply. exists reply, w. auto. }
  unfold handle. destruct (_ || _); [apply Hret|]. destruct (_ || _); [apply Hret|].
  destruct (_ <? _); [apply Hret|].
  destruct (hr_endpoint req), (hr_body req); try apply Hret.
  - destruct (negb _); [apply Hret|]. destruct (bool_decide _); [apply Hret|]. unfold execute_reply.
    destruct (supervise root proc r w) as [[ob|e] w'] eqn:E; (eexists _, w'; split; [done|right]).
    + exists r, (Ok ob). by split.
    + exists r, (Err e). split; [done|]. intros [= ->]. done.
  - destruct (_ || _); [apply Hret|]. destruct (bool_decide _); apply Hret.
Qed.

(** C10: when a job may be retried.  If the runner's client reports a recoverable error, then the
    reply arrived and every container that was created for the request is confirmed gone; a
    cleanup that could not be confirmed, and every exchange without a reply, is a
    [SandboxCleanupError], which the worker never retries. *)
Theorem retry_is_clean s aborted delivered bytes input w code w' :
  client_execute s aborted delivered bytes input w = (Err (RunnerExecutionError code), w') →
  delivered = true ∧ ∃ l, w_history w' = w_history w ++ l ∧ settled l.
Proof.
  unfold client_execute, sandboxRequest_parse, mbind, io_bind, of_result.
  destruct (sandboxRequest_ok input) eqn:Hok; [|done]. destruct aborted; [done|].
  destruct (handle_run s (mkHttpRequest true E_execute true bytes (B_execute input)) w)
    as (reply & w1 & -> & Hw). destruct delivered; [|done]. intros [= Ho <-]. split; [done|].
  destruct Hw as [->|(request & r & Hs & Hr)].
  - exists []. rewrite app_nil_r. split; [done|]. intros i c n Hi. done.
  - destruct (supervise_settles root proc request w) as [(l & El & Hl) _].
    rewrite Hs in El, Hl. cbn in El, Hl. exists l. split; [done|]. apply Hl. intros ->.
    rewrite (Hr eq_refl) in Ho. done.
Qed.
End Server.
