(* ===== verification/Service.v ===== *)
(** * The runner's server under load ([apps/runner/src/server.ts])

    Many requests at once: what [listenSupervisor] counts and remembers while requests arrive, their
    bodies come in, clients disconnect, executions settle and cancellations find their target.  A step is
    what runs between two awaits of [handle], or a listener of the request. *)

From S2P Require Import Prelude JsText Contracts Judge Io JsString RuntimePolicy Buffers Artifacts.
From S2P Require Import Transport Host Metrics Supervisor SupervisorFacts Rpc.
Local Open Scope Z_scope.

(** ** The state *)

(** Where a request stands: its body is coming in, or its execution runs under a key. *)
Inductive Stage :=
| Reading (endpoint : Endpoint) (size : Z)
| Executing (key : jsstr).
Record Inflight := mkInflight { if_stage : Stage; if_aborted : bool }.

(** [closing], [admitted], [controllers] (the request whose controller stands under a key), the
    requests [handle] is working on, and what was replied, newest first. *)
Record Service := mkService {
  sv_closing : bool; sv_admitted : Z; sv_controllers : gmap jsstr nat;
  sv_requests : gmap nat Inflight; sv_replies : list (nat * Reply)
}.
Definition idle : Service := mkService false 0 ∅ ∅ [].

(** What happens to the server. *)
Inductive ServiceEvent :=
| Arrive (id : nat) (post : bool) (endpoint : Endpoint) (is_json : bool)
| Chunk (id : nat) (bytes : Z)
| Complete (id : nat) (body : Body)
| Disconnect (id : nat)
| Settle (id : nat) (r : result JudgeObservation)
| Shutdown.

(** ** The steps *)

Definition replied (id : nat) (r : Reply) (s : Service) : Service :=
  mkService (sv_closing s) (sv_admitted s) (sv_controllers s) (sv_requests s) ((id, r) :: sv_replies s).
(** [finally {if (key) controllers.delete(key); admitted--;}]. *)
Definition leave (id : nat) (key : option jsstr) (s : Service) : Service :=
  mkService (sv_closing s) (sv_admitted s - 1)
    (match key with Some k => delete k (sv_controllers s) | None => sv_controllers s end)
    (delete id (sv_requests s)) (sv_replies s).
Definition set_request (id : nat) (i : Inflight) (s : Service) : Service :=
  mkService (sv_closing s) (sv_admitted s) (sv_controllers s) (<[id := i]> (sv_requests s)) (sv_replies s).
(** [controller.abort()] of the request [id]. *)
Definition abort (id : nat) (s : Service) : Service :=
  match sv_requests s !! id with
  | Some i => set_request id (mkInflight (if_stage i) true) s
  | None => s
  end.
(** The reply of a request that ends; to a client that is gone it is not delivered. *)
Definition answer (id : nat) (key : option jsstr) (r : Reply) (s : Service) : Service :=
  leave id key (replied id r s).

Section Service.
Context `{Zod}.

Definition arrive (id : nat) (post : bool) (endpoint : Endpoint) (is_json : bool) (s : Service) : Service :=
  if sv_closing s || (8 <=? sv_admitted s) then replied id (mkReply 503 (P_error "RUNNER_CAPACITY")) s else
  if negb post || bool_decide (endpoint = E_unknown) || negb is_json
  then replied id (mkReply 400 (P_error "INVALID_REQUEST")) s else
  set_request id (mkInflight (Reading endpoint 0) false)
    (mkService (sv_closing s) (sv_admitted s + 1) (sv_controllers s) (sv_requests s) (sv_replies s)).

Definition chunk (id : nat) (bytes : Z) (s : Service) : Service :=
  match sv_requests s !! id with
  | Some (mkInflight (Reading endpoint size) aborted) =>
      if 2 * 1024 * 1024 <? size + bytes
      then answer id None (mkReply 413 (P_error "REQUEST_TOO_LARGE")) s
      else set_request id (mkInflight (Reading endpoint (size + bytes)) aborted) s
  | _ => s
  end.

(** The body is complete: a cancellation finds its target at once, an execution takes its key. *)
Definition complete (id : nat) (body : Body) (s : Service) : Service :=
  match sv_requests s !! id with
  | Some (mkInflight (Reading endpoint size) aborted) =>
      match endpoint, body with
      | E_cancel, B_cancel executionId attempt =>
          if negb (z_uuid executionId) || (attempt <=? 0) then answer id None (failure_reply aborted ZodError) s else
          match sv_controllers s !! (executionId ++ js ":" ++ num attempt) with
          | Some target => answer id None (mkReply 200 (P_requested true)) (abort target s)
          | None => answer id None (mkReply 409 (P_requested false)) s
          end
      | E_execute, B_execute request =>
          if negb (sandboxRequest_ok request) then answer id None (failure_reply aborted ZodError) s else
          let key := attempt_key request in
          match sv_controllers s !! key with
          | Some _ => answer id None (mkReply 503 (P_error "DUPLICATE_ATTEMPT")) s
          | None =>
              set_request id (mkInflight (Executing key) aborted)
                (mkService (sv_closing s) (sv_admitted s) (<[key := id]> (sv_controllers s)) (sv_requests s) (sv_replies s))
          end
      | _, _ => answer id None (failure_reply aborted ZodError) s
      end
  | _ => s
  end.

(** The client is gone: a body that is coming in ends with an error, an execution is aborted. *)
Definition disconnect (id : nat) (s : Service) : Service :=
  match sv_requests s !! id with
  | Some (mkInflight (Reading _ _) _) => leave id None s
  | Some (mkInflight (Executing _) _) => abort id s
  | None => s
  end.

(** [supervisor.execute] settles. *)
Definition settle (id : nat) (r : result JudgeObservation) (s : Service) : Service :=
  match sv_requests s !! id with
  | Some (mkInflight (Executing key) aborted) =>
      answer id (Some key)
        (match r with
         | Ok ob => mkReply 200 (P_observation (confirmed aborted ob))
         | Err e => failure_reply aborted e
         end) s
  | _ => s
  end.

Definition service_step (s : Service) (e : ServiceEvent) : Service :=
  match e with
  | Arrive id post endpoint is_json => if decide (is_Some (sv_requests s !! id)) then s else arrive id post endpoint is_json s
  | Chunk id bytes => chunk id bytes s
  | Complete id body => complete id body s
  | Disconnect id => disconnect id s
  | Settle id r => settle id r s
  | Shutdown => mkService true (sv_admitted s) (sv_controllers s) (sv_requests s) (sv_replies s)
  end.
Definition service_run : Service → list ServiceEvent → Service := foldl service_step.
End Service.

(** ** What the server never loses count of *)

Section Invariant.
Context `{Zod}.

(** The key a request executes under. *)
Definition key_of (i : Inflight) : option jsstr :=
  match if_stage i with Executing k => Some k | Reading _ _ => None end.

(** [admitted] counts the requests under way, at most eight; a controller stands under exactly the keys
    that a request executes under, and is that request's. *)
Record service_ok (s : Service) : Prop := {
  so_admitted : sv_admitted s = Z.of_nat (base.size (sv_requests s));
  so_bound : sv_admitted s ≤ 8;
  so_controllers k id : sv_controllers s !! k = Some id ↔ ∃ i, sv_requests s !! id = Some i ∧ key_of i = Some k
}.

Lemma idle_ok : service_ok idle.
Proof.
  split; [done|cbn; lia|]. intros k id. cbn. rewrite lookup_empty. split; [done|]. intros (i & Hi & _).
  by rewrite lookup_empty in Hi.
Qed.
Lemma replied_ok id r s : service_ok s → service_ok (replied id r s).
Proof. by intros [? ? ?]. Qed.
Lemma shutdown_ok s :
  service_ok s → service_ok (mkService true (sv_admitted s) (sv_controllers s) (sv_requests s) (sv_replies s)).
Proof. by intros [? ? ?]. Qed.

(** A request that only changes what is not its key. *)
Lemma set_request_ok id i j s :
  service_ok s → sv_requests s !! id = Some i → key_of j = key_of i → service_ok (set_request id j s).
Proof.
  intros [Ha Hb Hc] Hi Hk. split; cbn; [|done|].
  - rewrite Ha. f_equal. symmetry. apply map_size_insert_Some. eauto.
  - intros k id'. rewrite Hc. setoid_rewrite lookup_insert_Some. split.
    + intros (i' & Hi' & E). destruct (decide (id = id')) as [<-|Hne]; [|by exists i'; eauto].
      exists j. split; [by left|]. congruence.
    + intros (i' & [[-> <-]|[_ Hi']] & E); [exists i; split; [done|congruence]|eauto].
Qed.
Lemma abort_ok id s : service_ok s → service_ok (abort id s).
Proof. intros Hs. unfold abort. destruct (sv_requests s !! id) as [i|] eqn:E; [|done]. by eapply set_request_ok. Qed.
Lemma abort_lookup id id' s i : sv_requests s !! id' = Some i → ∃ j, sv_requests (abort id s) !! id' = Some j ∧ key_of j = key_of i.
Proof.
  intros Hi. unfold abort. destruct (sv_requests s !! id) as [x|] eqn:E; [|eauto]. cbn.
  destruct (decide (id = id')) as [<-|Hne]; [rewrite lookup_insert_eq; rewrite Hi in E; injection E as <-; eauto|].
  rewrite lookup_insert_ne by done. eauto.
Qed.

(** A request leaves, with its key. *)
Lemma leave_ok id i s : service_ok s → sv_requests s !! id = Some i → service_ok (leave id (key_of i) s).
Proof.
  intros [Ha Hb Hc] Hi. split; cbn.
  - rewrite map_size_delete, Hi, Ha. assert (0 < base.size (sv_requests s))%nat; [|lia].
    apply Nat.neq_0_lt_0, map_size_ne_0_lookup. eauto.
  - lia.
  - intros k id'. setoid_rewrite lookup_delete_Some.
    assert (∀ k id', (∃ i', (id ≠ id' ∧ sv_requests s !! id' = Some i') ∧ key_of i' = Some k) ↔
              sv_controllers s !! k = Some id' ∧ id ≠ id') as Hq.
    { intros k0 id0. rewrite Hc. naive_solver. }
    rewrite Hq. destruct (key_of i) as [k0|] eqn:Ek.
    + rewrite lookup_delete_Some. split; [intros [Hne Hk]; split; [done|]|intros [Hk Hne]; split; [|done]].
      * intros <-. apply Hc in Hk as (i' & Hi' & Ei). rewrite Hi in Hi'. injection Hi' as <-. congruence.
      * intros <-. assert (sv_controllers s !! k0 = Some id) as H1 by (apply Hc; eauto). congruence.
    + split; [intros Hk; split; [done|]|by intros []]. intros <-. apply Hc in Hk as (i' & Hi' & Ei). congruence.
Qed.
Lemma answer_ok id i r s : service_ok s → sv_requests s !! id = Some i → service_ok (answer id (key_of i) r s).
Proof. intros Hs Hi. unfold answer. by apply leave_ok; [apply replied_ok|]. Qed.

Lemma service_step_ok s e : service_ok s → service_ok (service_step s e).
Proof.
  intros Hs. pose proof Hs as [Ha Hb Hc].
  destruct e as [id post endpoint is_json|id bytes|id body|id|id r|]; cbn [service_step]; [| | | | |by apply shutdown_ok].
  - destruct (decide _) as [|Hn]; [done|]. unfold arrive. destruct (_ || (8 <=? _)) eqn:E1; [by apply replied_ok|].
    apply orb_false_iff in E1 as [_ E1]. destruct (_ || _); [by apply replied_ok|].
    apply eq_None_not_Some in Hn. split; cbn; [|lia|].
    + rewrite map_size_insert_None by done. lia.
    + intros k id'. rewrite Hc. setoid_rewrite lookup_insert_Some. split.
      * intros (i & Hi & Ei). exists i. split; [right; split; [congruence|done]|done].
      * intros (i & [[_ <-]|[_ Hi]] & Ei); [done|eauto].
  - unfold chunk. destruct (sv_requests s !! id) as [[[ep sz|k] ab]|] eqn:E; [|done|done].
    destruct (_ <? _); [|by eapply set_request_ok]. by apply (answer_ok id (mkInflight (Reading ep sz) ab)).
  - unfold complete. destruct (sv_requests s !! id) as [[[ep sz|k] ab]|] eqn:E; [|done|done].
    assert (∀ r, service_ok (answer id None r s)) as Hans.
    { intros r. by apply (answer_ok id (mkInflight (Reading ep sz) ab)). }
    destruct ep, body; try apply Hans.
    + destruct (negb _); [apply Hans|]. destruct (sv_controllers s !! attempt_key r) as [t|] eqn:Ek; [apply Hans|].
      split; cbn; [|done|].
      * rewrite Ha. f_equal. symmetry. apply map_size_insert_Some. eauto.
      * intros k id'. rewrite lookup_insert_Some. setoid_rewrite lookup_insert_Some. rewrite Hc. split.
        -- intros [[<- <-]|[Hne (i & Hi & Ei)]]; [by eexists; split; [by left|]|].
           exists i. split; [|done]. right. split; [|done]. intros <-. rewrite E in Hi. by injection Hi as <-.
        -- intros (i & [[<- <-]|[Hne Hi]] & Ei); [injection Ei as <-; by left|]. right. split; [|eauto].
           intros <-. assert (sv_controllers s !! attempt_key r = Some id') as H1 by (apply Hc; eauto). congruence.
    + destruct (_ || _); [apply Hans|]. destruct (sv_controllers s !! _) as [t|]; [|apply Hans].
      destruct (abort_lookup t id s _ E) as (j & Hj & Ej). cbn in Ej.
      replace (@None jsstr) with (key_of j) by done. apply answer_ok; [by apply abort_ok|done].
  - unfold disconnect. destruct (sv_requests s !! id) as [[[ep sz|k] ab]|] eqn:E; [|by apply abort_ok|done].
    by apply (leave_ok id (mkInflight (Reading ep sz) ab)).
  - unfold settle. destruct (sv_requests s !! id) as [[[ep sz|k] ab]|] eqn:E; [done| |done].
    by apply (answer_ok id (mkInflight (Executing k) ab)).
Qed.

Lemma service_run_ok s es : service_ok s → service_ok (service_run s es).
Proof. revert s. induction es as [|e es IH]; intros s Hs; [done|]. by apply IH, service_step_ok. Qed.

(** What a cancellation of [key] that request [id] brings does: it reaches the one request that executes
    under the key, or is told that there is none. *)
Definition cancels (key : jsstr) (id : nat) (s s' : Service) : Prop :=
  (∃ target i, sv_requests s !! target = Some i ∧ key_of i = Some key
     ∧ sv_requests s' = delete id (<[target := mkInflight (if_stage i) true]> (sv_requests s))
     ∧ sv_replies s' = (id, mkReply 200 (P_requested true)) :: sv_replies s)
  ∨ ((∀ target i, sv_requests s !! target = Some i → key_of i ≠ Some key)
     ∧ sv_requests s' = delete id (sv_requests s)
     ∧ sv_replies s' = (id, mkReply 409 (P_requested false)) :: sv_replies s).

Lemma complete_cancels id sz ab executionId attempt s :
  service_ok s → sv_requests s !! id = Some (mkInflight (Reading E_cancel sz) ab) →
  z_uuid executionId = true → 0 < attempt →
  cancels (executionId ++ js ":" ++ num attempt) id s (complete id (B_cancel executionId attempt) s).
Proof.
  intros Hs Hid Hu Ha. unfold complete. rewrite Hid, Hu, (proj2 (Z.leb_gt _ _) Ha). cbn [negb orb].
  destruct (sv_controllers s !! _) as [target|] eqn:Ek.
  - apply (so_controllers s Hs) in Ek as (i & Hi & Ei). left. exists target, i. unfold abort. by rewrite Hi.
  - right. split; [|done]. intros target i Hi Ei.
    assert (sv_controllers s !! (executionId ++ js ":" ++ num attempt) = Some target) as H1
      by (apply (so_controllers s Hs); eauto). congruence.
Qed.

(** What an arriving request finds: it is turned away when the server is closing or eight requests are under
    way, refused when it is malformed, and under way itself otherwise. *)
Definition admits (id : nat) (post : bool) (endpoint : Endpoint) (is_json : bool) (s s' : Service) : Prop :=
  if decide (sv_closing s = true ∨ 8 ≤ base.size (sv_requests s))%nat
  then sv_requests s' = sv_requests s ∧ sv_replies s' = (id, mkReply 503 (P_error "RUNNER_CAPACITY")) :: sv_replies s
  else if decide (post = true ∧ endpoint ≠ E_unknown ∧ is_json = true)
  then sv_requests s' = <[id := mkInflight (Reading endpoint 0) false]> (sv_requests s) ∧ sv_replies s' = sv_replies s
  else sv_requests s' = sv_requests s ∧ sv_replies s' = (id, mkReply 400 (P_error "INVALID_REQUEST")) :: sv_replies s.

Lemma arrive_admits id post endpoint is_json s :
  service_ok s → sv_requests s !! id = None →
  admits id post endpoint is_json s (service_step s (Arrive id post endpoint is_json)).
Proof.
  intros [Ha _ _] Hn. cbn [service_step]. rewrite decide_False by (rewrite Hn; by intros [? ?]).
  unfold admits, arrive. rewrite Ha.
  destruct (Z.leb_spec 8 (Z.of_nat (base.size (sv_requests s)))) as [Hle|Hlt].
  { rewrite orb_true_r, decide_True by (right; lia). done. }
  rewrite orb_false_r. destruct (sv_closing s); [by rewrite decide_True by auto|].
  rewrite decide_False by (intros [?|?]; [done|lia]).
  destruct post, is_json; cbn [negb orb]; try (by rewrite decide_False by naive_solver).
  - case_bool_decide; cbn [orb]; [rewrite decide_False by naive_solver|rewrite decide_True by naive_solver]; done.
  - rewrite orb_true_r. by rewrite decide_False by naive_solver.
Qed.

(** C24: the runner's server keeps its books.  However requests arrive, send their bodies, disconnect,
    settle and are cancelled, at most eight are under way, executions and cancellations alike: the server
    counts exactly those, and takes a well-formed request while there are fewer and it is not closing; never two of them execute the same attempt;
    a cancellation reaches exactly the execution of its attempt or is told that there is none; and
    when nothing is under way any more no place and no controller is left behind. *)
Theorem requests_accounted es :
  let s := service_run idle es in
  (base.size (sv_requests s) ≤ 8)%nat ∧ sv_admitted s = Z.of_nat (base.size (sv_requests s))
  ∧ (∀ id post endpoint is_json, sv_requests s !! id = None →
       admits id post endpoint is_json s (service_step s (Arrive id post endpoint is_json)))
  ∧ (∀ id1 id2 i1 i2 k, sv_requests s !! id1 = Some i1 → sv_requests s !! id2 = Some i2 →
       key_of i1 = Some k → key_of i2 = Some k → id1 = id2)
  ∧ (∀ id sz ab executionId attempt,
       sv_requests s !! id = Some (mkInflight (Reading E_cancel sz) ab) → z_uuid executionId = true → 0 < attempt →
       cancels (executionId ++ js ":" ++ num attempt) id s (service_step s (Complete id (B_cancel executionId attempt))))
  ∧ (sv_requests s = ∅ → sv_admitted s = 0 ∧ sv_controllers s = ∅).
Proof.
  intros s. pose proof (service_run_ok idle es idle_ok) as Hs. fold s in Hs. pose proof Hs as [Ha Hb Hc]. split_and!.
  - lia.
  - done.
  - intros id post endpoint is_json. by apply arrive_admits.
  - intros id1 id2 i1 i2 k H1 H2 E1 E2. assert (sv_controllers s !! k = Some id1) as Hk by (apply Hc; eauto).
    assert (sv_controllers s !! k = Some id2) as Hk2 by (apply Hc; eauto). congruence.
  - intros id sz ab executionId attempt. by apply complete_cancels.
  - intros He. split; [rewrite Ha, He; done|]. apply map_empty. intros k. apply eq_None_not_Some. intros [id Hk].
    apply Hc in Hk as (i & Hi & _). by rewrite He, lookup_empty in Hi.
Qed.
End Invariant.

(** ** One request among the others *)

(** The steps of a request that nothing disturbs come to the reply of [handle] in [Rpc.v], which sees of the
    server its counters and the keys of its controllers. *)
Section Alone.
Context `{Zod} `{TarStream} `{Host} (root proc : jsstr).

Definition view (s : Service) : ServerState :=
  mkServerState (sv_closing s) (sv_admitted s) (map_to_list (sv_controllers s)).*1.
Definition undisturbed (id : nat) (req : HttpRequest) : list ServiceEvent :=
  [Arrive id (hr_post req) (hr_endpoint req) (hr_json req); Chunk id (hr_bytes req); Complete id (hr_body req)].
(** The reply the server gave last. *)
Definition replies (id : nat) (r : Reply) (s : Service) : Prop := head (sv_replies s) = Some (id, r).
(** The execution of [request] is under way as request [id], not aborted. *)
Definition executing (id : nat) (request : SandboxRequest) (s : Service) : Prop :=
  sv_requests s !! id = Some (mkInflight (Executing (attempt_key request)) false).

Lemma controller_listed s k : bool_decide (k ∈ ss_controllers (view s)) = bool_decide (is_Some (sv_controllers s !! k)).
Proof.
  apply bool_decide_ext. cbn. rewrite list_elem_of_fmap. split.
  - intros ([k' v] & -> & Hv%elem_of_map_to_list). by exists v.
  - intros [v Hv]. exists (k, v). by rewrite elem_of_map_to_list.
Qed.

(** A request that is not there takes no further step. *)
Lemma unknown_stays id bytes body s :
  sv_requests s !! id = None → complete id body (chunk id bytes s) = s.
Proof. intros Hn. unfold chunk. rewrite Hn. unfold complete. by rewrite Hn. Qed.
Lemma answered_gone id key r s : sv_requests (answer id key r s) !! id = None.
Proof. apply lookup_delete_eq. Qed.

Lemma settled_reply id request s b r :
  executing id request s →
  replies id (match r with Ok ob => mkReply 200 (P_observation (confirmed b ob)) | Err e => failure_reply b e end)
    (service_step (if b then abort id s else s) (Settle id r)).
Proof.
  unfold executing, replies. intros He. destruct b; cbn [service_step]; unfold settle, abort; rewrite He; [|done].
  cbn [set_request sv_requests if_stage]. by rewrite lookup_insert_eq.
Qed.

Lemma undisturbed_reply s id req w :
  sv_requests s !! id = None →
  let s' := service_run s (undisturbed id req) in
  ∃ reply w', handle root proc (view s) req w = (Ok reply, w') ∧
    ((w' = w ∧ replies id reply s')
     ∨ ∃ request r, supervise root proc request w = (r, w') ∧ executing id request s'
         ∧ replies id reply (service_step (if aborted_at (w_history w') then abort id s' else s') (Settle id r))).
Proof.
  intros Hn. unfold undisturbed. cbn [service_run foldl service_step].
  rewrite decide_False by (rewrite Hn; by intros [? ?]). unfold handle, arrive. cbn [view ss_closing ss_admitted].
  assert (∀ reply (s1 : Service), head (sv_replies s1) = Some (id, reply) →
    ∃ reply' w', mret (M := io World) reply w = (Ok reply', w') ∧
      ((w' = w ∧ replies id reply' s1) ∨ ∃ request r, supervise root proc request w = (r, w') ∧ executing id request s1
         ∧ replies id reply' (service_step (if aborted_at (w_history w') then abort id s1 else s1) (Settle id r)))) as Hdone.
  { intros reply s1 Hr. exists reply, w. split; [done|]. by left. }
  destruct (sv_closing s || (8 <=? sv_admitted s)); [rewrite unknown_stays by done; by apply Hdone|].
  destruct (negb (hr_post req) || _ || _); [rewrite unknown_stays by done; by apply Hdone|].
  unfold chunk. cbn [set_request sv_requests]. rewrite lookup_insert_eq, Z.add_0_l.
  destruct (2 * 1024 * 1024 <? hr_bytes req).
  { unfold complete. rewrite answered_gone. by apply Hdone. }
  unfold complete. cbn [set_request sv_requests sv_controllers]. rewrite lookup_insert_eq.
  destruct (hr_endpoint req), (hr_body req) as [|request|executionId attempt]; try (by apply Hdone).
  - destruct (negb (sandboxRequest_ok request)); [by apply Hdone|].
    rewrite controller_listed. cbn [sv_controllers].
    destruct (sv_controllers s !! attempt_key request) as [t|]; cbn [is_Some].
    + rewrite bool_decide_eq_true_2 by eauto. by apply Hdone.
    + rewrite bool_decide_eq_false_2 by (by intros [? ?]). unfold execute_reply.
      destruct (supervise root proc request w) as [r w'] eqn:Es.
      match goal with |- context [replies id _ ?x] => set (s' := x) end.
      assert (executing id request s') as He by apply lookup_insert_eq.
      pose proof (settled_reply id request s' (aborted_at (w_history w')) r He) as Hr.
      destruct r as [ob|e]; (eexists _, w'; split; [done|right]); eauto.
  - destruct (negb (z_uuid executionId) || (attempt <=? 0)); [by apply Hdone|].
    rewrite controller_listed. cbn [sv_controllers].
    destruct (sv_controllers s !! _) as [t|].
    + rewrite bool_decide_eq_true_2 by eauto. apply Hdone. unfold abort. by case_match.
    + rewrite bool_decide_eq_false_2 by (by intros [? ?]). by apply Hdone.
Qed.
End Alone.

(** ** A call of the client ([apps/runner/src/client.ts]) *)

(** Where the cancellation of a call stands: not asked for, a [/cancel] request on its way, a retry due
    in 50 ms, acknowledged, or given up. *)
Inductive CancelState := C_none | C_sent | C_waiting | C_acknowledged | C_over.
#[export] Instance CancelState_eq_dec : EqDecision CancelState. Proof. solve_decision. Defined.

(** The variables of the promise of [execute]: the status once the response has begun, the bytes that came
    in and the chunks that are kept, how the promise has settled, [finished], whether the request was destroyed, whether the
    abort listener is there, [until], and the cancellation. *)
Record Call := mkCall {
  ca_status : option Z; ca_bytes : Z; ca_chunks : buffer; ca_outcome : option (result JudgeObservation);
  ca_finished : bool; ca_destroyed : bool; ca_listening : bool; ca_until : Z; ca_cancel : CancelState
}.
Definition call0 : Call := mkCall None 0 [] None false false true 0 C_none.

Inductive CallEvent :=
| Head (status : Z)
| Data (bytes : buffer)
| ResponseEnd
| ResponseError
| RequestError
| RequestClose
| Deadline
| Abort (now : Z)
| CancelReply (status now : Z)
| CancelError
| CancelRetry.

Definition REPLY_LIMIT : Z := 2 * 1024 * 1024.

(** A promise settles once. *)
Definition settled_with (r : result JudgeObservation) (c : Call) : Call :=
  mkCall (ca_status c) (ca_bytes c) (ca_chunks c) (match ca_outcome c with Some o => Some o | None => Some r end)
    (ca_finished c) (ca_destroyed c) (ca_listening c) (ca_until c) (ca_cancel c).
Definition destroyed (c : Call) : Call :=
  mkCall (ca_status c) (ca_bytes c) (ca_chunks c) (ca_outcome c) (ca_finished c) true (ca_listening c) (ca_until c) (ca_cancel c).
Definition with_cancel (s : CancelState) (c : Call) : Call :=
  mkCall (ca_status c) (ca_bytes c) (ca_chunks c) (ca_outcome c) (ca_finished c) (ca_destroyed c) (ca_listening c) (ca_until c) s.

Definition received (total : Z) (chunks : buffer) (c : Call) : Call :=
  mkCall (ca_status c) total chunks (ca_outcome c) (ca_finished c) (ca_destroyed c) (ca_listening c) (ca_until c)
    (ca_cancel c).

Section Client.
Context `{Zod}.
(** What [JSON.parse] and the shape of a reply make of its bytes; [None] when neither fits. *)
Context (payload_of : buffer → option Payload).

Definition reply_of (c : Call) : option Reply :=
  match ca_status c, payload_of (ca_chunks c) with
  | Some status, Some p => Some (mkReply status p)
  | _, _ => None
  end.

Definition call_step (c : Call) (e : CallEvent) : Call :=
  match e with
  | Head status =>
      mkCall (Some (default status (ca_status c))) (ca_bytes c) (ca_chunks c) (ca_outcome c) (ca_finished c) (ca_destroyed c)
        (ca_listening c) (ca_until c) (ca_cancel c)
  | Data bytes =>
      let total := ca_bytes c + size bytes in
      if REPLY_LIMIT <? total
      then settled_with (Err SandboxCleanupError) (destroyed (received total (ca_chunks c) c))
      else received total (ca_chunks c ++ bytes) c
  | ResponseEnd => settled_with (client_outcome (reply_of c)) c
  | ResponseError | RequestError => settled_with (Err SandboxCleanupError) c
  | RequestClose =>
      mkCall (ca_status c) (ca_bytes c) (ca_chunks c) (ca_outcome c) true (ca_destroyed c) false (ca_until c) (ca_cancel c)
  | Deadline => if ca_finished c then c else destroyed c
  | Abort now =>
      if ca_listening c
      then mkCall (ca_status c) (ca_bytes c) (ca_chunks c) (ca_outcome c) (ca_finished c) (ca_destroyed c) false (now + 5000) C_sent
      else c
  | CancelReply status now =>
      if negb (bool_decide (ca_cancel c = C_sent)) then c else
      if (status =? 409) && (now <? ca_until c) && negb (ca_finished c) then with_cancel C_waiting c
      else if negb (status =? 200) && negb (ca_finished c) then with_cancel C_over (destroyed c)
      else with_cancel (if status =? 200 then C_acknowledged else C_over) c
  | CancelError =>
      if bool_decide (ca_cancel c = C_none) then c else
      with_cancel (if bool_decide (ca_cancel c = C_sent) then C_over else ca_cancel c)
        (if ca_finished c then c else destroyed c)
  | CancelRetry =>
      if negb (bool_decide (ca_cancel c = C_waiting)) then c else
      with_cancel (if ca_finished c then C_over else C_sent) c
  end.
Definition call_run : Call → list CallEvent → Call := foldl call_step.

(** The events that end a response or a request. *)
Definition ending (e : CallEvent) : bool :=
  match e with ResponseEnd | ResponseError | RequestError => true | _ => false end.
(** What [node:http] promises: a request closes only after its response has ended or failed, or the
    request itself has failed. *)
Definition closes_late (es : list CallEvent) : Prop :=
  ∀ pre post, es = pre ++ RequestClose :: post → existsb ending pre = true.

Lemma call_run_app c es es' : call_run c (es ++ es') = call_run (call_run c es) es'.
Proof. apply foldl_app. Qed.

(** *** Settling *)

Lemma step_keeps c e r : ca_outcome c = Some r → ca_outcome (call_step c e) = Some r.
Proof.
  intros Hr. destruct e; cbn [call_step]; repeat case_match; cbn; try done; rewrite Hr; done.
Qed.
Lemma call_keeps c es r : ca_outcome c = Some r → ca_outcome (call_run c es) = Some r.
Proof. revert c. induction es as [|e es IH]; intros c Hr; [done|]. by apply IH, step_keeps. Qed.
Lemma ending_settles c e : ending e = true → is_Some (ca_outcome (call_step c e)).
Proof. destruct e; try done; intros _; cbn; destruct (ca_outcome c); eauto. Qed.

(** How a call may have settled: nothing is known of the sandbox, or the whole reply is there. *)
Definition from_reply (es : list CallEvent) (r : result JudgeObservation) : Prop :=
  ∃ pre post, es = pre ++ ResponseEnd :: post ∧ ca_outcome (call_run call0 pre) = None
    ∧ size (ca_chunks (call_run call0 pre)) ≤ REPLY_LIMIT ∧ r = client_outcome (reply_of (call_run call0 pre)).

Lemma bytes_counted es :
  let c := call_run call0 es in size (ca_chunks c) ≤ ca_bytes c ∧ size (ca_chunks c) ≤ REPLY_LIMIT.
Proof.
  induction es as [|e es IH] using rev_ind; [done|]. rewrite call_run_app. cbn [call_run foldl].
  set (c := call_run call0 es) in *. cbv zeta in *.
  destruct e as [| bytes| | | | | | | | |]; cbn [call_step]; repeat case_match;
    cbn [ca_chunks ca_bytes settled_with destroyed with_cancel received]; try done.
  - unfold size in *. lia.
  - rewrite size_app. lia.
Qed.
Lemma chunks_bounded es : size (ca_chunks (call_run call0 es)) ≤ REPLY_LIMIT.
Proof. apply bytes_counted. Qed.

Lemma settles_how es r :
  ca_outcome (call_run call0 es) = Some r → r = Err SandboxCleanupError ∨ from_reply es r.
Proof.
  induction es as [|e es IH] using rev_ind; [done|]. rewrite call_run_app. cbn [call_run foldl].
  destruct (ca_outcome (call_run call0 es)) as [o|] eqn:Eo.
  - rewrite (step_keeps _ e o Eo). intros [= <-]. destruct (IH eq_refl) as [?|(pre & post & -> & Hx)]; [by left|right].
    exists pre, (post ++ [e]). split; [by rewrite <- app_assoc|exact Hx].
  - destruct e; cbn [call_step]; repeat case_match; cbn [ca_outcome settled_with destroyed with_cancel received]; rewrite ?Eo; try done;
      intros [= <-]; auto.
    right. exists es, []. split_and!; [done|done|apply chunks_bounded|done].
Qed.

Lemma closed_is_settled es :
  closes_late es → ca_finished (call_run call0 es) = true → is_Some (ca_outcome (call_run call0 es)).
Proof.
  intros Hl Hf.
  assert (∃ pre post, es = pre ++ RequestClose :: post) as (pre & post & E).
  { clear Hl. induction es as [|e es IH] using rev_ind; [done|]. rewrite call_run_app in Hf. cbn [call_run foldl] in Hf.
    destruct (ca_finished (call_run call0 es)) eqn:E.
    - destruct (IH eq_refl) as (pre & post & ->). exists pre, (post ++ [e]). by rewrite <- app_assoc.
    - destruct e; cbn [call_step] in Hf; repeat case_match; cbn in Hf; try congruence. by exists es, []. }
  specialize (Hl pre post E). apply existsb_exists in Hl as (e & He & Hend). apply list_elem_of_In, list_elem_of_split in He as (a & b & ->).
  subst es. rewrite <- !app_assoc, call_run_app. cbn [app]. change (e :: b ++ ?x) with ([e] ++ (b ++ x)). rewrite call_run_app.
  destruct (ending_settles (call_run call0 a) e Hend) as [r Hr]. exists r. apply call_keeps. exact Hr.
Qed.

(** *** Cancelling *)

Definition pursued (c : Call) : Prop :=
  ca_finished c = true ∨ ca_destroyed c = true ∨ ca_cancel c = C_sent ∨ ca_cancel c = C_waiting ∨ ca_cancel c = C_acknowledged.
Lemma pursued_step c e : ca_listening c = false → pursued c → ca_listening (call_step c e) = false ∧ pursued (call_step c e).
Proof.
  unfold pursued. intros Hl Hp.
  destruct e; cbn [call_step]; rewrite ?Hl; repeat case_match; cbn [settled_with destroyed with_cancel received ca_finished ca_destroyed ca_cancel ca_listening];
    try tauto; (split; [done|]);
    repeat match goal with
    | H : negb _ = false |- _ => apply negb_false_iff in H
    | H : bool_decide _ = true |- _ => apply bool_decide_eq_true in H
    end; try tauto.
  all: destruct (ca_finished c) eqn:Ef; [by left|]; try tauto.
  done.
Qed.
Lemma pursued_run c es : ca_listening c = false → pursued c → pursued (call_run c es).
Proof.
  revert c. induction es as [|e es IH]; intros c Hl Hp; [done|]. cbn. apply IH; by apply pursued_step.
Qed.

(** C25: what a call of the runner's client can end in, whatever its connection, its deadlines and the abort
    signal do and in whatever order.  Its promise never changes once settled; it settles with an
    observation or a recoverable error only from a whole reply of at most 2 MiB, read before anything
    else settled it, and with [SandboxCleanupError] otherwise; when the request has closed it has
    settled; and from an abort on, until the request has closed or is destroyed, a cancellation is on its
    way, due to be sent again, or acknowledged by the server. *)
Theorem call_accountable es :
  (∀ r es', ca_outcome (call_run call0 es) = Some r →
     ca_outcome (call_run call0 (es ++ es')) = Some r ∧ (r = Err SandboxCleanupError ∨ from_reply es r))
  ∧ (closes_late es → ca_finished (call_run call0 es) = true → is_Some (ca_outcome (call_run call0 es)))
  ∧ (∀ now es', ca_listening (call_run call0 es) = true → pursued (call_run call0 (es ++ Abort now :: es'))).
Proof.
  split_and!.
  - intros r es' Hr. split; [|by apply settles_how]. rewrite call_run_app. by apply call_keeps.
  - apply closed_is_settled.
  - intros now es' Hl. rewrite call_run_app. cbn [call_run foldl call_step]. rewrite Hl.
    apply pursued_run; [done|]. right. right. by left.
Qed.
End Client.
