(* ===== verification/Database.v ===== *)
(** * The durable state: PostgreSQL tables of the execution pipeline

    The tables and columns the execution services read and write ([prisma/schema.prisma]), the
    constraints the migrations put on them (the [protect_execution_lifecycle] trigger, the
    CHECKs, the unique keys), and the Prisma calls the services make, as operations of the
    transaction monad.  A row is identified by its primary or unique key.  Timestamps are
    milliseconds since the epoch. *)

From S2P Require Import Prelude JsText Contracts Judge.
Local Open Scope Z_scope.

Abbreviation uuid := jsstr.

(** ** Rows *)

(** The columns of [Execution] that the lifecycle trigger freezes after insertion. *)
Record Request := mkRequest {
  x_id : uuid; x_userId : uuid; x_problemVersionId : uuid; x_competitionRoundId : option uuid;
  x_language : Language; x_mode : ExecutionMode; x_sourceCode : jsstr; x_payloadHash : jsstr;
  x_idempotencyKey : jsstr; x_createdAt : Z; x_queueExpiresAt : Z
}.
Record Execution := mkExecution {
  e_req : Request;
  e_state : ExecutionState; e_verdict : option Verdict; e_attempt : Z; e_lastSequence : Z;
  e_leaseToken : option uuid; e_leaseExpiresAt : option Z;
  e_runtimeMs : option Z; e_memoryKiB : option Z; e_publicResults : option (list PublicCaseResult);
  e_finishedAt : option Z; e_failureCode : option ExecutionFailureCode;
  e_cancellationRequestedAt : option Z
}.
Definition e_id (e : Execution) : uuid := x_id (e_req e).
Definition e_mode (e : Execution) : ExecutionMode := x_mode (e_req e).
Definition e_queueExpiresAt (e : Execution) : Z := x_queueExpiresAt (e_req e).

#[export] Instance PublicCaseResult_eq_dec : EqDecision PublicCaseResult. Proof. solve_decision. Defined.
#[export] Instance Request_eq_dec : EqDecision Request. Proof. solve_decision. Defined.
#[export] Instance Execution_eq_dec : EqDecision Execution. Proof. solve_decision. Defined.

Record EventRow := mkEventRow {
  ev_executionId : uuid; ev_attempt : Z; ev_sequence : Z; ev_kind : EventKind;
  ev_payload : json; ev_bytes : Z; ev_expiresAt : Z
}.
Definition ev_key (e : EventRow) : uuid * Z * Z := (ev_executionId e, ev_attempt e, ev_sequence e).

Inductive OutboxKind := EXECUTION_CREATED | EXECUTION_RECOVERY | EXECUTION_CANCELLED | EXECUTION_EXPIRED.
#[export] Instance OutboxKind_eq_dec : EqDecision OutboxKind. Proof. solve_decision. Defined.

Record OutboxRow := mkOutboxRow {
  o_executionId : uuid; o_kind : OutboxKind; o_generation : Z;
  o_createdAt : Z; o_publishedAt : option Z; o_dispatchToken : option uuid;
  o_dispatchExpiresAt : option Z; o_nextDispatchAt : Z; o_dispatchAttempts : Z
}.
Definition o_key (o : OutboxRow) : uuid * OutboxKind * Z := (o_executionId o, o_kind o, o_generation o).

Record Notification := mkNotification {
  n_userId : uuid; n_kind : string; n_title : jsstr; n_body : jsstr; n_href : jsstr;
  n_dedupeKey : jsstr; n_readAt : option Z; n_createdAt : Z
}.

Record ProblemVersion := mkProblemVersion {
  pv_problemId : uuid; pv_title : jsstr; pv_published : bool; pv_comparator : string;
  pv_timeMs : Z; pv_memoryKiB : Z; pv_testCases : list JudgeCase
}.
Record Problem := mkProblem { p_slug : jsstr; p_currentVersionId : option uuid }.
Record User := mkUser { u_productNotifications : bool }.
Record CompetitionRound := mkRound {
  cr_id : uuid; cr_startsAt : Z; cr_endsAt : Z; cr_problemIds : list uuid
}.
Record Competition := mkCompetition {
  c_id : uuid; c_slug : jsstr; c_published : bool; c_startsAt : Z; c_endsAt : Z;
  c_registrations : list uuid; c_rounds : list CompetitionRound
}.
Record RateRow := mkRateRow { rl_count : Z; rl_expiresAt : Z }.

Record db := mkDb {
  executions : gmap uuid Execution;
  events : list EventRow;
  outbox : list OutboxRow;
  notifications : list Notification;
  rateLimits : gmap jsstr RateRow;
  problemVersions : gmap uuid ProblemVersion;
  problems : gmap uuid Problem;
  users : gmap uuid User;
  competitions : list Competition
}.
Definition set_executions (f : gmap uuid Execution → gmap uuid Execution) (d : db) : db :=
  mkDb (f (executions d)) (events d) (outbox d) (notifications d) (rateLimits d)
    (problemVersions d) (problems d) (users d) (competitions d).
Definition set_events (f : list EventRow → list EventRow) (d : db) : db :=
  mkDb (executions d) (f (events d)) (outbox d) (notifications d) (rateLimits d)
    (problemVersions d) (problems d) (users d) (competitions d).
Definition set_outbox (f : list OutboxRow → list OutboxRow) (d : db) : db :=
  mkDb (executions d) (events d) (f (outbox d)) (notifications d) (rateLimits d)
    (problemVersions d) (problems d) (users d) (competitions d).
Definition set_notifications (f : list Notification → list Notification) (d : db) : db :=
  mkDb (executions d) (events d) (outbox d) (f (notifications d)) (rateLimits d)
    (problemVersions d) (problems d) (users d) (competitions d).
Definition set_rateLimits (f : gmap jsstr RateRow → gmap jsstr RateRow) (d : db) : db :=
  mkDb (executions d) (events d) (outbox d) (notifications d) (f (rateLimits d))
    (problemVersions d) (problems d) (users d) (competitions d).

(** The clock readings of one transaction: [now] is [clock_timestamp()] in the locking SELECT,
    [trigNow] the one in the lifecycle trigger, [evNow] the [Date.now()] of [event], [finNow]
    the [new Date()] of a terminal update, [insNow] the default of an inserted row. *)
Record Clock := mkClock { now : Z; trigNow : Z; evNow : Z; finNow : Z; insNow : Z }.

(** ** Three-valued SQL conditions *)

Abbreviation sql_bool := (option bool).
Definition s_and (a b : sql_bool) : sql_bool :=
  match a, b with
  | Some false, _ | _, Some false => Some false
  | Some true, Some true => Some true
  | _, _ => None
  end.
Definition s_not (a : sql_bool) : sql_bool := negb <$> a.
Definition s_or (a b : sql_bool) : sql_bool := s_not (s_and (s_not a) (s_not b)).
Definition s_lit (b : bool) : sql_bool := Some b.
Definition s_le (a : option Z) (b : Z) : sql_bool := (λ x, x <=? b) <$> a.
Definition s_ne {A} `{EqDecision A} (a b : option A) : sql_bool :=
  match a, b with Some x, Some y => Some (negb (bool_decide (x = y))) | _, _ => None end.
Definition distinct {A} `{EqDecision A} (a b : A) : sql_bool := Some (negb (bool_decide (a = b))).
(** [IF condition THEN RAISE]: NULL does not raise. *)
Definition raises (c : sql_bool) : bool := bool_decide (c = Some true).

(** ** The lifecycle trigger and the CHECK constraints *)

Definition state_in (l : list ExecutionState) (s : ExecutionState) : sql_bool :=
  s_lit (bool_decide (s ∈ l)).

Definition graph_ok (tnow : Z) (old new : Execution) : sql_bool :=
  s_or (s_and (state_in [QUEUED] (e_state old)) (state_in [COMPILING; CANCELLED; INTERNAL_ERROR] (e_state new)))
  (s_or (s_and (state_in [COMPILING] (e_state old)) (state_in [RUNNING; FINISHED; CANCELLED; INTERNAL_ERROR] (e_state new)))
  (s_or (s_and (state_in [RUNNING] (e_state old)) (state_in [FINISHED; CANCELLED; INTERNAL_ERROR] (e_state new)))
        (s_and (state_in [RUNNING] (e_state old)) (s_and (state_in [COMPILING] (e_state new))
          (s_and (s_le (e_leaseExpiresAt old) tnow)
            (s_and (s_lit (e_attempt new =? e_attempt old + 1))
                   (distinct (e_leaseToken new) (e_leaseToken old)))))))).

Definition lease_replacement_ok (tnow : Z) (old new : Execution) : sql_bool :=
  s_and (state_in [COMPILING; RUNNING] (e_state old))
  (s_and (s_le (e_leaseExpiresAt old) tnow)
  (s_and (state_in [COMPILING] (e_state new))
  (s_and (s_lit (e_attempt new =? e_attempt old + 1)) (s_ne (e_leaseToken new) (e_leaseToken old))))).

Definition protect_execution_lifecycle (tnow : Z) (old new : Execution) : option string :=
  if raises (distinct (e_req new) (e_req old))
  then Some "execution request and version snapshot are immutable" else
  if raises (s_and (s_lit (bool_decide (is_Some (e_cancellationRequestedAt old))))
                   (distinct (e_cancellationRequestedAt new) (e_cancellationRequestedAt old)))
  then Some "cancellation request is immutable" else
  if raises (s_and (s_lit (bool_decide (is_Some (e_leaseToken old))))
            (s_and (s_lit (bool_decide (is_Some (e_leaseToken new))))
            (s_and (distinct (e_leaseToken new, e_attempt new) (e_leaseToken old, e_attempt old))
                   (s_not (lease_replacement_ok tnow old new)))))
  then Some "lease replacement requires expired authority and a new attempt" else
  if raises (s_and (state_in [FINISHED; CANCELLED; INTERNAL_ERROR] (e_state old)) (distinct new old))
  then Some "terminal executions are immutable" else
  if raises (s_and (distinct (e_state new) (e_state old)) (s_not (graph_ok tnow old new)))
  then Some "invalid execution state transition" else
  if raises (s_or (s_lit (e_attempt new <? e_attempt old))
                  (s_and (s_lit (e_attempt new =? e_attempt old))
                         (s_lit (e_lastSequence new <? e_lastSequence old))))
  then Some "execution attempt and sequence cannot regress" else
  if raises (s_and (s_lit (bool_decide (e_failureCode new = Some QUEUE_TIMEOUT)))
                   (s_not (s_and (state_in [QUEUED] (e_state old)) (state_in [INTERNAL_ERROR] (e_state new)))))
  then Some "queue timeout requires queued execution" else None.

(** [valid_execution_terminal_fields]. *)
Definition terminal_fields_ok (e : Execution) : bool :=
  match e_state e with
  | QUEUED | COMPILING | RUNNING =>
      bool_decide (e_verdict e = None) && bool_decide (e_finishedAt e = None)
      && bool_decide (e_failureCode e = None)
  | FINISHED =>
      match e_verdict e with
      | None | Some VCANCELLED | Some VINTERNAL_ERROR => false
      | Some _ => true
      end && bool_decide (is_Some (e_finishedAt e)) && bool_decide (e_failureCode e = None)
  | CANCELLED =>
      bool_decide (e_verdict e = Some VCANCELLED) && bool_decide (is_Some (e_finishedAt e))
      && bool_decide (e_failureCode e = None)
  | INTERNAL_ERROR =>
      bool_decide (e_verdict e = Some VINTERNAL_ERROR) && bool_decide (is_Some (e_finishedAt e))
  end.
(** [valid_execution_counters], [valid_queue_deadline], [valid_execution_lease_pair]. *)
Definition counters_ok (e : Execution) : bool := (0 <=? e_attempt e) && (0 <=? e_lastSequence e).
Definition queue_deadline_ok (e : Execution) : bool := x_createdAt (e_req e) <? x_queueExpiresAt (e_req e).
Definition lease_pair_ok (e : Execution) : bool :=
  match e_leaseToken e, e_leaseExpiresAt e with
  | None, None => true
  | Some _, Some _ => bool_decide (e_state e ∈ [COMPILING; RUNNING])
  | _, _ => false
  end.
(** [source_byte_cap], [nonnegative_metrics], [private_submit_results]. *)
Definition source_cap_ok (e : Execution) : bool :=
  (1 <=? byteLength (x_sourceCode (e_req e))) && (byteLength (x_sourceCode (e_req e)) <=? 65536).
Definition metrics_ok (e : Execution) : bool :=
  opt_check (λ n, 0 <=? n) (e_runtimeMs e) && opt_check (λ n, 0 <=? n) (e_memoryKiB e).
Definition private_results_ok (e : Execution) : bool :=
  bool_decide (e_mode e = RUN) || bool_decide (e_publicResults e = None).
Definition execution_checks (e : Execution) : bool :=
  terminal_fields_ok e && counters_ok e && queue_deadline_ok e && lease_pair_ok e
  && source_cap_ok e && metrics_ok e && private_results_ok e.

(** The INTEGER columns of a row are 32 bits wide.  (An event row has the attempt and sequence of
    the execution row that the same transaction writes.) *)
Definition INT4_MAX : Z := 2147483647.
Definition int4 (n : Z) : bool := (- INT4_MAX - 1 <=? n) && (n <=? INT4_MAX).
Definition metrics_int4 (e : Execution) : bool :=
  opt_check int4 (e_runtimeMs e) && opt_check int4 (e_memoryKiB e).
Definition row_int4 (e : Execution) : bool :=
  int4 (e_attempt e) && int4 (e_lastSequence e) && metrics_int4 e.
Definition row_storable (e : Execution) : bool := row_int4 e && execution_checks e.

(** ** Prisma operations *)

(** [tx.execution.update({where:{id},data})], through the trigger and the CHECKs. *)
Definition execution_update (tnow : Z) (id : uuid) (data : Execution → Execution) : tx db Execution :=
  λ d, match executions d !! id with
       | None => Err (DbError "P2025")
       | Some old =>
           match protect_execution_lifecycle tnow old (data old) with
           | Some m => Err (DbError m)
           | None =>
               if negb (row_int4 (data old)) then Err (DbError "22003") else
               if execution_checks (data old)
               then Ok (data old, set_executions (<[id := data old]>) d)
               else Err (DbError "23514")
           end
       end.

(** [tx.execution.create], with the INSERT branch of the trigger. *)
Definition execution_create (e : Execution) : tx db Execution :=
  λ d, if bool_decide (is_Some (executions d !! e_id e))
          || existsb (λ p, bool_decide (x_userId (e_req p.2) = x_userId (e_req e))
                       && bool_decide (x_idempotencyKey (e_req p.2) = x_idempotencyKey (e_req e)))
               (map_to_list (executions d))
       then Err (DbError "P2002") else
       if negb (bool_decide (e_state e = QUEUED)) then Err (DbError "executions must start queued") else
       if negb (match problemVersions d !! x_problemVersionId (e_req e) with
                | Some v => pv_published v | None => false end)
       then Err (DbError "execution version must be published") else
       if negb (row_int4 e) then Err (DbError "22003") else
       if negb (execution_checks e) then Err (DbError "23514") else
       Ok (e, set_executions (<[e_id e := e]>) d).

Definition event_row_check (r : EventRow) : bool :=
  (0 <=? ev_attempt r) && (0 <? ev_sequence r) && (0 <? ev_bytes r) && (ev_bytes r <=? 16384).
Definition event_create (r : EventRow) : tx db unit :=
  λ d, if existsb (λ e, bool_decide (ev_key e = ev_key r)) (events d) then Err (DbError "P2002") else
       if negb (event_row_check r) then Err (DbError "23514") else
       Ok (tt, set_events (λ l, l ++ [r]) d).

Definition rows_of (id : uuid) (l : list EventRow) : list EventRow :=
  filter (λ e, ev_executionId e = id) l.

(** [orderBy:[{attempt:'desc'},{sequence:'desc'}]]. *)
Definition newer_first (a b : EventRow) : Prop :=
  ev_attempt b < ev_attempt a ∨ ev_attempt b = ev_attempt a ∧ ev_sequence b ≤ ev_sequence a.
#[export] Instance newer_first_dec : RelDecision newer_first.
Proof. intros a b. unfold newer_first. apply _. Defined.

Definition event_delete_keys (ks : list (uuid * Z * Z)) : tx db unit :=
  modify (set_events (filter (λ e, ev_key e ∉ ks))).
Definition event_delete_execution (id : uuid) : tx db unit :=
  modify (set_events (filter (λ e, ev_executionId e ≠ id))).

Definition outbox_has (k : uuid * OutboxKind * Z) (l : list OutboxRow) : bool :=
  existsb (λ o, bool_decide (o_key o = k)) l.
Definition new_outbox (id : uuid) (k : OutboxKind) (g : Z) (t : Z) : OutboxRow :=
  mkOutboxRow id k g t None None None t 0.
Definition outbox_create (r : OutboxRow) : tx db unit :=
  λ d, if outbox_has (o_key r) (outbox d) then Err (DbError "P2002")
       else Ok (tt, set_outbox (λ l, l ++ [r]) d).
(** [tx.outboxEvent.upsert]. *)
Definition outbox_upsert (r : OutboxRow) (update : OutboxRow → OutboxRow) : tx db unit :=
  modify (set_outbox (λ l,
    if outbox_has (o_key r) l
    then (λ o, if bool_decide (o_key o = o_key r) then update o else o) <$> l
    else l ++ [r])).

(** ** The result-notification function (SECURITY DEFINER SQL) *)

Definition lower_unit (u : Z) : Z := if is_upper u then u + 32 else u.
Definition verdict_words (v : Verdict) : jsstr :=
  (λ u, lower_unit (if u =? 95 then 32 else u)) <$> js (enum_name v).

Definition create_execution_result_notification
    (t : Z) (execution_id : uuid) (attempt : Z) (token : uuid) (v : Verdict) : tx db unit :=
  λ d, if bool_decide (v = VCANCELLED) then Err (DbError "invalid execution notification verdict") else
  Ok (tt,
    match executions d !! execution_id with
    | None => d
    | Some e =>
        match users d !! x_userId (e_req e), problemVersions d !! x_problemVersionId (e_req e) with
        | Some u, Some pv =>
            match problems d !! pv_problemId pv with
            | Some p =>
                if bool_decide (e_mode e = SUBMIT) && bool_decide (e_state e ∈ [COMPILING; RUNNING])
                   && (e_attempt e =? attempt) && bool_decide (e_leaseToken e = Some token)
                   && u_productNotifications u
                then
                  let n := mkNotification (x_userId (e_req e)) "EXECUTION_RESULT" (js "Submission judged")
                             (pv_title pv ++ js ": " ++ verdict_words v ++ js ".")
                             (js "/problems/" ++ p_slug p ++ js "?tab=submissions")
                             (js "execution:" ++ e_id e ++ js ":result") None t in
                  set_notifications (λ l,
                    if existsb (λ m, bool_decide (n_userId m = n_userId n)
                                  && bool_decide (n_dedupeKey m = n_dedupeKey n)) l
                    then l else l ++ [n]) d
                else d
            | None => d
            end
        | _, _ => d
        end
    end).
