(* ===== verification/Serialization.v ===== *)
(** * Public serialization of executions ([apps/api/src/executions/serialization.ts])

    [publicSnapshot] projects a stored execution to what its owner may see. *)

From S2P Require Import Prelude JsText Contracts Judge Database.
Local Open Scope Z_scope.

(** [ExecutionSnapshot] of the contracts. *)
Record ExecutionSnapshot := mkSnapshot {
  es_executionId : uuid; es_problemId : uuid; es_language : Language; es_mode : ExecutionMode;
  es_state : ExecutionState; es_attempt : Z; es_lastSequence : Z;
  es_cancellationRequested : option bool; es_verdict : option Verdict;
  es_runtimeMs : option Z; es_memoryKiB : option Z; es_failureCode : option ExecutionFailureCode;
  es_publicCaseResults : option (list PublicCaseResult)
}.

(** The refinements of [publicResultsSchema] on a stored result. *)
Definition storedResult_ok (r : PublicCaseResult) : bool :=
  opt_check safe_int (pr_exitCode r) && opt_check (Z.leb 0) (pr_runtimeMs r)
  && opt_check (Z.leb 0) (pr_memoryKiB r).

(** [row.problemVersion]: its problem and, where the query selected them, the ids of its public
    test cases. *)
Definition publicSnapshot (row : Execution) (problemId : uuid) (testCases : option (list uuid))
    : result ExecutionSnapshot :=
  let dto := mkSnapshot (e_id row) problemId (x_language (e_req row)) (e_mode row) (e_state row)
    (e_attempt row) (e_lastSequence row)
    (if bool_decide (is_Some (e_cancellationRequestedAt row)) then Some true else None)
    (e_verdict row) (e_runtimeMs row) (e_memoryKiB row) (e_failureCode row) in
  match e_mode row, e_publicResults row with
  | RUN, Some results =>
      if negb (forallb storedResult_ok results) then Err ZodError else
      let publicIds := default [] testCases in
      Ok (dto (Some (filter (λ r, pr_caseId r ∈ publicIds) results)))
  | _, _ => Ok (dto None)
  end.

Lemma publicSnapshot_id row problemId testCases s :
  publicSnapshot row problemId testCases = Ok s → es_executionId s = e_id row.
Proof. unfold publicSnapshot. repeat case_match; intros; by simplify_eq. Qed.

(** The case results of a snapshot. *)
Definition shown_results (s : ExecutionSnapshot) : list PublicCaseResult :=
  default [] (es_publicCaseResults s).

(** A snapshot shows a stored case result exactly when the execution is a RUN and the case
    is one of the selected public test cases: whatever was stored, results of hidden cases and
    results of a SUBMIT never leave the serialization boundary, and no public result is lost. *)
Lemma publicSnapshot_private row problemId testCases s :
  publicSnapshot row problemId testCases = Ok s →
  ∀ r, r ∈ shown_results s ↔
    e_mode row = RUN ∧ r ∈ default [] (e_publicResults row) ∧ pr_caseId r ∈ default [] testCases.
Proof.
  unfold publicSnapshot, shown_results. intros E r.
  destruct (e_mode row), (e_publicResults row) as [rs|]; simplify_eq/=;
    try (destruct (negb _); simplify_eq/=; rewrite list_elem_of_filter); set_solver.
Qed.

Definition sample_request : Request :=
  mkRequest [1] [2] [3] None python RUN [97] [] [] 0 10.
Definition sample_row : Execution :=
  mkExecution sample_request FINISHED (Some ACCEPTED) 1 2 None None (Some 5) None
    (Some [mkCaseResult [7] ACCEPTED None (Some [97]) None None None None;
           mkCaseResult [8] ACCEPTED None (Some [98]) None None None None]) (Some 5) None None.

