(* ===== verification/JobStore.v ===== *)
(** * The job store ([apps/api/src/executions/job-store.ts])

    Leases, fenced worker mutations, cancellation, replay and maintenance: every method of
    [JobStore] as a transaction on the database, and the queued-job expiry of
    [queued-maintenance.ts]. *)

From S2P Require Import Prelude Paging JsText Contracts Judge Database Serialization.
Local Open Scope Z_scope.

Definition LEASE_MS : Z := 30000.
Definition CANCEL_GRACE_MS : Z := 15000.
Definition MAX_ATTEMPTS : Z := 3.
Definition REPLAY_ROWS : nat := 256.
Definition REPLAY_BYTES : Z := 256 * 1024.
Definition REPLAY_TTL_MS : Z := 600000.

Record Lease := mkLease { l_executionId : uuid; l_attempt : Z; l_token : uuid }.
Inductive Renewal := ACTIVE | CANCEL | LOST.

(** The two states [terminal] writes, with their verdicts. *)
Inductive TerminalKind := T_INTERNAL_ERROR | T_CANCELLED.
Definition tk_state (k : TerminalKind) : ExecutionState :=
  match k with T_INTERNAL_ERROR => INTERNAL_ERROR | T_CANCELLED => CANCELLED end.
Definition tk_verdict (k : TerminalKind) : Verdict :=
  match k with T_INTERNAL_ERROR => VINTERNAL_ERROR | T_CANCELLED => VCANCELLED end.

(** ** The [data] objects of the updates *)

Definition data_terminal (k : TerminalKind) (failureCode : option ExecutionFailureCode)
    (finishedAt seq : Z) (e : Execution) : Execution :=
  mkExecution (e_req e) (tk_state k) (Some (tk_verdict k)) (e_attempt e) seq None None
    (e_runtimeMs e) (e_memoryKiB e) (e_publicResults e) (Some finishedAt) failureCode
    (e_cancellationRequestedAt e).
Definition data_claim (attempt seq : Z) (token : uuid) (expires : Z) (e : Execution) : Execution :=
  mkExecution (e_req e) COMPILING (e_verdict e) attempt seq (Some token) (Some expires)
    (e_runtimeMs e) (e_memoryKiB e) (e_publicResults e) (e_finishedAt e) (e_failureCode e)
    (e_cancellationRequestedAt e).
Definition data_lease (expires : Z) (e : Execution) : Execution :=
  mkExecution (e_req e) (e_state e) (e_verdict e) (e_attempt e) (e_lastSequence e)
    (e_leaseToken e) (Some expires) (e_runtimeMs e) (e_memoryKiB e) (e_publicResults e)
    (e_finishedAt e) (e_failureCode e) (e_cancellationRequestedAt e).
Definition data_progress (state : ExecutionState) (seq : Z) (e : Execution) : Execution :=
  mkExecution (e_req e) state (e_verdict e) (e_attempt e) seq (e_leaseToken e)
    (e_leaseExpiresAt e) (e_runtimeMs e) (e_memoryKiB e) (e_publicResults e) (e_finishedAt e)
    (e_failureCode e) (e_cancellationRequestedAt e).
Definition data_cancel (at_ seq : Z) (e : Execution) : Execution :=
  mkExecution (e_req e) (e_state e) (e_verdict e) (e_attempt e) seq (e_leaseToken e)
    (e_leaseExpiresAt e) (e_runtimeMs e) (e_memoryKiB e) (e_publicResults e) (e_finishedAt e)
    (e_failureCode e) (Some at_).
Definition keep {A} (new old : option A) : option A := match new with Some _ => new | None => old end.
Definition data_finish (v : Verdict) (runtimeMs memoryKiB : option Z)
    (results : option (list PublicCaseResult)) (finishedAt seq : Z) (e : Execution) : Execution :=
  mkExecution (e_req e) FINISHED (Some v) (e_attempt e) seq None None
    (keep runtimeMs (e_runtimeMs e)) (keep memoryKiB (e_memoryKiB e))
    (keep results (e_publicResults e)) (Some finishedAt) (e_failureCode e)
    (e_cancellationRequestedAt e).

Definition deadline (row : Execution) : Z := e_queueExpiresAt row + 600000.

(** The authority test of a worker mutation, at the database time [t]. *)
Definition valid (t : Z) (row : Execution) (lease : Lease) : bool :=
  negb (isTerminal (e_state row)) && negb (bool_decide (e_state row = QUEUED))
  && (e_attempt row =? l_attempt lease) && bool_decide (e_leaseToken row = Some (l_token lease))
  && match e_leaseExpiresAt row with Some x => t <? x | None => false end
  && (t <? deadline row).

Definition locked (id : uuid) : tx db (option Execution) := gets (λ d, executions d !! id).

(** The rows the retention loop of [event] discards from the newest-first list. *)
Fixpoint discard_loop (i : nat) (total : Z) (l : list EventRow) : list EventRow :=
  match l with
  | [] => []
  | e :: l' =>
      let total' := total + ev_bytes e in
      (if (REPLAY_ROWS <=? i)%nat || (REPLAY_BYTES <? total') then [e] else [])
      ++ discard_loop (S i) total' l'
  end.

Definition caseResult_json (r : PublicCaseResult) : json :=
  JObj ([("caseId", JStr (pr_caseId r)); ("verdict", enum_json (pr_verdict r))]
    ++ opt_field "outputTruncated" (JBool <$> pr_outputTruncated r)
    ++ opt_field "stdout" (JStr <$> pr_stdout r) ++ opt_field "stderr" (JStr <$> pr_stderr r)
    ++ opt_field "exitCode" (JNum <$> pr_exitCode r) ++ opt_field "runtimeMs" (JNum <$> pr_runtimeMs r)
    ++ opt_field "memoryKiB" (JNum <$> pr_memoryKiB r)).
Definition result_json (r : JudgedResult) : json :=
  JObj ([("verdict", enum_json (jr_verdict r))] ++ opt_field "runtimeMs" (JNum <$> jr_runtimeMs r)
    ++ opt_field "memoryKiB" (JNum <$> jr_memoryKiB r)
    ++ opt_field "publicCaseResults" ((λ l, JArr (caseResult_json <$> l)) <$> jr_publicCaseResults r)).

Definition learner_verdict (v : Verdict) : bool :=
  negb (bool_decide (v ∈ [VCANCELLED; VINTERNAL_ERROR])).

(** The public test cases of a version. *)
Definition public_cases (d : db) (versionId : uuid) : list JudgeCase :=
  match problemVersions d !! versionId with
  | Some v => filter (λ c, jc_visibility c = PUBLIC) (pv_testCases v)
  | None => []
  end.

Section JobStore.
Context `{Zod} (stripVT : jsstr → jsstr).

Definition caseResult_ok (r : PublicCaseResult) : bool :=
  z_uuid (pr_caseId r) && learner_verdict (pr_verdict r) && opt_check safe_int (pr_exitCode r)
  && opt_check nonneg_int (pr_runtimeMs r) && opt_check nonneg_int (pr_memoryKiB r).
Definition resultSchema (r : JudgedResult) : bool :=
  learner_verdict (jr_verdict r) && opt_check nonneg_int (jr_runtimeMs r)
  && opt_check nonneg_int (jr_memoryKiB r)
  && opt_check (λ l, forallb caseResult_ok l && (length l <=? 100)%nat) (jr_publicCaseResults r).

Definition notifyExecution (c : Clock) (row : Execution) (v : Verdict) : tx db unit :=
  match e_leaseToken row with
  | Some token =>
      if negb (bool_decide (e_mode row = SUBMIT)) || bool_decide (v = VCANCELLED) then mret tt
      else create_execution_result_notification (insNow c) (e_id row) (e_attempt row) token v
  | None => mret tt
  end.

(** [event]: append one public event under the row lock and trim the replay window. *)
Definition event (c : Clock) (row : Execution) (fields : EventFields) : tx db Z :=
  let sequence := e_lastSequence row + 1 in
  let payload := mkEvent (e_id row) (e_attempt row) sequence fields in
  if negb (event_ok payload) then throw ZodError else
  let bytes := byteLength (stringify (event_json payload)) in
  if 16384 <? bytes then throw (JsError "PUBLIC_EVENT_TOO_LARGE") else
  _ ← event_create (mkEventRow (e_id row) (e_attempt row) sequence (event_kind fields)
                      (event_json payload) bytes (evNow c + REPLAY_TTL_MS));
  found ← gets (λ d, merge_sort newer_first (rows_of (e_id row) (events d)));
  _ ← event_delete_keys (ev_key <$> discard_loop 0 0 found);
  mret sequence.

Definition terminal (c : Clock) (row : Execution) (k : TerminalKind)
    (failureCode : option ExecutionFailureCode) : tx db unit :=
  seq ← event c row (final_verdict (tk_state k) (tk_verdict k) failureCode);
  _ ← notifyExecution c row (tk_verdict k);
  _ ← execution_update (trigNow c) (e_id row) (data_terminal k failureCode (finNow c) seq);
  mret tt.

Definition claim (c : Clock) (token : uuid) (id : uuid) : tx db (option (Lease * Execution)) :=
  orow ← locked id;
  match orow with
  | None => mret None
  | Some row =>
      if isTerminal (e_state row) then mret None else
      if bool_decide (e_state row = QUEUED) && (e_queueExpiresAt row <=? now c) then
        _ ← terminal c row T_INTERNAL_ERROR (Some QUEUE_TIMEOUT); mret None
      else
      if negb (bool_decide (e_state row = QUEUED))
         && match e_leaseExpiresAt row with Some x => now c <? x | None => false end
      then mret None else
      if bool_decide (is_Some (e_cancellationRequestedAt row)) then
        _ ← terminal c row T_INTERNAL_ERROR (Some CANCELLATION_TIMEOUT); mret None
      else
      if (deadline row <=? now c) || (MAX_ATTEMPTS <=? e_attempt row) then
        _ ← terminal c row T_INTERNAL_ERROR
              (Some (if MAX_ATTEMPTS <=? e_attempt row then LEASE_EXPIRED else JOB_TIMEOUT));
        mret None
      else
      (* row.attempt++; row.lastSequence = 0; row.state = 'COMPILING' *)
      let attempt := e_attempt row + 1 in
      let row1 := mkExecution (e_req row) COMPILING (e_verdict row) attempt 0 (e_leaseToken row)
                    (e_leaseExpiresAt row) (e_runtimeMs row) (e_memoryKiB row)
                    (e_publicResults row) (e_finishedAt row) (e_failureCode row)
                    (e_cancellationRequestedAt row) in
      _ ← event_delete_execution id;
      sequence ← event c row1 (execution_status COMPILING None);
      execution ← execution_update (trigNow c) id
        (data_claim attempt sequence token (Z.min (now c + LEASE_MS) (deadline row)));
      mret (Some (mkLease id attempt token, execution))
  end.

Definition renew (c : Clock) (lease : Lease) : tx db Renewal :=
  orow ← locked (l_executionId lease);
  match orow with
  | None => mret LOST
  | Some row =>
      if negb (valid (now c) row lease) then mret LOST else
      let base := Z.min (now c + LEASE_MS) (deadline row) in
      let end_ := match e_cancellationRequestedAt row with
                  | Some t => Z.min base (t + CANCEL_GRACE_MS)
                  | None => base
                  end in
      if end_ <=? now c then mret LOST else
      _ ← execution_update (trigNow c) (e_id row) (data_lease end_);
      mret (if bool_decide (is_Some (e_cancellationRequestedAt row)) then CANCEL else ACTIVE)
  end.

Definition markRunning (c : Clock) (lease : Lease) : tx db bool :=
  orow ← locked (l_executionId lease);
  match orow with
  | None => mret false
  | Some row =>
      if negb (valid (now c) row lease) || bool_decide (is_Some (e_cancellationRequestedAt row))
         || negb (bool_decide (e_state row = COMPILING))
      then mret false else
      sequence ← event c row (execution_status RUNNING None);
      _ ← execution_update (trigNow c) (e_id row) (data_progress RUNNING sequence);
      mret true
  end.

Definition console (c : Clock) (lease : Lease) (caseId : uuid) (stream : Stream) (text : jsstr)
    : tx db bool :=
  if negb (z_uuid caseId) || (4096 <? byteLength text) then throw (JsError "INVALID_PUBLIC_OUTPUT") else
  orow ← locked (l_executionId lease);
  match orow with
  | None => mret false
  | Some row =>
      if negb (valid (now c) row lease) || bool_decide (is_Some (e_cancellationRequestedAt row))
      then mret false else
      public ← gets (λ d, public_cases d (x_problemVersionId (e_req row)));
      if negb (bool_decide (e_mode row = RUN)) || negb (bool_decide (caseId ∈ jc_id <$> public))
      then throw (JsError "PRIVATE_OUTPUT_REJECTED") else
      sequence ← event c row (console_output caseId stream (safeConsole stripVT text));
      _ ← execution_update (trigNow c) (e_id row) (λ e, data_progress (e_state e) sequence e);
      mret true
  end.

Definition safe_result (r : PublicCaseResult) : PublicCaseResult :=
  mkCaseResult (pr_caseId r) (pr_verdict r) (pr_outputTruncated r)
    (safeConsole stripVT <$> pr_stdout r) (safeConsole stripVT <$> pr_stderr r) (pr_exitCode r)
    (pr_runtimeMs r) (pr_memoryKiB r).

(** The check of [finish] on the reported case results: only for RUN, without duplicates, and
    all of them public cases of the pinned version. *)
Definition public_results_ok (row : Execution) (public : list JudgeCase)
    (rs : option (list PublicCaseResult)) : bool :=
  match rs with
  | None => true
  | Some l =>
      let ids := pr_caseId <$> l in
      bool_decide (e_mode row = RUN) && bool_decide (NoDup ids)
      && (length (filter (λ tc, jc_id tc ∈ ids) public) =? length ids)%nat
  end.

Definition finish (c : Clock) (lease : Lease) (input : JudgedResult) : tx db bool :=
  if negb (resultSchema input) then throw ZodError else
  if MAX_OUTPUT_BYTES <? byteLength (stringify (result_json input))
  then throw (JsError "PUBLIC_RESULT_TOO_LARGE") else
  orow ← locked (l_executionId lease);
  match orow with
  | None => mret false
  | Some row =>
      if negb (valid (now c) row lease) then mret false else
      if bool_decide (is_Some (e_cancellationRequestedAt row)) then
        _ ← terminal c row T_CANCELLED None; mret true
      else
      public ← gets (λ d, public_cases d (x_problemVersionId (e_req row)));
      if negb (public_results_ok row public (jr_publicCaseResults input))
      then throw (JsError "PRIVATE_OUTPUT_REJECTED") else
      seq ← event c row (final_verdict FINISHED (jr_verdict input) None);
      _ ← notifyExecution c row (jr_verdict input);
      _ ← execution_update (trigNow c) (e_id row)
            (data_finish (jr_verdict input) (jr_runtimeMs input) (jr_memoryKiB input)
               ((λ l : list PublicCaseResult, safe_result <$> l) <$> jr_publicCaseResults input) (finNow c) seq);
      mret true
  end.

Definition fail (c : Clock) (lease : Lease) (cleanupConfirmed : bool) : tx db bool :=
  orow ← locked (l_executionId lease);
  match orow with
  | None => mret false
  | Some row =>
      if negb (valid (now c) row lease) then mret false else
      let cancelled := bool_decide (is_Some (e_cancellationRequestedAt row)) in
      _ ← terminal c row (if cancelled && cleanupConfirmed then T_CANCELLED else T_INTERNAL_ERROR)
            (if cancelled then (if cleanupConfirmed then None else Some CANCELLATION_TIMEOUT)
             else Some JOB_FAILURE);
      mret true
  end.

Definition recover (c : Clock) (lease : Lease) : tx db bool :=
  orow ← locked (l_executionId lease);
  match orow with
  | None => mret false
  | Some row =>
      if negb (valid (now c) row lease) then mret false else
      if bool_decide (is_Some (e_cancellationRequestedAt row)) then
        _ ← terminal c row T_CANCELLED None; mret true
      else
      if MAX_ATTEMPTS <=? e_attempt row then
        _ ← terminal c row T_INTERNAL_ERROR (Some JOB_FAILURE); mret true
      else
      _ ← execution_update (trigNow c) (e_id row) (data_lease (now c));
      _ ← outbox_upsert (new_outbox (e_id row) EXECUTION_RECOVERY (e_attempt row) (insNow c))
            (λ o, mkOutboxRow (o_executionId o) (o_kind o) (o_generation o) (o_createdAt o) None None
                    None (now c) (o_dispatchAttempts o));
      mret true
  end.

Record Receipt := mkReceipt {
  rc_executionId : uuid; rc_state : ExecutionState; rc_cancellationRequested : option bool
}.

Definition NotFound : error := ApiError 404 "NOT_FOUND" None.

Definition cancel (c : Clock) (userId id : uuid) (activeAllowed : bool) : tx db Receipt :=
  orow ← locked id;
  match orow with
  | None => throw NotFound
  | Some row =>
      if negb (bool_decide (x_userId (e_req row) = userId)) then throw NotFound else
      if bool_decide (e_state row = QUEUED) then
        _ ← terminal c row T_CANCELLED None;
        _ ← outbox_create (new_outbox id EXECUTION_CANCELLED 0 (insNow c));
        mret (mkReceipt id CANCELLED None)
      else if negb (isTerminal (e_state row)) then
        if negb activeAllowed then throw (ApiError 503 "CANCELLATION_UNAVAILABLE" None) else
        _ ← (if bool_decide (e_cancellationRequestedAt row = None) then
               sequence ← event c row (execution_status (e_state row) (Some true));
               _ ← execution_update (trigNow c) id (data_cancel (now c) sequence);
               mret tt
             else mret tt);
        mret (mkReceipt id (e_state row) (Some true))
      else mret (mkReceipt id (e_state row) None)
  end.

(** *** Replay *)

Record Replay := mkReplay {
  rp_snapshot : ExecutionSnapshot; rp_replayAvailable : bool; rp_events : list PublicExecutionEvent
}.
Definition older_first (a b : EventRow) : Prop := ev_sequence a ≤ ev_sequence b.
#[export] Instance older_first_dec : RelDecision older_first.
Proof. intros a b. unfold older_first. apply _. Defined.

(** [executionEvent.findMany]: the unexpired rows of the attempt after the cursor, oldest first. *)
Definition replay_rows (t : Z) (row : Execution) (after : Z) (d : db) : list EventRow :=
  take REPLAY_ROWS (merge_sort older_first
    (filter (λ e, ev_executionId e = e_id row ∧ ev_attempt e = e_attempt row
                  ∧ after < ev_sequence e ∧ t < ev_expiresAt e) (events d))).

(** One stored payload, checked against its row and the public boundary. *)
Definition replay_safe (row : Execution) (publicIds : list uuid) (e : EventRow) : bool :=
  match publicExecutionEventSchema (ev_payload e) with
  | None => false
  | Some p =>
      bool_decide (pe_executionId p = e_id row) && (pe_attempt p =? e_attempt row)
      && (pe_sequence p =? ev_sequence e)
      && match pe_fields p with
         | console_output caseId _ _ => bool_decide (e_mode row = RUN) && bool_decide (caseId ∈ publicIds)
         | _ => true
         end
  end.

Fixpoint consecutive (n : Z) (l : list EventRow) : bool :=
  match l with
  | [] => true
  | e :: l' => (ev_sequence e =? n) && consecutive (n + 1) l'
  end.

Definition replay (t : Z) (userId id : uuid) (attempt after : Z) : tx db Replay :=
  orow ← locked id;
  match orow with
  | None => throw NotFound
  | Some row =>
      if negb (bool_decide (x_userId (e_req row) = userId)) then throw NotFound else
      over ← gets (λ d, problemVersions d !! x_problemVersionId (e_req row));
      match over with
      | None => throw (DbError "P2025")
      | Some version =>
          rows ← gets (replay_rows t row after);
          let publicIds := jc_id <$> filter (λ c, jc_visibility c = PUBLIC) (pv_testCases version) in
          let safe := forallb (replay_safe row publicIds) rows in
          let contiguous := safe && (attempt =? e_attempt row) && (after <=? e_lastSequence row)
            && (Z.of_nat (length rows) =? e_lastSequence row - after) && consecutive (after + 1) rows in
          match publicSnapshot row (pv_problemId version) (Some publicIds) with
          | Err e => throw e
          | Ok snapshot =>
              mret (mkReplay snapshot contiguous
                (if contiguous then omap (λ e, publicExecutionEventSchema (ev_payload e)) rows else []))
          end
      end
  end.

(** *** Maintenance *)

(** Every [clock_timestamp()] of a pass is a reading of its own: for each row those of the WHERE clause on
    the lease and on the cancellation, and those of [now] and of what is written for it; for each
    intent those on its publication and on the lease; and one for each event. *)
Record MaintainClocks := mkMaintainClocks {
  mc_lease : uuid → Z; mc_cancel : uuid → Z; mc_row : uuid → Clock;
  mc_published : OutboxRow → Z; mc_stalled : OutboxRow → Z; mc_event : EventRow → Z }.

(** The WHERE clause of the reconciliation query. *)
Definition overdue (mc : MaintainClocks) (e : Execution) : bool :=
  raises (s_and (state_in [COMPILING; RUNNING] (e_state e))
    (s_or (s_le (e_leaseExpiresAt e) (mc_lease mc (e_id e)))
          (s_le (e_cancellationRequestedAt e) (mc_cancel mc (e_id e) - 15000)))).

(** [ORDER BY "leaseExpiresAt"]: ascending, NULL last. *)
Definition by_lease (a b : Execution) : Prop :=
  match e_leaseExpiresAt a, e_leaseExpiresAt b with
  | Some x, Some y => x ≤ y
  | _, None => True
  | None, Some _ => False
  end.
#[export] Instance by_lease_dec : RelDecision by_lease.
Proof. intros a b. unfold by_lease. destruct (e_leaseExpiresAt a), (e_leaseExpiresAt b); apply _. Defined.

Definition MAINTAIN_BATCH : nat := 100.

(** The rows locked by one pass: [busy] says which rows another transaction holds (SKIP LOCKED). *)
Definition overdue_rows (busy : uuid → bool) (mc : MaintainClocks) (d : db) : list Execution :=
  take MAINTAIN_BATCH (merge_sort by_lease
    (filter (λ e, overdue mc e ∧ busy (e_id e) = false) (map_to_list (executions d)).*2)).

Definition maintain_row (clk : uuid → Clock) (row : Execution) : tx db unit :=
  let c := clk (e_id row) in
  let cancelled := bool_decide (is_Some (e_cancellationRequestedAt row)) in
  if cancelled || (MAX_ATTEMPTS <=? e_attempt row) || (deadline row <=? now c) then
    terminal c row T_INTERNAL_ERROR
      (Some (if cancelled then CANCELLATION_TIMEOUT
             else if MAX_ATTEMPTS <=? e_attempt row then LEASE_EXPIRED else JOB_TIMEOUT))
  else outbox_upsert (new_outbox (e_id row) EXECUTION_RECOVERY (e_attempt row) (insNow c)) id.

(** The intents that are offered again: published more than ten seconds ago, for a job that is
    still waiting for a worker. *)
Definition reofferable (mc : MaintainClocks) (d : db) (o : OutboxRow) : bool :=
  match o_publishedAt o, executions d !! o_executionId o with
  | Some p, Some e =>
      (p <? mc_published mc o - 10000)
      && (bool_decide (e_state e = QUEUED) && bool_decide (o_kind o = EXECUTION_CREATED)
          || raises (s_and (state_in [COMPILING; RUNNING] (e_state e)) (s_le (e_leaseExpiresAt e) (mc_stalled mc o)))
             && bool_decide (o_kind o = EXECUTION_RECOVERY) && (o_generation o =? e_attempt e))
  | _, _ => false
  end.
Definition unpublish (o : OutboxRow) : OutboxRow :=
  mkOutboxRow (o_executionId o) (o_kind o) (o_generation o) (o_createdAt o) None (o_dispatchToken o)
    (o_dispatchExpiresAt o) (o_nextDispatchAt o) (o_dispatchAttempts o).
Definition reoffer (mc : MaintainClocks) (busyOutbox : OutboxRow → bool) : tx db unit :=
  ks ← gets (λ d, o_key <$> take 100 (filter (λ o, reofferable mc d o ∧ busyOutbox o = false) (outbox d)));
  modify (set_outbox (λ l, (λ o, if bool_decide (o_key o ∈ ks) then unpublish o else o) <$> l)).
Definition expire_events (mc : MaintainClocks) : tx db unit :=
  ks ← gets (λ d, ev_key <$> take 1000 (filter (λ e, ev_expiresAt e < mc_event mc e) (events d)));
  event_delete_keys ks.

Definition maintain (mc : MaintainClocks) (busy : uuid → bool) (busyOutbox : OutboxRow → bool) : tx db unit :=
  rows ← gets (overdue_rows busy mc);
  _ ← for_each (maintain_row (mc_row mc)) rows;
  _ ← reoffer mc busyOutbox;
  expire_events mc.

(** *** Expiry of queued jobs ([queued-maintenance.ts]) *)

Definition EXPIRY_BATCH_SIZE : nat := 100.

(** [ORDER BY "queueExpiresAt", id]. *)
Definition by_queue (a b : Execution) : Prop :=
  e_queueExpiresAt a < e_queueExpiresAt b
  ∨ e_queueExpiresAt a = e_queueExpiresAt b ∧ uuid_le (e_id a) (e_id b).
#[export] Instance by_queue_dec : RelDecision by_queue.
Proof. intros a b. unfold by_queue. apply _. Defined.

Definition data_expire (finishedAt seq : Z) (e : Execution) : Execution :=
  mkExecution (e_req e) INTERNAL_ERROR (Some VINTERNAL_ERROR) (e_attempt e) seq (e_leaseToken e)
    (e_leaseExpiresAt e) (e_runtimeMs e) (e_memoryKiB e) (e_publicResults e) (Some finishedAt)
    (Some QUEUE_TIMEOUT) (e_cancellationRequestedAt e).

Definition expired_rows (t : Z) (busy : uuid → bool) (d : db) : list Execution :=
  take EXPIRY_BATCH_SIZE (merge_sort by_queue
    (filter (λ e, e_state e = QUEUED ∧ e_queueExpiresAt e ≤ t ∧ busy (e_id e) = false)
       (map_to_list (executions d)).*2)).
Definition expire_row (clk : uuid → Clock) (t : Z) (row : Execution) : tx db unit :=
  sequence ← event (clk (e_id row)) row
               (final_verdict INTERNAL_ERROR VINTERNAL_ERROR (Some QUEUE_TIMEOUT));
  _ ← execution_update (trigNow (clk (e_id row))) (e_id row) (data_expire t sequence);
  mret tt.

(** [t] is the [new Date()] of the call. *)
Definition expireQueuedJobs (clk : uuid → Clock) (t : Z) (busy : uuid → bool) : tx db nat :=
  expired ← gets (expired_rows t busy);
  if (length expired =? 0)%nat then mret 0%nat else
  _ ← for_each (expire_row clk t) expired;
  _ ← for_each (λ row, outbox_create (new_outbox (e_id row) EXECUTION_EXPIRED 0
                                        (insNow (clk (e_id row))))) expired;
  mret (length expired).

(** One maintenance tick: three transactions in order; the first failure ends the tick, and its
    own transaction is rolled back. *)
Definition delete_rate_limits (t : Z) : tx db unit :=
  modify (set_rateLimits (filter (λ kv, t < rl_expiresAt kv.2))).
Definition tick (clk : uuid → Clock) (t1 : Z) (mc : MaintainClocks) (t4 : Z) (busy : uuid → bool)
    (busyOutbox : OutboxRow → bool) (d : db) : db :=
  match transaction (expireQueuedJobs clk t1 busy) d with
  | (Err _, d1) => d1
  | (Ok _, d1) =>
      match transaction (maintain mc busy busyOutbox) d1 with
      | (Err _, d2) => d2
      | (Ok _, d2) => (transaction (delete_rate_limits t4) d2).2
      end
  end.
End JobStore.
