(* ===== verification/Lifecycle.v ===== *)
(** * The lifecycle of one execution: abstract specification

    [row_step c old new] is the specification of what may happen to one [Execution] row: one
    constructor per guarded change the services make to a row, at the database time [now c].
    This file relates the specification to the database's own protection (every step passes the
    [protect_execution_lifecycle] trigger and the CHECKs) and to the state graph of the
    contracts.  [JobStoreFacts] shows that the job store implements it. *)

From S2P Require Import Prelude JsText Contracts Judge Database Serialization JobStore.
Local Open Scope Z_scope.

(** ** The specification *)

Definition holds_lease (e : Execution) : Prop := e_state e = COMPILING ∨ e_state e = RUNNING.
Definition lease_live (t : Z) (e : Execution) : Prop :=
  ∃ x, e_leaseExpiresAt e = Some x ∧ t < x.
Definition authorised (t : Z) (e : Execution) : Prop :=
  holds_lease e ∧ lease_live t e ∧ t < deadline e.
Definition next_seq (e : Execution) : Z := e_lastSequence e + 1.

Inductive row_step (c : Clock) (e : Execution) : Execution → Prop :=
| rs_queue_timeout :
    e_state e = QUEUED → e_queueExpiresAt e ≤ now c →
    row_step c e (data_terminal T_INTERNAL_ERROR (Some QUEUE_TIMEOUT) (finNow c) (next_seq e) e)
| rs_expire t :
    e_state e = QUEUED → e_queueExpiresAt e ≤ t →
    row_step c e (data_expire t (next_seq e) e)
| rs_cancel_queued :
    e_state e = QUEUED →
    row_step c e (data_terminal T_CANCELLED None (finNow c) (next_seq e) e)
| rs_claim token :
    (e_state e = QUEUED ∧ now c < e_queueExpiresAt e) ∨ (holds_lease e ∧ ¬ lease_live (now c) e) →
    e_cancellationRequestedAt e = None → now c < deadline e → e_attempt e < MAX_ATTEMPTS →
    row_step c e (data_claim (e_attempt e + 1) 1 token (Z.min (now c + LEASE_MS) (deadline e)) e)
| rs_give_up t t' code :
    holds_lease e →
    ¬ lease_live t e ∨ s_le (e_cancellationRequestedAt e) (t' - CANCEL_GRACE_MS) = Some true →
    code ≠ QUEUE_TIMEOUT →
    row_step c e (data_terminal T_INTERNAL_ERROR (Some code) (finNow c) (next_seq e) e)
| rs_renew end_ :
    authorised (now c) e → now c < end_ ≤ deadline e → end_ ≤ now c + LEASE_MS →
    (∀ r, e_cancellationRequestedAt e = Some r → end_ ≤ r + CANCEL_GRACE_MS) →
    row_step c e (data_lease end_ e)
| rs_release :
    authorised (now c) e → row_step c e (data_lease (now c) e)
| rs_run :
    authorised (now c) e → e_cancellationRequestedAt e = None → e_state e = COMPILING →
    row_step c e (data_progress RUNNING (next_seq e) e)
| rs_console :
    authorised (now c) e → e_cancellationRequestedAt e = None → e_mode e = RUN →
    row_step c e (data_progress (e_state e) (next_seq e) e)
| rs_finish v runtimeMs memoryKiB results :
    authorised (now c) e → e_cancellationRequestedAt e = None → learner_verdict v = true →
    (is_Some results → e_mode e = RUN) → opt_check (λ n, 0 <=? n) runtimeMs = true →
    opt_check (λ n, 0 <=? n) memoryKiB = true →
    row_step c e (data_finish v runtimeMs memoryKiB results (finNow c) (next_seq e) e)
| rs_worker_cancelled :
    authorised (now c) e → is_Some (e_cancellationRequestedAt e) →
    row_step c e (data_terminal T_CANCELLED None (finNow c) (next_seq e) e)
| rs_worker_failed code :
    authorised (now c) e → code = JOB_FAILURE ∨ code = CANCELLATION_TIMEOUT →
    row_step c e (data_terminal T_INTERNAL_ERROR (Some code) (finNow c) (next_seq e) e)
| rs_request_cancel :
    holds_lease e → e_cancellationRequestedAt e = None →
    row_step c e (data_cancel (now c) (next_seq e) e).

(** ** Well-formed rows *)

(** What holds of every row: the CHECKs, and beyond them that a queued job has never been
    claimed, that an active one has a lease within its deadline and at most [MAX_ATTEMPTS]
    attempts, that case results are only stored for RUN, and that an active job has no
    measurements. *)
Record row_ok (e : Execution) : Prop := {
  ok_checks : execution_checks e = true;
  ok_queued : e_state e = QUEUED →
    e_attempt e = 0 ∧ e_leaseToken e = None ∧ e_leaseExpiresAt e = None
    ∧ e_cancellationRequestedAt e = None;
  ok_active : holds_lease e →
    1 ≤ e_attempt e ∧ ∃ token x, e_leaseToken e = Some token ∧ e_leaseExpiresAt e = Some x
                                 ∧ x ≤ deadline e;
  ok_attempt : e_attempt e ≤ MAX_ATTEMPTS;
  ok_results : is_Some (e_publicResults e) → e_mode e = RUN ∧ isTerminal (e_state e) = true;
  ok_metrics : isTerminal (e_state e) = false → e_runtimeMs e = None ∧ e_memoryKiB e = None
}.

(** The authority a claim takes: its token differs from the one it replaces. *)
Definition fresh_token (old new : Execution) : Prop :=
  e_attempt new ≠ e_attempt old → is_Some (e_leaseToken old) → e_leaseToken new ≠ e_leaseToken old.

Lemma authorised_active t e : authorised t e → holds_lease e.
Proof. by intros []. Qed.
Lemma holds_not_queued e : holds_lease e → e_state e ≠ QUEUED.
Proof. intros [-> | ->]; done. Qed.
Lemma holds_not_terminal e : holds_lease e → isTerminal (e_state e) = false.
Proof. intros [-> | ->]; done. Qed.

Lemma counters_next e : counters_ok e = true → 0 ≤ e_attempt e ∧ 0 ≤ e_lastSequence e.
Proof. unfold counters_ok. lia. Qed.

Lemma checks_split e :
  execution_checks e = true ↔
  terminal_fields_ok e = true ∧ counters_ok e = true ∧ queue_deadline_ok e = true ∧ lease_pair_ok e = true
  ∧ source_cap_ok e = true ∧ metrics_ok e = true ∧ private_results_ok e = true.
Proof. unfold execution_checks. rewrite !andb_true_iff. tauto. Qed.

Lemma active_fields e :
  execution_checks e = true → isTerminal (e_state e) = false →
  e_verdict e = None ∧ e_finishedAt e = None ∧ e_failureCode e = None.
Proof.
  intros (Ht & _)%checks_split Hn. unfold terminal_fields_ok in Ht.
  destruct (e_state e); try done; by rewrite !andb_true_iff, !bool_decide_eq_true in Ht; naive_solver.
Qed.

(** ** The trigger accepts every step *)

Lemma raises_false (c : sql_bool) : c ≠ Some true → raises c = false.
Proof. intros. unfold raises. by apply bool_decide_eq_false. Qed.
Lemma distinct_same {A} `{EqDecision A} (a b : A) : a = b → distinct a b = Some false.
Proof. intros ->. unfold distinct. by rewrite bool_decide_eq_true_2. Qed.
Lemma s_and_false_l b : s_and (Some false) b = Some false. Proof. done. Qed.
Lemma s_and_false_r a : s_and a (Some false) = Some false. Proof. by destruct a as [[]|]. Qed.

Lemma trigger_accepts tnow old new :
  e_req new = e_req old →
  e_cancellationRequestedAt old = None ∨ e_cancellationRequestedAt new = e_cancellationRequestedAt old →
  e_leaseToken new = None ∨ e_leaseToken old = None
    ∨ (e_leaseToken new, e_attempt new) = (e_leaseToken old, e_attempt old)
    ∨ lease_replacement_ok tnow old new = Some true →
  isTerminal (e_state old) = false →
  e_state new = e_state old ∨ graph_ok tnow old new = Some true →
  e_attempt old ≤ e_attempt new →
  (e_attempt new = e_attempt old → e_lastSequence old ≤ e_lastSequence new) →
  e_failureCode new ≠ Some QUEUE_TIMEOUT ∨ (e_state old = QUEUED ∧ e_state new = INTERNAL_ERROR) →
  protect_execution_lifecycle tnow old new = None.
Proof.
  intros Hreq Hcan Hlease Hnt Hst Hat Hseq Hfail. unfold protect_execution_lifecycle.
  assert (R : ∀ c s k, c ≠ Some true → k = None → (if raises c then Some s else k) = @None string).
  { intros c s k Hc ->. by rewrite raises_false. }
  repeat apply R; try done.
  - by rewrite distinct_same.
  - destruct Hcan as [->|Hcan]; [done|]. by rewrite (distinct_same _ _ Hcan), s_and_false_r.
  - destruct Hlease as [-> | [-> | [E | ->]]].
    + rewrite (bool_decide_eq_false_2 (is_Some None)) by (by intros []).
      unfold s_lit. by rewrite s_and_false_l, s_and_false_r.
    + rewrite (bool_decide_eq_false_2 (is_Some None)) by (by intros []). done.
    + rewrite (distinct_same _ _ E), s_and_false_l. by rewrite !s_and_false_r.
    + unfold s_not. cbn [fmap option_fmap option_map negb]. by rewrite !s_and_false_r.
  - by destruct (e_state old).
  - destruct Hst as [E | ->]; [by rewrite (distinct_same _ _ E)|].
    unfold s_not. cbn [fmap option_fmap option_map negb]. by rewrite s_and_false_r.
  - unfold s_lit, s_or, s_and, s_not. cbn. repeat case_match; simplify_eq/=; try done; lia.
  - destruct Hfail as [E | [-> ->]].
    + by rewrite bool_decide_eq_false_2.
    + unfold s_not, state_in, s_and, s_lit. cbn. by rewrite andb_false_r || case_match.
Qed.

Lemma graph_terminal tnow old new :
  isTerminal (e_state old) = false → e_state new = CANCELLED ∨ e_state new = INTERNAL_ERROR →
  graph_ok tnow old new = Some true.
Proof.
  intros Hn Hs. unfold graph_ok.
  destruct (e_state old); try done; destruct Hs as [-> | ->]; cbn; by repeat case_match.
Qed.

(** A lease that is not live has an expiry the trigger sees as passed. *)
Lemma not_live_expired c e x :
  e_leaseExpiresAt e = Some x → ¬ lease_live (now c) e → now c ≤ trigNow c →
  s_le (e_leaseExpiresAt e) (trigNow c) = Some true.
Proof.
  intros Ex Hn Hc. rewrite Ex. cbn. f_equal. apply Z.leb_le.
  destruct (decide (now c < x)); [exfalso; apply Hn; by exists x|lia].
Qed.

Lemma claim_passes c e token x :
  row_ok e → now c ≤ trigNow c →
  (e_state e = QUEUED ∧ now c < e_queueExpiresAt e) ∨ (holds_lease e ∧ ¬ lease_live (now c) e) →
  fresh_token e (data_claim (e_attempt e + 1) 1 token x e) →
  protect_execution_lifecycle (trigNow c) e (data_claim (e_attempt e + 1) 1 token x e) = None.
Proof.
  intros Hok Hc Hwhen Hfresh.
  destruct (active_fields e (ok_checks _ Hok)) as (_ & _ & Hf).
  { destruct Hwhen as [[-> _] | [[-> | ->] _]]; done. }
  destruct Hwhen as [[Hq _] | [Ha Hl]].
  - destruct (ok_queued _ Hok Hq) as (H0 & Ht & Hx & _).
    apply trigger_accepts; cbn; rewrite ?Hq, ?Hf; auto; try lia.
    right. unfold graph_ok. rewrite Hq. cbn. by repeat case_match.
  - destruct (ok_active _ Hok Ha) as (_ & tok & y & Ht & Hx & _).
    pose proof (not_live_expired c e y Hx Hl Hc) as Hexp.
    assert (token ≠ tok) as Hneq.
    { intros ->. apply (Hfresh ltac:(cbn; lia)); [by rewrite Ht|]. cbn. by rewrite Ht. }
    assert (lease_replacement_ok (trigNow c) e (data_claim (e_attempt e + 1) 1 token x e) = Some true) as Hr.
    { unfold lease_replacement_ok. cbn [data_claim e_state e_attempt e_leaseToken]. rewrite Hexp, Ht, Z.eqb_refl.
      unfold s_ne. rewrite bool_decide_eq_false_2 by done. by destruct Ha as [-> | ->]. }
    apply trigger_accepts; cbn; rewrite ?Hf; auto; try lia.
    + by apply holds_not_terminal.
    + destruct Ha as [Hs|Hs]; [by left|right]. unfold graph_ok.
      cbn [data_claim e_state e_attempt e_leaseToken]. rewrite Hexp, Hs, Ht, Z.eqb_refl. unfold distinct.
      rewrite bool_decide_eq_false_2 by congruence. done.
Qed.

(** Facts about the row that the trigger and CHECK arguments share. *)
Lemma step_source c old new : row_step c old new → isTerminal (e_state old) = false.
Proof.
  destruct 1; try (by rewrite H); try (by apply holds_not_terminal);
    try (by apply holds_not_terminal, authorised_active with (now c)).
  destruct H as [[-> _] | [Ha _]]; [done|by apply holds_not_terminal].
Qed.

(** The database accepts every change of the specification: a lifecycle step from a
    well-formed row passes the [protect_execution_lifecycle] trigger, provided the trigger reads
    the clock no earlier than the locking SELECT and a claim's token is not the one it
    replaces. *)
Lemma trigger_accepts_steps c old new :
  row_step c old new → row_ok old → now c ≤ trigNow c → fresh_token old new →
  protect_execution_lifecycle (trigNow c) old new = None.
Proof.
  intros Hs Hok Hc Hfresh. pose proof (step_source _ _ _ Hs) as Hnt.
  destruct (active_fields old (ok_checks _ Hok) Hnt) as (_ & _ & Hf).
  destruct Hs as [Hq Hx|t Hq Hx|Hq|token Hwhen Hn Hd Ha|tl tc code Ha Hwhen Hcode|end_ Ha He1 He2 He3|Ha
    |Ha Hn Hcs|Ha Hn Hm|v rt mem rs Ha Hn Hv Hrs Hrt Hmem|Ha Hn|code Ha Hcode|Ha Hn];
    [..|by apply trigger_accepts; cbn; rewrite ?Hf; unfold next_seq; auto; lia].
  4: by apply claim_passes.
  all: apply trigger_accepts; cbn; rewrite ?Hf; unfold next_seq; auto; try lia.
  all: try (right; by apply graph_terminal; auto).
  - left. intros [= ->]. done.
  - right. unfold graph_ok. cbn. rewrite Hcs. done.
  - right. unfold graph_ok. cbn. destruct (authorised_active _ _ Ha) as [-> | ->]; done.
  - left. destruct Hcode as [-> | ->]; done.
Qed.

(** ** Steps preserve well-formedness *)

(** Splits the conjunctions of a CHECK into its parts. *)
Ltac checks :=
  repeat match goal with
  | H : _ && _ = true |- _ => apply andb_true_iff in H as [? ?]
  | H : bool_decide _ = true |- _ => apply bool_decide_eq_true in H
  | |- _ && _ = true => apply andb_true_iff; split
  | |- bool_decide _ = true => apply bool_decide_eq_true
  end.

Lemma lease_pair_none e :
  e_leaseToken e = None → e_leaseExpiresAt e = None → lease_pair_ok e = true.
Proof. unfold lease_pair_ok. by intros -> ->. Qed.
Lemma lease_pair_some e t x :
  e_leaseToken e = Some t → e_leaseExpiresAt e = Some x → holds_lease e → lease_pair_ok e = true.
Proof. unfold lease_pair_ok. intros -> -> [-> | ->]; by apply bool_decide_eq_true; set_solver. Qed.

Lemma private_results_RUN e : (is_Some (e_publicResults e) → e_mode e = RUN) → private_results_ok e = true.
Proof.
  intros He. unfold private_results_ok. apply orb_true_iff. destruct (e_publicResults e); [left|by right].
  apply bool_decide_eq_true. by apply He.
Qed.

(** A terminal row without a lease is well formed when the fields of its state are. *)
Lemma row_ok_terminal e new :
  row_ok e → isTerminal (e_state new) = true → e_req new = e_req e → e_attempt new = e_attempt e →
  0 ≤ e_lastSequence new → e_leaseToken new = None → e_leaseExpiresAt new = None →
  terminal_fields_ok new = true → metrics_ok new = true →
  (is_Some (e_publicResults new) → e_mode e = RUN) → row_ok new.
Proof.
  intros Hok Ht Hr Ha Hs Hl1 Hl2 Htf Hmet Hres.
  destruct (proj1 (checks_split e) (ok_checks _ Hok)) as (_ & Hc & Hq & _ & Hsrc & _).
  pose proof (ok_attempt _ Hok).
  split.
  - apply checks_split. split_and!; [done| | | | |done|].
    + apply counters_next in Hc. unfold counters_ok. lia.
    + unfold queue_deadline_ok in *. by rewrite Hr.
    + by apply lease_pair_none.
    + unfold source_cap_ok in *. by rewrite Hr.
    + apply private_results_RUN. unfold e_mode. by rewrite Hr.
  - intros E. by rewrite E in Ht.
  - intros Hh. by rewrite holds_not_terminal in Ht.
  - lia.
  - intros H'. split; [|done]. unfold e_mode. rewrite Hr. by apply Hres.
  - congruence.
Qed.

(** An active row that keeps or takes a lease within the deadline. *)
Lemma row_ok_active e new token x :
  row_ok e → isTerminal (e_state e) = false → holds_lease new → e_req new = e_req e →
  1 ≤ e_attempt new ≤ MAX_ATTEMPTS → 0 ≤ e_lastSequence new →
  e_leaseToken new = Some token → e_leaseExpiresAt new = Some x → x ≤ deadline e →
  e_verdict new = e_verdict e → e_finishedAt new = e_finishedAt e →
  e_failureCode new = e_failureCode e → e_publicResults new = e_publicResults e →
  e_runtimeMs new = e_runtimeMs e → e_memoryKiB new = e_memoryKiB e → row_ok new.
Proof.
  intros Hok Hnt Hh Hr Ha Hs Hl1 Hl2 Hx Hv Hfin Hfail Hres Hrt Hmem.
  destruct (proj1 (checks_split e) (ok_checks _ Hok)) as (_ & _ & Hq & _ & Hsrc & Hmet & _).
  destruct (ok_metrics _ Hok Hnt) as [Em1 Em2].
  destruct (active_fields e (ok_checks _ Hok) Hnt) as (E1 & E2 & E3).
  split.
  - apply checks_split. split_and!.
    + unfold terminal_fields_ok. rewrite Hv, Hfin, Hfail, E1, E2, E3. by destruct Hh as [-> | ->].
    + unfold counters_ok. lia.
    + unfold queue_deadline_ok in *. by rewrite Hr.
    + by eapply lease_pair_some.
    + unfold source_cap_ok in *. by rewrite Hr.
    + unfold metrics_ok. by rewrite Hrt, Hmem, Em1, Em2.
    + apply private_results_RUN. rewrite Hres. unfold e_mode. rewrite Hr. intros H'.
      by destruct (ok_results _ Hok H').
  - intros E. by apply holds_not_queued in Hh.
  - intros _. split; [lia|]. exists token, x. split_and!; try done.
    unfold deadline, e_queueExpiresAt in *. by rewrite Hr.
  - lia.
  - rewrite Hres. intros H'. destruct (ok_results _ Hok H') as [_ E]. congruence.
  - intros _. by rewrite Hrt, Hmem.
Qed.

Lemma no_results_yet e : row_ok e → isTerminal (e_state e) = false → e_publicResults e = None.
Proof.
  intros Hok Hn. destruct (e_publicResults e) eqn:E; [|done].
  destruct (ok_results _ Hok) as [_ Ht]; [by rewrite E|congruence].
Qed.

(** Every lifecycle step preserves the row invariant: the CHECK constraints hold, a lease
    exists exactly while the job is active and never extends past the job's deadline (ten minutes
    after its queue deadline), there are at most [MAX_ATTEMPTS] attempts, and case results exist
    only for a finished RUN. *)
Lemma row_step_ok c old new : row_step c old new → row_ok old → row_ok new.
Proof.
  intros Hs Hok. pose proof (step_source _ _ _ Hs) as Hnt. pose proof (no_results_yet _ Hok Hnt) as Hno.
  pose proof (proj1 (checks_split old) (ok_checks _ Hok)) as (_ & [Hca Hcs]%counters_next & _).
  destruct (ok_metrics _ Hok Hnt) as [Em1 Em2]. pose proof (ok_attempt _ Hok) as Hat. unfold MAX_ATTEMPTS in Hat.
  assert (Hlease : holds_lease old → 1 ≤ e_attempt old ∧ ∃ t x, e_leaseToken old = Some t ∧
     e_leaseExpiresAt old = Some x ∧ x ≤ deadline old) by apply (ok_active _ Hok).
  assert (Hterm : ∀ k code fin, (k = T_CANCELLED → code = None) →
    row_ok (data_terminal k code fin (next_seq old) old)).
  { intros k code fin Hk. apply (row_ok_terminal old); cbn; unfold next_seq; try done; try lia.
    - by destruct k.
    - unfold terminal_fields_ok. cbn. destruct k; cbn; [by case_bool_decide|].
      by rewrite Hk.
    - unfold metrics_ok. cbn. by rewrite Em1, Em2.
    - rewrite Hno. by intros []. }
  destruct Hs as [Hq Hx|t Hq Hx|Hq|token Hwhen Hn Hd Ha|tl tc code Ha Hwhen Hcode|end_ Ha He1 He2 He3|Ha
    |Ha Hn Hcs'|Ha Hn Hm|v rt mem rs Ha Hn Hv Hrs Hrt Hmem|Ha Hn|code Ha Hcode|Ha Hn];
    try (by apply Hterm).
  - destruct (ok_queued _ Hok Hq) as (_ & Hl1 & Hl2 & _).
    apply (row_ok_terminal old); cbn; unfold next_seq; try done; try lia.
    + unfold metrics_ok. cbn. by rewrite Em1, Em2.
    + rewrite Hno. by intros [].
  - eapply (row_ok_active old); cbn; try done; [by left|unfold MAX_ATTEMPTS in *; lia|lia..].
  - destruct (Hlease (authorised_active _ _ Ha)) as (H1 & tok & x & Ht & Hx & _).
    apply authorised_active in Ha.
    eapply (row_ok_active old); cbn; try done; unfold MAX_ATTEMPTS; lia.
  - destruct (Hlease (authorised_active _ _ Ha)) as (H1 & tok & x & Ht & Hx & _).
    destruct Ha as (Ha & _ & Hd).
    eapply (row_ok_active old); cbn; try done; unfold MAX_ATTEMPTS; lia.
  - destruct (Hlease (authorised_active _ _ Ha)) as (H1 & tok & x & Ht & Hx & Hd).
    eapply (row_ok_active old); cbn; unfold next_seq; try done; first [by right|unfold MAX_ATTEMPTS; lia].
  - destruct (Hlease (authorised_active _ _ Ha)) as (H1 & tok & x & Ht & Hx & Hd).
    apply authorised_active in Ha.
    eapply (row_ok_active old); cbn; unfold next_seq; try done; unfold MAX_ATTEMPTS; lia.
  - apply (row_ok_terminal old); cbn; unfold next_seq; try done; try lia.
    + destruct (active_fields old (ok_checks _ Hok) Hnt) as (_ & _ & Hf).
      unfold terminal_fields_ok. cbn. rewrite Hf. by destruct v.
    + unfold metrics_ok. cbn. rewrite Em1, Em2. destruct rt, mem; cbn in *; by rewrite ?Hrt, ?Hmem.
    + rewrite Hno. destruct rs; cbn; [auto|by intros []].
  - destruct (Hlease Ha) as (H1 & tok & x & Ht & Hx & Hd).
    eapply (row_ok_active old); cbn; unfold next_seq; try done; unfold MAX_ATTEMPTS; lia.
Qed.

(** A step moves the row along the state graph of the contracts, or leaves the state alone
    with the attempt and a growing sequence, or is a re-claim of an expired lease that starts a
    new attempt; no step leaves a terminal state. *)
Lemma row_step_graph c old new :
  row_step c old new →
  isTerminal (e_state old) = false ∧
  ( canTransition (e_state old) (e_state new) = true
    ∧ (e_attempt new = e_attempt old ∨ e_attempt new = e_attempt old + 1 ∧ e_state old = QUEUED)
    ∨ e_state new = e_state old ∧ e_attempt new = e_attempt old
      ∧ e_lastSequence old ≤ e_lastSequence new ≤ e_lastSequence old + 1
    ∨ holds_lease old ∧ ¬ lease_live (now c) old ∧ e_state new = COMPILING
      ∧ e_attempt new = e_attempt old + 1 ).
Proof.
  intros Hs. split; [by eapply step_source|].
  destruct Hs as [Hq Hx|t Hq Hx|Hq|token Hwhen Hn Hd Ha|tl tc code Ha Hwhen Hcode|end_ Ha He1 He2 He3|Ha
    |Ha Hn Hcs'|Ha Hn Hm|v rt mem rs Ha Hn Hv Hrs Hrt Hmem|Ha Hn|code Ha Hcode|Ha Hn]; cbn; unfold next_seq.
  4: { destruct Hwhen as [[Hq _] | [Hh Hl]]; [left; rewrite Hq; auto|by right; right]. }
  all: try (by right; left; split_and!; first [lia|done]).
  all: left; split; [|by auto]; try (by rewrite Hq); try (by rewrite Hcs').
  all: try (apply authorised_active in Ha); destruct Ha as [-> | ->]; done.
Qed.

Lemma step_req c old new : row_step c old new → e_req new = e_req old.
Proof. by destruct 1. Qed.
Lemma step_sequence c old new :
  row_step c old new → e_attempt new = e_attempt old → e_lastSequence old ≤ e_lastSequence new.
Proof. destruct 1; cbn; unfold next_seq; lia. Qed.
Lemma step_id c old new : row_step c old new → e_id new = e_id old.
Proof. intros Hs. unfold e_id. by rewrite (step_req _ _ _ Hs). Qed.
