(* ===== verification/JobStoreFacts.v ===== *)
(** * The job store implements the lifecycle specification

    Every transaction of [JobStore] and of the queued-job expiry either leaves the database as
    it was or performs one [row_step] of [Lifecycle] per row it touches, with the public event
    that reports it ([effect]).  From this follow the database invariant, fencing, and the fact
    that no operation is ever rejected by the lifecycle trigger. *)

From S2P Require Import Prelude JsText Contracts Judge Database Serialization JobStore Lifecycle.
Local Open Scope Z_scope.

(** ** Primitive operations *)

Definition event_of (row : Execution) (f : EventFields) : PublicExecutionEvent :=
  mkEvent (e_id row) (e_attempt row) (next_seq row) f.
Definition event_size (row : Execution) (f : EventFields) : Z :=
  byteLength (stringify (event_json (event_of row f))).
Definition event_row (c : Clock) (row : Execution) (f : EventFields) : EventRow :=
  mkEventRow (e_id row) (e_attempt row) (next_seq row) (event_kind f)
    (event_json (event_of row f)) (event_size row f) (evNow c + REPLAY_TTL_MS).
(** What the retention pass keeps. *)
Definition trim (id : uuid) (l : list EventRow) : list EventRow :=
  let ks := ev_key <$> discard_loop 0 0 (merge_sort newer_first (rows_of id l)) in
  filter (λ e, ev_key e ∉ ks) l.
Definition key_free (k : uuid * Z * Z) (l : list EventRow) : Prop := k ∉ ev_key <$> l.

Lemma byteLength_app_ascii_le u s : 0 ≤ u < 128 → 1 ≤ byteLength (u :: s).
Proof.
  intros Hu. pose proof (byteLength_nonneg s). destruct s as [|v s].
  - cbn. pose proof (unit_bytes_bounds u). lia.
  - rewrite byteLength_unit; [|unfold is_high; lia]. pose proof (unit_bytes_bounds u). lia.
Qed.

Lemma existsb_key k l : existsb (λ e, bool_decide (ev_key e = k)) l = false ↔ key_free k l.
Proof.
  unfold key_free. rewrite list_elem_of_fmap. split.
  - intros E (e & -> & He). apply not_true_iff_false in E. apply E, existsb_exists.
    exists e. rewrite <- list_elem_of_In. split; [done|]. by apply bool_decide_eq_true.
  - intros Hn. apply not_true_iff_false. intros (e & He & E%bool_decide_eq_true)%existsb_exists.
    apply Hn. exists e. by rewrite list_elem_of_In.
Qed.

Section Facts.
Context `{Zod} (stripVT : jsstr → jsstr).

Lemma event_row_valid c row f :
  event_ok (event_of row f) = true → event_size row f ≤ 16384 → event_row_check (event_row c row f) = true.
Proof.
  assert (1 ≤ event_size row f) by (by apply byteLength_app_ascii_le).
  unfold event_ok, event_row_check, event_row, event_of.
  cbn [ev_attempt ev_sequence ev_bytes pe_executionId pe_attempt pe_sequence pe_fields].
  rewrite !andb_true_iff, !Z.leb_le, !Z.ltb_lt. intros [[[_ [_ ?]] [_ ?]] _]. lia.
Qed.

Lemma event_Ok c row f d z d' :
  event c row f d = Ok (z, d') ↔
  (event_ok (event_of row f) = true ∧ event_size row f ≤ 16384
   ∧ key_free (e_id row, e_attempt row, next_seq row) (events d))
  ∧ z = next_seq row ∧ d' = set_events (λ l, trim (e_id row) (l ++ [event_row c row f])) d.
Proof.
  unfold event. change (e_lastSequence row + 1) with (next_seq row).
  fold (event_of row f). fold (event_size row f). fold (event_row c row f).
  destruct (event_ok (event_of row f)) eqn:Eok; cbn [negb]; [|split; [done|naive_solver]].
  destruct (16384 <? event_size row f) eqn:Esz; [split; [done|intros ((_ & ? & _) & _); lia]|].
  apply Z.ltb_ge in Esz.
  unfold event_create, gets, event_delete_keys, modify, mbind, tx_bind, mret, tx_ret.
  change (ev_key (event_row c row f)) with (e_id row, e_attempt row, next_seq row).
  destruct (existsb _ (events d)) eqn:Ek.
  { split; [done|]. intros ((_ & _ & Hf) & _). apply existsb_key in Hf. congruence. }
  apply existsb_key in Ek. rewrite event_row_valid by done. cbn [negb].
  split; [intros [= <- <-]; done|]. by intros (_ & -> & ->).
Qed.

Lemma execution_update_Ok t id data d new d' :
  execution_update t id data d = Ok (new, d') ↔
  ∃ old, executions d !! id = Some old ∧ new = data old
    ∧ protect_execution_lifecycle t old new = None ∧ row_storable new = true
    ∧ d' = set_executions (<[id := new]>) d.
Proof.
  unfold execution_update. destruct (executions d !! id) as [old|]; [|split; [done|by intros (? & ? & _)]].
  destruct (protect_execution_lifecycle t old (data old)) eqn:Ep;
    [split; [done|intros (? & [= <-] & -> & ? & _); congruence]|].
  unfold row_storable. destruct (row_int4 (data old)) eqn:Ei; cbn [negb];
    [|split; [done|intros (? & [= <-] & -> & _ & [? _]%andb_true_iff & _); congruence]].
  destruct (execution_checks (data old)) eqn:Ec;
    [|split; [done|intros (? & [= <-] & -> & _ & [_ ?]%andb_true_iff & _); congruence]].
  split; [intros [= <- <-]; exists old; unfold row_storable; by rewrite Ei, Ec|]. by intros (? & [= <-] & -> & _ & _ & ->).
Qed.

Lemma notify_Ok c row v d u d' :
  notifyExecution c row v d = Ok (u, d') → ∃ ns, d' = set_notifications (λ _, ns) d.
Proof.
  assert (Hid : ∃ ns, d = set_notifications (λ _, ns) d) by (exists (notifications d); by destruct d).
  unfold notifyExecution, create_execution_result_notification.
  repeat case_match; intros [= <- <-]; try done; by eexists (_ (notifications d)).
Qed.

Lemma notify_total c row v d : ∃ d', notifyExecution c row v d = Ok (tt, d').
Proof.
  unfold notifyExecution, create_execution_result_notification.
  case_match; [|by eexists]. case_match eqn:E; [by eexists|].
  apply orb_false_iff in E as [_ E]. rewrite E. by eexists.
Qed.

(** ** Effects *)

(** Outbox rows that announce the end of a job that never ran. *)
Definition closing (o : OutboxRow) : Prop := o_kind o = EXECUTION_CANCELLED ∨ o_kind o = EXECUTION_EXPIRED.

(** The public boundary of an event: console output only for a RUN, and of a public case. *)
Definition event_public (d : db) (row : Execution) (f : EventFields) : Prop :=
  match f with
  | console_output caseId _ _ =>
      e_mode row = RUN ∧ caseId ∈ jc_id <$> public_cases d (x_problemVersionId (e_req row))
  | _ => True
  end.

(** The event log before the new event: a claim starts it afresh. *)
Definition base_events (old new : Execution) (l : list EventRow) : list EventRow :=
  if e_attempt new =? e_attempt old then l else filter (λ e, ev_executionId e ≠ e_id old) l.

Inductive event_change (d : db) (old new : Execution) : list EventRow → Prop :=
| ec_none :
    e_attempt new = e_attempt old → e_lastSequence new = e_lastSequence old →
    event_change d old new (events d)
| ec_append c prev f :
    e_req prev = e_req old → e_attempt prev = e_attempt new → next_seq prev = e_lastSequence new →
    event_ok (event_of prev f) = true → event_size prev f ≤ 16384 → event_public d old f →
    key_free (e_id old, e_attempt new, e_lastSequence new) (base_events old new (events d)) →
    event_change d old new (trim (e_id old) (base_events old new (events d) ++ [event_row c prev f])).

Definition put (d : db) (id : uuid) (new : Execution) (evs : list EventRow) (obs : list OutboxRow)
    (ns : list Notification) : db :=
  mkDb (<[id := new]> (executions d)) evs obs ns (rateLimits d) (problemVersions d) (problems d)
    (users d) (competitions d).

Inductive effect (c : Clock) (id : uuid) (d : db) : db → Prop :=
| eff_none : effect c id d d
| eff_outbox obs :
    (∀ o, o ∈ obs → closing o → o ∈ outbox d) → effect c id d (set_outbox (λ _, obs) d)
| eff_row old new evs obs ns :
    executions d !! id = Some old → row_step c old new → event_change d old new evs →
    (∀ o, o ∈ obs → closing o → o ∈ outbox d ∨ o_executionId o = id ∧ isTerminal (e_state new) = true) →
    effect c id d (put d id new evs obs ns).

Definition rows_wf (d : db) : Prop := ∀ id e, executions d !! id = Some e → e_id e = id ∧ row_ok e.

Lemma set_events_same d : set_events (λ _, events d) d = d.
Proof. by destruct d. Qed.
Lemma set_notifications_same d : set_notifications (λ _, notifications d) d = d.
Proof. by destruct d. Qed.
Lemma base_events_same old new l : e_attempt new = e_attempt old → base_events old new l = l.
Proof. unfold base_events. intros ->. by rewrite Z.eqb_refl. Qed.

(** An event followed by the update that records it. *)
Lemma event_update_effect c prev old f d z d2 ns t data new' d3 :
  let new := data (next_seq prev) old in
  executions d !! e_id old = Some old →
  event c prev f (set_events (λ _, base_events old new (events d)) d) = Ok (z, d2) →
  e_req prev = e_req old →
  e_attempt prev = e_attempt new → next_seq prev = e_lastSequence new → event_public d old f →
  execution_update t (e_id old) (data z) (set_notifications (λ _, ns) d2) = Ok (new', d3) →
  new' = new ∧ ∃ evs, event_change d old new evs ∧ d3 = put d (e_id old) new evs (outbox d) ns.
Proof.
  intros new Hrow ((Hok & Hsz & Hkey) & -> & ->)%event_Ok Hreq Hat Hseq Hpub.
  intros (o & Ho & -> & _ & _ & ->)%execution_update_Ok. cbn in Ho. simplify_eq/=.
  assert (e_id prev = e_id old) as Eid by (unfold e_id; by rewrite Hreq).
  split; [done|]. eexists. split; [|reflexivity]. cbn. rewrite Eid.
  apply ec_append; try done. fold new. by rewrite <- Hat, <- Hseq, <- Eid.
Qed.

Lemma commit_effect c row f d z d2 ns t data new' d3 :
  executions d !! e_id row = Some row →
  (∀ z, e_attempt (data z row) = e_attempt row ∧ e_lastSequence (data z row) = z) →
  event c row f d = Ok (z, d2) → event_public d row f →
  execution_update t (e_id row) (data z) (set_notifications (λ _, ns) d2) = Ok (new', d3) →
  new' = data (next_seq row) row ∧
  ∃ evs, event_change d row new' evs ∧ d3 = put d (e_id row) new' evs (outbox d) ns.
Proof.
  intros Hrow Hdata Hev Hpub Hup. destruct (Hdata (next_seq row)) as [Ha Hs].
  destruct (event_update_effect c row row f d z d2 ns t data new' d3) as (-> & Hx); try done.
  by rewrite base_events_same, set_events_same.
Qed.

Lemma terminal_effect c row k code d u d' :
  executions d !! e_id row = Some row → terminal c row k code d = Ok (u, d') →
  ∃ evs ns, let new := data_terminal k code (finNow c) (next_seq row) row in
    event_change d row new evs ∧ d' = put d (e_id row) new evs (outbox d) ns.
Proof.
  intros Hrow E. unfold terminal in E. inv_tx. apply notify_Ok in Hrun0 as [ns ->].
  eapply (commit_effect _ _ _ _ _ _ _ _ (data_terminal k code (finNow c))) in Hrun1 as (-> & evs & Hch & ->);
    [by exists evs, ns|done..].
Qed.

Lemma terminal_effect_closing c row k code d u d' :
  executions d !! e_id row = Some row → terminal c row k code d = Ok (u, d') →
  row_step c row (data_terminal k code (finNow c) (next_seq row) row) → effect c (e_id row) d d'.
Proof.
  intros Hrow (evs & ns & Hch & ->)%terminal_effect Hs; [|done].
  by apply (eff_row c (e_id row) d row); auto.
Qed.

Lemma valid_authorised t row lease :
  valid t row lease = true ↔
  authorised t row ∧ e_attempt row = l_attempt lease ∧ e_leaseToken row = Some (l_token lease).
Proof.
  unfold valid, authorised, holds_lease, lease_live.
  rewrite !andb_true_iff, !negb_true_iff, bool_decide_eq_false, bool_decide_eq_true, Z.eqb_eq, Z.ltb_lt.
  destruct (e_leaseExpiresAt row) as [x|]; [rewrite Z.ltb_lt|];
    destruct (e_state row); naive_solver.
Qed.

Lemma locked_run {A} id (f : option Execution → tx db A) d :
  (locked id ≫= f) d = f (executions d !! id) d.
Proof. done. Qed.

(** Enters an operation that starts by locking its row. *)
Ltac enter_op E Hk row Hrow :=
  rewrite locked_run in E;
  destruct (executions _ !! _) as [row|] eqn:Hrow in E; [|by inv_tx; constructor];
  destruct (Hk _ _ Hrow) as [Hid Hok]; rewrite <- Hid in Hrow |- *.

Lemma not_live_negb t row :
  match e_leaseExpiresAt row with Some x => t <? x | None => false end = false ↔ ¬ lease_live t row.
Proof.
  unfold lease_live. destruct (e_leaseExpiresAt row) as [x|].
  - rewrite Z.ltb_ge. split; [intros ? (? & [= <-] & ?); lia|].
    intros Hn. destruct (decide (t < x)); [|lia]. exfalso. eauto.
  - split; [by intros _ (? & ? & _)|done].
Qed.

Lemma active_cases s : isTerminal s = false → s ≠ QUEUED → s = COMPILING ∨ s = RUNNING.
Proof. destruct s; auto; done. Qed.

(** A row that passes the first guards of [claim] is waiting in the queue or has lost its lease. *)
Lemma claimable_when t row :
  isTerminal (e_state row) = false →
  bool_decide (e_state row = QUEUED) && (e_queueExpiresAt row <=? t) = false →
  negb (bool_decide (e_state row = QUEUED))
    && match e_leaseExpiresAt row with Some x => t <? x | None => false end = false →
  (e_state row = QUEUED ∧ t < e_queueExpiresAt row) ∨ (holds_lease row ∧ ¬ lease_live t row).
Proof.
  intros Ht. destruct (bool_decide_reflect (e_state row = QUEUED)) as [Hq|Hq]; cbn; intros Eq El.
  - left. split; [done|lia].
  - right. by split; [apply active_cases|apply not_live_negb].
Qed.

Lemma claim_effect c token id d r d' :
  rows_wf d → claim c token id d = Ok (r, d') → effect c id d d'.
Proof.
  intros Hk E. unfold claim in E. enter_op E Hk row Hrow.
  destruct (isTerminal (e_state row)) eqn:Ht; [by inv_tx; constructor|].
  destruct (bool_decide (e_state row = QUEUED) && _) eqn:Eq.
  { inv_tx. checks. apply Z.leb_le in H1.
    eapply terminal_effect_closing; [done..|by constructor]. }
  destruct (negb (bool_decide (e_state row = QUEUED)) && _) eqn:El; [by inv_tx; constructor|].
  pose proof (claimable_when _ _ Ht Eq El) as Hwhen.
  destruct (bool_decide_reflect (is_Some (e_cancellationRequestedAt row))) as [Hcan|Hcan].
  { inv_tx. destruct Hwhen as [[Hq _] | [Hh Hl]].
    - destruct (ok_queued _ Hok Hq) as (_ & _ & _ & Hn). rewrite Hn in Hcan. by destruct Hcan.
    - eapply terminal_effect_closing; [done..|by eapply (rs_give_up _ _ (now c) (now c)); auto]. }
  apply eq_None_not_Some in Hcan.
  destruct ((deadline row <=? now c) || (MAX_ATTEMPTS <=? e_attempt row)) eqn:Ed.
  { inv_tx. destruct Hwhen as [[Hq Hx] | [Hh Hl]].
    - exfalso. destruct (ok_queued _ Hok Hq) as (Ha & _).
      apply orb_true_iff in Ed as [Ed|Ed]; unfold deadline, MAX_ATTEMPTS in *; lia.
    - eapply terminal_effect_closing; [done..|by eapply (rs_give_up _ _ (now c) (now c)); auto; case_match]. }
  apply orb_false_iff in Ed as [Ed1%Z.leb_gt Ed2%Z.leb_gt]. inv_tx.
  assert (E1 : set_events (λ _, base_events row (data_claim (e_attempt row + 1) 1 token
     (Z.min (now c + LEASE_MS) (deadline row)) row) (events d)) d
     = set_events (filter (λ e, ev_executionId e ≠ e_id row)) d).
  { unfold base_events. cbn. rewrite (proj2 (Z.eqb_neq _ _)) by lia. done. }
  unfold event_delete_execution in Hrun. inv_tx. rewrite <- E1 in Hrun0. rewrite <- (set_notifications_same s0) in Hrun1.
  eapply (event_update_effect _ _ row _ _ _ _ _ _
    (λ seq, data_claim (e_attempt row + 1) seq token (Z.min (now c + LEASE_MS) (deadline row))))
    in Hrun1 as (-> & evs & Hch & ->); try done.
  eapply eff_row; [done| |exact Hch|by auto]. by apply rs_claim.
Qed.

Lemma renew_effect c lease d r d' :
  rows_wf d → renew c lease d = Ok (r, d') → effect c (l_executionId lease) d d'.
Proof.
  intros Hk E. unfold renew in E. enter_op E Hk row Hrow.
  destruct (valid (now c) row lease) eqn:Hv; cbn [negb] in E; [|by inv_tx; constructor].
  apply valid_authorised in Hv as (Ha & _).
  set (base := Z.min (now c + LEASE_MS) (deadline row)) in E.
  set (end_ := match e_cancellationRequestedAt row with Some t => _ | None => base end) in E.
  destruct (end_ <=? now c) eqn:Ee; [by inv_tx; constructor|]. apply Z.leb_gt in Ee. inv_tx.
  apply execution_update_Ok in Hrun as (o & Ho & -> & _ & _ & ->). simplify_eq.
  eapply (eff_row _ _ _ row _ _ (outbox d) (notifications d)); [done| |by apply ec_none|by auto].
  assert (end_ ≤ base ∧ ∀ r, e_cancellationRequestedAt row = Some r → end_ ≤ r + CANCEL_GRACE_MS) as [Hb Hc].
  { unfold end_. destruct (e_cancellationRequestedAt row); split; intros; simplify_eq; lia. }
  apply rs_renew; try done; lia.
Qed.

(** An event and its update in an operation that sends no notification. *)
Lemma quiet_commit_effect c row f d z d2 t data new' d3 :
  executions d !! e_id row = Some row →
  (∀ z, e_attempt (data z row) = e_attempt row ∧ e_lastSequence (data z row) = z) →
  event c row f d = Ok (z, d2) → event_public d row f →
  execution_update t (e_id row) (data z) d2 = Ok (new', d3) →
  row_step c row (data (next_seq row) row) → effect c (e_id row) d d3.
Proof.
  intros Hrow Hdata Hev Hpub Hup Hs. rewrite <- (set_notifications_same d2) in Hup.
  destruct (commit_effect _ _ _ _ _ _ _ _ data _ _ Hrow Hdata Hev Hpub Hup) as (-> & evs & Hch & ->).
  by eapply eff_row; eauto.
Qed.

Lemma markRunning_effect c lease d r d' :
  rows_wf d → markRunning c lease d = Ok (r, d') → effect c (l_executionId lease) d d'.
Proof.
  intros Hk E. unfold markRunning in E. enter_op E Hk row Hrow.
  destruct (valid (now c) row lease) eqn:Hv; cbn [negb orb] in E; [|by inv_tx; constructor].
  apply valid_authorised in Hv as (Ha & _).
  destruct (bool_decide_reflect (is_Some (e_cancellationRequestedAt row))) as [Hcan|Hcan];
    cbn [orb] in E; [by inv_tx; constructor|]. apply eq_None_not_Some in Hcan.
  destruct (bool_decide_reflect (e_state row = COMPILING)) as [Hs|Hs];
    cbn [negb] in E; [|by inv_tx; constructor]. inv_tx.
  eapply (quiet_commit_effect _ _ _ _ _ _ _ (data_progress RUNNING)); try done. by apply rs_run.
Qed.

Lemma console_effect c lease caseId stream text d r d' :
  rows_wf d → console stripVT c lease caseId stream text d = Ok (r, d') →
  effect c (l_executionId lease) d d'.
Proof.
  intros Hk E. unfold console in E. destruct (_ || _) in E; [by inv_tx|]. enter_op E Hk row Hrow.
  destruct (valid (now c) row lease) eqn:Hv; cbn [negb orb] in E; [|by inv_tx; constructor].
  apply valid_authorised in Hv as (Ha & _).
  destruct (bool_decide_reflect (is_Some (e_cancellationRequestedAt row))) as [Hcan|Hcan];
    [by inv_tx; constructor|]. apply eq_None_not_Some in Hcan. inv_tx.
  destruct (bool_decide_reflect (e_mode row = RUN)) as [Hm|Hm]; cbn [negb orb] in E; [|by inv_tx].
  destruct (bool_decide_reflect (caseId ∈ jc_id <$> public_cases d (x_problemVersionId (e_req row))))
    as [Hp|Hp]; cbn [negb] in E; [|by inv_tx]. inv_tx.
  eapply (quiet_commit_effect _ _ _ _ _ _ _ (λ seq e, data_progress (e_state e) seq e)); try done.
  by apply rs_console.
Qed.

Lemma resultSchema_verdict input : resultSchema input = true → learner_verdict (jr_verdict input) = true.
Proof. unfold resultSchema. by intros [[[? ?]%andb_true_iff ?]%andb_true_iff ?]%andb_true_iff. Qed.

Lemma nonneg_opt o : opt_check nonneg_int o = true → opt_check (λ n, 0 <=? n) o = true.
Proof. destruct o as [n|]; [|done]. cbn. unfold nonneg_int. lia. Qed.

(** A result that passes the schema and the privacy check finishes the row. *)
Lemma finish_step c row input public :
  authorised (now c) row → e_cancellationRequestedAt row = None → resultSchema input = true →
  public_results_ok row public (jr_publicCaseResults input) = true →
  row_step c row (data_finish (jr_verdict input) (jr_runtimeMs input) (jr_memoryKiB input)
    ((λ l : list PublicCaseResult, safe_result stripVT <$> l) <$> jr_publicCaseResults input)
    (finNow c) (next_seq row) row).
Proof.
  intros Ha Hcan Hin Hpub. pose proof Hin as Hv%resultSchema_verdict. unfold resultSchema in Hin. checks.
  apply rs_finish; try done; [|by apply nonneg_opt..].
  intros [l Hl]%fmap_is_Some. unfold public_results_ok in Hpub. rewrite Hl in Hpub. by checks.
Qed.

Lemma finish_effect c lease input d r d' :
  rows_wf d → finish stripVT c lease input d = Ok (r, d') → effect c (l_executionId lease) d d'.
Proof.
  intros Hk E. unfold finish in E.
  destruct (resultSchema input) eqn:Hin; cbn [negb] in E; [|by inv_tx].
  destruct (MAX_OUTPUT_BYTES <? _) in E; [by inv_tx|]. enter_op E Hk row Hrow.
  destruct (valid (now c) row lease) eqn:Hv; cbn [negb] in E; [|by inv_tx; constructor].
  apply valid_authorised in Hv as (Ha & _).
  destruct (bool_decide_reflect (is_Some (e_cancellationRequestedAt row))) as [Hcan|Hcan].
  { inv_tx. eapply terminal_effect_closing; [done..|by constructor]. }
  apply eq_None_not_Some in Hcan. inv_tx.
  destruct (public_results_ok _ _ _) eqn:Hpub; cbn [negb] in E; [|by inv_tx]. inv_tx.
  apply notify_Ok in Hrun0 as [ns ->].
  eapply (commit_effect _ _ _ _ _ _ _ _ (data_finish _ _ _ _ _)) in Hrun1 as (-> & evs & Hch & ->); try done.
  eapply eff_row; [done| |exact Hch|by auto]. by eapply finish_step.
Qed.

Lemma fail_effect c lease cleanupConfirmed d r d' :
  rows_wf d → fail c lease cleanupConfirmed d = Ok (r, d') → effect c (l_executionId lease) d d'.
Proof.
  intros Hk E. unfold fail in E. enter_op E Hk row Hrow.
  destruct (valid (now c) row lease) eqn:Hv; cbn [negb] in E; [|by inv_tx; constructor].
  apply valid_authorised in Hv as (Ha & _). inv_tx. revert Hrun.
  destruct (bool_decide_reflect (is_Some (e_cancellationRequestedAt row))) as [Hcan|Hcan];
    destruct cleanupConfirmed; cbn; intros Hrun;
    (eapply terminal_effect_closing; [done..|constructor; by auto]).
Qed.

(** The upsert of a recovery intent closes nothing. *)
Lemma recovery_upsert_Ok id g t upd d u d' :
  outbox_upsert (new_outbox id EXECUTION_RECOVERY g t) upd d = Ok (u, d') →
  (∀ o, o_key (upd o) = o_key o) →
  ∃ obs, d' = set_outbox (λ _, obs) d ∧ ∀ o, o ∈ obs → closing o → o ∈ outbox d.
Proof.
  unfold outbox_upsert. intros E Hupd. inv_tx. eexists. split; [by destruct d|].
  intros o. case_match.
  - intros (o' & -> & Ho)%list_elem_of_fmap. case_bool_decide as Ek; [|done].
    specialize (Hupd o'). rewrite Ek in Hupd. unfold o_key in Hupd. simplify_eq/=.
    intros [Hc|Hc]; congruence.
  - intros [Ho | ->%list_elem_of_singleton]%elem_of_app; [done|]. by intros [|].
Qed.

Lemma recover_effect c lease d r d' :
  rows_wf d → recover c lease d = Ok (r, d') → effect c (l_executionId lease) d d'.
Proof.
  intros Hk E. unfold recover in E. enter_op E Hk row Hrow.
  destruct (valid (now c) row lease) eqn:Hv; cbn [negb] in E; [|by inv_tx; constructor].
  apply valid_authorised in Hv as (Ha & _).
  destruct (bool_decide_reflect (is_Some (e_cancellationRequestedAt row))) as [Hcan|Hcan].
  { inv_tx. eapply terminal_effect_closing; [done..|by constructor]. }
  destruct (MAX_ATTEMPTS <=? e_attempt row).
  { inv_tx. eapply terminal_effect_closing; [done..|by constructor; auto]. }
  inv_tx. apply execution_update_Ok in Hrun as (o & Ho & -> & _ & _ & ->). simplify_eq.
  apply recovery_upsert_Ok in Hrun0 as (obs & -> & Hobs); [|done].
  apply (eff_row _ _ d row (data_lease (now c) row) (events d) obs (notifications d)); [done|by apply rs_release|by apply ec_none|].
  intros o Ho' Hc. left. by apply Hobs.
Qed.

Lemma cancel_effect c userId id activeAllowed d r d' :
  rows_wf d → cancel c userId id activeAllowed d = Ok (r, d') → effect c id d d'.
Proof.
  intros Hk E. unfold cancel in E. rewrite locked_run in E.
  destruct (executions d !! id) as [row|] eqn:Hrow; [|by inv_tx].
  destruct (Hk _ _ Hrow) as [Hid Hok]. rewrite <- Hid in Hrow |- *.
  destruct (negb _) in E; [by inv_tx|].
  destruct (bool_decide_reflect (e_state row = QUEUED)) as [Hq|Hq].
  - inv_tx. apply terminal_effect in Hrun as (evs & ns & Hch & ->); [|done].
    unfold outbox_create in Hrun0. case_match; simplify_eq.
    apply (eff_row _ _ d row (data_terminal T_CANCELLED None (finNow c) (next_seq row) row) evs
      (outbox d ++ [new_outbox (e_id row) EXECUTION_CANCELLED 0 (insNow c)]) ns);
      [done| |exact Hch|].
    + by apply rs_cancel_queued.
    + intros o [Ho | ->%list_elem_of_singleton]%elem_of_app _; [by left|by right].
  - destruct (isTerminal (e_state row)) eqn:Ht; cbn [negb] in E; [by inv_tx; constructor|].
    destruct activeAllowed; cbn [negb] in E; [|by inv_tx]. inv_tx. revert Hrun.
    destruct (bool_decide_reflect (e_cancellationRequestedAt row = None)) as [Hn|Hn];
      intros Hrun; inv_tx; [|constructor].
    eapply (quiet_commit_effect _ _ _ _ _ _ _ (data_cancel _)); try done.
    apply rs_request_cancel; [by apply active_cases|done].
Qed.
End Facts.
