(* ===== verification/Invariant.v ===== *)
(** * The database invariant of the execution pipeline

    [inv] ties the execution rows, the replay log and the outbox together; every operation of
    the job store preserves it, batch operations included. *)

From S2P Require Import Prelude JsText Contracts Judge Database Serialization JobStore Lifecycle.
From S2P Require Import JobStoreFacts.
Local Open Scope Z_scope.

Section Invariant.
Context `{Zod} (stripVT : jsstr → jsstr).

(** A replay row belongs to the current attempt of its execution, its payload is the serialised
    event with the row's own identity, and it is inside the public boundary. *)
Definition event_wf (d : db) (r : EventRow) : Prop :=
  ∃ e f, executions d !! ev_executionId r = Some e ∧ ev_attempt r = e_attempt e
    ∧ 0 < ev_sequence r ≤ e_lastSequence e ∧ 0 ≤ ev_bytes r ≤ 16384
    ∧ ev_payload r = event_json (mkEvent (ev_executionId r) (ev_attempt r) (ev_sequence r) f)
    ∧ event_ok (mkEvent (ev_executionId r) (ev_attempt r) (ev_sequence r) f) = true
    ∧ event_public d e f.

Record inv (d : db) : Prop := {
  inv_rows : rows_wf d;
  inv_ids : ∀ id e, executions d !! id = Some e →
    z_uuid id = true ∧ is_Some (problemVersions d !! x_problemVersionId (e_req e));
  inv_events : ∀ r, r ∈ events d → event_wf d r;
  inv_keys : NoDup (ev_key <$> events d);
  inv_outbox : ∀ o, o ∈ outbox d → closing o →
    ∃ e, executions d !! o_executionId o = Some e ∧ isTerminal (e_state e) = true;
  inv_idem : ∀ i1 e1 i2 e2, executions d !! i1 = Some e1 → executions d !! i2 = Some e2 →
    x_userId (e_req e1) = x_userId (e_req e2) →
    x_idempotencyKey (e_req e1) = x_idempotencyKey (e_req e2) → i1 = i2
}.

(** ** Single-row effects *)

Lemma trim_sublist id l : trim id l `sublist_of` l.
Proof. apply sublist_filter. Qed.
Lemma base_events_sublist old new l : base_events old new l `sublist_of` l.
Proof. unfold base_events. case_match; [done|apply sublist_filter]. Qed.

Lemma event_wf_other d id new evs obs ns r :
  ev_executionId r ≠ id → event_wf d r → event_wf (put d id new evs obs ns) r.
Proof.
  intros Hne (e & f & He & Hrest). exists e, f. cbn. by rewrite lookup_insert_ne.
Qed.

Lemma event_wf_same c d old new evs obs ns r :
  executions d !! e_id old = Some old → row_step c old new → e_attempt new = e_attempt old →
  event_wf d r → event_wf (put d (e_id old) new evs obs ns) r.
Proof.
  intros Ho Hs Ha Hr. destruct (decide (ev_executionId r = e_id old)) as [E|E];
    [|by apply event_wf_other].
  destruct Hr as (e & f & He & Hat & Hseq & Hb & Hp & Hok & Hpub). rewrite E in He. simplify_eq.
  exists new, f. cbn. rewrite E, lookup_insert_eq. pose proof (step_sequence _ _ _ Hs Ha).
  split_and!; try done; try lia; [by rewrite <- E..|].
  destruct f; try done. unfold event_public, e_mode in *. by rewrite (step_req _ _ _ Hs).
Qed.

Lemma event_change_wf c d old new evs obs ns :
  inv d → executions d !! e_id old = Some old → row_step c old new → event_change d old new evs →
  (∀ r, r ∈ evs → event_wf (put d (e_id old) new evs obs ns) r) ∧ NoDup (ev_key <$> evs).
Proof.
  intros Hinv Ho Hs Hch. set (d' := put _ _ _ _ _ _).
  destruct Hch as [Ha Hl|c' prev f Hreq Ha Hl Hok Hsz Hpub Hfree].
  { split; [|by apply inv_keys]. intros r Hr. by eapply event_wf_same, inv_events. }
  assert (Hid : e_id prev = e_id old) by (unfold e_id; by rewrite Hreq).
  assert (Hbase : ∀ r, r ∈ base_events old new (events d) → event_wf d' r).
  { intros r. unfold base_events. case_match eqn:E.
    - intros Hr. apply Z.eqb_eq in E. by eapply event_wf_same, inv_events.
    - intros [Hne Hr]%list_elem_of_filter. by apply event_wf_other, inv_events. }
  split.
  - intros r Hr. eapply elem_of_sublist, elem_of_app in Hr as [Hr|Hr%list_elem_of_singleton];
      [by apply Hbase| |apply trim_sublist]. subst r.
    exists new, f. cbn [event_row ev_executionId ev_attempt ev_sequence ev_bytes ev_payload].
    cbn [d' put executions]. rewrite Hid, lookup_insert_eq.
    pose proof (byteLength_nonneg (stringify (event_json (event_of prev f)))).
    pose proof Hok as Hok'. unfold event_ok in Hok'. cbn in Hok'.
    rewrite !andb_true_iff, !Z.ltb_lt in Hok'. destruct Hok' as [[_ [_ Hpos]] _].
    unfold event_size in *. unfold event_of in *. rewrite Hid in *. split_and!; try done; try lia.
    destruct f; try done. unfold event_public, e_mode in *. by rewrite (step_req _ _ _ Hs).
  - eapply sublist_NoDup; [|apply fmap_sublist, trim_sublist]. rewrite fmap_app.
    apply NoDup_app. split; [|split; [|apply NoDup_singleton]].
    + eapply sublist_NoDup; [by apply inv_keys|apply fmap_sublist, base_events_sublist].
    + intros k Hk ->%list_elem_of_singleton. apply Hfree.
      unfold ev_key, event_row in Hk. cbn in Hk. by rewrite Hid, Ha, Hl in Hk.
Qed.

Lemma inv_set_outbox d f :
  inv d → (∀ o, o ∈ f (outbox d) → closing o →
             ∃ e, executions d !! o_executionId o = Some e ∧ isTerminal (e_state e) = true) →
  inv (set_outbox f d).
Proof. intros [H1 H2 H3 H4 H5 H6] Hf. by split. Qed.

Lemma effect_inv c id d d' : inv d → effect c id d d' → inv d'.
Proof.
  intros Hinv [|obs Hobs|old new evs obs ns Ho Hs Hch Hobs]; [done| |].
  { apply inv_set_outbox; [done|]. intros o Ho Hc. by apply (inv_outbox _ Hinv), Hc; apply Hobs. }
  destruct (inv_rows _ Hinv _ _ Ho) as [<- Hok].
  destruct (event_change_wf c d old new evs obs ns Hinv Ho Hs Hch) as [Hev Hnd].
  split; [| |done|done| |].
  - intros i e. cbn. intros [[<- <-] | [Hne He]]%lookup_insert_Some.
    + split; [by eapply step_id|by eapply row_step_ok].
    + by apply (inv_rows _ Hinv).
  - intros i e. cbn. intros [[<- <-] | [Hne He]]%lookup_insert_Some.
    + rewrite (step_req _ _ _ Hs). by apply (inv_ids _ Hinv).
    + by apply (inv_ids _ Hinv).
  - intros o Hin Hc. cbn. destruct (Hobs o Hin Hc) as [Hin' | [-> Ht]].
    + destruct (inv_outbox _ Hinv o Hin' Hc) as (e & He & Ht).
      destruct (decide (o_executionId o = e_id old)) as [E|E].
      * rewrite E in *. simplify_eq. by rewrite (step_source _ _ _ Hs) in Ht.
      * exists e. by rewrite lookup_insert_ne.
    + exists new. by rewrite lookup_insert_eq.
  - assert (Hold : ∀ i e, <[e_id old := new]> (executions d) !! i = Some e →
      ∃ e0, executions d !! i = Some e0 ∧ e_req e0 = e_req e).
    { intros i e [[<- <-] | [_ He]]%lookup_insert_Some; [|by exists e].
      exists old. by rewrite (step_req _ _ _ Hs). }
    intros i1 e1 i2 e2 (a1 & Ha1 & <-)%Hold (a2 & Ha2 & <-)%Hold. by apply (inv_idem _ Hinv).
Qed.

(** ** Batches *)

Definition effects (clk : uuid → Clock) : relation db := rtc (λ d d', ∃ id, effect (clk id) id d d').

Lemma effects_inv clk d d' : inv d → effects clk d d' → inv d'.
Proof. intros Hi Hr. induction Hr as [|d d1 d2 [id He] _ IH]; [done|]. by eapply IH, effect_inv. Qed.

(** A loop over distinct locked rows, each of whose iterations is one effect on its own row. *)
Lemma loop_rows clk (f : Execution → tx db unit) (g : Execution → Execution) rows d u d' :
  (∀ row d1 u1 d2, row ∈ rows → inv d1 → executions d1 !! e_id row = Some row →
     f row d1 = Ok (u1, d2) →
     effect (clk (e_id row)) (e_id row) d1 d2 ∧ executions d2 = <[e_id row := g row]> (executions d1)) →
  NoDup (e_id <$> rows) → (∀ row, row ∈ rows → executions d !! e_id row = Some row) → inv d →
  for_each f rows d = Ok (u, d') →
  effects clk d d' ∧ (∀ row, row ∈ rows → executions d' !! e_id row = Some (g row))
  ∧ (∀ id, id ∉ e_id <$> rows → executions d' !! id = executions d !! id).
Proof.
  revert d. induction rows as [|row rows IH]; intros d Hf Hnd Hcur Hinv E.
  { apply mret_Ok in E as [_ ->]. split; [constructor|]. split; [|done].
    by intros ? ?%elem_of_nil. }
  cbn in E, Hnd. apply bind_Ok in E as (u1 & d1 & E1 & E2). apply NoDup_cons in Hnd as [Hni Hnd].
  destruct (Hf row d u1 d1) as [He Hx]; [left|done|by apply Hcur; left|done|].
  destruct (IH d1) as (Hs & Hrows & Hother); try done.
  - intros row' d2 u2 d3 Hin. apply Hf. by right.
  - intros row' Hin. rewrite Hx, lookup_insert_ne; [by apply Hcur; right|].
    intros Eid. apply Hni. rewrite Eid. by apply list_elem_of_fmap_2.
  - by eapply effect_inv.
  - split; [|split].
    + eapply rtc_l; [by exists (e_id row)|done].
    + intros row' [-> | Hin]%elem_of_cons; [|by apply Hrows].
      by rewrite Hother, Hx, lookup_insert_eq.
    + intros id [Hne Hni']%not_elem_of_cons. rewrite Hother by done.
      rewrite Hx. by apply lookup_insert_ne.
Qed.

Lemma map_values_NoDup (d : db) : rows_wf d → NoDup (e_id <$> (map_to_list (executions d)).*2).
Proof.
  intros Hwf. rewrite <- list_fmap_compose.
  replace ((e_id ∘ snd) <$> map_to_list (executions d)) with (map_to_list (executions d)).*1;
    [apply NoDup_fst_map_to_list|].
  apply list_fmap_ext. intros i [k e] Hk. cbn.
  symmetry. apply (Hwf k e). by eapply elem_of_map_to_list, list_elem_of_lookup_2.
Qed.

(** The rows a batch query selects: distinct, current, and satisfying its condition. *)
Lemma batch_rows (d : db) n (R : relation Execution) `{!RelDecision R} (P : Execution → Prop)
    `{!∀ e, Decision (P e)} rows :
  rows_wf d → rows = take n (merge_sort R (filter P (map_to_list (executions d)).*2)) →
  NoDup (e_id <$> rows) ∧ ∀ row, row ∈ rows → executions d !! e_id row = Some row ∧ P row.
Proof.
  intros Hwf ->. set (l := filter P _). split.
  - eapply sublist_NoDup; [|apply fmap_sublist, sublist_take].
    rewrite merge_sort_Permutation. unfold l.
    eapply sublist_NoDup; [by apply map_values_NoDup|apply fmap_sublist, sublist_filter].
  - intros row Hin. eapply elem_of_sublist in Hin; [|apply sublist_take].
    rewrite merge_sort_Permutation in Hin. apply list_elem_of_filter in Hin as [HP Hin].
    split; [|done]. apply list_elem_of_fmap in Hin as ([k e] & -> & Hk%elem_of_map_to_list).
    destruct (Hwf _ _ Hk) as [<- _]. done.
Qed.

(** ** Changes of the outbox and of the replay log only *)

Lemma inv_set_events d f :
  inv d → f (events d) `sublist_of` events d → inv (set_events f d).
Proof.
  intros [H1 H2 H3 H4 H5 H6] Hf. split; try done.
  - intros r Hr. by apply (H3 r); eapply elem_of_sublist.
  - eapply sublist_NoDup; [exact H4|by apply fmap_sublist].
Qed.

Lemma reoffer_inv mc busy d u d' : inv d → reoffer mc busy d = Ok (u, d') → inv d'.
Proof.
  intros Hi E. unfold reoffer in E. inv_tx. apply inv_set_outbox; [done|].
  intros o (o' & -> & Ho)%list_elem_of_fmap Hc.
  assert (o_executionId (if bool_decide (o_key o' ∈ o_key <$> take 100 (filter (λ o, reofferable mc d o ∧ busy o = false)
    (outbox d))) then unpublish o' else o') = o_executionId o' ∧ closing o') as [-> Hc'] by by case_match.
  by apply (inv_outbox _ Hi).
Qed.
Lemma expire_events_inv mc d u d' : inv d → expire_events mc d = Ok (u, d') → inv d'.
Proof.
  intros Hi E. unfold expire_events, event_delete_keys in E. inv_tx.
  apply inv_set_events; [done|apply sublist_filter].
Qed.
Lemma reoffer_executions mc busy d u d' : reoffer mc busy d = Ok (u, d') → executions d' = executions d.
Proof. intros E. unfold reoffer in E. by inv_tx. Qed.
Lemma expire_events_executions mc d u d' : expire_events mc d = Ok (u, d') → executions d' = executions d.
Proof. intros E. unfold expire_events, event_delete_keys in E. by inv_tx. Qed.

(** ** Maintenance *)

(** The reconciliation verdict on an overdue row: the failure it is given, if any. *)
Definition gives_up (t : Z) (row : Execution) : option ExecutionFailureCode :=
  if bool_decide (is_Some (e_cancellationRequestedAt row)) then Some CANCELLATION_TIMEOUT
  else if MAX_ATTEMPTS <=? e_attempt row then Some LEASE_EXPIRED
  else if deadline row <=? t then Some JOB_TIMEOUT else None.
Definition maintained (c : Clock) (row : Execution) : Execution :=
  match gives_up (now c) row with
  | Some code => data_terminal T_INTERNAL_ERROR (Some code) (finNow c) (next_seq row) row
  | None => row
  end.

Lemma maintain_row_eq clk row :
  maintain_row clk row =
  match gives_up (now (clk (e_id row))) row with
  | Some code => terminal (clk (e_id row)) row T_INTERNAL_ERROR (Some code)
  | None => outbox_upsert (new_outbox (e_id row) EXECUTION_RECOVERY (e_attempt row)
                             (insNow (clk (e_id row)))) id
  end.
Proof. unfold maintain_row, gives_up. by repeat case_match; simplify_eq/=. Qed.

Lemma overdue_step mc row :
  row_ok row → overdue mc row = true →
  holds_lease row ∧ (¬ lease_live (mc_lease mc (e_id row)) row ∨
    s_le (e_cancellationRequestedAt row) (mc_cancel mc (e_id row) - CANCEL_GRACE_MS) = Some true).
Proof.
  unfold overdue, raises. intros Hok Ho%bool_decide_eq_true.
  assert (Hs : state_in [COMPILING; RUNNING] (e_state row) = Some true ∧ holds_lease row).
  { destruct (e_state row) eqn:Es; try discriminate Ho; unfold holds_lease; rewrite Es; auto. }
  destruct Hs as [Es Hh]. split; [done|].
  destruct (ok_active _ Hok Hh) as (_ & tok & x & _ & Hx & _).
  destruct (decide (x ≤ mc_lease mc (e_id row))) as [Hle|Hgt].
  - left. intros (y & Hy & ?). rewrite Hx in Hy. simplify_eq. lia.
  - right. rewrite Es, Hx in Ho. cbn in Ho.
    rewrite (proj2 (Z.leb_gt _ _)) in Ho by lia. change CANCEL_GRACE_MS with 15000.
    by destruct (s_le (e_cancellationRequestedAt row) (mc_cancel mc (e_id row) - 15000)) as [[]|].
Qed.

Lemma maintain_row_effect mc clk row d u d' :
  inv d → executions d !! e_id row = Some row → overdue mc row = true →
  maintain_row clk row d = Ok (u, d') →
  effect (clk (e_id row)) (e_id row) d d'
  ∧ executions d' = <[e_id row := maintained (clk (e_id row)) row]> (executions d).
Proof.
  intros Hi Hrow Hov. rewrite maintain_row_eq. unfold maintained.
  destruct (inv_rows _ Hi _ _ Hrow) as [_ Hok].
  destruct (overdue_step _ _ Hok Hov) as [Hh Hwhen].
  destruct (gives_up (now (clk (e_id row))) row) as [code|] eqn:Eg; intros E.
  - split.
    + eapply terminal_effect_closing; [done..|]. eapply rs_give_up; try done.
      unfold gives_up in Eg. by repeat case_match; simplify_eq.
    + by apply terminal_effect in E as (evs & ns & _ & ->).
  - apply recovery_upsert_Ok in E as (obs & -> & Hobs); [|done]. cbn. rewrite insert_id by done.
    split; [by apply eff_outbox|done].
Qed.

Lemma maintain_spec mc busy busyOutbox d u d' :
  let clk := mc_row mc in
  inv d → maintain mc busy busyOutbox d = Ok (u, d') →
  inv d'
  ∧ (∃ d1, effects clk d d1 ∧ executions d' = executions d1 ∧ events d' `sublist_of` events d1)
  ∧ (∀ row, row ∈ overdue_rows busy mc d →
       executions d' !! e_id row = Some (maintained (clk (e_id row)) row))
  ∧ (∀ id, id ∉ e_id <$> overdue_rows busy mc d → executions d' !! id = executions d !! id).
Proof.
  intros clk Hi E. unfold maintain in E. fold clk in E. inv_tx.
  destruct (batch_rows d _ _ _ (overdue_rows busy mc d) (inv_rows _ Hi) eq_refl) as [Hnd Hrows].
  destruct (loop_rows clk (maintain_row clk) (λ row, maintained (clk (e_id row)) row)
              (overdue_rows busy mc d) d a0 s0) as (Hs & Hin & Hout); try done.
  - intros row d1 u1 d2 Hrow Hi1 Hcur. apply (maintain_row_effect mc); try done.
    destruct (Hrows row Hrow) as (_ & Ho & _). by apply Is_true_true.
  - intros row Hrow. by apply Hrows.
  - assert (inv s0) by by eapply effects_inv.
    assert (inv s1) by by eapply reoffer_inv.
    assert (executions d' = executions s0) as Eexe.
    { by rewrite (expire_events_executions _ _ _ _ E), (reoffer_executions _ _ _ _ _ Hrun1). }
    rewrite Eexe. split_and!; try done; [by eapply expire_events_inv|]. exists s0. split_and!; try done.
    unfold reoffer in Hrun1. unfold expire_events, event_delete_keys in E. inv_tx. apply sublist_filter.
Qed.

(** ** Expiry of queued jobs *)

Lemma expire_row_effect clk t row d u d' :
  inv d → executions d !! e_id row = Some row → e_state row = QUEUED → e_queueExpiresAt row ≤ t →
  expire_row clk t row d = Ok (u, d') →
  effect (clk (e_id row)) (e_id row) d d'
  ∧ executions d' = <[e_id row := data_expire t (next_seq row) row]> (executions d).
Proof.
  intros Hi Hrow Hq Ht E. unfold expire_row in E. inv_tx. split.
  - eapply (quiet_commit_effect _ _ _ _ _ _ _ (data_expire t)); try done. by apply rs_expire.
  - apply event_Ok in Hrun as (_ & -> & ->).
    apply execution_update_Ok in Hrun0 as (o & Ho & -> & _ & _ & ->). cbn in Ho. by simplify_eq.
Qed.

Lemma expired_outbox_inv clk rows d u d' :
  inv d → (∀ row, row ∈ rows → ∃ e, executions d !! e_id row = Some e ∧ isTerminal (e_state e) = true) →
  for_each (λ row, outbox_create (new_outbox (e_id row) EXECUTION_EXPIRED 0 (insNow (clk (e_id row))))) rows d
    = Ok (u, d') →
  inv d' ∧ executions d' = executions d ∧ events d' = events d.
Proof.
  intros Hi Hrows.
  apply (for_each_inv (λ x, inv x ∧ executions x = executions d ∧ events x = events d)); [|done].
  intros row d1 u1 d2 Hin (Hi1 & Ex & Ev) E. unfold outbox_create in E. case_match; simplify_eq.
  split; [|done]. apply inv_set_outbox; [done|].
  intros o [Ho | ->%list_elem_of_singleton]%elem_of_app Hc; [by apply (inv_outbox _ Hi1)|].
  cbn. rewrite Ex. by apply Hrows.
Qed.

Lemma expire_spec clk t busy d n d' :
  inv d → expireQueuedJobs clk t busy d = Ok (n, d') →
  inv d' ∧ n = length (expired_rows t busy d)
  ∧ (∃ d1, effects clk d d1 ∧ executions d' = executions d1 ∧ events d' `sublist_of` events d1)
  ∧ (∀ row, row ∈ expired_rows t busy d →
       executions d' !! e_id row = Some (data_expire t (next_seq row) row))
  ∧ (∀ id, id ∉ e_id <$> expired_rows t busy d → executions d' !! id = executions d !! id).
Proof.
  intros Hi E. unfold expireQueuedJobs in E. inv_tx.
  destruct (batch_rows d _ _ _ (expired_rows t busy d) (inv_rows _ Hi) eq_refl) as [Hnd Hrows].
  destruct (length (expired_rows t busy d) =? 0)%nat eqn:El.
  { inv_tx. apply Nat.eqb_eq in El. rewrite El. apply nil_length_inv in El. rewrite El.
    split_and!; try done; [by exists d; split; [constructor|]|by intros ? ?%elem_of_nil]. }
  inv_tx.
  destruct (loop_rows clk (expire_row clk t) (λ row, data_expire t (next_seq row) row)
              (expired_rows t busy d) d a s) as (Hs & Hin & Hout); try done.
  - intros row d1 u1 d2 Hrow Hi1 Hcur. apply expire_row_effect; try done; by apply Hrows.
  - intros row Hrow. by apply Hrows.
  - apply expired_outbox_inv in Hrun0 as (Hi' & Ex & Ev).
    + rewrite Ex. split_and!; try done. eexists. rewrite Ev. by split_and!.
    + by eapply effects_inv.
    + intros row Hrow. eexists. split; [by apply Hin|done].
Qed.
End Invariant.
