(* ===== verification/Sizes.v ===== *)
(** * Sizes of serialised public events

    Upper bounds on the UTF-8 size of [JSON.stringify] of a public event: what makes the 16 KiB
    limit of [event] ([apps/api/src/executions/job-store.ts]) unreachable for the events the job
    store itself builds. *)

From S2P Require Import Prelude JsText Contracts.
Local Open Scope Z_scope.

(** ** Strings *)

Lemma byteLength_app_le s t : byteLength (s ++ t) ≤ byteLength s + byteLength t.
Proof.
  induction s as [|u|u v s E IH|u v s E IH] using points_ind; cbn [app].
  - cbn. lia.
  - apply byteLength_cons_le.
  - rewrite !byteLength_pair by done. lia.
  - rewrite !byteLength_unit by done. cbn [app] in IH. lia.
Qed.

Lemma byteLength_le_units s : byteLength s ≤ 3 * Z.of_nat (length s).
Proof.
  induction s as [|u s IH]; [done|]. pose proof (byteLength_cons u s). cbn [length]. lia.
Qed.

Lemma byteLength_quote_app s :
  byteLength (quote s) ≤ 2 + sumZ ((λ p, byteLength (escape_point p)) <$> points s).
Proof.
  unfold quote.
  etrans; [apply (byteLength_app_le [QUOTE])|]. etrans; [apply Zplus_le_compat_l, byteLength_app_le|].
  change (byteLength [QUOTE]) with 1.
  enough (byteLength (mjoin (escape_point <$> points s))
          ≤ sumZ ((λ p, byteLength (escape_point p)) <$> points s)) by lia.
  induction (points s) as [|p ps IH]; [done|]. rewrite !fmap_cons, join_cons. cbn [sumZ foldr].
  pose proof (byteLength_app_le (escape_point p) (mjoin (escape_point <$> ps))).
  unfold sumZ in *. lia.
Qed.

Lemma byteLength_sum s : byteLength s ≤ sumZ (unit_bytes <$> s).
Proof.
  induction s as [|u s IH]; [done|]. rewrite fmap_cons. cbn [sumZ foldr].
  pose proof (byteLength_cons_le u s). unfold sumZ in IH. lia.
Qed.

Lemma escape_u_bytes u : 0 ≤ u < 65536 → byteLength (escape_u u) ≤ 6.
Proof.
  intros Hu. unfold escape_u, hex4.
  assert (Hh : ∀ d, 0 ≤ d < 16 → unit_bytes (hexdigit d) = 1).
  { intros d Hd. unfold unit_bytes, hexdigit. repeat case_match; lia. }
  etrans; [apply byteLength_sum|]. cbn [fmap list_fmap sumZ foldr]. rewrite !Hh by zdiv. done.
Qed.

Lemma escape_unit_bytes u : 0 ≤ u < 65536 → byteLength (escape_unit u) ≤ 6.
Proof.
  intros Hu. unfold escape_unit. destruct (short_escape u) as [x|].
  - etrans; [apply byteLength_le_units|]. cbn. lia.
  - case_match; [by apply escape_u_bytes|]. pose proof (unit_bytes_bounds u). cbn. lia.
Qed.

(** Quoting at most multiplies by six. *)
Lemma quote_bytes s : Forall unit_ok s → byteLength (quote s) ≤ 2 + 6 * Z.of_nat (length s).
Proof.
  intros Hs. etrans; [apply byteLength_quote_app|]. apply Zplus_le_compat_l.
  induction s as [|u|u v s E IH|u v s E IH] using points_ind.
  - done.
  - inversion_clear Hs. cbn -[escape_unit byteLength Z.mul]. pose proof (escape_unit_bytes u). unfold unit_ok in *. lia.
  - inversion_clear Hs as [|? ? ? Hs']. inversion_clear Hs'. rewrite points_pair, fmap_cons by done.
    cbn [sumZ foldr escape_point length]. rewrite byteLength_pair by done.
    specialize (IH ltac:(done)). unfold sumZ in IH. cbn [byteLength]. lia.
  - inversion_clear Hs as [|? ? Hu Hs']. rewrite points_unit, fmap_cons by done.
    cbn [sumZ foldr escape_point]. specialize (IH Hs'). unfold sumZ in IH.
    pose proof (escape_unit_bytes u Hu). change (length (u :: v :: s)) with (S (length (v :: s))). lia.
Qed.

(** Text without unsafe control characters at most doubles. *)
Lemma escape_unit_safe u :
  unit_ok u → unsafe_unit u = false → byteLength (escape_unit u) ≤ 2 * unit_bytes u.
Proof.
  intros Hu Hs. pose proof (unit_bytes_bounds u). unfold escape_unit.
  destruct (short_escape u) as [x|] eqn:Ex.
  - apply assocZ_Some in Ex. unfold short_escapes in Ex.
    repeat (apply elem_of_cons in Ex as [Ex|Ex]; [simplify_eq; cbn; lia|]). by apply elem_of_nil in Ex.
  - destruct (_ || _) eqn:E; [|cbn; lia].
    apply orb_true_iff in E as [E|E]; [apply orb_true_iff in E as [E|E]|].
    + assert (u = 9 ∨ u = 10) as [-> | ->]; [|done..].
      unfold unsafe_unit, unit_ok in *. lia.
    + pose proof (escape_u_bytes u Hu). unfold unit_bytes, is_high in *. repeat case_match; lia.
    + pose proof (escape_u_bytes u Hu). unfold unit_bytes, is_low in *. repeat case_match; lia.
Qed.

Lemma quote_safe_bytes s :
  Forall unit_ok s → Forall (λ u, unsafe_unit u = false) s → byteLength (quote s) ≤ 2 + 2 * byteLength s.
Proof.
  intros Hs Hc. etrans; [apply byteLength_quote_app|]. apply Zplus_le_compat_l.
  induction s as [|u|u v s E IH|u v s E IH] using points_ind.
  - done.
  - inversion_clear Hs. inversion_clear Hc. pose proof (escape_unit_safe u ltac:(done) ltac:(done)).
    cbn -[escape_unit byteLength Z.mul]. cbn [byteLength]. lia.
  - inversion_clear Hs as [|? ? ? Hs']. inversion_clear Hs'.
    inversion_clear Hc as [|? ? ? Hc']. inversion_clear Hc'.
    rewrite points_pair, fmap_cons by done.
    cbn [sumZ foldr escape_point]. rewrite !byteLength_pair by done.
    specialize (IH ltac:(done) ltac:(done)). unfold sumZ in IH. cbn [byteLength]. lia.
  - inversion_clear Hs as [|? ? Hu Hs']. inversion_clear Hc as [|? ? Hcu Hc'].
    rewrite points_unit, fmap_cons by done.
    cbn [sumZ foldr escape_point]. specialize (IH Hs' Hc'). unfold sumZ in IH.
    pose proof (escape_unit_safe u Hu Hcu). rewrite byteLength_unit by done. lia.
Qed.

(** ** Numbers *)

Lemma pretty_N_go_length k x s :
  (x < 10 ^ N.of_nat k)%N → (String.length (pretty_N_go x s) ≤ k + String.length s)%nat.
Proof.
  revert x s. induction k as [|k IH]; intros x s Hx.
  { assert (x = 0)%N as -> by (cbn in Hx; lia). by rewrite pretty_N_go_0. }
  destruct (decide (0 < x)%N) as [Hp|Hp].
  - rewrite pretty_N_go_step by done. etrans; [apply IH|cbn; lia].
    apply N.Div0.div_lt_upper_bound. rewrite Nat2N.inj_succ, N.pow_succ_r' in Hx. lia.
  - assert (x = 0)%N as -> by lia. rewrite pretty_N_go_0. lia.
Qed.

Lemma js_length s : length (js s) = String.length s.
Proof. unfold js. rewrite length_fmap. induction s; cbn; congruence. Qed.

(** A non-negative safe integer has at most sixteen digits. *)
Lemma number_bytes n : safe_int n = true → 0 ≤ n → byteLength (js (pretty n)) ≤ 48.
Proof.
  unfold safe_int, MAX_SAFE_INTEGER. intros Hs Hn.
  enough (length (js (pretty n)) ≤ 16)%nat.
  { etrans; [apply byteLength_le_units|]. lia. }
  rewrite js_length. destruct n as [|p|p]; [cbn; lia| |lia].
  change (pretty (Z.pos p)) with (pretty (N.pos p)). unfold pretty, pretty_N. case_decide; [lia|].
  etrans; [apply (pretty_N_go_length 16)|cbn; lia]. change (10 ^ N.of_nat 16)%N with 10000000000000000%N. lia.
Qed.

(** ** Objects *)

Definition field_bytes (kv : string * json) : Z :=
  byteLength (quote (js kv.1)) + 2 + byteLength (stringify kv.2).

Lemma intercalate_bytes l :
  byteLength (intercalate (js ",") l) ≤ sumZ ((λ s, byteLength s + 1) <$> l).
Proof.
  induction l as [|x l IH]; [done|]. destruct l as [|y l].
  - cbn [intercalate fmap list_fmap sumZ foldr]. lia.
  - change (intercalate (js ",") (x :: y :: l)) with (x ++ js "," ++ intercalate (js ",") (y :: l)).
    rewrite fmap_cons. cbn [sumZ foldr]. unfold sumZ in IH.
    pose proof (byteLength_app_le x (js "," ++ intercalate (js ",") (y :: l))).
    pose proof (byteLength_app_le (js ",") (intercalate (js ",") (y :: l))) as H1.
    change (byteLength (js ",")) with 1 in H1. lia.
Qed.

Lemma object_bytes l : byteLength (stringify (JObj l)) ≤ 2 + sumZ (field_bytes <$> l).
Proof.
  cbn [stringify]. set (g := λ '(k, v), _).
  pose proof (byteLength_app_le (js "{") (intercalate (js ",") (List.map g l) ++ js "}")) as H1.
  pose proof (byteLength_app_le (intercalate (js ",") (List.map g l)) (js "}")) as H2.
  change (byteLength (js "{")) with 1 in H1. change (byteLength (js "}")) with 1 in H2.
  pose proof (intercalate_bytes (List.map g l)) as H3.
  enough (sumZ ((λ s, byteLength s + 1) <$> List.map g l) ≤ sumZ (field_bytes <$> l)) by lia.
  clear. induction l as [|[k v] l IH]; [done|]. cbn [List.map]. rewrite !fmap_cons.
  cbn [sumZ foldr]. unfold sumZ in IH. unfold field_bytes at 1. cbn [fst snd g].
  pose proof (byteLength_app_le (quote (js k)) (js ":" ++ stringify v)) as H1.
  pose proof (byteLength_app_le (js ":") (stringify v)) as H2.
  change (byteLength (js ":")) with 1 in H2. lia.
Qed.

Lemma enum_bytes {A} `{!JsEnum A} (a : A) :
  (String.length (enum_name a) ≤ 32)%nat → byteLength (stringify (enum_json a)) ≤ 194.
Proof.
  intros Hl. cbn [stringify enum_json]. etrans; [apply quote_bytes, js_unit_ok|].
  rewrite js_length. lia.
Qed.

(** ** Events *)

Section Events.
Context `{Zod}.
(** RFC 9562 text form: 36 characters. *)
Context (uuid_length : ∀ s, z_uuid s = true → length s = 36%nat ∧ Forall unit_ok s).

Lemma uuid_bytes s : z_uuid s = true → byteLength (quote s) ≤ 218.
Proof. intros Hu. destruct (uuid_length s Hu) as [Hl Hs]. etrans; [by apply quote_bytes|]. lia. Qed.

(** Console text inside an event has been sanitised. *)
Definition text_safe (f : EventFields) : Prop :=
  match f with
  | console_output _ _ text => Forall unit_ok text ∧ Forall (λ u, unsafe_unit u = false) text
  | _ => True
  end.

Lemma key_bytes k v n : byteLength (quote (js k)) = n → field_bytes (k, v) = n + 2 + byteLength (stringify v).
Proof. intros <-. done. Qed.

Lemma event_bytes e :
  event_ok e = true → text_safe (pe_fields e) → byteLength (stringify (event_json e)) ≤ 16384.
Proof.
  destruct e as [i a s f]. unfold event_ok. cbn [pe_executionId pe_attempt pe_sequence pe_fields].
  rewrite !andb_true_iff, Z.leb_le, Z.ltb_lt. intros [[[Hi [Ha Ha0]] [Hs Hs0]] Hf] Ht.
  etrans; [apply object_bytes|]. cbn [app fmap list_fmap sumZ foldr pe_fields].
  pose proof (uuid_bytes i Hi). pose proof (number_bytes a Ha Ha0).
  pose proof (number_bytes s Hs ltac:(lia)).
  pose proof (enum_bytes (event_kind f) ltac:(by destruct f; apply Nat.leb_le)).
  assert (sumZ (field_bytes <$> fields_json f) ≤ 9500).
  { destruct f as [st [[]|]|ci str t|st v [c|]]; cbn [fields_json opt_field fmap option_fmap option_map list_fmap sumZ foldr];
      unfold field_bytes; cbn [fst snd].
    all: repeat match goal with
      | |- context [byteLength (quote (js ?k))] =>
          let n := eval vm_compute in (byteLength (quote (js k))) in
          change (byteLength (quote (js k))) with n
      | |- context [byteLength (stringify (enum_json ?x))] =>
          pose proof (enum_bytes x ltac:(by destruct x; apply Nat.leb_le));
          generalize dependent (byteLength (stringify (enum_json x))); intros
      end.
    all: repeat match goal with
      | |- context [byteLength (stringify (JBool ?b))] =>
          let n := eval vm_compute in (byteLength (stringify (JBool b))) in
          change (byteLength (stringify (JBool b))) with n
      end; try lia.
    apply andb_true_iff in Hf as [Hc Hlen%Z.leb_le]. destruct Ht as [Hu Hsafe].
    pose proof (uuid_bytes ci Hc). pose proof (quote_safe_bytes t Hu Hsafe).
    cbn [stringify]. lia. }
  unfold sumZ in *. unfold field_bytes in *.
  cbn [fst snd stringify pe_executionId pe_attempt pe_sequence] in *.
  repeat match goal with
      | |- context [byteLength (quote (js ?k))] =>
          let n := eval vm_compute in (byteLength (quote (js k))) in
          change (byteLength (quote (js k))) with n
      end.
  lia.
Qed.
End Events.
