(* ===== verification/Admissible.v ===== *)
(** * Judged results fit the job store

    Every result the judge computes passes [resultSchema], stays below the size limit of
    [finish], and names only public cases: [finish] has no reason to reject what the judging
    backend hands it. *)

From S2P Require Import Prelude JsText Contracts Judge Database Serialization JobStore Sizes.
Local Open Scope Z_scope.

Section Admissible.
Context `{Zod} (stripVT : jsstr → jsstr).
Context (uuid_length : ∀ s, z_uuid s = true → length s = 36%nat ∧ Forall unit_ok s).
Context (stripVT_deletes : ∀ s, stripVT s `sublist_of` s).

(** ** The results of a RUN *)

Lemma judge_loop_shape os tests s s' :
  judge_loop stripVT RUN os tests s = Ok s' →
  ∃ l, js_results s' = js_results s ++ l ∧
    Forall2 (λ o r, ∃ test budget, oc_caseId o = jc_id test ∧ r = (public_result stripVT o test budget).1) os l.
Proof.
  revert tests s. induction os as [|o os IH]; intros tests s; cbn.
  - intros [= <-]. exists []. by rewrite app_nil_r.
  - destruct tests as [|test tests]; [done|].
    destruct (judge_step _ _ _ _ _ _) as [s1|] eqn:E1; [|done]. intros (l & Hl & Hf)%IH.
    apply judge_step_Ok in E1 as (Hid & _ & _ & _ & Hres). injection Hres as Hres _.
    exists ((public_result stripVT o test (js_budget s)).1 :: l).
    rewrite Hl, Hres, <- app_assoc. split; [done|]. constructor; eauto.
Qed.

(** What is checked of an observation, as propositions. *)
Record observed_facts (o : ObservedCase) : Prop := {
  of_id : z_uuid (oc_caseId o) = true;
  of_exit : ∀ n, oc_exitCode o = Some n → 0 ≤ n ≤ 255;
  of_cpu : ∀ n, oc_cpuMs o = Some n → nonneg_int n = true;
  of_memory : ∀ n, oc_memoryKiB o = Some n → nonneg_int n = true
}.
Lemma observedCase_facts o : observedCase_ok o = true → observed_facts o.
Proof.
  unfold observedCase_ok. rewrite !andb_true_iff. intros [[[[[Hi Hx] _] Hc] Hm] _].
  split; [done|..]; intros n En; rewrite En in *; cbn in *; [lia|done|done].
Qed.

Definition units_ok (o : ObservedCase) : Prop :=
  Forall unit_ok (oc_stdout o) ∧ Forall unit_ok (oc_stderr o).

Lemma display_unit_ok text n : Forall unit_ok text → Forall unit_ok (display stripVT text n).
Proof.
  rewrite !Forall_forall. intros Ht u Hu. apply (display_loop_units stripVT) in Hu as [Hn|Hin].
  - by apply elem_of_nil in Hn.
  - rewrite concat_points in Hin. apply Ht. eapply elem_of_sublist; [exact Hin|].
    etrans; [apply dropUnsafe_sublist|apply stripVT_deletes].
Qed.

Lemma nonneg_bytes n : nonneg_int n = true → byteLength (stringify (JNum n)) ≤ 48.
Proof. unfold nonneg_int. rewrite andb_true_iff, Z.leb_le. intros [? ?]. by apply number_bytes. Qed.

Lemma opt_num_bytes k o :
  byteLength (quote (js k)) ≤ 17 → (∀ n, o = Some n → nonneg_int n = true) →
  sumZ (field_bytes <$> opt_field k (JNum <$> o)) ≤ 67.
Proof.
  intros Hk Ho. destruct o as [n|]; [|done]. cbn [fmap option_fmap option_map opt_field list_fmap].
  pose proof (nonneg_bytes n (Ho n eq_refl)). unfold sumZ, field_bytes. cbn [foldr fst snd]. lia.
Qed.

Lemma opt_str_bytes k o :
  byteLength (quote (js k)) ≤ 8 → Forall unit_ok (default [] o) →
  Forall (λ u, unsafe_unit u = false) (default [] o) →
  sumZ (field_bytes <$> opt_field k (JStr <$> o)) ≤ 12 + 2 * opt_bytes o.
Proof.
  intros Hk Hu Hs. destruct o as [s|]; [|cbn; lia]. cbn [fmap option_fmap option_map opt_field list_fmap default] in *.
  pose proof (quote_safe_bytes s Hu Hs). unfold sumZ, field_bytes, opt_bytes. cbn [foldr fst snd stringify]. lia.
Qed.

(** One public result: bounded metadata, and twice its text. *)
Lemma caseResult_bytes o test budget :
  observed_facts o → units_ok o → oc_caseId o = jc_id test → learner_verdict (case_verdict o test) = true →
  let r := (public_result stripVT o test budget).1 in
  caseResult_ok r = true ∧ byteLength (stringify (caseResult_json r)) ≤ 800 + 2 * result_bytes r.
Proof.
  intros [Hi Hx Hc Hm] [Hu1 Hu2] Eid Hv. unfold public_result. cbn [fst].
  set (out := display stripVT (oc_stdout o) _). set (err := display stripVT (oc_stderr o) _).
  set (tr := if _ || _ then _ else _).
  set (r := mkCaseResult _ _ _ _ _ _ _ _). cbv zeta.
  assert (∀ n, pr_memoryKiB r = Some n → nonneg_int n = true) as Hm'.
  { intros n. cbn. destruct (oc_cpuMs o); [apply Hm|done]. }
  split.
  - unfold caseResult_ok. rewrite Eid in Hi. cbn [pr_caseId pr_verdict pr_exitCode pr_runtimeMs r].
    rewrite Hi, Hv. cbn [andb]. rewrite !andb_true_iff. split_and!.
    + destruct (oc_exitCode o) as [n|]; [|done]. specialize (Hx n eq_refl). cbn.
      unfold safe_int, MAX_SAFE_INTEGER. lia.
    + destruct (oc_cpuMs o); [by apply Hc|done].
    + destruct (pr_memoryKiB r); [by apply Hm'|done].
  - etrans; [apply object_bytes|].
    cbn [app fmap list_fmap]. unfold sumZ. cbn [foldr]. fold (sumZ (field_bytes <$>
      (opt_field "outputTruncated" (JBool <$> pr_outputTruncated r) ++ opt_field "stdout" (JStr <$> pr_stdout r) ++
       opt_field "stderr" (JStr <$> pr_stderr r) ++ opt_field "exitCode" (JNum <$> pr_exitCode r) ++
       opt_field "runtimeMs" (JNum <$> pr_runtimeMs r) ++ opt_field "memoryKiB" (JNum <$> pr_memoryKiB r)))).
    rewrite !fmap_app, !sumZ_app.
    assert (∀ text n, Forall (λ u, unsafe_unit u = false) (display stripVT text n)) as Hsafe.
    { intros text n. apply Forall_forall. intros u. apply display_units. }
    pose proof (opt_str_bytes "stdout" (Some out) ltac:(by vm_compute) (display_unit_ok _ _ Hu1) (Hsafe _ _)).
    pose proof (opt_str_bytes "stderr" (Some err) ltac:(by vm_compute) (display_unit_ok _ _ Hu2) (Hsafe _ _)).
    assert (∀ n, oc_exitCode o = Some n → nonneg_int n = true) as Hx'.
    { intros n En. specialize (Hx n En). unfold nonneg_int, safe_int, MAX_SAFE_INTEGER. lia. }
    pose proof (opt_num_bytes "exitCode" (oc_exitCode o) ltac:(by vm_compute) Hx').
    pose proof (opt_num_bytes "runtimeMs" (oc_cpuMs o) ltac:(by vm_compute) Hc).
    pose proof (opt_num_bytes "memoryKiB" (pr_memoryKiB r) ltac:(by vm_compute) Hm').
    assert (sumZ (field_bytes <$> opt_field "outputTruncated" (JBool <$> tr)) ≤ 30) by
      (unfold tr; destruct (_ || _); by vm_compute).
    pose proof (uuid_bytes uuid_length (jc_id test) ltac:(congruence)).
    pose proof (enum_bytes (case_verdict o test) ltac:(by destruct (case_verdict o test); apply Nat.leb_le)).
    unfold field_bytes at 1 2. cbn [fst snd stringify pr_caseId pr_verdict pr_outputTruncated pr_stdout pr_stderr
      pr_exitCode pr_runtimeMs r].
    change (byteLength (quote (js "caseId"))) with 8. change (byteLength (quote (js "verdict"))) with 9.
    unfold result_bytes. cbn [pr_stdout pr_stderr r]. fold r. lia.
Qed.

Lemma array_bytes l : byteLength (stringify (JArr l)) ≤ 2 + sumZ ((λ j, byteLength (stringify j) + 1) <$> l).
Proof.
  cbn [stringify].
  pose proof (byteLength_app_le (js "[") (intercalate (js ",") (List.map stringify l) ++ js "]")) as H1.
  pose proof (byteLength_app_le (intercalate (js ",") (List.map stringify l)) (js "]")) as H2.
  change (byteLength (js "[")) with 1 in H1. change (byteLength (js "]")) with 1 in H2.
  pose proof (intercalate_bytes (List.map stringify l)) as H3.
  change (List.map stringify l) with (stringify <$> l) in *. rewrite <- list_fmap_compose in H3.
  unfold compose in H3. lia.
Qed.

Lemma learner_case o test : learner_verdict (case_verdict o test) = true.
Proof. unfold case_verdict. repeat case_match; subst; try done. by destruct r. Qed.

Lemma learner_first vs : Forall (λ v, learner_verdict v = true) vs → learner_verdict (first_failure vs) = true.
Proof. induction 1 as [|v vs Hv _ IH]; [done|]. cbn. by case_bool_decide. Qed.

(** ** Metrics *)

Lemma judge_metrics plan mode language ob r :
  judge stripVT plan mode language ob = Ok r →
  (jr_runtimeMs r = None ∨ jr_runtimeMs r = Some (maxZ (omap oc_cpuMs (ob_cases ob)))) ∧
  (jr_memoryKiB r = None ∨ jr_memoryKiB r = Some (maxZ (omap oc_memoryKiB (ob_cases ob)))).
Proof.
  unfold judge. destruct (selectCases plan mode); [|done].
  repeat match goal with
  | |- context [if ?c then _ else _] => destruct c
  | |- context [match last ?l with _ => _ end] => destruct (last l)
  | |- context [match judge_loop ?a ?b ?c ?d ?e with _ => _ end] => destruct (judge_loop a b c d e)
  end; try done; intros [= <-]; cbn; auto.
Qed.

Lemma maxZ_nonneg l : (∀ n, n ∈ l → nonneg_int n = true) → nonneg_int (maxZ l) = true.
Proof.
  unfold maxZ. induction l as [|n l IH]; intros Hl; [done|]. cbn.
  assert (nonneg_int n = true) as Hn by (apply Hl; left).
  assert (nonneg_int (foldr Z.max 0 l) = true) as Hr by (apply IH; intros; apply Hl; by right).
  destruct (Z.max_spec n (foldr Z.max 0 l)) as [[_ ->]|[_ ->]]; done.
Qed.

Lemma metric_ok (f : ObservedCase → option Z) os o :
  (∀ x n, x ∈ os → f x = Some n → nonneg_int n = true) →
  (o = None ∨ o = Some (maxZ (omap f os))) → ∀ n, o = Some n → nonneg_int n = true.
Proof.
  intros Hf [->| ->]; [done|]. intros n [= <-]. apply maxZ_nonneg.
  intros n (x & Hx & Hn)%list_elem_of_omap. by eapply Hf.
Qed.

(** ** The public cases of a RUN *)

Lemma prefix_count cases n :
  NoDup (jc_id <$> cases) →
  length (filter (λ tc, jc_id tc ∈ jc_id <$> take n cases) cases) = length (take n cases).
Proof.
  intros Hnd. set (P := λ tc : JudgeCase, jc_id tc ∈ jc_id <$> take n cases).
  transitivity (length (filter P (take n cases ++ drop n cases))); [by rewrite take_drop|].
  rewrite filter_app.
  rewrite filter_all_in by (intros x Hx; by apply list_elem_of_fmap_2).
  rewrite filter_none_in; [by rewrite app_nil_r|].
  rewrite <- (take_drop n cases), fmap_app, NoDup_app in Hnd. destruct Hnd as (_ & Hd & _).
  intros x Hx Hin. apply (Hd _ Hin). by apply list_elem_of_fmap_2.
Qed.

Lemma run_cases_public plan cases :
  selectCases plan RUN = Ok cases →
  NoDup (jc_id <$> cases) ∧ cases ≡ₚ filter (λ c, jc_visibility c = PUBLIC) (jp_cases plan).
Proof.
  intros Hsel. pose proof (selectCases_perm _ _ _ Hsel) as [Hp _].
  apply selectCases_Ok in Hsel as ((Hnd & _ & _)%plan_valid & _ & _).
  split.
  - rewrite Hp. eapply sublist_NoDup; [exact Hnd|]. apply fmap_sublist, sublist_filter.
  - rewrite Hp. apply reflexive_eq, filter_ext_in. intros c _. unfold selected. cbn.
    apply bool_decide_eq_true.
Qed.

(** ** What a judgement carries *)

Record judged_facts (plan : JudgePlan) (mode : ExecutionMode) (r : JudgedResult) : Prop := {
  jf_verdict : learner_verdict (jr_verdict r) = true;
  jf_runtime : ∀ n, jr_runtimeMs r = Some n → nonneg_int n = true;
  jf_memory : ∀ n, jr_memoryKiB r = Some n → nonneg_int n = true;
  jf_results : ∀ l, jr_publicCaseResults r = Some l →
    mode = RUN ∧ (length l ≤ 100)%nat ∧ sumZ (result_bytes <$> l) ≤ 24 * 1024 ∧
    (∃ cases n, selectCases plan RUN = Ok cases ∧ pr_caseId <$> l = jc_id <$> take n cases) ∧
    ∀ x, x ∈ l → caseResult_ok x = true ∧ byteLength (stringify (caseResult_json x)) ≤ 800 + 2 * result_bytes x
}.

Lemma judge_facts plan mode language ob r :
  judge stripVT plan mode language ob = Ok r → Forall units_ok (ob_cases ob) → judged_facts plan mode r.
Proof.
  intros Hj Hu. pose proof (judge_metrics _ _ _ _ _ Hj) as [Hrt Hmem].
  apply judge_Ok in Hj as ((Hob & _) & cases & Hsel & Hj).
  unfold observation_ok in Hob. apply andb_true_iff in Hob as [Hob Hlen%Nat.leb_le].
  rewrite forallb_forall in Hob.
  assert (∀ o, o ∈ ob_cases ob → observed_facts o) as Hfacts.
  { intros o Ho. apply observedCase_facts, Hob. by apply list_elem_of_In. }
  pose proof (metric_ok oc_cpuMs (ob_cases ob) _ (λ x n Hx, of_cpu _ (Hfacts x Hx) n) Hrt) as Hrt'.
  pose proof (metric_ok oc_memoryKiB (ob_cases ob) _ (λ x n Hx, of_memory _ (Hfacts x Hx) n) Hmem) as Hmem'.
  destruct Hj as [(c & _ & _ & _ & ->)|(_ & s & lc & _ & _ & _ & Hloop & Hv & Hr)]; [done|].
  split; [|done|done|].
  - rewrite Hv. apply judge_loop_Ok in Hloop as [_ ->]. cbn [js_verdict].
    rewrite bool_decide_eq_true_2 by done. apply learner_first, Forall_forall. intros v Hin.
    apply elem_of_zip_with in Hin as (o & t & -> & _). apply learner_case.
  - rewrite Hr. destruct mode; [|done]. intros l [= El].
    pose proof (judge_loop_shape _ _ _ _ Hloop) as (l1 & E1 & Hsh).
    apply judge_loop_results in Hloop as (l2 & E2 & Hb & Hs & _ & Hid & _); [|cbn; lia].
    cbn in E1, E2, Hs. assert (l1 = l ∧ l2 = l) as [-> ->] by (split; congruence).
    split_and!; [done|apply Forall2_length in Hsh; lia|lia|eauto|]. intros x Hx.
    apply list_elem_of_lookup in Hx as [i Hi].
    destruct (Forall2_lookup_r _ _ _ _ _ Hsh Hi) as (o & Ho & test & budget & Eid & ->).
    apply list_elem_of_lookup_2 in Ho. rewrite Forall_forall in Hu.
    apply caseResult_bytes; [by apply Hfacts|by apply Hu|done|apply learner_case].
Qed.

Lemma judged_schema plan mode r : judged_facts plan mode r → resultSchema r = true.
Proof.
  intros [Hv Hrt Hmem Hl]. unfold resultSchema. rewrite Hv. cbn [andb]. rewrite !andb_true_iff. split_and!.
  - destruct (jr_runtimeMs r); [by apply Hrt|done].
  - destruct (jr_memoryKiB r); [by apply Hmem|done].
  - destruct (jr_publicCaseResults r) as [l|]; [|done].
    destruct (Hl l eq_refl) as (_ & Hlen & _ & _ & Hx). cbn. apply andb_true_iff. split.
    + apply forallb_forall. intros x Hin%list_elem_of_In. by apply Hx.
    + by apply Nat.leb_le.
Qed.

Lemma results_bytes l :
  (length l ≤ 100)%nat → sumZ (result_bytes <$> l) ≤ 24 * 1024 →
  (∀ x, x ∈ l → byteLength (stringify (caseResult_json x)) ≤ 800 + 2 * result_bytes x) →
  byteLength (stringify (JArr (caseResult_json <$> l))) ≤ 140000.
Proof.
  intros Hlen Hs Hx. etrans; [apply array_bytes|]. rewrite <- list_fmap_compose.
  assert (sumZ ((λ j, byteLength (stringify j) + 1) ∘ caseResult_json <$> l)
          ≤ 801 * Z.of_nat (length l) + 2 * sumZ (result_bytes <$> l)) as Hsum; [|lia].
  clear Hlen Hs. unfold sumZ. induction l as [|x l IH]; [done|].
  assert (∀ y, y ∈ l → byteLength (stringify (caseResult_json y)) ≤ 800 + 2 * result_bytes y) as Hl
    by (intros; apply Hx; by right).
  specialize (IH Hl). specialize (Hx x ltac:(left)). rewrite !fmap_cons. cbn [foldr length].
  unfold compose at 1. lia.
Qed.

Lemma judged_size plan mode r :
  judged_facts plan mode r → byteLength (stringify (result_json r)) ≤ MAX_OUTPUT_BYTES.
Proof.
  intros [Hv Hrt Hmem Hl]. unfold result_json. etrans; [apply object_bytes|].
  rewrite !fmap_app, !sumZ_app.
  pose proof (opt_num_bytes "runtimeMs" (jr_runtimeMs r) ltac:(by vm_compute) Hrt).
  pose proof (opt_num_bytes "memoryKiB" (jr_memoryKiB r) ltac:(by vm_compute) Hmem).
  pose proof (enum_bytes (jr_verdict r) ltac:(by destruct (jr_verdict r); apply Nat.leb_le)).
  assert (sumZ (field_bytes <$> opt_field "publicCaseResults"
            ((λ l, JArr (caseResult_json <$> l)) <$> jr_publicCaseResults r)) ≤ 140100).
  { destruct (jr_publicCaseResults r) as [l|]; [|done].
    destruct (Hl l eq_refl) as (_ & Hlen & Hs & _ & Hx).
    pose proof (results_bytes l Hlen Hs (λ x Hin, proj2 (Hx x Hin))).
    cbn [fmap option_fmap option_map opt_field list_fmap]. unfold sumZ, field_bytes. cbn [foldr fst snd].
    change (byteLength (quote (js "publicCaseResults"))) with 19. lia. }
  assert (sumZ (field_bytes <$> [("verdict", enum_json (jr_verdict r))]) ≤ 205).
  { unfold sumZ, field_bytes. cbn [fmap list_fmap foldr fst snd].
    change (byteLength (quote (js "verdict"))) with 9. lia. }
  unfold MAX_OUTPUT_BYTES. lia.
Qed.

Lemma judged_public plan mode r row public :
  judged_facts plan mode r → e_mode row = mode →
  public ≡ₚ filter (λ c, jc_visibility c = PUBLIC) (jp_cases plan) →
  public_results_ok row public (jr_publicCaseResults r) = true.
Proof.
  intros [_ _ _ Hl] Hmode Hp. destruct (jr_publicCaseResults r) as [l|]; [|done].
  destruct (Hl l eq_refl) as (-> & _ & _ & (cases & n & Hsel & Hids) & _).
  apply run_cases_public in Hsel as [Hnd Hc].
  cbn. rewrite Hmode, Hids, !andb_true_iff, !bool_decide_eq_true. split_and!; [done| |].
  - rewrite <- (take_drop n cases), fmap_app in Hnd. by apply NoDup_app in Hnd as [? _].
  - apply Nat.eqb_eq. rewrite length_fmap, <- prefix_count by done.
    apply Permutation_length. by rewrite Hp, Hc.
Qed.

(** C14: what the judge computes is storable.  Every judged result passes the schema of
    [finish], serialises to at most 256 KiB whatever the program printed, and lists only
    distinct public cases of the version, so [finish] rejects it neither as malformed, nor as
    too large, nor as private output. *)
Theorem judged_result_fits plan mode language ob r :
  judge stripVT plan mode language ob = Ok r → Forall units_ok (ob_cases ob) →
  resultSchema r = true ∧ byteLength (stringify (result_json r)) ≤ MAX_OUTPUT_BYTES ∧
  ∀ row public, e_mode row = mode →
    public ≡ₚ filter (λ c, jc_visibility c = PUBLIC) (jp_cases plan) →
    public_results_ok row public (jr_publicCaseResults r) = true.
Proof.
  intros Hj Hu. pose proof (judge_facts _ _ _ _ _ Hj Hu) as Hf. split_and!.
  - by eapply judged_schema.
  - by eapply judged_size.
  - intros row public. by apply judged_public.
Qed.
End Admissible.
