(* ===== verification/Progress.v ===== *)
(** * No operation is rejected by the database

    In a database that satisfies the invariant, the transactions of the job store fail only with
    the errors they document: the lifecycle trigger, the CHECKs, the unique keys, the event
    schema and the event size limit never reject them. *)

From S2P Require Import Prelude JsText Contracts Judge Database Serialization JobStore Lifecycle.
From S2P Require Import JobStoreFacts Invariant Sizes.
Local Open Scope Z_scope.

(** The errors a transaction body may end with. *)
Definition fails_in {S A} (l : list error) (m : tx S A) (s : S) : Prop :=
  match m s with Ok _ => True | Err e => e ∈ l end.

Lemma fails_bind {S A B} l (m : tx S A) (f : A → tx S B) s :
  fails_in l m s → (∀ a s', m s = Ok (a, s') → fails_in l (f a) s') → fails_in l (m ≫= f) s.
Proof. unfold fails_in, mbind, tx_bind. intros H1 H2. destruct (m s) as [[a s']|]; [by apply H2|done]. Qed.
Lemma fails_ret {S A} l (a : A) (s : S) : fails_in l (mret a) s.
Proof. done. Qed.
Lemma fails_throw {S A} l e (s : S) : e ∈ l → fails_in l (throw (A := A) e) s.
Proof. done. Qed.
Lemma fails_Ok {S A} l (m : tx S A) s r : m s = Ok r → fails_in l m s.
Proof. unfold fails_in. by intros ->. Qed.
Lemma fails_for_each {S A} l (P : S → Prop) (f : A → tx S unit) xs s :
  P s → (∀ i x s1, xs !! i = Some x → P s1 → fails_in l (f x) s1) →
  (∀ x s1 u s2, x ∈ xs → P s1 → f x s1 = Ok (u, s2) → P s2) → fails_in l (for_each f xs) s.
Proof.
  revert s. induction xs as [|x xs IH]; intros s HP Hf HPf; [done|]. cbn.
  apply fails_bind; [by apply (Hf 0%nat)|]. intros u s' E. apply IH.
  - eapply HPf; [left|done..].
  - intros i y s1 Hy. by apply (Hf (Datatypes.S i)).
  - intros y s1 u1 s2 Hy. apply HPf. by right.
Qed.

(** Membership in an explicit list. *)
Ltac in_list := first [ by left | right; in_list ].

Section Progress.
Context `{Zod} (stripVT : jsstr → jsstr).
Context (uuid_length : ∀ s, z_uuid s = true → length s = 36%nat ∧ Forall unit_ok s).
Context (stripVT_deletes : ∀ s, stripVT s `sublist_of` s).

(** The trigger reads the clock after the locking SELECT. *)
Definition clock_ok (c : Clock) : Prop := now c ≤ trigNow c.
(** Sequence numbers have not reached the end of the INTEGER column. *)
Definition row_room (e : Execution) : Prop := e_lastSequence e < INT4_MAX.
Definition seq_room (d : db) : Prop := ∀ id e, executions d !! id = Some e → row_room e.

Lemma row_event_ok d row f :
  inv d → row_room row → executions d !! e_id row = Some row → fields_ok f = true →
  event_ok (event_of row f) = true.
Proof.
  intros Hi Hroom Hrow Hf. destruct (inv_ids _ Hi _ _ Hrow) as [Hid _].
  destruct (inv_rows _ Hi _ _ Hrow) as [_ Hok]. unfold row_room in Hroom.
  pose proof (ok_attempt _ Hok). destruct (proj1 (checks_split row) (ok_checks _ Hok)) as (_ & Hc & _).
  apply counters_next in Hc. unfold event_ok. cbn [event_of pe_executionId pe_attempt pe_sequence pe_fields].
  rewrite Hid, Hf. unfold safe_int, next_seq, MAX_SAFE_INTEGER, INT4_MAX, MAX_ATTEMPTS in *. lia.
Qed.

Lemma row_key_free d row :
  inv d → executions d !! e_id row = Some row →
  key_free (e_id row, e_attempt row, next_seq row) (events d).
Proof.
  intros Hi Hrow (r & E & Hr)%list_elem_of_fmap. unfold ev_key in E. simplify_eq.
  destruct (inv_events _ Hi r Hr) as (e & f & He & _ & Hseq & _).
  rewrite <- H0 in He. simplify_eq. unfold next_seq in *. lia.
Qed.

Lemma event_total c row f d :
  inv d → row_room row → executions d !! e_id row = Some row → fields_ok f = true → text_safe f →
  ∃ d', event c row f d = Ok (next_seq row, d') ∧ executions d' = executions d.
Proof.
  intros Hi Hroom Hrow Hf Ht. eexists. split; [|shelve].
  apply event_Ok. split_and!; [by eapply row_event_ok| |by apply row_key_free|done|done].
  by apply event_bytes; [|eapply row_event_ok|].
  Unshelve. done.
Qed.

Lemma holds_not_finished e : holds_lease e → e_state e ≠ FINISHED.
Proof. by intros [-> | ->]. Qed.
Lemma authorised_not_finished t e : authorised t e → e_state e ≠ FINISHED.
Proof. intros Ha. by eapply holds_not_finished, authorised_active. Qed.

(** The measurements of a result fit the INTEGER columns (as the milliseconds and KiB of a run
    under the runtime policy do). *)
Definition result_int4 (r : JudgedResult) : bool := opt_check int4 (jr_runtimeMs r) && opt_check int4 (jr_memoryKiB r).

Lemma finish_int4 row v input results fin seq :
  row_ok row → isTerminal (e_state row) = false → result_int4 input = true →
  metrics_int4 (data_finish v (jr_runtimeMs input) (jr_memoryKiB input) results fin seq row) = true.
Proof.
  intros Hok Hnt Hi. destruct (ok_metrics _ Hok Hnt) as [E1 E2]. unfold metrics_int4, data_finish. cbn.
  rewrite E1, E2. unfold result_int4 in Hi. by destruct (jr_runtimeMs input), (jr_memoryKiB input).
Qed.

(** A step stays within the INTEGER columns, unless a worker reports an oversized measurement. *)
Lemma step_int4 c old new :
  row_step c old new → row_ok old → row_room old →
  (e_state new = FINISHED → metrics_int4 new = true) → row_int4 new = true.
Proof.
  intros Hs Hok Hroom Hfin. pose proof (step_source _ _ _ Hs) as Hnt.
  destruct (ok_metrics _ Hok Hnt) as [Em1 Em2]. pose proof (ok_attempt _ Hok) as Hat.
  pose proof (proj1 (checks_split old) (ok_checks _ Hok)) as (_ & [Hca Hcs]%counters_next & _).
  unfold row_room, row_int4, int4, MAX_ATTEMPTS, INT4_MAX in *.
  destruct Hs; cbn in *; rewrite !andb_true_iff; (split; [unfold next_seq, MAX_ATTEMPTS in *; lia|]); try (by apply Hfin);
    unfold metrics_int4; cbn; by rewrite Em1, Em2.
Qed.

Lemma update_total c old data d :
  executions d !! e_id old = Some old → row_ok old → row_room old → clock_ok c →
  row_step c old (data old) → (e_state (data old) = FINISHED → metrics_int4 (data old) = true) →
  fresh_token old (data old) →
  ∃ d', execution_update (trigNow c) (e_id old) data d = Ok (data old, d').
Proof.
  intros Ho Hok Hroom Hc Hs Hfin Hf. eexists. apply execution_update_Ok. exists old. split_and!; try done.
  - by apply trigger_accepts_steps.
  - apply andb_true_iff. split; [by eapply step_int4|]. by eapply ok_checks, row_step_ok.
Qed.

(** Whatever a worker reports, the database refuses at most an oversized measurement. *)
Lemma update_overflow c old data d :
  executions d !! e_id old = Some old → row_ok old → row_room old → clock_ok c →
  row_step c old (data old) → fresh_token old (data old) →
  fails_in [DbError "22003"] (execution_update (trigNow c) (e_id old) data) d.
Proof.
  intros Ho Hok Hroom Hc Hs Hf. unfold fails_in, execution_update. rewrite Ho, trigger_accepts_steps by done.
  destruct (row_int4 (data old)); cbn [negb]; [|by left].
  rewrite (ok_checks (data old)); [done|]. by eapply row_step_ok.
Qed.

Lemma same_attempt_fresh old new : e_attempt new = e_attempt old → fresh_token old new.
Proof. by intros E ?. Qed.

Lemma update_same c old data d :
  executions d !! e_id old = Some old → row_ok old → row_room old → clock_ok c →
  row_step c old (data old) → (e_state (data old) = FINISHED → metrics_int4 (data old) = true) →
  e_attempt (data old) = e_attempt old →
  ∃ d', execution_update (trigNow c) (e_id old) data d = Ok (data old, d').
Proof. intros. apply update_total; try done. by apply same_attempt_fresh. Qed.

Lemma terminal_total c row k code d :
  inv d → row_room row → clock_ok c → executions d !! e_id row = Some row →
  row_step c row (data_terminal k code (finNow c) (next_seq row) row) →
  ∃ d', terminal c row k code d = Ok (tt, d').
Proof.
  intros Hi Hroom Hc Hrow Hs.
  destruct (event_total c row (final_verdict (tk_state k) (tk_verdict k) code) d) as (d1 & E1 & Ex1); try done.
  destruct (notify_total c row (tk_verdict k) d1) as (d2 & E2).
  destruct (notify_Ok _ _ _ _ _ _ E2) as [ns ->].
  destruct (update_same c row (data_terminal k code (finNow c) (next_seq row))
              (set_notifications (λ _, ns) d1)) as (d3 & E3); try done.
  { cbn. by rewrite Ex1. }
  { by apply (inv_rows _ Hi (e_id row)). }
  { by destruct k. }
  exists d3. unfold terminal.
  rewrite (bind_run _ _ _ _ _ E1), (bind_run _ _ _ _ _ E2), (bind_run _ _ _ _ _ E3). done.
Qed.

(** An event and its update, without a notification. *)
Lemma commit_fails {A} l c row f d data (x : A) :
  inv d → row_room row → clock_ok c → executions d !! e_id row = Some row →
  fields_ok f = true → text_safe f →
  row_step c row (data (next_seq row) row) → e_state (data (next_seq row) row) ≠ FINISHED → e_attempt (data (next_seq row) row) = e_attempt row →
  fails_in l (sequence ← event c row f;
              _ ← execution_update (trigNow c) (e_id row) (data sequence); mret x) d.
Proof.
  intros Hi Hroom Hc Hrow Hf Ht Hs Hnf Ha.
  destruct (event_total c row f d) as (d1 & E1 & Ex1); try done.
  destruct (update_same c row (data (next_seq row)) d1) as (d2 & E2); try done.
  { by rewrite Ex1. }
  { by apply (inv_rows _ Hi (e_id row)). }
  eapply fails_Ok. rewrite (bind_run _ _ _ _ _ E1), (bind_run _ _ _ _ _ E2). done.
Qed.

(** ** The operations *)

(** Enters an operation that starts by locking its row. *)
Ltac enter_total Hi id row Hrow Hok :=
  unfold fails_in; rewrite locked_run;
  destruct (executions _ !! id) as [row|] eqn:Hrow; [|by first [done|in_list]];
  destruct (inv_rows _ Hi _ _ Hrow) as [Hid Hok];
  match goal with Hroom : seq_room _ |- _ => pose proof (Hroom _ _ Hrow) end; rewrite <- Hid in *.

(** A branch that ends the execution and returns. *)
Lemma terminal_fails {A} l c row k code d (x : A) :
  inv d → row_room row → clock_ok c → executions d !! e_id row = Some row →
  row_step c row (data_terminal k code (finNow c) (next_seq row) row) →
  fails_in l (_ ← terminal c row k code; mret x) d.
Proof.
  intros Hi Hroom Hc Hrow Hs. destruct (terminal_total c row k code d) as [d' E]; try done.
  eapply fails_Ok. by rewrite (bind_run _ _ _ _ _ E).
Qed.

Lemma claim_fails c token id d :
  inv d → seq_room d → clock_ok c →
  (∀ row, executions d !! id = Some row → e_leaseToken row ≠ Some token) →
  fails_in [] (claim c token id) d.
Proof.
  intros Hi Hroom Hc Hfresh. unfold claim. enter_total Hi id row Hrow Hok.
  destruct (isTerminal (e_state row)) eqn:Ht; [done|].
  destruct (bool_decide (e_state row = QUEUED) && _) eqn:Eq.
  { checks. apply (terminal_fails [] c); try done. constructor; [done|lia]. }
  destruct (negb (bool_decide (e_state row = QUEUED)) && _) eqn:El; [done|].
  pose proof (claimable_when _ _ Ht Eq El) as Hwhen.
  destruct (bool_decide_reflect (is_Some (e_cancellationRequestedAt row))) as [Hcan|Hcan].
  { destruct Hwhen as [[Hq _] | [Hh Hl]].
    - destruct (ok_queued _ Hok Hq) as (_ & _ & _ & Hn). rewrite Hn in Hcan. by destruct Hcan.
    - apply (terminal_fails [] c); try done. by apply (rs_give_up _ _ (now c) (now c)); auto. }
  apply eq_None_not_Some in Hcan.
  destruct ((deadline row <=? now c) || (MAX_ATTEMPTS <=? e_attempt row)) eqn:Ed.
  { destruct Hwhen as [[Hq Hx] | [Hh Hl]].
    - exfalso. destruct (ok_queued _ Hok Hq) as (Ha & _).
      apply orb_true_iff in Ed as [Ed|Ed]; unfold deadline, MAX_ATTEMPTS in *; lia.
    - apply (terminal_fails [] c); try done. by apply (rs_give_up _ _ (now c) (now c)); [|left|destruct (MAX_ATTEMPTS <=? e_attempt row)]. }
  apply orb_false_iff in Ed as [Ed1%Z.leb_gt Ed2%Z.leb_gt].
  set (row1 := mkExecution _ COMPILING _ _ _ _ _ _ _ _ _ _ _).
  set (d1 := set_events (filter (λ e, ev_executionId e ≠ e_id row)) d).
  rewrite (bind_run _ _ d tt d1) by done.
  destruct (event_Ok c row1 (execution_status COMPILING None) d1 1
    (set_events (λ l, trim (e_id row1) (l ++ [event_row c row1 (execution_status COMPILING None)])) d1))
    as [_ E1].
  assert (Hev : event_ok (event_of row1 (execution_status COMPILING None)) = true).
  { destruct (inv_ids _ Hi _ _ Hrow) as [Hz _]. unfold event_ok, event_of, next_seq.
    cbn [pe_executionId pe_attempt pe_sequence pe_fields fields_ok row1 e_attempt e_lastSequence].
    change (e_id row1) with (e_id row). rewrite Hz. pose proof (proj1 (checks_split row) (ok_checks _ Hok)) as (_ & [? ?]%counters_next & _).
    unfold safe_int, MAX_SAFE_INTEGER, MAX_ATTEMPTS in *. lia. }
  rewrite (bind_run _ _ _ _ _ (E1 ltac:(split_and!; [done|by apply event_bytes| |done|done];
    intros (r & Ek & [Hne _]%list_elem_of_filter)%list_elem_of_fmap; unfold ev_key in Ek; simplify_eq))).
  set (x := Z.min _ _).
  destruct (update_total c row (data_claim (e_attempt row + 1) 1 token x)
    (set_events (λ l, trim (e_id row1) (l ++ [event_row c row1 (execution_status COMPILING None)])) d1))
    as [d3 E3]; try done.
  - by apply rs_claim.
  - intros _ _. cbn. intros E. by apply (Hfresh row eq_refl).
  - by rewrite (bind_run _ _ _ _ _ E3).
Qed.

Lemma renew_fails c lease d : inv d → seq_room d → clock_ok c → fails_in [] (renew c lease) d.
Proof.
  intros Hi Hroom Hc. unfold renew. enter_total Hi (l_executionId lease) row Hrow Hok.
  destruct (valid (now c) row lease) eqn:Hv; cbn [negb]; [|done].
  apply valid_authorised in Hv as (Ha & _).
  set (base := Z.min (now c + LEASE_MS) (deadline row)).
  set (end_ := match e_cancellationRequestedAt row with Some t => _ | None => base end).
  destruct (end_ <=? now c) eqn:Ee; [done|]. apply Z.leb_gt in Ee.
  destruct (update_same c row (data_lease end_) d) as [d1 E]; try done.
  - assert (end_ ≤ base ∧ ∀ r, e_cancellationRequestedAt row = Some r → end_ ≤ r + CANCEL_GRACE_MS) as [Hb Hcc].
    { unfold end_. destruct (e_cancellationRequestedAt row); split; intros; simplify_eq; lia. }
    apply rs_renew; try done; lia.
  - cbn. intros E. by apply authorised_not_finished in Ha.
  - by rewrite (bind_run _ _ _ _ _ E).
Qed.

Lemma markRunning_fails c lease d : inv d → seq_room d → clock_ok c → fails_in [] (markRunning c lease) d.
Proof.
  intros Hi Hroom Hc. unfold markRunning. enter_total Hi (l_executionId lease) row Hrow Hok.
  destruct (valid (now c) row lease) eqn:Hv; cbn [negb orb]; [|done].
  apply valid_authorised in Hv as (Ha & _).
  destruct (bool_decide_reflect (is_Some (e_cancellationRequestedAt row))) as [Hcan|Hcan]; cbn [orb]; [done|].
  apply eq_None_not_Some in Hcan.
  destruct (bool_decide_reflect (e_state row = COMPILING)) as [Hs|Hs]; cbn [negb]; [|done].
  apply (commit_fails [] c row (execution_status RUNNING None) d (data_progress RUNNING)); try done.
  by apply rs_run.
Qed.

Lemma safeConsole_text_safe caseId stream text :
  Forall unit_ok text → text_safe (console_output caseId stream (safeConsole stripVT text)).
Proof.
  intros Hu. split.
  - rewrite Forall_forall in Hu |- *. intros u Hin. apply Hu. eapply elem_of_sublist; [done|].
    etrans; [apply dropUnsafe_sublist|apply stripVT_deletes].
  - apply Forall_forall. intros u [Hs _]%list_elem_of_filter. done.
Qed.

Lemma console_fails c lease caseId stream text d :
  inv d → seq_room d → clock_ok c → Forall unit_ok text →
  fails_in [JsError "INVALID_PUBLIC_OUTPUT"; JsError "PRIVATE_OUTPUT_REJECTED"]
    (console stripVT c lease caseId stream text) d.
Proof.
  intros Hi Hroom Hc Hu. unfold console. destruct (negb (z_uuid caseId) || _) eqn:Ein.
  { apply fails_throw. left. }
  apply orb_false_iff in Ein as [Ez%negb_false_iff El%Z.ltb_ge].
  enter_total Hi (l_executionId lease) row Hrow Hok.
  destruct (valid (now c) row lease) eqn:Hv; cbn [negb orb]; [|done].
  apply valid_authorised in Hv as (Ha & _).
  destruct (bool_decide_reflect (is_Some (e_cancellationRequestedAt row))) as [Hcan|Hcan]; [done|].
  apply eq_None_not_Some in Hcan. rewrite (bind_run _ _ _ _ _ eq_refl).
  destruct (bool_decide_reflect (e_mode row = RUN)) as [Hm|Hm]; cbn [negb orb]; [|in_list].
  destruct (negb _); [in_list|].
  apply (commit_fails _ c row _ d (λ seq e, data_progress (e_state e) seq e)); try done.
  - cbn [fields_ok]. rewrite Ez. apply Z.leb_le.
    pose proof (safeConsole_byteLength stripVT stripVT_deletes text). lia.
  - by apply safeConsole_text_safe.
  - by apply rs_console.
  - cbn. by eapply authorised_not_finished.
Qed.

(** The INTEGER range is all that a report can violate. *)
Definition overflow (input : JudgedResult) : list error := if result_int4 input then [] else [DbError "22003"].

Lemma finish_fails c lease input d :
  inv d → seq_room d → clock_ok c →
  fails_in ([ZodError; JsError "PUBLIC_RESULT_TOO_LARGE"; JsError "PRIVATE_OUTPUT_REJECTED"] ++ overflow input)
    (finish stripVT c lease input) d.
Proof.
  intros Hi Hroom Hc. unfold finish. destruct (resultSchema input) eqn:Hin; cbn [negb]; [|by left].
  destruct (MAX_OUTPUT_BYTES <? _); [by right; left|].
  enter_total Hi (l_executionId lease) row Hrow Hok.
  destruct (valid (now c) row lease) eqn:Hv; cbn [negb]; [|done].
  apply valid_authorised in Hv as (Ha & _).
  destruct (bool_decide_reflect (is_Some (e_cancellationRequestedAt row))) as [Hcan|Hcan].
  { apply (terminal_fails _ c); try done. by constructor. }
  apply eq_None_not_Some in Hcan. rewrite (bind_run _ _ _ _ _ eq_refl).
  destruct (public_results_ok _ _ _) eqn:Hpub; cbn [negb]; [|in_list].
  destruct (event_total c row (final_verdict FINISHED (jr_verdict input) None) d) as (d1 & E1 & Ex1); try done.
  destruct (notify_total c row (jr_verdict input) d1) as (d2 & E2).
  destruct (notify_Ok _ _ _ _ _ _ E2) as [ns ->].
  rewrite (bind_run _ _ _ _ _ E1), (bind_run _ _ _ _ _ E2).
  set (data := data_finish _ _ _ _ _ _).
  assert (executions (set_notifications (λ _, ns) d1) !! e_id row = Some row) as Hrow1 by (cbn; by rewrite Ex1).
  unfold overflow. destruct (result_int4 input) eqn:Hi4.
  - destruct (update_same c row data (set_notifications (λ _, ns) d1)) as (d3 & E3); try done.
    + by eapply finish_step.
    + intros _. apply finish_int4; [done| |done]. by apply holds_not_terminal, (authorised_active (now c)).
    + by rewrite (bind_run _ _ _ _ _ E3).
  - apply (fails_bind _ (execution_update (trigNow c) (e_id row) data)); [|done].
    pose proof (update_overflow c row data (set_notifications (λ _, ns) d1) Hrow1) as Hu.
    unfold fails_in in *. destruct (execution_update _ _ _ _); [done|].
    apply elem_of_app. right. apply Hu; try done; [by eapply finish_step|by apply same_attempt_fresh].
Qed.

Lemma fail_fails c lease cleanup d : inv d → seq_room d → clock_ok c → fails_in [] (fail c lease cleanup) d.
Proof.
  intros Hi Hroom Hc. unfold fail. enter_total Hi (l_executionId lease) row Hrow Hok.
  destruct (valid (now c) row lease) eqn:Hv; cbn [negb]; [|done].
  apply valid_authorised in Hv as (Ha & _).
  destruct (bool_decide_reflect (is_Some (e_cancellationRequestedAt row))) as [Hcan|Hcan];
    destruct cleanup; cbn [andb]; (apply (terminal_fails [] c); try done; constructor; by auto).
Qed.

Lemma recover_fails c lease d : inv d → seq_room d → clock_ok c → fails_in [] (recover c lease) d.
Proof.
  intros Hi Hroom Hc. unfold recover. enter_total Hi (l_executionId lease) row Hrow Hok.
  destruct (valid (now c) row lease) eqn:Hv; cbn [negb]; [|done].
  apply valid_authorised in Hv as (Ha & _).
  destruct (bool_decide_reflect (is_Some (e_cancellationRequestedAt row))) as [Hcan|Hcan].
  { apply (terminal_fails [] c); try done. by constructor. }
  destruct (MAX_ATTEMPTS <=? e_attempt row).
  { apply (terminal_fails [] c); try done. by constructor; auto. }
  destruct (update_same c row (data_lease (now c)) d) as [d1 E]; try done;
    [by apply rs_release|cbn; intros E; by apply authorised_not_finished in Ha|].
  by rewrite (bind_run _ _ _ _ _ E).
Qed.

Lemma outbox_has_elem k l : outbox_has k l = true ↔ ∃ o, o ∈ l ∧ o_key o = k.
Proof.
  unfold outbox_has. rewrite existsb_exists. split.
  - intros (o & Ho & E%bool_decide_eq_true). exists o. by rewrite list_elem_of_In.
  - intros (o & Ho & E). exists o. rewrite <- list_elem_of_In. split; [done|]. by apply bool_decide_eq_true.
Qed.

(** No closing intent exists yet for a row that is not terminal. *)
Lemma closing_free d row k :
  inv d → executions d !! e_id row = Some row → isTerminal (e_state row) = false →
  k = EXECUTION_CANCELLED ∨ k = EXECUTION_EXPIRED → outbox_has (e_id row, k, 0) (outbox d) = false.
Proof.
  intros Hi Hrow Ht Hk. apply not_true_iff_false. intros (o & Ho & E)%outbox_has_elem.
  unfold o_key in E. simplify_eq. destruct (inv_outbox _ Hi o Ho Hk) as (e & He & Hte).
  rewrite H0 in He. simplify_eq. congruence.
Qed.

Lemma cancel_fails c userId id activeAllowed d :
  inv d → seq_room d → clock_ok c →
  fails_in [NotFound; ApiError 503 "CANCELLATION_UNAVAILABLE" None] (cancel c userId id activeAllowed) d.
Proof.
  intros Hi Hroom Hc. unfold cancel. enter_total Hi id row Hrow Hok.
  destruct (negb _); [in_list|].
  destruct (bool_decide_reflect (e_state row = QUEUED)) as [Hq|Hq].
  - destruct (terminal_total c row T_CANCELLED None d) as [d1 E1]; try done; [by apply rs_cancel_queued|].
    rewrite (bind_run _ _ _ _ _ E1). apply terminal_effect in E1 as (evs & ns & _ & ->); [|done].
    unfold outbox_create, mbind, tx_bind. change (o_key _) with (e_id row, EXECUTION_CANCELLED, 0).
    cbn [put outbox]. rewrite closing_free; try done; [by rewrite Hq|by left].
  - destruct (isTerminal (e_state row)) eqn:Ht; cbn [negb]; [done|].
    destruct activeAllowed; cbn [negb]; [|in_list].
    apply fails_bind; [|by intros]. case_bool_decide as Hn; [|done].
    apply (commit_fails _ c row _ d (data_cancel (now c))); try done.
    + apply rs_request_cancel; [by apply active_cases|done].
    + cbn. by apply holds_not_finished, active_cases.
Qed.

(** ** Batches *)

Lemma loop_total clk (f : Execution → tx db unit) (g : Execution → Execution) rows d :
  (∀ row d1, row ∈ rows → inv d1 → executions d1 !! e_id row = Some row →
     ∃ d2, f row d1 = Ok (tt, d2) ∧ effect (clk (e_id row)) (e_id row) d1 d2
       ∧ executions d2 = <[e_id row := g row]> (executions d1)) →
  NoDup (e_id <$> rows) → (∀ row, row ∈ rows → executions d !! e_id row = Some row) → inv d →
  ∃ d', for_each f rows d = Ok (tt, d').
Proof.
  revert d. induction rows as [|row rows IH]; intros d Hf Hnd Hcur Hinv; [by eexists|].
  cbn in Hnd. apply NoDup_cons in Hnd as [Hni Hnd].
  destruct (Hf row d) as (d1 & E & He & Hx); [left|done|by apply Hcur; left|].
  cbn [for_each]. rewrite (bind_run _ _ _ _ _ E). apply IH; try done.
  - intros row' d2 Hin. apply Hf. by right.
  - intros row' Hin. rewrite Hx, lookup_insert_ne; [by apply Hcur; right|].
    intros Eid. apply Hni. rewrite Eid. by apply list_elem_of_fmap_2.
  - by eapply effect_inv.
Qed.

Lemma maintain_fails mc busy busyOutbox d :
  inv d → seq_room d → (∀ id, clock_ok (mc_row mc id)) → fails_in [] (maintain mc busy busyOutbox) d.
Proof.
  intros Hi Hroom Hc. unfold maintain, fails_in. rewrite (bind_run _ _ _ _ _ eq_refl).
  destruct (batch_rows d _ _ _ (overdue_rows busy mc d) (inv_rows _ Hi) eq_refl) as [Hnd Hrows].
  destruct (loop_total (mc_row mc) (maintain_row (mc_row mc)) (λ row, maintained (mc_row mc (e_id row)) row)
              (overdue_rows busy mc d) d) as (d' & E); try done.
  - intros row d1 Hin Hi1 Hcur. destruct (Hrows row Hin) as (Hd & Hov & _).
    apply Is_true_true in Hov. destruct (inv_rows _ Hi1 _ _ Hcur) as [_ Hok].
    assert (∃ d2, maintain_row (mc_row mc) row d1 = Ok (tt, d2)) as [d2 E2].
    { rewrite maintain_row_eq. destruct (gives_up _ row) as [code|] eqn:Eg; [|by eexists].
      destruct (overdue_step _ _ Hok Hov) as [Hh Hwhen].
      apply terminal_total; try done; [by eapply Hroom|]. eapply rs_give_up; try done.
      unfold gives_up in Eg. by repeat case_match; simplify_eq. }
    exists d2. split; [done|]. by apply (maintain_row_effect mc) in E2.
  - intros row Hin. by apply Hrows.
  - by rewrite (bind_run _ _ _ _ _ E).
Qed.

Lemma expired_outbox_total clk rows d :
  NoDup (e_id <$> rows) → (∀ row, row ∈ rows → outbox_has (e_id row, EXECUTION_EXPIRED, 0) (outbox d) = false) →
  ∃ d', for_each (λ row, outbox_create (new_outbox (e_id row) EXECUTION_EXPIRED 0 (insNow (clk (e_id row)))))
          rows d = Ok (tt, d').
Proof.
  revert d. induction rows as [|row rows IH]; intros d Hnd Hfree; [by eexists|].
  cbn in Hnd. apply NoDup_cons in Hnd as [Hni Hnd].
  cbn [for_each]. erewrite bind_run; cycle 1.
  { unfold outbox_create. change (o_key _) with (e_id row, EXECUTION_EXPIRED, 0).
    rewrite Hfree by left. done. }
  apply IH; [done|]. intros row' Hin. apply not_true_iff_false. cbn [set_outbox outbox].
  intros (o & [Ho | ->%list_elem_of_singleton]%elem_of_app & E)%outbox_has_elem.
  - assert (outbox_has (e_id row', EXECUTION_EXPIRED, 0) (outbox d) = true) as Ht
      by (apply outbox_has_elem; eauto).
    rewrite Hfree in Ht; [done|by right].
  - unfold o_key in E. cbn in E. injection E as E'. apply Hni. rewrite E'. by apply list_elem_of_fmap_2.
Qed.

Lemma expire_fails clk t busy d :
  inv d → seq_room d → (∀ id, clock_ok (clk id)) → fails_in [] (expireQueuedJobs clk t busy) d.
Proof.
  intros Hi Hroom Hc. unfold expireQueuedJobs, fails_in. rewrite (bind_run _ _ _ _ _ eq_refl).
  destruct (batch_rows d _ _ _ (expired_rows t busy d) (inv_rows _ Hi) eq_refl) as [Hnd Hrows].
  destruct (_ =? 0)%nat; [done|].
  assert (Hstep : ∀ row d1, row ∈ expired_rows t busy d → inv d1 → executions d1 !! e_id row = Some row →
    ∃ d2, expire_row clk t row d1 = Ok (tt, d2)).
  { intros row d1 Hin Hi1 Hcur. destruct (Hrows row Hin) as (Hd & Hq & Hx & _).
    assert (fails_in [] (expire_row clk t row) d1) as E.
    { apply (commit_fails [] (clk (e_id row)) row _ d1 (data_expire t)); try done.
      - by eapply Hroom.
      - by apply rs_expire. }
    unfold fails_in in E. destruct (expire_row clk t row d1) as [[[] d2]|e]; [by eexists|].
    by apply elem_of_nil in E. }
  destruct (loop_total clk (expire_row clk t) (λ row, data_expire t (next_seq row) row)
              (expired_rows t busy d) d) as (d' & E); try done.
  - intros row d1 Hin Hi1 Hcur. destruct (Hstep row d1 Hin Hi1 Hcur) as [d2 E2].
    destruct (Hrows row Hin) as (Hd & Hq & Hx & _).
    exists d2. split; [done|]. by apply expire_row_effect in E2.
  - intros row Hin. by apply Hrows.
  - rewrite (bind_run _ _ _ _ _ E).
    destruct (expired_outbox_total clk (expired_rows t busy d) d') as (d2 & E2); try done.
    + intros row Hin. destruct (Hrows row Hin) as (Hd & Hq & _).
      assert (outbox d' = outbox d) as ->.
      { eapply (for_each_inv (λ s, outbox s = outbox d) (expire_row clk t)); [|done|exact E].
        intros a s1 u1 s2 _ <- Er. unfold expire_row in Er. inv_tx.
        apply event_Ok in Hrun as (_ & -> & ->).
        by apply execution_update_Ok in Hrun0 as (o & _ & -> & _ & _ & ->). }
      apply closing_free; [done..|by rewrite Hq|by right].
    + by rewrite (bind_run _ _ _ _ _ E2).
Qed.
End Progress.
