(* ===== verification/Admission.v ===== *)
(** * Execution admission ([apps/api/src/executions/admission.ts])

    The global capacity check and the per-minute creation quotas, taken under one advisory lock
    inside the creating transaction.  Node's HMAC-SHA256 is a parameter. *)

From S2P Require Import Prelude JsText Contracts Judge Database.
Local Open Scope Z_scope.

(** The configuration values the execution services read. *)
Record ConfigValues := mkConfig {
  EXECUTIONS_ENABLED : bool; PIPELINE_ENABLED : bool;
  MAX_ACTIVE_JOBS_PER_USER : Z; MAX_ACTIVE_JOBS_GLOBAL : Z;
  EXECUTION_CREATIONS_PER_MINUTE : Z; EXECUTION_IP_CREATIONS_PER_MINUTE : Z;
  EXECUTION_GLOBAL_CREATIONS_PER_MINUTE : Z; EXECUTION_RATE_LIMIT_KEY : jsstr;
  QUEUE_TTL_SECONDS : Z
}.

(** [execution.count({where})]. *)
Definition active_by (p : Execution → bool) (d : db) : gmap uuid Execution :=
  filter (λ kv, is_active (e_state kv.2) && p kv.2 = true) (executions d).
Definition count_active (p : Execution → bool) (d : db) : Z := Z.of_nat (size (active_by p d)).
Definition of_user (u : uuid) (e : Execution) : bool := bool_decide (x_userId (e_req e) = u).

(** [executionRateLimit.upsert({where:{key},create:{key,expiresAt},update:{count:{increment:1}}})]. *)
Definition rate_upsert (key : jsstr) (expiresAt : Z) : tx db RateRow :=
  row ← gets (λ d, match rateLimits d !! key with
                   | Some r => mkRateRow (rl_count r + 1) (rl_expiresAt r)
                   | None => mkRateRow 1 expiresAt
                   end);
  _ ← modify (set_rateLimits (<[key := row]>));
  mret row.

(** [Math.max(1, Math.ceil(ms / 1000))]. *)
Definition retry_seconds (ms : Z) : Z := Z.max 1 (- ((- ms) / 1000)).

Section Admission.
Context (hmac : jsstr → jsstr → jsstr).

Definition executionRateKey (secret : jsstr) (window : Z) (scope : jsstr) : jsstr :=
  hmac secret (js "execution:create:v1:" ++ js (pretty window) ++ js ":" ++ scope).

Definition scopes (cfg : ConfigValues) (userId ip : jsstr) : list (jsstr * Z) :=
  [(js "global", EXECUTION_GLOBAL_CREATIONS_PER_MINUTE cfg);
   (js "ip:" ++ ip, EXECUTION_IP_CREATIONS_PER_MINUTE cfg);
   (js "user:" ++ userId, EXECUTION_CREATIONS_PER_MINUTE cfg)].

Definition charge (cfg : ConfigValues) (window expiresAt tRetry : Z) (sl : jsstr * Z) : tx db unit :=
  counter ← rate_upsert (executionRateKey (EXECUTION_RATE_LIMIT_KEY cfg) window sl.1) expiresAt;
  if sl.2 <? rl_count counter
  then throw (ApiError 429 "EXECUTION_RATE_LIMIT" (Some (retry_seconds (expiresAt - tRetry))))
  else mret tt.

(** [t] is the [new Date()] after the capacity check, [tRetry] the [Date.now()] of the error. *)
Definition reserve (cfg : ConfigValues) (t tRetry : Z) (userId ip : jsstr) : tx db unit :=
  active ← gets (count_active (λ _, true));
  if MAX_ACTIVE_JOBS_GLOBAL cfg <=? active then throw (ApiError 503 "EXECUTION_CAPACITY" (Some 5)) else
  let window := t / 60000 in
  let expiresAt := (window + 1) * 60000 in
  for_each (charge cfg window expiresAt tRetry) (scopes cfg userId ip).

(** ** Facts *)

Definition rate_count (d : db) (key : jsstr) : Z :=
  match rateLimits d !! key with Some r => rl_count r | None => 0 end.

Lemma charge_Ok cfg w x tr sl d u d' :
  charge cfg w x tr sl d = Ok (u, d') →
  let k := executionRateKey (EXECUTION_RATE_LIMIT_KEY cfg) w sl.1 in
  (∃ f, d' = set_rateLimits f d) ∧ rate_count d' k = rate_count d k + 1 ∧ rate_count d' k ≤ sl.2
  ∧ ∀ k', k' ≠ k → rateLimits d' !! k' = rateLimits d !! k'.
Proof.
  intros E k. unfold charge, rate_upsert in E. inv_tx.
  destruct (sl.2 <? _) eqn:El; [by inv_tx|]. apply Z.ltb_ge in El. inv_tx. fold k in El |- *.
  unfold rate_count. cbn [rateLimits set_rateLimits].
  split_and!; [by eexists|rewrite lookup_insert_eq..|].
  - destruct (rateLimits d !! k); cbn; lia.
  - done.
  - intros k' Hne. by rewrite lookup_insert_ne.
Qed.

(** The keys a creation charges. *)
Definition charged_keys (cfg : ConfigValues) (window : Z) (userId ip : jsstr) : list jsstr :=
  (λ sl, executionRateKey (EXECUTION_RATE_LIMIT_KEY cfg) window sl.1) <$> scopes cfg userId ip.

Lemma for_each_charge_Ok cfg w x tr sls d u d' :
  let key (sl : jsstr * Z) := executionRateKey (EXECUTION_RATE_LIMIT_KEY cfg) w sl.1 in
  NoDup (key <$> sls) → for_each (charge cfg w x tr) sls d = Ok (u, d') →
  (∃ f, d' = set_rateLimits f d)
  ∧ (∀ sl, sl ∈ sls → rate_count d' (key sl) = rate_count d (key sl) + 1 ∧ rate_count d' (key sl) ≤ sl.2)
  ∧ ∀ k, k ∉ key <$> sls → rateLimits d' !! k = rateLimits d !! k.
Proof.
  intros key. revert d. induction sls as [|sl sls IH]; intros d Hnd E; cbn in E.
  { inv_tx. split_and!; [by exists id; destruct d|by intros ? ?%elem_of_nil|done]. }
  inv_tx. cbn in Hnd. apply NoDup_cons in Hnd as [Hni Hnd].
  apply charge_Ok in Hrun as ([f ->] & H1 & H2 & H3). fold (key sl) in H1, H2, H3.
  destruct (IH _ Hnd E) as ([g ->] & I1 & I2). split_and!.
  - by exists (λ x, g (f x)).
  - intros sl' [-> | Hin]%elem_of_cons.
    + unfold rate_count in *. rewrite !I2 by done. done.
    + destruct (I1 _ Hin) as [E1 E2]. split; [|done]. rewrite E1. unfold rate_count. rewrite H3; [done|].
      intros Ek. apply Hni. rewrite <- Ek. by apply list_elem_of_fmap_2.
  - intros k [Hne Hn]%not_elem_of_cons. by rewrite I2, H3.
Qed.

Lemma reserve_Ok cfg t tr userId ip d u d' :
  NoDup (charged_keys cfg (t / 60000) userId ip) → reserve cfg t tr userId ip d = Ok (u, d') →
  count_active (λ _, true) d < MAX_ACTIVE_JOBS_GLOBAL cfg
  ∧ (∃ f, d' = set_rateLimits f d)
  ∧ (∀ scope limit, (scope, limit) ∈ scopes cfg userId ip →
       let k := executionRateKey (EXECUTION_RATE_LIMIT_KEY cfg) (t / 60000) scope in
       rate_count d' k = rate_count d k + 1 ∧ rate_count d' k ≤ limit)
  ∧ ∀ k, k ∉ charged_keys cfg (t / 60000) userId ip → rateLimits d' !! k = rateLimits d !! k.
Proof.
  unfold reserve. intros Hnd E. inv_tx.
  destruct (MAX_ACTIVE_JOBS_GLOBAL cfg <=? _) eqn:Ec; [by inv_tx|]. apply Z.leb_gt in Ec.
  apply for_each_charge_Ok in E as (Hf & H1 & H2); [|done].
  split_and!; try done. intros scope limit Hin. by apply (H1 (scope, limit)).
Qed.

(** Without any assumption on the keys: admission only writes the rate counters. *)
Lemma reserve_frame cfg t tr userId ip d u d' :
  reserve cfg t tr userId ip d = Ok (u, d') → ∃ f, d' = set_rateLimits f d.
Proof.
  unfold reserve. intros E. inv_tx. destruct (_ <=? _) in E; [by inv_tx|].
  eapply (for_each_inv (λ s, ∃ f, s = set_rateLimits f d)); [| |exact E].
  - intros a s1 u1 s2 _ [f ->] ([g ->] & _)%charge_Ok. by exists (λ x, g (f x)).
  - by exists id; destruct d.
Qed.
End Admission.
