(* ===== verification/Executions.v ===== *)
(** * The execution service ([apps/api/src/executions/executions.ts])

    Creation with idempotency, admission and the transactional outbox; owner-scoped snapshot,
    cancellation and cursor-paginated history.  SHA-256 is a parameter; the generated
    identifier and the clock readings are arguments. *)

From S2P Require Import Prelude Paging JsText Contracts Judge Database Serialization JobStore.
From S2P Require Import Admission.
Local Open Scope Z_scope.

(** The clock readings of one creation: [t_comp] the [new Date()] of the competition check,
    [t_adm] and [t_retry] those of admission, [t_queue] the [Date.now()] of the queue deadline,
    and [t_row] those of the inserted row and its event. *)
Record CreateClock := mkCreateClock { t_comp : Z; t_adm : Z; t_retry : Z; t_queue : Z; t_row : Clock }.

Definition hash_json (input : CreateExecution) : json :=
  JArr [JStr (ce_problemId input); enum_json (ce_language input); enum_json (ce_mode input);
        JStr (ce_sourceCode input);
        match ce_competitionSlug input with Some s => JStr s | None => JNull end].

Definition api (status : Z) (code : string) : error := ApiError status code None.

(** [execution.findUnique({where:{userId_idempotencyKey}})]. *)
Definition find_idempotent (userId key : jsstr) (d : db) : option Execution :=
  snd <$> find (λ kv, bool_decide (x_userId (e_req kv.2) = userId)
                      && bool_decide (x_idempotencyKey (e_req kv.2) = key)) (map_to_list (executions d)).

(** The current version of a problem when it is published. *)
Definition published_version (problemId : uuid) (d : db) : option uuid :=
  p ← problems d !! problemId;
  v ← p_currentVersionId p;
  pv ← problemVersions d !! v;
  if pv_published pv then Some v else None.

Definition find_competition (slug : jsstr) (d : db) : option Competition :=
  find (λ c, bool_decide (c_slug c = slug) && c_published c) (competitions d).

(** The round an execution of [problemId] belongs to at time [t]. *)
Definition competition_round (t : Z) (userId problemId : uuid) (slug : jsstr) : tx db uuid :=
  oc ← gets (find_competition slug);
  match oc with
  | None => throw NotFound
  | Some c =>
      if t <? c_startsAt c then throw (api 409 "COMPETITION_NOT_STARTED") else
      if c_endsAt c <=? t then throw (api 409 "COMPETITION_FINISHED") else
      if negb (bool_decide (userId ∈ c_registrations c)) then throw (api 403 "REGISTRATION_REQUIRED") else
      match filter (λ r, cr_startsAt r ≤ t ∧ t < cr_endsAt r ∧ problemId ∈ cr_problemIds r) (c_rounds c) with
      | [] => throw (api 409 "ROUND_NOT_ACTIVE")
      | r :: _ => mret (cr_id r)
      end
  end.

(** [input.competitionSlug] is truthy only when it is a non-empty string. *)
Definition round_of (t : Z) (userId : uuid) (input : CreateExecution) : tx db (option uuid) :=
  match ce_competitionSlug input with
  | Some (u :: s) => Some <$> competition_round t userId (ce_problemId input) (u :: s)
  | _ => mret None
  end.

Definition data_sequence (seq : Z) (e : Execution) : Execution := data_progress (e_state e) seq e.

Section Executions.
Context `{Zod} (hmac : jsstr → jsstr → jsstr) (sha256 : jsstr → jsstr).

Definition payloadHash (input : CreateExecution) : jsstr := sha256 (stringify (hash_json input)).

Definition new_execution (cfg : ConfigValues) (c : CreateClock) (id userId version : uuid)
    (round : option uuid) (input : CreateExecution) (key : jsstr) : Execution :=
  mkExecution
    (mkRequest id userId version round (ce_language input) (ce_mode input) (ce_sourceCode input)
       (payloadHash input) key (insNow (t_row c)) (t_queue c + QUEUE_TTL_SECONDS cfg * 1000))
    QUEUED None 0 0 None None None None None None None None.

Definition create (cfg : ConfigValues) (c : CreateClock) (id userId : uuid) (input : CreateExecution)
    (key ip : jsstr) : tx db Receipt :=
  if negb (EXECUTIONS_ENABLED cfg) then throw (api 503 "EXECUTIONS_DISABLED") else
  let hash := payloadHash input in
  previous ← gets (find_idempotent userId key);
  match previous with
  | Some p =>
      if negb (bool_decide (x_payloadHash (e_req p) = hash)) then throw (api 409 "IDEMPOTENCY_CONFLICT")
      else mret (mkReceipt (e_id p) (e_state p) None)
  | None =>
      count ← gets (count_active (of_user userId));
      if MAX_ACTIVE_JOBS_PER_USER cfg <=? count then throw (ApiError 429 "ACTIVE_JOB_LIMIT" (Some 5)) else
      oversion ← gets (published_version (ce_problemId input));
      match oversion with
      | None => throw NotFound
      | Some version =>
          competitionRoundId ← round_of (t_comp c) userId input;
          _ ← reserve hmac cfg (t_adm c) (t_retry c) userId ip;
          row ← execution_create (new_execution cfg c id userId version competitionRoundId input key);
          sequence ← event (t_row c) row (execution_status QUEUED None);
          _ ← execution_update (trigNow (t_row c)) (e_id row) (data_sequence sequence);
          _ ← outbox_create (new_outbox (e_id row) EXECUTION_CREATED 0 (insNow (t_row c)));
          mret (mkReceipt (e_id row) (e_state row) None)
      end
  end.

(** The controller: the byte cap first, then the schemas. *)
Definition source_of (body : json) : option jsstr :=
  match body with JObj o => field "sourceCode" o ≫= parse_string | _ => None end.
Definition create_request (cfg : ConfigValues) (c : CreateClock) (id userId : uuid) (body : json)
    (key : json) (ip : jsstr) : tx db Receipt :=
  if match source_of body with Some s => MAX_SOURCE_BYTES <? byteLength s | None => false end
  then throw (api 413 "SOURCE_TOO_LARGE") else
  match createExecutionSchema body with
  | None => throw (api 400 "INVALID_REQUEST")
  | Some input =>
      match parse_string_if idempotencyKey_ok key with
      | None => throw (api 400 "INVALID_REQUEST")
      | Some k => create cfg c id userId input k ip
      end
  end.

Definition snapshot (userId id : uuid) (d : db) : result ExecutionSnapshot :=
  match executions d !! id with
  | None => Err NotFound
  | Some row =>
      if negb (bool_decide (x_userId (e_req row) = userId)) then Err NotFound else
      match problemVersions d !! x_problemVersionId (e_req row) with
      | None => Err (DbError "P2025")
      | Some v => publicSnapshot row (pv_problemId v)
                    (Some (jc_id <$> filter (λ c, jc_visibility c = PUBLIC) (pv_testCases v)))
      end
  end.

Definition cancel_request (cfg : ConfigValues) (c : Clock) (userId id : uuid) : tx db Receipt :=
  cancel c userId id (PIPELINE_ENABLED cfg).
End Executions.

(** ** History *)

Record SubmissionItem := mkItem {
  si_executionId : uuid; si_problemId : uuid; si_problemTitle : jsstr; si_language : Language;
  si_state : ExecutionState; si_createdAt : Z; si_verdict : option Verdict;
  si_runtimeMs : option Z; si_memoryKiB : option Z; si_failureCode : option ExecutionFailureCode
}.

Definition problem_of (d : db) (e : Execution) : option uuid :=
  pv_problemId <$> problemVersions d !! x_problemVersionId (e_req e).

(** The user's submissions the query selects. *)
Definition submission (d : db) (userId : uuid) (problemId : option uuid) (e : Execution) : Prop :=
  x_userId (e_req e) = userId ∧ e_mode e = SUBMIT
  ∧ match problemId with None => True | Some p => problem_of d e = Some p end.
#[export] Instance submission_dec d u p e : Decision (submission d u p e).
Proof. unfold submission. destruct p; apply _. Defined.

Definition createdAt (e : Execution) : Z := x_createdAt (e_req e).

Definition PAGE : nat := 20.

Definition item (d : db) (row : Execution) : SubmissionItem :=
  let v := problemVersions d !! x_problemVersionId (e_req row) in
  mkItem (e_id row) (default [] (pv_problemId <$> v)) (default [] (pv_title <$> v))
    (x_language (e_req row)) (e_state row) (x_createdAt (e_req row)) (e_verdict row)
    (e_runtimeMs row) (e_memoryKiB row) (e_failureCode row).

(** [findMany({where, orderBy, take: 21})]. *)
Definition history_rows (userId : uuid) (problemId : option uuid) (cursor : option Execution) (d : db)
    : list Execution :=
  query_before createdAt e_id PAGE cursor
    (filter (submission d userId problemId) (map_to_list (executions d)).*2).

Definition history (userId : uuid) (problemId : option uuid) (query_cursor : option uuid) (d : db)
    : result (list SubmissionItem * option uuid) :=
  let cursor := c ← query_cursor; e ← executions d !! c;
                if decide (submission d userId problemId e) then Some e else None in
  match query_cursor, cursor with
  | Some _, None => Err (api 400 "INVALID_CURSOR")
  | _, _ =>
      let rows := history_rows userId problemId cursor d in
      let items := item d <$> take PAGE rows in
      Ok (items, if (PAGE <? length rows)%nat then si_executionId <$> last items else None)
  end.
