(* ===== verification/ExecutionsFacts.v ===== *)
(** * Properties of the execution service

    The payload hash identifies the request, creation preserves the database invariant and the
    job limits, retries are idempotent, and cursor pagination enumerates the history. *)

From S2P Require Import Prelude JsText Contracts Judge Database Serialization JobStore Lifecycle.
From S2P Require Import JobStoreFacts Invariant Admission Executions.
From S2P Require Import Paging.
Local Open Scope Z_scope.

(** ** The payload hash *)

(** The texts of a request are JavaScript strings. *)
Definition input_units (i : CreateExecution) : Prop :=
  Forall unit_ok (ce_problemId i) ∧ Forall unit_ok (ce_sourceCode i)
  ∧ Forall unit_ok (default [] (ce_competitionSlug i)).

Lemma hash_text (i : CreateExecution) :
  stringify (hash_json i) =
  js "[" ++ quote (ce_problemId i) ++ js "," ++ quote (js (enum_name (ce_language i))) ++ js ","
  ++ quote (js (enum_name (ce_mode i))) ++ js "," ++ quote (ce_sourceCode i) ++ js ","
  ++ match ce_competitionSlug i with Some s => quote s | None => js "null" end ++ js "]".
Proof.
  unfold hash_json. cbn [stringify List.map intercalate enum_json]. rewrite <- !app_assoc.
  by destruct (ce_competitionSlug i).
Qed.

Lemma cons_app_inv (k : string) (a b : jsstr) : js k ++ a = js k ++ b → a = b.
Proof. apply app_inv_head. Qed.

Lemma payload_text_inj i j :
  input_units i → input_units j → stringify (hash_json i) = stringify (hash_json j) → i = j.
Proof.
  intros (Hi1 & Hi2 & Hi3) (Hj1 & Hj2 & Hj3). rewrite !hash_text. intros E.
  apply cons_app_inv in E. apply quote_inj_app in E as [E1 E]; [|done..].
  apply cons_app_inv in E. apply quote_inj_app in E as [E2 E]; [|apply js_unit_ok..].
  apply cons_app_inv in E. apply quote_inj_app in E as [E3 E]; [|apply js_unit_ok..].
  apply cons_app_inv in E. apply quote_inj_app in E as [E4 E]; [|done..].
  apply cons_app_inv in E.
  apply (inj js), (inj enum_name) in E2. apply (inj js), (inj enum_name) in E3.
  destruct i as [p l m s [g|]], j as [p' l' m' s' [g'|]];
    cbn [ce_problemId ce_language ce_mode ce_sourceCode ce_competitionSlug default] in *; subst.
  - by apply quote_inj_app in E as [-> _].
  - discriminate E.
  - discriminate E.
  - done.
Qed.

(** ** Counting active jobs *)

Section Count.
Context (p : Execution → bool).
Let P (kv : uuid * Execution) : Prop := is_active (e_state kv.2) && p kv.2 = true.

Lemma size_filter_insert_le (m : gmap uuid Execution) id e :
  (size (filter P (<[id := e]> m)) ≤ S (size (filter P m)))%nat.
Proof.
  destruct (decide (P (id, e))) as [HP|HP].
  - rewrite map_filter_insert_True by done. rewrite map_size_insert. case_match; cbn; lia.
  - rewrite map_filter_insert_False by done. rewrite map_filter_delete, map_size_delete.
    case_match; cbn; lia.
Qed.

(** Replacing a row never makes it count if it did not. *)
Lemma size_filter_update_le (m : gmap uuid Execution) id old new :
  m !! id = Some old → (P (id, new) → P (id, old)) →
  (size (filter P (<[id := new]> m)) ≤ size (filter P m))%nat.
Proof.
  intros Ho Himp. destruct (decide (P (id, new))) as [HP|HP].
  - rewrite map_filter_insert_True by done. rewrite map_size_insert.
    assert (filter P m !! id = Some old) as -> by (by apply map_lookup_filter_Some_2; auto).
    done.
  - rewrite map_filter_insert_False by done. rewrite map_filter_delete, map_size_delete.
    case_match; cbn; lia.
Qed.
End Count.

(** A count that only depends on the immutable request. *)
Definition by_request (p : Execution → bool) : Prop := ∀ e e', e_req e = e_req e' → p e = p e'.

Lemma step_active c old new : row_step c old new → is_active (e_state old) = true.
Proof.
  intros Hs%step_source. rewrite isTerminal_active in Hs. by apply negb_false_iff.
Qed.

Section Facts.
Context `{Zod} (hmac : jsstr → jsstr → jsstr) (sha256 : jsstr → jsstr).

(** ** Creation *)

Lemma find_idempotent_Some u k d e :
  find_idempotent u k d = Some e →
  ∃ id, executions d !! id = Some e ∧ x_userId (e_req e) = u ∧ x_idempotencyKey (e_req e) = k.
Proof.
  unfold find_idempotent. intros ([id e'] & Hf & ->)%fmap_Some.
  apply find_some in Hf as [Hin Hp]. cbn in Hp. checks.
  exists id. split_and!; try done. by apply elem_of_map_to_list, list_elem_of_In.
Qed.

Lemma find_idempotent_None u k d id e :
  find_idempotent u k d = None → executions d !! id = Some e →
  x_userId (e_req e) = u → x_idempotencyKey (e_req e) = k → False.
Proof.
  unfold find_idempotent. intros Hf%fmap_None He Hu Hk.
  apply elem_of_map_to_list, list_elem_of_In in He. pose proof (find_none _ _ Hf _ He) as Hn. cbn in Hn.
  rewrite !bool_decide_eq_true_2 in Hn by done. done.
Qed.

(** A database that differs from [d] in its rate counters only. *)
Lemma set_rateLimits_frame f d :
  executions (set_rateLimits f d) = executions d ∧ events (set_rateLimits f d) = events d
  ∧ outbox (set_rateLimits f d) = outbox d.
Proof. done. Qed.

Lemma execution_create_Ok e d r d' :
  execution_create e d = Ok (r, d') →
  r = e ∧ d' = set_executions (<[e_id e := e]>) d ∧ executions d !! e_id e = None
  ∧ is_Some (problemVersions d !! x_problemVersionId (e_req e)) ∧ execution_checks e = true.
Proof.
  unfold execution_create. destruct (bool_decide _ || _) eqn:E1; [done|].
  destruct (negb _); [done|]. destruct (problemVersions d !! _) eqn:Ev; cbn [negb]; [|done].
  destruct (negb _); [done|]. destruct (row_int4 e); cbn [negb]; [|done].
  destruct (execution_checks e) eqn:Ec; cbn [negb]; [|done].
  intros [= <- <-]. apply orb_false_iff in E1 as [E1%bool_decide_eq_false _].
  apply eq_None_not_Some in E1. by split_and!.
Qed.

Lemma round_of_frame t u input d r d' : round_of t u input d = Ok (r, d') → d' = d.
Proof.
  unfold round_of. destruct (ce_competitionSlug input) as [[|x s]|]; [by intros; inv_tx| |by intros; inv_tx].
  unfold fmap, tx_fmap, competition_round, gets, mbind, tx_bind, throw, mret, tx_ret.
  repeat case_match; intros; by simplify_eq.
Qed.

(** What a creation that made a new job did. *)
Definition created (cfg : ConfigValues) (c : CreateClock) (id userId : uuid) (input : CreateExecution)
    (key ip : jsstr) (d : db) (r : Receipt) (d' : db) : Prop :=
  ∃ version round f,
    let e := new_execution sha256 cfg c id userId version round input key in
    r = mkReceipt id QUEUED None
    ∧ find_idempotent userId key d = None
    ∧ count_active (of_user userId) d < MAX_ACTIVE_JOBS_PER_USER cfg
    ∧ count_active (λ _, true) d < MAX_ACTIVE_JOBS_GLOBAL cfg
    ∧ (published_version (ce_problemId input) d = Some version ∧ round_of (t_comp c) userId input d = Ok (round, d))
    ∧ executions d !! id = None ∧ is_Some (problemVersions d !! version)
    ∧ execution_checks e = true
    ∧ event_ok (event_of e (execution_status QUEUED None)) = true
    ∧ event_size e (execution_status QUEUED None) ≤ 16384
    ∧ (∃ d1, reserve hmac cfg (t_adm c) (t_retry c) userId ip d = Ok (tt, d1) ∧ rateLimits d1 = f)
    ∧ d' = mkDb (<[id := data_sequence 1 e]> (executions d))
             (trim id (events d ++ [event_row (t_row c) e (execution_status QUEUED None)]))
             (outbox d ++ [new_outbox id EXECUTION_CREATED 0 (insNow (t_row c))])
             (notifications d) f (problemVersions d) (problems d) (users d) (competitions d).

Lemma create_Ok cfg c id userId input key ip d r d' :
  create hmac sha256 cfg c id userId input key ip d = Ok (r, d') →
  EXECUTIONS_ENABLED cfg = true ∧
  ((∃ p, find_idempotent userId key d = Some p ∧ x_payloadHash (e_req p) = payloadHash sha256 input
         ∧ r = mkReceipt (e_id p) (e_state p) None ∧ d' = d)
   ∨ created cfg c id userId input key ip d r d').
Proof.
  unfold create. destruct (EXECUTIONS_ENABLED cfg); cbn [negb]; [|by intros; inv_tx]. intros E.
  split; [done|]. inv_tx. destruct (find_idempotent userId key d) as [p|] eqn:Ef.
  { case_bool_decide as Eh; cbn [negb] in E; inv_tx. left. by exists p. }
  right. inv_tx. destruct (MAX_ACTIVE_JOBS_PER_USER cfg <=? _) eqn:Eu; [by inv_tx|].
  apply Z.leb_gt in Eu. inv_tx. destruct (published_version _ d) as [version|] eqn:Ev; [|by inv_tx].
  inv_tx. pose proof (round_of_frame _ _ _ _ _ _ Hrun) as ->.
  destruct (reserve_frame _ _ _ _ _ _ _ _ _ Hrun0) as [f ->].
  apply execution_create_Ok in Hrun1 as (-> & -> & Hnew & Hv & Hch). cbn in Hnew, Hv.
  apply event_Ok in Hrun2 as ((Hok & Hsz & Hfree) & -> & ->).
  apply execution_update_Ok in Hrun3 as (o & Ho & -> & _ & _ & ->).
  cbn in Ho. rewrite lookup_insert_eq in Ho. simplify_eq.
  unfold outbox_create in Hrun4. case_match; simplify_eq. destruct a0.
  exists version, a, (f (rateLimits d)). split_and!; try done.
  - unfold reserve in Hrun0. inv_tx. destruct (MAX_ACTIVE_JOBS_GLOBAL cfg <=? _) eqn:Eg; [by inv_tx|].
    by apply Z.leb_gt in Eg.
  - eexists. split; [exact Hrun0|done].
  - unfold set_outbox, set_executions, set_events, set_rateLimits. cbn. by rewrite insert_insert_eq.
Qed.

Lemma effect_count (p : Execution → bool) c id d d' :
  by_request p → effect c id d d' → count_active p d' ≤ count_active p d.
Proof.
  intros Hp [| |old new evs obs ns Ho Hs _ _]; [lia|done|].
  unfold count_active, active_by. apply inj_le. cbn [put executions].
  eapply (size_filter_update_le p); [done|]. cbn. intros [_ Hn]%andb_true_iff.
  rewrite (step_active _ _ _ Hs). by rewrite <- (Hp new old) by by eapply step_req.
Qed.

Lemma created_count (p : Execution → bool) cfg c id userId input key ip d r d' :
  created cfg c id userId input key ip d r d' → count_active p d' ≤ count_active p d + 1.
Proof.
  intros (version & round & f & _ & _ & _ & _ & _ & _ & _ & _ & _ & _ & _ & ->).
  unfold count_active, active_by. cbn [executions].
  pose proof (size_filter_insert_le p (executions d) id
    (data_sequence 1 (new_execution sha256 cfg c id userId version round input key))). lia.
Qed.

Lemma created_count_other (p : Execution → bool) cfg c id userId input key ip d r d' :
  (∀ e, x_userId (e_req e) = userId → p e = false) →
  created cfg c id userId input key ip d r d' → count_active p d' ≤ count_active p d.
Proof.
  intros Hp (version & round & f & _ & _ & _ & _ & _ & Hnew & _ & _ & _ & _ & _ & ->).
  unfold count_active, active_by. cbn [executions]. apply inj_le.
  rewrite map_filter_insert_False.
  - rewrite map_filter_delete, map_size_delete. case_match; cbn; lia.
  - cbn. by rewrite Hp, andb_false_r.
Qed.

(** ** Creation preserves the invariant *)

Lemma created_inv cfg c id userId input key ip d r d' :
  inv d → created cfg c id userId input key ip d r d' → inv d'.
Proof.
  intros Hi (version & round & f & _ & Hidem & _ & _ & _ & Hnew & Hv & Hch & Hok & Hsz & _ & ->).
  set (e := new_execution sha256 cfg c id userId version round input key) in *.
  assert (Hz : z_uuid id = true).
  { unfold event_ok in Hok. by apply andb_true_iff in Hok as [[[Hz _]%andb_true_iff _]%andb_true_iff _]. }
  assert (Hev : ∀ x, x ∈ events d → ev_executionId x ≠ id).
  { intros x Hx E. destruct (inv_events _ Hi x Hx) as (e' & _ & He & _). rewrite E in He. congruence. }
  split.
  - intros i x. cbn. intros [[<- <-] | [Hne He]]%lookup_insert_Some; [|by apply (inv_rows _ Hi)].
    split; [done|]. split; [|done|by intros []|done|by intros []|done].
    apply checks_split in Hch as (_ & _ & Hq & _ & Hsrc & _ & Hpriv). apply checks_split. split_and!; try done.
  - intros i x. cbn. intros [[<- <-] | [Hne He]]%lookup_insert_Some; [done|by apply (inv_ids _ Hi)].
  - intros x Hx. eapply elem_of_sublist, elem_of_app in Hx as [Hx|Hx%list_elem_of_singleton];
      [| |apply trim_sublist].
    + destruct (inv_events _ Hi x Hx) as (e' & g & He & Hrest). exists e', g. cbn.
      split; [|exact Hrest]. rewrite lookup_insert_ne; [done|]. intros E. by apply (Hev x Hx).
    + subst x. exists (data_sequence 1 e), (execution_status QUEUED None). cbn [executions].
      pose proof (byteLength_nonneg (stringify (event_json (event_of e (execution_status QUEUED None))))).
      cbn [event_row ev_executionId ev_attempt ev_sequence ev_bytes ev_payload].
      change (e_id e) with id. rewrite lookup_insert_eq. by split_and!.
  - cbn [events]. eapply sublist_NoDup; [|apply fmap_sublist, trim_sublist]. rewrite fmap_app.
    apply NoDup_app. split_and!; [by apply inv_keys| |apply NoDup_singleton].
    intros k (x & -> & Hx)%list_elem_of_fmap E%list_elem_of_singleton.
    apply (Hev x Hx). unfold ev_key, event_row in E. by simplify_eq.
  - intros o [Ho | ->%list_elem_of_singleton]%elem_of_app Hc; [|by destruct Hc].
    destruct (inv_outbox _ Hi o Ho Hc) as (e' & He & Ht). exists e'. split; [|done].
    cbn. rewrite lookup_insert_ne; [done|]. intros E. rewrite <- E in He. congruence.
  - intros i1 e1 i2 e2. cbn.
    intros [[<- <-] | [Hn1 He1]]%lookup_insert_Some [[<- <-] | [Hn2 He2]]%lookup_insert_Some Eu Ek;
      [done| | |by eapply (inv_idem _ Hi)].
    + exfalso. by apply (find_idempotent_None _ _ _ _ _ Hidem He2).
    + exfalso. by apply (find_idempotent_None _ _ _ _ _ Hidem He1).
Qed.
End Facts.

(** * Cursor pagination of the submission history

    [Executions.history] returns twenty submissions after a cursor.  Following the cursors from
    the first page enumerates the user's submissions, newest first, without repetition or
    omission. *)


Section History.
Context (d : db) (userId : uuid) (problemId : option uuid).
Context (Hwf : rows_wf d).

(** The user's submissions, and the whole history, newest first. *)
Definition submissions : list Execution := filter (submission d userId problemId) (map_to_list (executions d)).*2.
Definition all_submissions : list Execution := merge_sort (newest createdAt e_id) submissions.

Lemma submission_elem e :
  e ∈ all_submissions ↔ executions d !! e_id e = Some e ∧ submission d userId problemId e.
Proof.
  unfold all_submissions, submissions.
  rewrite merge_sort_Permutation, list_elem_of_filter, list_elem_of_fmap. split.
  - intros (Hs & [k x] & -> & Hk%elem_of_map_to_list). cbn in *. by destruct (Hwf _ _ Hk) as [<- _].
  - intros [He Hs]. split; [done|]. exists (e_id e, e). split; [done|]. by apply elem_of_map_to_list.
Qed.

Lemma submissions_ids : NoDup (e_id <$> submissions).
Proof. apply filter_keys_NoDup. intros k e Hk. symmetry. apply (Hwf k e Hk). Qed.

Lemma all_submissions_NoDup : NoDup all_submissions.
Proof.
  unfold all_submissions. rewrite merge_sort_Permutation. apply (NoDup_fmap_1 e_id), submissions_ids.
Qed.

(** The cursor is the id of the last item, which is the id of the last row. *)
Lemma page_items rest :
  (item d <$> take PAGE (take (S PAGE) rest),
   if (PAGE <? length (take (S PAGE) rest))%nat
   then si_executionId <$> last (item d <$> take PAGE (take (S PAGE) rest)) else None)
  = page_of e_id (item d) PAGE rest.
Proof.
  rewrite take_take, Nat.min_l, size_take by lia. unfold page_of. f_equal.
  case_match; [|done]. rewrite fmap_last. by destruct (last (take PAGE rest)).
Qed.

#[local] Instance history_pager : Pager e_id (item d) PAGE (λ c, history userId problemId c d) all_submissions.
Proof.
  split.
  - rewrite <- page_items. unfold all_submissions. by rewrite <- query_before_first.
  - intros pre c post E. rewrite <- page_items.
    rewrite <- (query_before_next createdAt e_id submissions submissions_ids PAGE pre c post E).
    assert (c ∈ all_submissions) as [Hc Hs]%submission_elem by (rewrite E; set_solver).
    unfold history. cbn -[PAGE take]. rewrite Hc. cbn -[PAGE take]. by rewrite decide_True by done.
Qed.

(** Following the cursors of the submission history from the first page visits every submission
    of the user (for the chosen problem, if any) exactly once, newest first; enough requests are at
    most one more than there are submissions. *)
Lemma history_enumerates fuel :
  (length all_submissions < fuel)%nat →
  follow (λ c, history userId problemId c d) fuel None = item d <$> all_submissions
  ∧ NoDup all_submissions
  ∧ ∀ e, e ∈ all_submissions ↔ executions d !! e_id e = Some e ∧ submission d userId problemId e.
Proof.
  intros Hf. split_and!; [|apply all_submissions_NoDup|apply submission_elem].
  apply (follow_all e_id (item d) PAGE); [apply _|unfold PAGE; lia|done].
Qed.
End History.
