(* ===== verification/Pipeline.v ===== *)
(** * The execution pipeline as a transition system

    Every transaction that changes an execution, interleaved in any order: creation and
    cancellation by the API, claims and fenced mutations by workers, expiry and reconciliation
    by maintenance.  Theorems about all reachable databases. *)

From S2P Require Import Prelude JsText Contracts Judge Database Serialization JobStore Lifecycle.
From S2P Require Import JobStoreFacts Invariant Sizes Progress Admission Executions ExecutionsFacts.
Local Open Scope Z_scope.

Inductive op :=
| OpCreate (c : CreateClock) (id userId : uuid) (input : CreateExecution) (key ip : jsstr)
| OpCancel (c : Clock) (userId id : uuid)
| OpClaim (c : Clock) (token id : uuid)
| OpRenew (c : Clock) (lease : Lease)
| OpMarkRunning (c : Clock) (lease : Lease)
| OpConsole (c : Clock) (lease : Lease) (caseId : uuid) (stream : Stream) (text : jsstr)
| OpFinish (c : Clock) (lease : Lease) (input : JudgedResult)
| OpFail (c : Clock) (lease : Lease) (cleanupConfirmed : bool)
| OpRecover (c : Clock) (lease : Lease)
| OpExpire (clk : uuid → Clock) (t : Z) (busy : uuid → bool)
| OpMaintain (mc : MaintainClocks) (busy : uuid → bool) (busyOutbox : OutboxRow → bool)
| OpRateCleanup (t : Z).

Section Pipeline.
Context `{Zod} (stripVT : jsstr → jsstr) (hmac : jsstr → jsstr → jsstr) (sha256 : jsstr → jsstr).
Context (cfg : ConfigValues).

Definition void {A} (m : tx db A) : tx db unit := (λ _, tt) <$> m.

Definition body (o : op) : tx db unit :=
  match o with
  | OpCreate c id userId input key ip => void (create hmac sha256 cfg c id userId input key ip)
  | OpCancel c userId id => void (cancel_request cfg c userId id)
  | OpClaim c token id => void (claim c token id)
  | OpRenew c lease => void (renew c lease)
  | OpMarkRunning c lease => void (markRunning c lease)
  | OpConsole c lease caseId stream text => void (console stripVT c lease caseId stream text)
  | OpFinish c lease input => void (finish stripVT c lease input)
  | OpFail c lease b => void (fail c lease b)
  | OpRecover c lease => void (recover c lease)
  | OpExpire clk t busy => void (expireQueuedJobs clk t busy)
  | OpMaintain mc busy busyOutbox => maintain mc busy busyOutbox
  | OpRateCleanup t => delete_rate_limits t
  end.

(** One transaction, committed or rolled back. *)
Definition run (o : op) (d : db) : db := (transaction (body o) d).2.

Inductive step (d : db) : db → Prop := step_run o : step d (run o d).
Definition reachable (d0 : db) : db → Prop := rtc step d0.

Lemma void_Ok {A} (m : tx db A) d u d' : void m d = Ok (u, d') → ∃ a, m d = Ok (a, d').
Proof. unfold void, fmap, tx_fmap. destruct (m d) as [[a d1]|]; intros; simplify_eq; eauto. Qed.

Lemma run_cases o d : run o d = d ∨ ∃ d', body o d = Ok (tt, d') ∧ run o d = d'.
Proof.
  unfold run, transaction. destruct (body o d) as [[[] d']|]; [right; by exists d'|by left].
Qed.

(** ** What one transaction does to the execution rows *)

(** The clock readings a transaction makes its lifecycle decisions with. *)
Definition op_clock (o : op) (c : Clock) : Prop :=
  match o with
  | OpCreate c' _ _ _ _ _ => c = t_row c'
  | OpCancel c' _ _ | OpClaim c' _ _ | OpRenew c' _ | OpMarkRunning c' _ | OpConsole c' _ _ _ _
  | OpFinish c' _ _ | OpFail c' _ _ | OpRecover c' _ => c = c'
  | OpExpire clk _ _ => ∃ id, c = clk id
  | OpMaintain mc _ _ => ∃ id, c = mc_row mc id
  | OpRateCleanup _ => False
  end.

(** What happened to a row: nothing, or one lifecycle step at one of the readings [K]. *)
Definition row_change (K : Clock → Prop) (old new : option Execution) : Prop :=
  new = old ∨ ∃ c e e', K c ∧ old = Some e ∧ new = Some e' ∧ row_step c e e'.

Lemma effect_change c i d d' id :
  effect c i d d' → row_change (λ c', c' = c) (executions d !! id) (executions d' !! id).
Proof.
  intros [| |old new evs obs ns Ho Hs _ _]; [by left..|]. cbn.
  destruct (decide (id = i)) as [->|Hne].
  - right. exists c, old, new. by rewrite lookup_insert_eq.
  - left. by rewrite lookup_insert_ne.
Qed.

(** What a transaction may do to the database as a whole. *)
Inductive outcome (K : Clock → Prop) (d : db) : db → Prop :=
| oc_same d' :
    executions d' = executions d → events d' = events d → inv d' → outcome K d d'
| oc_effects clk d1 d' :
    effects clk d d1 → executions d' = executions d1 → events d' `sublist_of` events d1 → inv d' →
    (∀ id, row_change K (executions d !! id) (executions d' !! id)) → outcome K d d'
| oc_created c id userId input key ip r d' :
    created hmac sha256 cfg c id userId input key ip d r d' → inv d' → outcome K d d'.

Lemma effect_outcome c id d d' : inv d → effect c id d d' → outcome (λ c', c' = c) d d'.
Proof.
  intros Hi He. apply (oc_effects _ d (λ _, c) d'); [|done|done|by eapply effect_inv|].
  - apply rtc_once. by exists id.
  - intros i. by eapply effect_change.
Qed.

Lemma maintained_change (K : Clock → Prop) mc c row :
  row_ok row → overdue mc row = true → K c → row_change K (Some row) (Some (maintained c row)).
Proof.
  intros Hok Hov HK. unfold maintained.
  destruct (gives_up (now c) row) as [code|] eqn:Eg; [|by left].
  right. exists c, row. eexists. split_and!; [done..|].
  destruct (overdue_step _ _ Hok Hov) as [Hh Hwhen]. eapply rs_give_up; try done.
  unfold gives_up in Eg. by repeat case_match; simplify_eq.
Qed.

Lemma maintain_outcome mc busy busyOutbox d u d' :
  inv d → maintain mc busy busyOutbox d = Ok (u, d') →
  outcome (λ c, ∃ id, c = mc_row mc id) d d'.
Proof.
  intros Hi E. destruct (batch_rows d _ _ _ (overdue_rows busy mc d) (inv_rows _ Hi) eq_refl) as [_ Hrows].
  apply maintain_spec in E as (Hi' & (d1 & Hs & Ex & Evs) & Hin & Hout); [|done].
  apply (oc_effects _ d (mc_row mc) d1); try done. intros id.
  destruct (decide (id ∈ e_id <$> overdue_rows busy mc d)) as [Hid|Hid]; [|left; by apply Hout].
  apply list_elem_of_fmap in Hid as (row & -> & Hrow). rewrite (Hin row Hrow).
  destruct (Hrows row Hrow) as (Hd & Hov & _). rewrite Hd.
  apply (maintained_change _ mc); [by apply (inv_rows _ Hi (e_id row))|by apply Is_true_true|by eexists].
Qed.

Lemma expire_outcome clk t busy d n d' :
  inv d → expireQueuedJobs clk t busy d = Ok (n, d') →
  outcome (λ c, ∃ id, c = clk id) d d'.
Proof.
  intros Hi E. destruct (batch_rows d _ _ _ (expired_rows t busy d) (inv_rows _ Hi) eq_refl) as [_ Hrows].
  apply expire_spec in E as (Hi' & _ & (d1 & Hs & Ex & Evs) & Hin & Hout); [|done].
  apply (oc_effects _ d clk d1); try done. intros id.
  destruct (decide (id ∈ e_id <$> expired_rows t busy d)) as [Hid|Hid]; [|left; by apply Hout].
  apply list_elem_of_fmap in Hid as (row & -> & Hrow). rewrite (Hin row Hrow).
  destruct (Hrows row Hrow) as (Hd & Hq & Hx & _). rewrite Hd.
  right. exists (clk (e_id row)), row. eexists. split_and!; [by eexists|done..|]. by apply rs_expire.
Qed.

Lemma inv_rate f d : inv d → inv (set_rateLimits f d).
Proof. by intros [H1 H2 H3 H4 H5 H6]; split. Qed.

Lemma body_outcome o d d' : inv d → body o d = Ok (tt, d') → outcome (op_clock o) d d'.
Proof.
  intros Hi. destruct o; cbn [body]; try (intros (a & E)%void_Ok).
  - apply create_Ok in E as (_ & [(p & _ & _ & _ & ->) | Hcr]).
    + by apply oc_same.
    + eapply oc_created; [done|by eapply created_inv].
  - unfold cancel_request in E. by eapply effect_outcome, cancel_effect; [done|apply (inv_rows _ Hi)|].
  - by eapply effect_outcome, claim_effect; [done|apply (inv_rows _ Hi)|].
  - by eapply effect_outcome, renew_effect; [done|apply (inv_rows _ Hi)|].
  - by eapply effect_outcome, markRunning_effect; [done|apply (inv_rows _ Hi)|].
  - by eapply effect_outcome, console_effect; [done|apply (inv_rows _ Hi)|].
  - by eapply effect_outcome, finish_effect; [done|apply (inv_rows _ Hi)|].
  - by eapply effect_outcome, fail_effect; [done|apply (inv_rows _ Hi)|].
  - by eapply effect_outcome, recover_effect; [done|apply (inv_rows _ Hi)|].
  - by eapply expire_outcome.
  - by apply maintain_outcome.
  - unfold delete_rate_limits. intros E. inv_tx. apply oc_same; [done|done|by apply inv_rate].
Qed.

Lemma run_outcome o d : inv d → outcome (op_clock o) d (run o d).
Proof.
  intros Hi. destruct (run_cases o d) as [-> | (d' & E & ->)]; [by apply oc_same|by eapply body_outcome].
Qed.

Lemma outcome_inv K d d' : outcome K d d' → inv d'.
Proof. by destruct 1. Qed.
End Pipeline.
