(* ===== verification/Safety.v ===== *)
(** * Safety of the pipeline

    What holds in every reachable database: the data invariant, the job limits, the lifecycle
    of each execution, and the absence of unexpected failures. *)

From S2P Require Import Prelude JsText Contracts Judge Database Serialization JobStore Lifecycle.
From S2P Require Import JobStoreFacts Invariant Sizes Progress Admission Executions ExecutionsFacts.
From S2P Require Import Pipeline.
Local Open Scope Z_scope.

(** A database in which nothing has been executed yet. *)
Definition no_jobs (d : db) : Prop := executions d = ∅ ∧ events d = [] ∧ outbox d = [].

Section Safety.
Context `{Zod} (stripVT : jsstr → jsstr) (hmac : jsstr → jsstr → jsstr) (sha256 : jsstr → jsstr).
Context (cfg : ConfigValues).
Abbreviation run := (run stripVT hmac sha256 cfg).
Abbreviation step := (step stripVT hmac sha256 cfg).
Abbreviation reachable := (reachable stripVT hmac sha256 cfg).
Abbreviation outcome := (outcome hmac sha256 cfg).

Lemma no_jobs_inv d : no_jobs d → inv d.
Proof.
  intros (E1 & E2 & E3). split; rewrite ?E1, ?E2, ?E3; try done; try (unfold rows_wf; rewrite E1; done).
  - by intros r ?%elem_of_nil.
  - constructor.
  - by intros o ?%elem_of_nil.
Qed.

Lemma step_outcome d d' : inv d → step d d' → ∃ K, outcome K d d'.
Proof. intros Hi [o]. eexists. by apply run_outcome. Qed.

Lemma reachable_from_inv d d' : inv d → reachable d d' → inv d'.
Proof.
  intros Hi Hr. induction Hr as [|d d1 d2 Hs _ IH]; [done|].
  apply IH. destruct (step_outcome _ _ Hi Hs) as [K Ho]. by eapply outcome_inv.
Qed.

(** C2: in every database reachable from an empty job store, by any interleaving of API, worker
    and maintenance transactions, the data invariant holds: every row satisfies its CHECKs, a
    lease exists exactly while a job is active and ends by its deadline, attempts are bounded,
    every replay event belongs to the current attempt of its execution with consistent identity
    and public content, and closing intents exist only for ended jobs. *)
Theorem reachable_inv d0 d : no_jobs d0 → reachable d0 d → inv d.
Proof. intros H0 Hr. by eapply reachable_from_inv, Hr; apply no_jobs_inv. Qed.

(** ** Job limits *)

Definition within_limits (d : db) : Prop :=
  count_active (λ _, true) d ≤ MAX_ACTIVE_JOBS_GLOBAL cfg
  ∧ ∀ u, count_active (of_user u) d ≤ MAX_ACTIVE_JOBS_PER_USER cfg.

Lemma effects_count p clk d d' : by_request p → effects clk d d' → count_active p d' ≤ count_active p d.
Proof.
  intros Hp Hr. induction Hr as [|d d1 d2 [id He] _ IH]; [done|].
  apply (effect_count p) in He; [lia|done].
Qed.

Lemma count_active_same p d d' : executions d' = executions d → count_active p d' = count_active p d.
Proof. unfold count_active, active_by. by intros ->. Qed.

Lemma outcome_limits K d d' : outcome K d d' → within_limits d → within_limits d'.
Proof.
  intros Ho [Hg Hu].
  assert (Hall : by_request (λ _, true)) by done.
  assert (Huser : ∀ u, by_request (of_user u)) by (intros u e e' E; unfold of_user; by rewrite E).
  destruct Ho as [d' Ex|clk d1 d' Hs Ex _ _ _|c id userId input key ip r d' Hcr _].
  - split; [|intros u]; by rewrite (count_active_same _ d d').
  - split; [|intros u]; rewrite (count_active_same _ d1 d') by done.
    + pose proof (effects_count _ _ _ _ Hall Hs). lia.
    + pose proof (effects_count _ _ _ _ (Huser u) Hs). specialize (Hu u). lia.
  - pose proof Hcr as (version & round & f & _ & _ & Hcu & Hcg & _). split.
    + pose proof (created_count _ _ (λ _, true) _ _ _ _ _ _ _ _ _ _ Hcr). lia.
    + intros u. destruct (decide (u = userId)) as [->|Hne].
      * pose proof (created_count _ _ (of_user userId) _ _ _ _ _ _ _ _ _ _ Hcr). lia.
      * apply (created_count_other _ _ (of_user u)) in Hcr; [specialize (Hu u); lia|].
        intros e E. apply bool_decide_eq_false_2. congruence.
Qed.

(** C21: the number of active jobs never exceeds the configured limits, globally and for every
    user, whatever mixture of creations, retries, claims and endings led to the database. *)
Theorem reachable_limits d0 d :
  no_jobs d0 → 0 ≤ MAX_ACTIVE_JOBS_GLOBAL cfg → 0 ≤ MAX_ACTIVE_JOBS_PER_USER cfg →
  reachable d0 d → within_limits d.
Proof.
  intros H0 Hg Hu Hr.
  assert (within_limits d0 ∧ inv d0) as Hd.
  { split; [|by apply no_jobs_inv]. destruct H0 as (E & _).
    assert (∀ p, count_active p d0 = 0) as Hc.
    { intros p. unfold count_active, active_by. rewrite E, map_filter_empty. by rewrite map_size_empty. }
    split; [|intros u]; by rewrite Hc. }
  clear H0. revert Hd. induction Hr as [|d0 d1 d2 Hs _ IH]; intros [Hl Hi]; [done|].
  destruct (step_outcome _ _ Hi Hs) as [K Ho]. apply IH.
  split; [by eapply outcome_limits|by eapply outcome_inv].
Qed.

(** ** The life of one execution *)

Lemma outcome_row K d d' id e :
  outcome K d d' → executions d !! id = Some e →
  ∃ e', executions d' !! id = Some e' ∧ (e' = e ∨ ∃ c, K c ∧ row_step c e e').
Proof.
  intros Ho He. destruct Ho as [d' Ex|clk d1 d' _ _ _ _ Hch|c i userId input key ip r d' Hcr _].
  - exists e. rewrite Ex. auto.
  - destruct (Hch id) as [E | (c & x & y & HK & E1 & E2 & Hs)].
    + exists e. rewrite E. auto.
    + rewrite He in E1. simplify_eq. exists y. eauto.
  - destruct Hcr as (version & round & f & _ & _ & _ & _ & _ & Hnew & _ & _ & _ & _ & _ & ->).
    exists e. cbn. rewrite lookup_insert_ne by congruence. auto.
Qed.

(** The changes of a row that the contracts allow in a transaction: an edge of the state graph,
    progress within the attempt, or a new attempt when the lease has expired at the database time
    of the transaction. *)
Definition lifecycle_edge (o : op) (e e' : Execution) : Prop :=
  e' = e
  ∨ isTerminal (e_state e) = false
    ∧ ( canTransition (e_state e) (e_state e') = true
        ∧ (e_attempt e' = e_attempt e ∨ e_attempt e' = e_attempt e + 1 ∧ e_state e = QUEUED)
      ∨ e_state e' = e_state e ∧ e_attempt e' = e_attempt e
        ∧ e_lastSequence e ≤ e_lastSequence e' ≤ e_lastSequence e + 1
      ∨ holds_lease e ∧ e_state e' = COMPILING ∧ e_attempt e' = e_attempt e + 1
        ∧ ∃ c x, op_clock o c ∧ e_leaseExpiresAt e = Some x ∧ x ≤ now c ).

(** C15: refinement of the contracts' state graph by the implementation.  Whatever transaction
    runs next, an execution is kept with the same immutable request, and its row changes only
    along an edge of the state graph, by progress within its attempt, or by a recovery claim
    that starts the next attempt, in a transaction at whose time the lease has expired. *)
Theorem run_lifecycle d o id e :
  inv d → executions d !! id = Some e →
  ∃ e', executions (run o d) !! id = Some e' ∧ e_req e' = e_req e ∧ lifecycle_edge o e e'.
Proof.
  intros Hi He. destruct (inv_rows _ Hi _ _ He) as [_ Hok]. pose proof (run_outcome stripVT hmac sha256 cfg o d Hi) as Ho.
  destruct (outcome_row _ _ _ _ _ Ho He) as (e' & He' & [-> | (c & HK & Hs)]).
  - exists e. split_and!; [done..|by left].
  - exists e'. split_and!; [done|by eapply step_req|right].
    destruct (row_step_graph _ _ _ Hs) as [Ht Hg]. split; [done|].
    destruct Hg as [Hg | [Hg | (Hh & Hl & Hst & Hat)]]; auto.
    destruct (ok_active _ Hok Hh) as (_ & token & x & _ & Hx & _). right. right.
    split_and!; [done..|]. exists c, x. split_and!; [done..|].
    destruct (Z.le_gt_cases x (now c)); [done|]. destruct Hl. by exists x.
Qed.

(** The history order on rows: attempts, then sequence numbers within an attempt. *)
Definition history_le (e e' : Execution) : Prop :=
  e_req e' = e_req e ∧ (isTerminal (e_state e) = true → e' = e)
  ∧ (e_attempt e < e_attempt e' ∨ e_attempt e = e_attempt e' ∧ e_lastSequence e ≤ e_lastSequence e').

Lemma step_history c e e' : row_step c e e' → history_le e e'.
Proof.
  intros Hs. split; [by eapply step_req|]. split.
  - intros Ht. by rewrite (step_source _ _ _ Hs) in Ht.
  - destruct (row_step_graph _ _ _ Hs) as [_ Hg]. pose proof (step_sequence _ _ _ Hs) as Hq.
    destruct Hg as [(_ & [E | [E _]]) | [(_ & E & _) | (_ & _ & _ & E)]]; rewrite E in *; lia.
Qed.

(** Along every run, an execution that has ended is never changed again, its request never
    changes, and its attempt and event sequence never go back. *)
Lemma reachable_history d d' id e :
  inv d → reachable d d' → executions d !! id = Some e →
  ∃ e', executions d' !! id = Some e' ∧ history_le e e'.
Proof.
  intros Hi Hr. revert e. induction Hr as [d|d d1 d2 Hs _ IH]; intros e He.
  { exists e. split; [done|]. split_and!; try done. right. lia. }
  destruct (step_outcome _ _ Hi Hs) as [K Ho].
  destruct (outcome_row _ _ _ _ _ Ho He) as (e1 & He1 & Hch).
  destruct (IH ltac:(by eapply outcome_inv) e1 He1) as (e2 & He2 & Hr2 & Ht2 & Hle2).
  exists e2. split; [done|].
  assert (history_le e e1) as (Hr1 & Ht1 & Hle1).
  { destruct Hch as [-> | (c & _ & Hst)]; [|by eapply step_history].
    split_and!; try done. right. lia. }
  split_and!; [congruence| |lia].
  intros Ht. pose proof (Ht1 Ht) as ->. by apply Ht2.
Qed.

(** ** No unexpected failure *)

Context (uuid_length : ∀ s, z_uuid s = true → length s = 36%nat ∧ Forall unit_ok s).
Context (stripVT_deletes : ∀ s, stripVT s `sublist_of` s).

(** *** Creation *)

(** The ways a creation is refused. *)
Definition refusals (c : CreateClock) : list error :=
  [api 503 "EXECUTIONS_DISABLED"; api 409 "IDEMPOTENCY_CONFLICT"; ApiError 429 "ACTIVE_JOB_LIMIT" (Some 5); NotFound;
   api 409 "COMPETITION_NOT_STARTED"; api 409 "COMPETITION_FINISHED"; api 403 "REGISTRATION_REQUIRED";
   api 409 "ROUND_NOT_ACTIVE"; ApiError 503 "EXECUTION_CAPACITY" (Some 5);
   ApiError 429 "EXECUTION_RATE_LIMIT" (Some (retry_seconds ((t_adm c / 60000 + 1) * 60000 - t_retry c)))].

(** What the generated id, the validated source and the clock are: the id is a UUID that no execution
    and no intent has, the source fits, and the row is inserted before its queue deadline. *)
Record creatable (c : CreateClock) (id : uuid) (input : CreateExecution) (d : db) : Prop := {
  ca_uuid : z_uuid id = true;
  ca_fresh : executions d !! id = None;
  ca_intent : outbox_has (id, EXECUTION_CREATED, 0) (outbox d) = false;
  ca_source : 1 ≤ byteLength (ce_sourceCode input) ≤ 65536;
  ca_deadline : insNow (t_row c) < t_queue c + QUEUE_TTL_SECONDS cfg * 1000
}.

Lemma fmap_fails {A B} l (f : A → B) (m : tx db A) d : fails_in l m d → fails_in l (f <$> m) d.
Proof. unfold fails_in, fmap, tx_fmap. by destruct (m d) as [[]|]. Qed.

Lemma round_of_fails t c userId input d : fails_in (refusals c) (round_of t userId input) d.
Proof.
  unfold round_of. destruct (ce_competitionSlug input) as [[|u slug]|]; [done| |done].
  apply fmap_fails, fails_bind; [done|]. intros oc s [-> ->]%gets_Ok.
  destruct (find_competition _ d) as [comp|]; [|in_list].
  destruct (_ <? _); [in_list|]. destruct (_ <=? _); [in_list|]. destruct (negb _); [in_list|].
  destruct (filter _ (c_rounds comp)); [in_list|done].
Qed.

Lemma reserve_fails c userId ip d : fails_in (refusals c) (reserve hmac cfg (t_adm c) (t_retry c) userId ip) d.
Proof.
  unfold reserve. apply fails_bind; [done|]. intros active s [-> ->]%gets_Ok.
  destruct (_ <=? _); [in_list|]. apply (fails_for_each _ (λ _, True)); [done| |done].
  intros i sl s1 _ _. unfold charge. apply fails_bind; [done|]. intros r s2 _.
  destruct (_ <? _); [in_list|done].
Qed.

(** The writes of a creation go through. *)
Lemma insert_row_fails l c id userId version round input key d s :
  inv d → creatable c id input d → find_idempotent userId key d = None →
  published_version (ce_problemId input) d = Some version → (∃ f, s = set_rateLimits f d) →
  fails_in l
    (row ← execution_create (new_execution sha256 cfg c id userId version round input key);
     sequence ← event (t_row c) row (execution_status QUEUED None);
     _ ← execution_update (trigNow (t_row c)) (e_id row) (data_sequence sequence);
     _ ← outbox_create (new_outbox (e_id row) EXECUTION_CREATED 0 (insNow (t_row c)));
     mret (mkReceipt (e_id row) (e_state row) None)) s.
Proof.
  intros Hi [Hz Hfresh Hint Hsrc Hdl] Hidem Hv [f ->].
  set (e := new_execution sha256 cfg c id userId version round input key).
  assert (execution_checks e = true ∧ execution_checks (data_sequence 1 e) = true) as [Hck Hck'].
  { split; apply checks_split; unfold queue_deadline_ok, source_cap_ok, private_results_ok; cbn;
      rewrite ?orb_true_r; split_and!; try done; lia. }
  assert (execution_create e (set_rateLimits f d) = Ok (e, set_executions (<[id := e]>) (set_rateLimits f d))) as E1.
  { unfold execution_create. change (e_id e) with id. change (executions (set_rateLimits f d)) with (executions d).
    rewrite Hfresh, (bool_decide_eq_false_2 (is_Some None)) by (by intros []). cbn [orb].
    destruct (existsb _ _) eqn:Ex.
    { exfalso. apply existsb_exists in Ex as ([i x] & Hin & [H1 H2]%andb_true_iff).
      apply bool_decide_eq_true in H1, H2. apply list_elem_of_In, elem_of_map_to_list in Hin.
      by eapply find_idempotent_None. }
    change (problemVersions (set_rateLimits f d)) with (problemVersions d).
    change (x_problemVersionId (e_req e)) with version. unfold published_version in Hv.
    apply bind_Some in Hv as (p & _ & (v & _ & (pv & Hpv & Hpub)%bind_Some)%bind_Some).
    destruct (pv_published pv) eqn:Ep; [|done]. injection Hpub as <-. rewrite Hpv, Ep, Hck. done. }
  rewrite (bind_run _ _ _ _ _ E1) || (unfold fails_in; rewrite (bind_run _ _ _ _ _ E1)).
  set (s1 := set_executions _ _).
  destruct (event_Ok (t_row c) e (execution_status QUEUED None) s1 1
    (set_events (λ l, trim id (l ++ [event_row (t_row c) e (execution_status QUEUED None)])) s1)) as [_ E2].
  assert (event_ok (event_of e (execution_status QUEUED None)) = true) as Hev.
  { unfold event_ok. cbn [event_of pe_executionId pe_attempt pe_sequence pe_fields fields_ok]. change (e_id e) with id.
    by rewrite Hz. }
  rewrite (bind_run _ _ _ _ _ (E2 ltac:(split_and!; [done|by apply event_bytes| |done|done];
    intros (r & Ek & Hr)%list_elem_of_fmap; destruct (inv_events _ Hi r Hr) as (x & _ & Hx & _);
    unfold ev_key in Ek; change (e_id e) with id in Ek; injection Ek as Ek _ _; congruence))).
  set (s2 := set_events _ s1). change (e_id e) with id.
  assert (execution_update (trigNow (t_row c)) id (data_sequence 1) s2
          = Ok (data_sequence 1 e, set_executions (<[id := data_sequence 1 e]>) s2)) as E3.
  { apply execution_update_Ok. exists e. split_and!; [apply lookup_insert_eq|done| | |done].
    - apply trigger_accepts; cbn; auto; lia.
    - unfold row_storable. by rewrite Hck'. }
  rewrite (bind_run _ _ _ _ _ E3). unfold outbox_create, mbind, tx_bind.
  change (o_key _) with (id, EXECUTION_CREATED, 0). cbn [s1 s2 set_executions set_events set_rateLimits outbox].
  by rewrite Hint.
Qed.

Lemma create_fails c id userId input key ip d :
  inv d → creatable c id input d →
  fails_in (refusals c) (create hmac sha256 cfg c id userId input key ip) d.
Proof.
  intros Hi Hca. unfold create. destruct (EXECUTIONS_ENABLED cfg); cbn [negb]; [|in_list].
  apply fails_bind; [done|]. intros previous s [-> ->]%gets_Ok.
  destruct (find_idempotent userId key d) as [p|] eqn:Hidem.
  { case_bool_decide; cbn [negb]; [done|in_list]. }
  apply fails_bind; [done|]. intros count s [-> ->]%gets_Ok. destruct (_ <=? _); [in_list|].
  apply fails_bind; [done|]. intros oversion s [-> ->]%gets_Ok.
  destruct (published_version _ d) as [version|] eqn:Hv; [|in_list].
  apply fails_bind; [apply round_of_fails|]. intros round s ->%round_of_frame.
  apply fails_bind; [apply reserve_fails|]. intros u s Hs%reserve_frame.
  by eapply insert_row_fails.
Qed.

(** The errors a job transaction documents.  A worker that reports a measurement beyond the INTEGER
    column, which the result schema lets through, is told so by the database. *)
Definition documented (o : op) : list error :=
  match o with
  | OpCreate c _ _ _ _ _ => refusals c
  | OpCancel _ _ _ => [NotFound; ApiError 503 "CANCELLATION_UNAVAILABLE" None]
  | OpConsole _ _ _ _ _ => [JsError "INVALID_PUBLIC_OUTPUT"; JsError "PRIVATE_OUTPUT_REJECTED"]
  | OpFinish _ _ input =>
      [ZodError; JsError "PUBLIC_RESULT_TOO_LARGE"; JsError "PRIVATE_OUTPUT_REJECTED"] ++ overflow input
  | _ => []
  end.

(** The environment: the trigger reads the clock no earlier than the locking SELECT, a new execution is
    [creatable], a claim's random token is not the current one, and console text is a JavaScript string. *)
Definition environment_ok (o : op) (d : db) : Prop :=
  (∀ c, op_clock o c → clock_ok c)
  ∧ match o with
    | OpCreate c id _ input _ _ => creatable c id input d
    | OpClaim _ token id => ∀ row, executions d !! id = Some row → e_leaseToken row ≠ Some token
    | OpConsole _ _ _ _ text => Forall unit_ok text
    | _ => True
    end.

End Safety.
