(* ===== verification/Realtime.v ===== *)
(** * The realtime channel ([apps/api/src/executions/realtime.ts])

    A socket subscribes to executions; a command answers with a replay of the events after the
    client's cursor, and a poll every 500 ms sends what has happened since.  Both await the session and
    the job store, so that commands, polls, unsubscriptions and disconnections interleave: every
    function below is what the code does between two awaits.

    [rt_wire] is everything that was sent, in order.  A disconnected socket receives nothing more, so a
    command or poll in flight ends with it. *)

From S2P Require Import Prelude JsText Contracts Judge Database Serialization JobStore.
Local Open Scope Z_scope.

(** ** Data *)

Record Cursor := mkCursor { cu_executionId : uuid; cu_attempt : Z; cu_afterSequence : Z }.

(** What a command awaits while [commandBusy]: the poll of its client, the session, the replay. *)
Inductive Command := WaitingPoll (q : Cursor) | ResolvingCommand (q : Cursor) | ReplayingCommand (q : Cursor).
(** What a poll awaits: the session, or the replay for a cursor, with the executions that the iteration
    of [subscriptions] has still to visit. *)
Inductive Polling := ResolvingPoll | ReplayingPoll (cursor : Cursor) (todo : list uuid).

(** [cl_subscriptions] is in insertion order. *)
Record Client := mkClient {
  cl_userId : uuid; cl_address : jsstr; cl_subscriptions : list Cursor; cl_command : option Command;
  cl_polling : option Polling; cl_requests : Z; cl_window : Z
}.

(** Acknowledgements of a command, and the messages of a poll. *)
Inductive Message :=
| ack_ok (q : Cursor) (r : Replay)
| ack_error (code : string)
| execution_sync (s : ExecutionSnapshot)
| emitted (e : PublicExecutionEvent).

(** [rt_order] is the insertion order of [clients]; [rt_round] the sockets that a poll in progress has
    still to visit. *)
Record Realtime := mkRealtime {
  rt_authenticating : Z; rt_clients : gmap nat Client; rt_order : list nat; rt_round : option (list nat);
  rt_wire : list (nat * Message)
}.

Definition no_clients : Realtime := mkRealtime 0 ∅ [] None [].
Definition put_client (s : nat) (c : Client) (rt : Realtime) : Realtime :=
  mkRealtime (rt_authenticating rt) (<[s := c]> (rt_clients rt)) (rt_order rt) (rt_round rt) (rt_wire rt).
Definition send (s : nat) (ms : list Message) (rt : Realtime) : Realtime :=
  mkRealtime (rt_authenticating rt) (rt_clients rt) (rt_order rt) (rt_round rt) (rt_wire rt ++ (pair s <$> ms)).
Definition set_round (r : option (list nat)) (rt : Realtime) : Realtime :=
  mkRealtime (rt_authenticating rt) (rt_clients rt) (rt_order rt) r (rt_wire rt).
Definition disconnect (s : nat) (rt : Realtime) : Realtime :=
  mkRealtime (rt_authenticating rt) (delete s (rt_clients rt)) (filter (λ x, x ≠ s) (rt_order rt)) (rt_round rt)
    (rt_wire rt).

Definition set_command (k : option Command) (c : Client) : Client :=
  mkClient (cl_userId c) (cl_address c) (cl_subscriptions c) k (cl_polling c) (cl_requests c) (cl_window c).
Definition set_polling (p : option Polling) (c : Client) : Client :=
  mkClient (cl_userId c) (cl_address c) (cl_subscriptions c) (cl_command c) p (cl_requests c) (cl_window c).
Definition set_subscriptions (l : list Cursor) (c : Client) : Client :=
  mkClient (cl_userId c) (cl_address c) l (cl_command c) (cl_polling c) (cl_requests c) (cl_window c).
Definition set_rate (requests window : Z) (c : Client) : Client :=
  mkClient (cl_userId c) (cl_address c) (cl_subscriptions c) (cl_command c) (cl_polling c) requests window.
Definition commandBusy (c : Client) : bool := bool_decide (is_Some (cl_command c)).

(** [Map.prototype.set], [has] and [delete] on [subscriptions]; [set] keeps the place of a key. *)
Definition subscribed (id : uuid) (l : list Cursor) : bool := existsb (λ c, bool_decide (cu_executionId c = id)) l.
Definition map_set (q : Cursor) (l : list Cursor) : list Cursor :=
  if subscribed (cu_executionId q) l
  then (λ c, if bool_decide (cu_executionId c = cu_executionId q) then q else c) <$> l else l ++ [q].
Definition map_delete (id : uuid) (l : list Cursor) : list Cursor := filter (λ c, cu_executionId c ≠ id) l.

(** ** Handshake *)

(** [allowRequest]. *)
Definition allowRequest (publicOrigin : jsstr) (origin : option jsstr) (clientsCount : Z) : bool :=
  bool_decide (origin = Some publicOrigin) && (clientsCount <? 500).

Definition count_clients (p : Client → bool) (rt : Realtime) : nat :=
  length (filter (λ r, p r.2 = true) (map_to_list (rt_clients rt))).
Definition set_authenticating (n : Z) (rt : Realtime) : Realtime :=
  mkRealtime n (rt_clients rt) (rt_order rt) (rt_round rt) (rt_wire rt).
(** The middleware up to its await, and from there: the user whose socket is let in. *)
Definition handshake_begin (rt : Realtime) : result unit * Realtime :=
  if 20 <=? rt_authenticating rt then (Err (JsError "CAPACITY_REQUIRED"), rt)
  else (Ok tt, set_authenticating (rt_authenticating rt + 1) rt).
Definition handshake_end (principal : result (option uuid)) (address : jsstr) (rt : Realtime) :
    result uuid * Realtime :=
  let rt' := set_authenticating (rt_authenticating rt - 1) rt in
  match principal with
  | Err _ => (Err (JsError "AUTHENTICATION_REQUIRED"), rt')
  | Ok None => (Err (JsError "AUTHENTICATION_OR_CAPACITY_REQUIRED"), rt')
  | Ok (Some userId) =>
      if (500 <=? size (rt_clients rt))%nat
         || (5 <=? count_clients (λ c, bool_decide (cl_userId c = userId)) rt)%nat
         || (20 <=? count_clients (λ c, bool_decide (cl_address c = address)) rt)%nat
      then (Err (JsError "AUTHENTICATION_OR_CAPACITY_REQUIRED"), rt') else (Ok userId, rt')
  end.

(** The [connection] event; a round in progress visits the new client as well. *)
Definition connect (now : Z) (s : nat) (userId : uuid) (address : jsstr) (rt : Realtime) : Realtime :=
  mkRealtime (rt_authenticating rt) (<[s := mkClient userId address [] None None 0 now]> (rt_clients rt))
    (rt_order rt ++ [s]) ((λ l, l ++ [s]) <$> rt_round rt) (rt_wire rt).

(** ** Commands *)

Section Commands.
Context `{Zod}.

Definition executionSubscriptionSchema (j : json) : option Cursor :=
  match j with
  | JObj o =>
      if negb (strict ["executionId"; "attempt"; "afterSequence"] o) then None else
      i ← field "executionId" o ≫= parse_uuid;
      a ← field "attempt" o ≫= parse_int_if (λ n, 0 <=? n);
      n ← field "afterSequence" o ≫= parse_int_if (λ n, 0 <=? n);
      Some (mkCursor i a n)
  | _ => None
  end.

(** [subscribe_execution] up to [await client.polling]; [ack] tells whether the client passed a
    callback. *)
Definition subscribe (now : Z) (input : json) (ack : bool) (s : nat) (rt : Realtime) : Realtime :=
  match rt_clients rt !! s with
  | None => rt
  | Some c0 =>
      if negb ack then disconnect s rt else
      let c1 := if 60000 <=? now - cl_window c0 then set_rate 0 now c0 else c0 in
      let c := set_rate (cl_requests c1 + 1) (cl_window c1) c1 in
      if (60 <? cl_requests c) || commandBusy c then send s [ack_error "SOCKET_RATE_LIMIT"] (put_client s c rt) else
      match executionSubscriptionSchema input with
      | None => send s [ack_error "INVALID_REQUEST"] (put_client s c rt)
      | Some q =>
          if negb (subscribed (cu_executionId q) (cl_subscriptions c)) && (5 <=? length (cl_subscriptions c))%nat
          then send s [ack_error "SUBSCRIPTION_LIMIT"] (put_client s c rt)
          else put_client s (set_command (Some (WaitingPoll q)) c) rt
      end
  end.
End Commands.

(** [client.polling] has settled. *)
Definition command_resume (s : nat) (rt : Realtime) : Realtime :=
  match rt_clients rt !! s with
  | Some c =>
      match cl_command c, cl_polling c with
      | Some (WaitingPoll q), None => put_client s (set_command (Some (ResolvingCommand q)) c) rt
      | _, _ => rt
      end
  | None => rt
  end.

(** The [catch] of the command. *)
Definition command_failed (s : nat) (e : error) (c : Client) (rt : Realtime) : Realtime :=
  send s [ack_error match e with ApiError _ _ _ => "NOT_FOUND" | _ => "SERVICE_UNAVAILABLE" end]
    (put_client s (set_command None c) rt).
(** [sessions.resolve] has answered with the user of the session. *)
Definition command_principal (principal : result (option uuid)) (s : nat) (rt : Realtime) : Realtime :=
  match rt_clients rt !! s with
  | Some c =>
      match cl_command c with
      | Some (ResolvingCommand q) =>
          match principal with
          | Err e => command_failed s e c rt
          | Ok p => if bool_decide (p = Some (cl_userId c))
                    then put_client s (set_command (Some (ReplayingCommand q)) c) rt else disconnect s rt
          end
      | _ => rt
      end
  | None => rt
  end.
Definition cursor_of (id : uuid) (r : Replay) : Cursor :=
  mkCursor id (es_attempt (rp_snapshot r)) (es_lastSequence (rp_snapshot r)).
(** [jobs.replay] has answered. *)
Definition command_replay (answer : result Replay) (s : nat) (rt : Realtime) : Realtime :=
  match rt_clients rt !! s with
  | Some c =>
      match cl_command c with
      | Some (ReplayingCommand q) =>
          match answer with
          | Err e => command_failed s e c rt
          | Ok r =>
              send s [ack_ok q r]
                (put_client s (set_command None
                   (set_subscriptions (map_set (cursor_of (cu_executionId q) r) (cl_subscriptions c)) c)) rt)
          end
      | _ => rt
      end
  | None => rt
  end.

Definition unsubscribe (id : uuid) (s : nat) (rt : Realtime) : Realtime :=
  match rt_clients rt !! s with
  | Some c => put_client s (set_subscriptions (map_delete id (cl_subscriptions c)) c) rt
  | None => rt
  end.

(** ** Polls *)

(** The timer. *)
Definition tick (rt : Realtime) : Realtime :=
  match rt_round rt with None => set_round (Some (rt_order rt)) rt | Some _ => rt end.
Definition polling_someone (rt : Realtime) : bool :=
  existsb (λ r, bool_decide (is_Some (cl_polling r.2))) (map_to_list (rt_clients rt)).
(** The loop over the clients moves on when no client is being polled. *)
Definition poll_next (rt : Realtime) : Realtime :=
  if polling_someone rt then rt else
  match rt_round rt with
  | None => rt
  | Some [] => set_round None rt
  | Some (s :: rest) =>
      let rt' := set_round (Some rest) rt in
      match rt_clients rt !! s with
      | Some c => if commandBusy c then rt' else put_client s (set_polling (Some ResolvingPoll) c) rt'
      | None => rt'
      end
  end.

(** The iteration goes to the next subscription that has not been deleted. *)
Fixpoint next_cursor (todo : list uuid) (l : list Cursor) : option Polling :=
  match todo with
  | [] => None
  | id :: todo' =>
      match list_find (λ c, cu_executionId c = id) l with
      | Some (_, c) => Some (ReplayingPoll c todo')
      | None => next_cursor todo' l
      end
  end.

Definition poll_principal (principal : result (option uuid)) (s : nat) (rt : Realtime) : Realtime :=
  match rt_clients rt !! s with
  | Some c =>
      match cl_polling c with
      | Some ResolvingPoll =>
          if bool_decide (principal = Ok (Some (cl_userId c)))
          then put_client s
                 (set_polling (next_cursor (cu_executionId <$> cl_subscriptions c) (cl_subscriptions c)) c) rt
          else disconnect s rt
      | _ => rt
      end
  | None => rt
  end.

(** The cursor that was polled, if it is still subscribed. *)
Definition advance (q : Cursor) (l : list Cursor) : list Cursor :=
  (λ c, if bool_decide (cu_executionId c = cu_executionId q) then q else c) <$> l.
(** [writable] tells whether the transport takes more. *)
Definition poll_replay (answer : result Replay) (writable : bool) (s : nat) (rt : Realtime) : Realtime :=
  match rt_clients rt !! s with
  | Some c =>
      match cl_polling c with
      | Some (ReplayingPoll cursor todo) =>
          match answer with
          | Err _ => disconnect s rt
          | Ok r =>
              if negb writable then disconnect s rt else
              let l := advance (cursor_of (cu_executionId cursor) r) (cl_subscriptions c) in
              send s (if negb (rp_replayAvailable r) then [execution_sync (rp_snapshot r)] else emitted <$> rp_events r)
                (put_client s (set_polling (next_cursor todo l) (set_subscriptions l c)) rt)
          end
      | _ => rt
      end
  | None => rt
  end.
