(* ===== verification/Fencing.v ===== *)
(** * Leases and fencing

    A worker acts on an execution through the lease its claim returned.  A lease without
    authority changes nothing, authority that is lost is lost for good, and a claim succeeds
    only when nobody else holds authority. *)

From S2P Require Import Prelude JsText Contracts Judge Database Serialization JobStore Lifecycle.
From S2P Require Import JobStoreFacts Invariant Sizes Progress Admission Executions ExecutionsFacts.
From S2P Require Import Pipeline Safety.
Local Open Scope Z_scope.

(** ** Authority over time *)

Lemma valid_earlier t t' row lease : t ≤ t' → valid t' row lease = true → valid t row lease = true.
Proof.
  intros Ht ((Hh & (x & Hx & Hl) & Hd) & Hrest)%valid_authorised. apply valid_authorised.
  split; [|done]. split_and!; [done| |lia]. exists x. split; [done|lia].
Qed.

(** The lease was issued: its attempt is at most the row's current one. *)
Definition issued (row : Execution) (lease : Lease) : Prop :=
  1 ≤ l_attempt lease ≤ e_attempt row.

Lemma lost_step c old new lease t :
  row_step c old new → row_ok old → issued old lease → valid (now c) old lease = false → now c ≤ t →
  valid t new lease = false ∧ issued new lease.
Proof.
  intros Hs Hok Hiss Hlost Ht.
  assert (issued new lease) as Hnew.
  { destruct (step_history _ _ _ Hs) as (_ & _ & Hle). unfold issued in *. lia. }
  split; [|done]. apply not_true_iff_false. intros Hv.
  pose proof (valid_earlier _ _ _ _ Ht Hv) as Hv'.
  apply valid_authorised in Hv' as ((Hh & Hl & Hd) & Ha & Htok).
  assert (authorised (now c) old → e_attempt new = e_attempt old → e_leaseToken new = e_leaseToken old → False)
    as Hsame.
  { intros Hau E1 E2. enough (valid (now c) old lease = true) by congruence.
    apply valid_authorised. split_and!; [done|congruence..]. }
  destruct Hs as [Hq Hx|t' Hq Hx|Hq|token Hwhen Hn Hdl Hat|code Ha' Hwhen Hcode|end_ Ha' He1 He2 He3|Ha'
    |Ha' Hn Hcs'|Ha' Hn Hm|v rt mem rs Ha' Hn Hv' Hrs Hrt Hmem|Ha' Hn|code Ha' Hcode|Ha' Hn];
    try (by destruct Hh); try (by apply Hsame).
  - unfold issued in Hiss. cbn in Ha. lia.
Qed.

Section Fencing.
Context `{Zod} (stripVT : jsstr → jsstr) (hmac : jsstr → jsstr → jsstr) (sha256 : jsstr → jsstr).
Context (cfg : ConfigValues).
Abbreviation run := (run stripVT hmac sha256 cfg).
Abbreviation body := (body stripVT hmac sha256 cfg).

(** The fenced operations with their lease and clock. *)
Definition fenced (o : op) : option (Clock * Lease) :=
  match o with
  | OpRenew c lease | OpMarkRunning c lease | OpConsole c lease _ _ _ | OpFinish c lease _
  | OpFail c lease _ | OpRecover c lease => Some (c, lease)
  | _ => None
  end.

(** A lease has authority over a row at time [t]: the row is being worked on, under the attempt and the
    token of the lease, before the lease ends and before ten minutes after the queue deadline. *)
Definition authority (t : Z) (row : Execution) (lease : Lease) : Prop :=
  (e_state row = COMPILING ∨ e_state row = RUNNING)
  ∧ e_attempt row = l_attempt lease ∧ e_leaseToken row = Some (l_token lease)
  ∧ (∃ x, e_leaseExpiresAt row = Some x ∧ t < x) ∧ t < e_queueExpiresAt row + 10 * 60 * 1000.
(** A lease has no authority over its execution at time [t]. *)
Definition powerless (t : Z) (d : db) (lease : Lease) : Prop :=
  ∀ row, executions d !! l_executionId lease = Some row → ¬ authority t row lease.

(** The code's test decides authority. *)
Lemma valid_authority t row lease : valid t row lease = true ↔ authority t row lease.
Proof. rewrite valid_authorised. unfold authorised, authority, holds_lease, lease_live, deadline. tauto. Qed.
Lemma no_authority t row lease : ¬ authority t row lease ↔ valid t row lease = false.
Proof. rewrite <- valid_authority. by destruct (valid t row lease). Qed.

(** C1: fencing.  A worker operation whose lease has no authority at the database's time (the
    execution ended, the lease expired, was replaced by a later attempt, or the deadline
    passed) leaves the database exactly as it was. *)
Theorem stale_lease_harmless o c lease d :
  fenced o = Some (c, lease) → powerless (now c) d lease → run o d = d.
Proof.
  intros Hf Hp. unfold Pipeline.run, transaction.
  assert (Hgoal : ∀ u d', body o d = Ok (u, d') → d' = d).
  { intros u d'. destruct o; simplify_eq/=; intros (a & E)%void_Ok;
      unfold renew, markRunning, console, finish, fail, recover in E;
      repeat (match type of E with (if ?b then throw _ else _) _ = _ => destruct b; [by inv_tx|] end);
      rewrite locked_run in E;
      (destruct (executions d !! l_executionId lease) as [row|] eqn:Hrow; [|by inv_tx]);
      pose proof (Hp row Hrow) as Hv; apply no_authority in Hv; rewrite Hv in E; cbn [negb orb] in E; by inv_tx. }
  destruct (body o d) as [[u d']|e] eqn:E; cbn; [by eapply Hgoal|done].
Qed.

(** ** Lost authority stays lost *)

(** One transaction whose readings lie between [t] and [t']. *)
Inductive timed_step (s : Z * db) : Z * db → Prop :=
| timed_run o t' :
    s.1 ≤ t' → (∀ c, op_clock o c → s.1 ≤ now c ≤ t') → timed_step s (t', run o s.2).

(** Once a lease has lost its authority, no sequence of transactions by anyone gives it
    back: as long as the clock does not run backwards, the lease stays powerless, so by fencing
    a worker that has been declared lost can never again affect the execution. *)
Lemma lost_forever t d t' d' lease row :
  inv d → executions d !! l_executionId lease = Some row → issued row lease →
  powerless t d lease → rtc timed_step (t, d) (t', d') → powerless t' d' lease.
Proof.
  intros Hi Hrow Hiss Hp Hr. remember (t, d) as s eqn:Es. remember (t', d') as s' eqn:Es'.
  revert t d row Es Hi Hrow Hiss Hp. induction Hr as [s|s s1 s2 Hs _ IH];
    intros t d row -> Hi Hrow Hiss Hp.
  { by simplify_eq. }
  inversion Hs as [o t1 Ht Hcl]; subst. cbn in *.
  pose proof (run_outcome stripVT hmac sha256 cfg o d Hi) as Ho.
  destruct (outcome_row _ _ _ _ _ _ _ _ Ho Hrow) as (row' & Hrow' & Hch).
  assert (valid t1 row' lease = false ∧ issued row' lease) as [Hv' Hiss'].
  { destruct Hch as [-> | (c & HK & Hst)].
    - split; [|done]. apply not_true_iff_false. intros Hv.
      apply (valid_earlier t) in Hv; [|done]. by apply (Hp row Hrow), valid_authority.
    - destruct (Hcl c HK) as [H1 H2]. eapply lost_step; [done| |done| |done].
      + by apply (inv_rows _ Hi (l_executionId lease)).
      + apply not_true_iff_false. intros Hv. apply (valid_earlier t) in Hv; [|done].
        by apply (Hp row Hrow), valid_authority. }
  eapply (IH eq_refl t1 _ row'); [done|by eapply outcome_inv|done|done|].
  intros r Hr'. apply no_authority. by simplify_eq.
Qed.

(** ** Claims *)

(** A claim that returns a lease found the execution without any valid lease: whatever lease
    another worker holds has no authority at that moment.  The new lease carries the next attempt
    number, is the row's current one, and has authority from now until the earlier of thirty
    seconds and the job's deadline. *)
Lemma claim_exclusive c token id d lease e d' :
  inv d → claim c token id d = Ok (Some (lease, e), d') →
  (∀ other, l_executionId other = id → powerless (now c) d other)
  ∧ executions d' !! id = Some e ∧ e_state e = COMPILING
  ∧ lease = mkLease id (e_attempt e) token
  ∧ (∃ old, executions d !! id = Some old ∧ e_attempt e = e_attempt old + 1 ∧ e_attempt e ≤ MAX_ATTEMPTS)
  ∧ ∀ t, valid t e lease = true ↔ t < Z.min (now c + LEASE_MS) (deadline e).
Proof.
  intros Hi E. unfold claim in E. rewrite locked_run in E.
  destruct (executions d !! id) as [row|] eqn:Hrow; [|by inv_tx].
  destruct (isTerminal (e_state row)) eqn:Ht; [by inv_tx|].
  destruct (bool_decide (e_state row = QUEUED) && _) eqn:Eq; [by inv_tx|].
  destruct (negb (bool_decide (e_state row = QUEUED)) && _) eqn:El; [by inv_tx|].
  pose proof (claimable_when _ _ Ht Eq El) as Hwhen.
  destruct (bool_decide _) in E; [by inv_tx|].
  destruct ((deadline row <=? now c) || (MAX_ATTEMPTS <=? e_attempt row)) eqn:Ed; [by inv_tx|].
  apply orb_false_iff in Ed as [Ed1%Z.leb_gt Ed2%Z.leb_gt]. inv_tx. unfold event_delete_execution in Hrun.
  inv_tx. apply event_Ok in Hrun0 as (_ & -> & ->).
  apply execution_update_Ok in Hrun1 as (o & Ho & -> & _ & _ & ->). cbn in Ho. rewrite Hrow in Ho.
  simplify_eq/=. split_and!; try done.
  - intros other <- r Hr. rewrite Hrow in Hr. simplify_eq. rewrite <- valid_authority.
    intros [(Hh & Hl & _) _]%valid_authorised. destruct Hwhen as [[Hq _] | [_ Hn]]; [|done].
    by apply (holds_not_queued _ Hh).
  - by rewrite lookup_insert_eq.
  - exists o. split; [done|lia].
  - intros t. rewrite valid_authorised. unfold authorised, holds_lease, lease_live. cbn.
    change (deadline (data_claim _ _ _ _ _)) with (deadline o). split.
    + by intros ((_ & (x & [= <-] & Hx) & _) & _).
    + intros Hx. split_and!; try done; [by left|by eexists|lia].
Qed.

(** A waiting job can be claimed: for a queued execution whose queue deadline has not passed,
    the claim succeeds and returns the first attempt's lease. *)
Lemma queued_claimable c token id d row :
  (∀ s, z_uuid s = true → length s = 36%nat ∧ Forall unit_ok s) →
  inv d → seq_room d → clock_ok c → executions d !! id = Some row → e_state row = QUEUED →
  now c < e_queueExpiresAt row →
  ∃ e d', claim c token id d = Ok (Some (mkLease id 1 token, e), d').
Proof.
  intros Hlen Hi Hroom Hc Hrow Hq Hx.
  destruct (inv_rows _ Hi _ _ Hrow) as [Hid Hok]. destruct (ok_queued _ Hok Hq) as (Ha & Ht & _ & Hn).
  assert (fails_in [] (claim c token id) d) as Hf.
  { eapply (claim_fails Hlen); try done. intros r Hr. rewrite Hrow in Hr. simplify_eq. by rewrite Ht. }
  unfold fails_in in Hf. destruct (claim c token id d) as [[r d']|err] eqn:E; [|by apply elem_of_nil in Hf].
  unfold claim in E. rewrite locked_run, Hrow in E.
  assert (E2 : (e_queueExpiresAt row <=? now c) = false) by lia.
  assert (E3 : (deadline row <=? now c) = false) by (unfold deadline; lia).
  rewrite Hq, Hn, E2, E3, Ha in E. cbn [isTerminal transitions length Nat.eqb] in E.
  rewrite (bool_decide_eq_true_2 (QUEUED = QUEUED)) in E by done. cbn [andb negb] in E.
  rewrite (bool_decide_eq_false_2 (is_Some None)) in E by (by intros []). cbn [orb Z.leb] in E.
  change (MAX_ATTEMPTS <=? 0) with false in E. cbv iota in E. inv_tx. by eexists _, _.
Qed.
End Fencing.
