(* ===== verification/Outcomes.v ===== *)
(** * Outcomes of the job operations

    The functional behaviour, branch by branch, of finishing, failing and cancelling an
    execution, and what one maintenance pass achieves for the jobs that are overdue. *)

From S2P Require Import Prelude JsText Contracts Judge Database Serialization JobStore Lifecycle.
From S2P Require Import JobStoreFacts Invariant Sizes Progress.
Local Open Scope Z_scope.

Section Outcomes.
Context `{Zod} (stripVT : jsstr → jsstr).
Context (uuid_length : ∀ s, z_uuid s = true → length s = 36%nat ∧ Forall unit_ok s).

(** ** Ending an execution *)

Lemma terminal_run c row k code d :
  inv d → row_room row → clock_ok c → executions d !! e_id row = Some row →
  row_step c row (data_terminal k code (finNow c) (next_seq row) row) →
  ∃ d', terminal c row k code d = Ok (tt, d')
    ∧ executions d' = <[e_id row := data_terminal k code (finNow c) (next_seq row) row]> (executions d).
Proof.
  intros Hi Hroom Hc Hrow Hs.
  destruct (terminal_total uuid_length c row k code d) as [d' E]; try done.
  exists d'. split; [done|]. by apply terminal_effect in E as (evs & ns & _ & ->).
Qed.

(** The row a settled worker result leaves behind: cancellation wins over any verdict. *)
Definition settled (c : Clock) (row : Execution) (input : JudgedResult) : Execution :=
  match e_cancellationRequestedAt row with
  | Some _ => data_terminal T_CANCELLED None (finNow c) (next_seq row) row
  | None =>
      data_finish (jr_verdict input) (jr_runtimeMs input) (jr_memoryKiB input)
        ((λ l : list PublicCaseResult, safe_result stripVT <$> l) <$> jr_publicCaseResults input)
        (finNow c) (next_seq row) row
  end.

(** A [finish] that returns under a valid lease has settled the row. *)
Lemma finish_returned c lease input row d b d' :
  inv d → executions d !! l_executionId lease = Some row → valid (now c) row lease = true →
  finish stripVT c lease input d = Ok (b, d') →
  b = true ∧ executions d' = <[l_executionId lease := settled c row input]> (executions d).
Proof.
  intros Hi Hrow Hv E. destruct (inv_rows _ Hi _ _ Hrow) as [Hid _]. unfold finish in E.
  destruct (resultSchema input) in E; cbn [negb] in E; [|by inv_tx].
  destruct (MAX_OUTPUT_BYTES <? _) in E; [by inv_tx|].
  rewrite locked_run, Hrow, Hv in E. cbn [negb] in E. unfold settled. rewrite <- Hid in *.
  destruct (e_cancellationRequestedAt row) as [rq|].
  { rewrite bool_decide_eq_true_2 in E by done. inv_tx.
    by apply terminal_effect in Hrun as (evs & ns & _ & ->). }
  rewrite bool_decide_eq_false_2 in E by (by intros []). inv_tx.
  destruct (public_results_ok _ _ _) in E; cbn [negb] in E; [|by inv_tx]. inv_tx.
  apply notify_Ok in Hrun0 as [ns ->].
  by eapply (commit_effect _ _ _ _ _ _ _ _ (data_finish _ _ _ _ _)) in Hrun1 as (-> & evs & _ & ->).
Qed.

Lemma finish_run c lease input row d :
  inv d → seq_room d → clock_ok c →
  executions d !! l_executionId lease = Some row → valid (now c) row lease = true →
  resultSchema input = true → result_int4 input = true →
  byteLength (stringify (result_json input)) ≤ MAX_OUTPUT_BYTES →
  (e_cancellationRequestedAt row = None →
   public_results_ok row (public_cases d (x_problemVersionId (e_req row))) (jr_publicCaseResults input) = true) →
  ∃ d', finish stripVT c lease input d = Ok (true, d')
    ∧ executions d' = <[l_executionId lease := settled c row input]> (executions d).
Proof.
  intros Hi Hroom Hc Hrow Hv Hin Hi4 Hsz Hpub. pose proof Hv as Ha. apply valid_authorised in Ha as (Ha & _).
  destruct (inv_rows _ Hi _ _ Hrow) as [Hid Hok]. pose proof (Hroom _ _ Hrow) as Hrm. rewrite <- Hid in *.
  unfold finish. rewrite Hin. cbn [negb]. rewrite (proj2 (Z.ltb_ge _ _)) by done.
  rewrite locked_run, <- Hid, Hrow, Hv. cbn [negb]. unfold settled.
  destruct (e_cancellationRequestedAt row) as [rq|] eqn:Hcan.
  { rewrite bool_decide_eq_true_2 by done.
    destruct (terminal_run c row T_CANCELLED None d) as (d1 & E1 & Ex1); try done.
    { apply rs_worker_cancelled; [done|]. by rewrite Hcan. }
    exists d1. by rewrite (bind_run _ _ _ _ _ E1). }
  rewrite bool_decide_eq_false_2 by (by intros []). specialize (Hpub eq_refl). rewrite (bind_run _ _ _ _ _ eq_refl), Hpub. cbn [negb].
  destruct (event_total uuid_length c row (final_verdict FINISHED (jr_verdict input) None) d) as (d1 & E1 & Ex1); try done.
  destruct (notify_total c row (jr_verdict input) d1) as (d2 & E2).
  destruct (notify_Ok _ _ _ _ _ _ E2) as [ns ->].
  rewrite (bind_run _ _ _ _ _ E1), (bind_run _ _ _ _ _ E2). set (data := data_finish _ _ _ _ _ _).
  destruct (update_same c row data (set_notifications (λ _, ns) d1)) as (d3 & E3); try done.
  - cbn. by rewrite Ex1.
  - by eapply finish_step.
  - intros _. apply finish_int4; [done| |done]. by apply holds_not_terminal, (authorised_active (now c)).
  - exists d3. rewrite (bind_run _ _ _ _ _ E3). split; [done|].
    apply execution_update_Ok in E3 as (o & Ho & _ & _ & _ & ->). cbn in Ho |- *. rewrite Ex1 in Ho |- *.
    by simplify_eq.
Qed.

(** What is kept of a reported case: all of it, its texts made safe for the console. *)
Definition kept_result (r s : PublicCaseResult) : Prop :=
  pr_caseId s = pr_caseId r ∧ pr_verdict s = pr_verdict r ∧ pr_outputTruncated s = pr_outputTruncated r
  ∧ pr_exitCode s = pr_exitCode r ∧ pr_runtimeMs s = pr_runtimeMs r ∧ pr_memoryKiB s = pr_memoryKiB r
  ∧ pr_stdout s = safeConsole stripVT <$> pr_stdout r ∧ pr_stderr s = safeConsole stripVT <$> pr_stderr r.
(** A row that has ended in a state: it has given up its lease, published one more event, and nothing of
    its request, attempt or cancellation has changed. *)
Definition ended (c : Clock) (s : ExecutionState) (v : Verdict) (row row' : Execution) : Prop :=
  e_state row' = s ∧ e_verdict row' = Some v ∧ e_failureCode row' = None
  ∧ e_req row' = e_req row ∧ e_attempt row' = e_attempt row ∧ e_lastSequence row' = e_lastSequence row + 1
  ∧ e_leaseToken row' = None ∧ e_leaseExpiresAt row' = None ∧ e_finishedAt row' = Some (finNow c)
  ∧ e_cancellationRequestedAt row' = e_cancellationRequestedAt row.

Lemma kept_results l : Forall2 kept_result l (safe_result stripVT <$> l).
Proof. induction l as [|r l IH]; cbn; constructor; [done|exact IH]. Qed.

(** C17: a worker that reports an admissible result under a valid lease settles the job: the call
    succeeds, and the row becomes FINISHED with the reported verdict, run time and memory, and with the
    reported cases, their texts sanitised; or CANCELLED, with no measurement and no result, when a
    cancellation had been requested.  No other execution is touched. *)
Theorem finish_settles c lease input row d :
  inv d → seq_room d → clock_ok c →
  executions d !! l_executionId lease = Some row → valid (now c) row lease = true →
  resultSchema input = true → result_int4 input = true →
  byteLength (stringify (result_json input)) ≤ MAX_OUTPUT_BYTES →
  (e_cancellationRequestedAt row = None →
   public_results_ok row (public_cases d (x_problemVersionId (e_req row))) (jr_publicCaseResults input) = true) →
  ∃ d' row', finish stripVT c lease input d = Ok (true, d')
    ∧ executions d' = <[l_executionId lease := row']> (executions d)
    ∧ match e_cancellationRequestedAt row with
      | None =>
          ended c FINISHED (jr_verdict input) row row'
          ∧ e_runtimeMs row' = jr_runtimeMs input ∧ e_memoryKiB row' = jr_memoryKiB input
          ∧ option_Forall2 (Forall2 kept_result) (jr_publicCaseResults input) (e_publicResults row')
      | Some _ =>
          ended c CANCELLED VCANCELLED row row'
          ∧ e_runtimeMs row' = None ∧ e_memoryKiB row' = None ∧ e_publicResults row' = None
      end.
Proof.
  intros Hi Hroom Hc Hrow Hv Hin Hi4 Hsz Hpub.
  destruct (finish_run c lease input row d) as (d' & E & Ex); try done.
  exists d', (settled c row input). split_and!; [done..|].
  destruct (inv_rows _ Hi _ _ Hrow) as [_ Hok].
  assert (isTerminal (e_state row) = false) as Hnt.
  { apply valid_authorised in Hv as [Ha _]. by eapply holds_not_terminal, authorised_active. }
  pose proof (active_fields _ (ok_checks _ Hok) Hnt) as (_ & _ & Hcode).
  pose proof (ok_metrics _ Hok Hnt) as [Hrt Hmem]. pose proof (no_results_yet _ Hok Hnt) as Hno.
  unfold settled. destruct (e_cancellationRequestedAt row) as [t|] eqn:Hcan; [done|].
  unfold ended. cbn. rewrite Hcode, Hrt, Hmem, Hno, Hcan. split_and!; try done.
  - by destruct (jr_runtimeMs input).
  - by destruct (jr_memoryKiB input).
  - destruct (jr_publicCaseResults input); cbn; constructor. apply kept_results.
Qed.

(** How a failed run ends the job. *)
Definition failed (c : Clock) (row : Execution) (cleanupConfirmed : bool) : Execution :=
  match e_cancellationRequestedAt row, cleanupConfirmed with
  | Some _, true => data_terminal T_CANCELLED None (finNow c) (next_seq row) row
  | Some _, false =>
      data_terminal T_INTERNAL_ERROR (Some CANCELLATION_TIMEOUT) (finNow c) (next_seq row) row
  | None, _ => data_terminal T_INTERNAL_ERROR (Some JOB_FAILURE) (finNow c) (next_seq row) row
  end.

Lemma fail_run c lease cleanupConfirmed row d :
  inv d → seq_room d → clock_ok c →
  executions d !! l_executionId lease = Some row → valid (now c) row lease = true →
  ∃ d', fail c lease cleanupConfirmed d = Ok (true, d')
    ∧ executions d' = <[l_executionId lease := failed c row cleanupConfirmed]> (executions d).
Proof.
  intros Hi Hroom Hc Hrow Hv. pose proof Hv as Ha. apply valid_authorised in Ha as (Ha & _).
  destruct (inv_rows _ Hi _ _ Hrow) as [Hid Hok]. pose proof (Hroom _ _ Hrow) as Hrm. rewrite <- Hid in *.
  unfold fail, failed. rewrite locked_run, <- Hid, Hrow, Hv. cbn [negb].
  destruct (e_cancellationRequestedAt row) as [rq|] eqn:Hcan.
  - rewrite bool_decide_eq_true_2 by done. destruct cleanupConfirmed; cbn [andb].
    + destruct (terminal_run c row T_CANCELLED None d) as (d1 & E1 & Ex1); try done.
      { apply rs_worker_cancelled; [done|]. by rewrite Hcan. }
      exists d1. by rewrite (bind_run _ _ _ _ _ E1).
    + destruct (terminal_run c row T_INTERNAL_ERROR (Some CANCELLATION_TIMEOUT) d) as (d1 & E1 & Ex1);
        try done; [by apply rs_worker_failed; auto|].
      exists d1. by rewrite (bind_run _ _ _ _ _ E1).
  - rewrite bool_decide_eq_false_2 by (by intros []). cbn [andb].
    destruct (terminal_run c row T_INTERNAL_ERROR (Some JOB_FAILURE) d) as (d1 & E1 & Ex1);
      try done; [by apply rs_worker_failed; auto|].
    exists d1. by rewrite (bind_run _ _ _ _ _ E1).
Qed.

(** A worker failure under a valid lease always ends the job: as CANCELLED only when a
    cancellation was requested and the clean-up is confirmed, as INTERNAL_ERROR with
    CANCELLATION_TIMEOUT when it is not confirmed, and as INTERNAL_ERROR with JOB_FAILURE
    otherwise. *)
Lemma fail_settles c lease cleanupConfirmed row d :
  inv d → seq_room d → clock_ok c →
  executions d !! l_executionId lease = Some row → valid (now c) row lease = true →
  ∃ d', fail c lease cleanupConfirmed d = Ok (true, d')
    ∧ executions d' = <[l_executionId lease := failed c row cleanupConfirmed]> (executions d).
Proof. apply fail_run. Qed.

(** ** Cancellation by the owner *)

(** The effect of a cancellation request on the execution row. *)
Definition cancelled (c : Clock) (row : Execution) : Execution :=
  match e_state row, e_cancellationRequestedAt row with
  | QUEUED, _ => data_terminal T_CANCELLED None (finNow c) (next_seq row) row
  | (COMPILING | RUNNING), None => data_cancel (now c) (next_seq row) row
  | _, _ => row
  end.

(** The owner's cancellation ends a queued job at once with its closing intent in the outbox,
    records the request on an active job exactly once, and leaves an ended job alone; the
    receipt reports the state accordingly.  Anyone else gets NOT_FOUND. *)
Lemma cancel_outcome c userId id row d :
  inv d → seq_room d → clock_ok c → executions d !! id = Some row →
  if decide (x_userId (e_req row) = userId)
  then ∃ r d', cancel c userId id true d = Ok (r, d')
        ∧ executions d' = <[id := cancelled c row]> (executions d)
        ∧ rc_state r = (if decide (e_state row = QUEUED) then CANCELLED else e_state row)
        ∧ (rc_cancellationRequested r = Some true ↔ holds_lease row)
        ∧ (e_state row = QUEUED → outbox_has (id, EXECUTION_CANCELLED, 0) (outbox d') = true)
  else cancel c userId id true d = Err NotFound.
Proof.
  intros Hi Hroom Hc Hrow. unfold cancel. rewrite locked_run, Hrow.
  destruct (inv_rows _ Hi _ _ Hrow) as [Hid Hok]. pose proof (Hroom _ _ Hrow) as Hrm. rewrite <- Hid in *.
  case_decide as Hu; [rewrite bool_decide_eq_true_2 by done|by rewrite bool_decide_eq_false_2].
  cbn [negb]. destruct (decide (e_state row = QUEUED)) as [Hq|Hq].
  - rewrite bool_decide_eq_true_2 by done.
    destruct (terminal_run c row T_CANCELLED None d) as (d1 & E1 & Ex1); try done; [by apply rs_cancel_queued|].
    rewrite (bind_run _ _ _ _ _ E1). apply terminal_effect in E1 as (evs & ns & _ & ->); [|done].
    set (d1 := put _ _ _ _ _ _) in *. set (o := new_outbox (e_id row) EXECUTION_CANCELLED 0 (insNow c)).
    assert (Eo : outbox_create o d1 = Ok (tt, set_outbox (λ l, l ++ [o]) d1)).
    { unfold outbox_create. change (o_key o) with (e_id row, EXECUTION_CANCELLED, 0).
      cbn [d1 put outbox]. rewrite closing_free; [done|done|done|by rewrite Hq|by left]. }
    rewrite (bind_run _ _ _ _ _ Eo). eexists _, _. split; [reflexivity|]. unfold cancelled. rewrite Hq.
    split_and!; try done.
    + cbn. split; [done|]. intros [E|E]; congruence.
    + intros _. apply outbox_has_elem. exists o. split; [|done]. cbn. apply elem_of_app. right. left.
  - rewrite bool_decide_eq_false_2 by done. unfold cancelled.
    destruct (isTerminal (e_state row)) eqn:Ht; cbn [negb].
    { eexists _, _. split; [reflexivity|]. rewrite insert_id by (by destruct (e_state row)).
      destruct (e_state row) eqn:Es; try done; split_and!; try done;
        (split; [done|intros [E|E]; congruence]). }
    destruct (active_cases _ Ht Hq) as [Hs|Hs]; destruct (e_cancellationRequestedAt row) as [t|] eqn:Hn.
    1,3: rewrite (bool_decide_eq_false_2 (_ = None)) by done; eexists _, _; split; [reflexivity|];
      rewrite Hs; rewrite insert_id by done; split_and!; try done; split; [by intros _; unfold holds_lease; auto|done].
    all: rewrite (bool_decide_eq_true_2 (_ = None)) by done.
    all: destruct (event_total uuid_length c row (execution_status (e_state row) (Some true)) d)
      as (d1 & E1 & Ex1); try done.
    all: destruct (update_same c row (data_cancel (now c) (next_seq row)) d1) as (d2 & E2);
      [by rewrite Ex1|done|done|done|apply rs_request_cancel; [by apply active_cases|done]|cbn; congruence|done|].
    all: rewrite tx_bind_assoc, (bind_run _ _ _ _ _ E1), tx_bind_assoc, (bind_run _ _ _ _ _ E2).
    all: eexists _, _; split; [reflexivity|]; rewrite Hs.
    all: apply execution_update_Ok in E2 as (o & Ho & _ & _ & _ & ->); rewrite Ex1 in Ho; simplify_eq.
    all: split_and!; [by cbn; rewrite Ex1|done|by split; [intros _; unfold holds_lease; auto|]|done].
Qed.
End Outcomes.

(** * Maintenance: what one pass achieves

    The expiry of queued jobs and the reconciliation of overdue ones
    ([apps/api/src/executions/queued-maintenance.ts], [JobStore.maintain]). *)


(** ** Selection *)

(** The rows of a table that satisfy a condition. *)
Definition matching (P : Execution → Prop) `{!∀ e, Decision (P e)} (d : db) : list Execution :=
  filter P (map_to_list (executions d)).*2.

(** A batch that is not full contains every matching row. *)
Lemma batch_complete (P : Execution → Prop) `{!∀ e, Decision (P e)} (R : relation Execution)
    `{!RelDecision R} n (d : db) id e :
  (length (matching P d) ≤ n)%nat → executions d !! id = Some e → P e →
  e ∈ take n (merge_sort R (matching P d)).
Proof.
  intros Hn He HP. rewrite take_ge by by rewrite merge_sort_Permutation.
  rewrite merge_sort_Permutation. apply list_elem_of_filter. split; [done|].
  apply list_elem_of_fmap. exists (id, e). split; [done|]. by apply elem_of_map_to_list.
Qed.

(** A recovery intent is inserted unless one with its key is there. *)
Lemma recovery_upsert_adds id g t d u d' :
  outbox_upsert (new_outbox id EXECUTION_RECOVERY g t) (λ o, o) d = Ok (u, d') →
  executions d' = executions d
  ∧ ∃ news, outbox d' = outbox d ++ news ∧ Forall (λ o, o_publishedAt o = None) news
      ∧ ∃ o, o ∈ outbox d ++ news ∧ o_key o = (id, EXECUTION_RECOVERY, g).
Proof.
  unfold outbox_upsert. intros E. inv_tx. split; [done|]. cbn [set_outbox outbox].
  change (o_key (new_outbox id EXECUTION_RECOVERY g t)) with (id, EXECUTION_RECOVERY, g).
  destruct (outbox_has (id, EXECUTION_RECOVERY, g) (outbox d)) eqn:Eh.
  - exists []. rewrite app_nil_r. split_and!; [|done|by apply outbox_has_elem].
    transitivity ((λ o, o) <$> outbox d); [|apply list_fmap_id].
    apply list_fmap_ext. intros i o _. by case_bool_decide.
  - eexists. split_and!; [done|by repeat constructor|]. eexists. split; [apply elem_of_app; right; left|done].
Qed.

Lemma length_filter_mono {A} (P Q : A → Prop) `{!∀ x, Decision (P x)} `{!∀ x, Decision (Q x)} (l : list A) :
  (∀ x, x ∈ l → P x → Q x) → (length (filter P l) ≤ length (filter Q l))%nat.
Proof.
  induction l as [|x l IH]; intros Hpq; [done|]. rewrite !filter_cons.
  assert (length (filter P l) ≤ length (filter Q l))%nat by (apply IH; intros y Hy; apply Hpq; by right).
  pose proof (Hpq x ltac:(left)). repeat case_decide; cbn; tauto || lia.
Qed.

Section Maintenance.
Context `{Zod}.

(** What the loop of a pass makes of a database: unpublished intents are appended, and executions that
    change end. *)
Definition swept (d d' : db) : Prop :=
  (∃ news, outbox d' = outbox d ++ news ∧ Forall (λ o, o_publishedAt o = None) news)
  ∧ ∀ id e', executions d' !! id = Some e' → executions d !! id = Some e' ∨ isTerminal (e_state e') = true.
#[local] Instance swept_preorder : PreOrder swept.
Proof.
  split.
  - intros d. split; [exists []; by rewrite app_nil_r|auto].
  - intros a b c [(n1 & E1 & F1) H1] [(n2 & E2 & F2) H2]. split.
    + exists (n1 ++ n2). rewrite E2, E1, <- app_assoc. split; [done|]. by apply Forall_app.
    + intros id e' [He|He]%H2; [by apply H1|by right].
Qed.

Lemma maintain_row_swept clk row d u d' :
  executions d !! e_id row = Some row → maintain_row clk row d = Ok (u, d') →
  swept d d'
  ∧ (gives_up (now (clk (e_id row))) row = None →
     ∃ o, o ∈ outbox d' ∧ o_key o = (e_id row, EXECUTION_RECOVERY, e_attempt row)).
Proof.
  intros Hrow. rewrite maintain_row_eq. destruct (gives_up _ row) as [code|]; intros E.
  - apply terminal_effect in E as (evs & ns & _ & ->); [|done]. split; [|done].
    split; [exists []; cbn; by rewrite app_nil_r|]. intros id e' He. cbn in He.
    apply lookup_insert_Some in He as [[_ <-]|[_ He]]; auto.
  - apply recovery_upsert_adds in E as (Ex & news & Eo & Hn & Ho). unfold swept. rewrite Ex, Eo. eauto 6.
Qed.

Lemma maintain_loop_swept mc clk rows d u d' :
  inv d → NoDup (e_id <$> rows) →
  (∀ row, row ∈ rows → executions d !! e_id row = Some row ∧ overdue mc row = true) →
  for_each (maintain_row clk) rows d = Ok (u, d') →
  swept d d'
  ∧ ∀ row, row ∈ rows → gives_up (now (clk (e_id row))) row = None →
      ∃ o, o ∈ outbox d' ∧ o_key o = (e_id row, EXECUTION_RECOVERY, e_attempt row).
Proof.
  revert d. induction rows as [|row rows IH]; intros d Hi Hnd Hcur E.
  { cbn in E. inv_tx. split; [reflexivity|]. by intros ? ?%elem_of_nil. }
  cbn in E, Hnd. inv_tx. apply NoDup_cons in Hnd as [Hni Hnd].
  destruct (Hcur row ltac:(left)) as [Hrow Hov].
  pose proof (maintain_row_effect mc _ _ _ _ _ Hi Hrow Hov Hrun) as [He Hx].
  apply maintain_row_swept in Hrun as [Hsw Hnew]; [|done].
  destruct (IH s) as [IH1 IH2]; [by eapply effect_inv|done| |done|].
  - intros row' Hin. destruct (Hcur row' ltac:(by right)) as [H1 H2]. split; [|done].
    rewrite Hx, lookup_insert_ne; [done|]. intros Eid. apply Hni. rewrite Eid. by apply list_elem_of_fmap_2.
  - split; [by etrans|]. intros row' [-> | Hin]%elem_of_cons; [|by apply IH2].
    intros (o & Ho & Ek)%Hnew. exists o. split; [|done]. destruct IH1 as [(news & -> & _) _].
    apply elem_of_app. by left.
Qed.

(** An intent that may be offered again after the loop could be offered before it. *)
Lemma swept_reofferable mc d d' o : swept d d' → reofferable mc d' o = true → reofferable mc d o = true.
Proof.
  intros [_ Hrows]. unfold reofferable. destruct (o_publishedAt o) as [p|]; [|done].
  destruct (executions d' !! o_executionId o) as [e|] eqn:E; [|done].
  destruct (Hrows _ _ E) as [->|Ht]; [done|]. rewrite !andb_true_iff.
  destruct (e_state e); try done; intros [_ Hb]; vm_compute in Hb; done.
Qed.

Definition reoffered (mc : MaintainClocks) (busyOutbox : OutboxRow → bool) (d : db) : list OutboxRow :=
  filter (λ o, reofferable mc d o ∧ busyOutbox o = false) (outbox d).

(** When the batch is not full, an intent that nobody holds is unpublished unless it was published in
    the last ten seconds or no worker is needed. *)
Lemma reoffer_complete mc busyOutbox d u d' o :
  (length (reoffered mc busyOutbox d) ≤ 100)%nat → reoffer mc busyOutbox d = Ok (u, d') →
  o ∈ outbox d → busyOutbox o = false →
  executions d' = executions d
  ∧ ∃ o', o' ∈ outbox d' ∧ o_key o' = o_key o
     ∧ (o_publishedAt o' = None ∨ o' = o ∧ reofferable mc d o = false).
Proof.
  intros Hlen E Ho Hb. unfold reoffer in E. inv_tx. split; [done|]. cbn [set_outbox outbox].
  eexists. split; [by apply list_elem_of_fmap_2|]. fold (reoffered mc busyOutbox d). rewrite take_ge by done.
  case_bool_decide as Hin; [by split; [|left]|]. split; [done|]. right. split; [done|].
  apply not_true_iff_false. intros Hr. apply Hin, list_elem_of_fmap_2, list_elem_of_filter.
  split; [split; [by rewrite Hr|done]|done].
Qed.

(** A row whose lease has expired and that is not given up needs a worker: its old intent may be
    offered again. *)
Lemma overdue_reofferable mc t d e o p :
  row_ok e → overdue mc e = true → gives_up t e = None → mc_lease mc (e_id e) ≤ mc_stalled mc o →
  executions d !! o_executionId o = Some e → o_kind o = EXECUTION_RECOVERY → o_generation o = e_attempt e →
  o_publishedAt o = Some p → p < mc_published mc o - 10000 → reofferable mc d o = true.
Proof.
  intros Hok Hov Hg Ht He Hk Hgen Hp Hold. unfold reofferable. rewrite Hp, He, Hk, Hgen, Z.eqb_refl.
  destruct (overdue_step _ _ Hok Hov) as [Hh Hwhen].
  assert (e_cancellationRequestedAt e = None) as Hcan.
  { unfold gives_up in Hg. case_bool_decide as Hc; [done|]. by apply eq_None_not_Some in Hc. }
  destruct Hwhen as [Hl|Hc]; [|by rewrite Hcan in Hc].
  destruct (ok_active _ Hok Hh) as (_ & tok & x & _ & Hx & _).
  assert (x ≤ mc_stalled mc o) by (destruct (Z.le_gt_cases x (mc_lease mc (e_id e))); [lia|]; destruct Hl; by exists x).
  rewrite (proj2 (Z.ltb_lt _ _)) by done. rewrite Hx. unfold s_le. cbn [fmap option_fmap option_map].
  rewrite (proj2 (Z.leb_le _ _)) by done. by destruct Hh as [-> | ->].
Qed.

(** C22: a reconciliation pass whose two batches are not full leaves no overdue job behind: every active
    execution whose lease has expired, or whose cancellation was requested fifteen seconds ago,
    and that no other transaction holds, is either ended with INTERNAL_ERROR and the failure its situation
    calls for (cancellation, attempts used up, deadline), its lease given up, or keeps its row and has an
    intent to recover its current attempt in the outbox, which waits to be published or was published
    within the last ten seconds (unless another transaction holds that intent).  Every reading of the
    clock is its own; the second statement only reads it no earlier than the first. *)
Theorem maintain_reconciles mc busy busyOutbox d u d' id e :
  inv d → maintain mc busy busyOutbox d = Ok (u, d') →
  (length (matching (λ e, overdue mc e ∧ busy (e_id e) = false) d) ≤ MAINTAIN_BATCH)%nat →
  (length (reoffered mc busyOutbox d) ≤ 100)%nat →
  executions d !! id = Some e → overdue mc e = true → busy id = false →
  (∀ o, o_key o = (id, EXECUTION_RECOVERY, e_attempt e) →
     busyOutbox o = false ∧ mc_lease mc id ≤ mc_stalled mc o) →
  match gives_up (now (mc_row mc id)) e with
  | Some code =>
      ∃ e', executions d' !! id = Some e' ∧ e_state e' = INTERNAL_ERROR ∧ e_failureCode e' = Some code
        ∧ e_leaseToken e' = None ∧ e_leaseExpiresAt e' = None ∧ e_attempt e' = e_attempt e
  | None =>
      executions d' !! id = Some e
      ∧ ∃ o, o ∈ outbox d' ∧ o_key o = (id, EXECUTION_RECOVERY, e_attempt e)
          ∧ (o_publishedAt o = None ∨ ∃ p, o_publishedAt o = Some p ∧ mc_published mc o - 10 * 1000 ≤ p)
  end.
Proof.
  intros Hi E Hlen Hlen2 He Hov Hb Hbo. destruct (inv_rows _ Hi _ _ He) as [<- Hok].
  assert (Hin : e ∈ overdue_rows busy mc d).
  { unfold overdue_rows. eapply batch_complete; [done..|]. split; [by rewrite Hov|done]. }
  pose proof (maintain_spec _ _ _ _ _ _ Hi E) as (_ & _ & Hrows & _).
  pose proof (Hrows e Hin) as Hrow. unfold maintained in Hrow.
  destruct (gives_up (now (mc_row mc (e_id e))) e) eqn:Eg; [by eexists|]. split; [done|].
  unfold maintain in E. inv_tx.
  destruct (batch_rows d _ _ _ (overdue_rows busy mc d) (inv_rows _ Hi) eq_refl) as [Hnd Hb'].
  apply (maintain_loop_swept mc) in Hrun0 as [Hsw Hnew]; [|done|done|].
  2: { intros row Hr. destruct (Hb' row Hr) as (H1 & H2 & _). split; [done|]. by apply Is_true_true. }
  destruct (Hnew e Hin Eg) as (o & Ho & Ek).
  match type of Hsw with swept _ ?d1 => set (s := d1) in * end.
  assert (length (reoffered mc busyOutbox s) ≤ 100)%nat as Hlen1.
  { etrans; [|exact Hlen2]. unfold reoffered. destruct Hsw as [(news & Eo & Hnews) Hx]. rewrite Eo, filter_app.
    rewrite (filter_none_in _ news), app_nil_r.
    - apply length_filter_mono. intros o' _ [H1 H2]. split; [|done].
      apply Is_true_true in H1. apply Is_true_true. apply (swept_reofferable mc d s); [|done].
      split; [by exists news|done].
    - intros o' Hn [H1 _]. rewrite Forall_forall in Hnews. unfold reofferable in H1. by rewrite (Hnews o' Hn) in H1. }
  destruct (reoffer_complete _ _ _ _ _ _ Hlen1 Hrun1 Ho (proj1 (Hbo o Ek))) as (Ex & o' & Ho' & Ek' & Hpub).
  unfold expire_events, event_delete_keys in E. inv_tx. cbn [set_events outbox executions] in *.
  exists o'. split_and!; [done|congruence|]. destruct Hpub as [?|[-> Hnr]]; [by left|].
  destruct (o_publishedAt o) as [p|] eqn:Ep; [right|by left]. exists p. split; [done|].
  destruct (Z.lt_ge_cases p (mc_published mc o - 10000)); [|lia]. rewrite Ex in Hrow. unfold o_key in Ek.
  rewrite (overdue_reofferable mc (now (mc_row mc (e_id e))) _ e o p) in Hnr; try done; [|congruence..].
  by apply Hbo.
Qed.

(** An expiry pass whose batch is not full ends every queued job whose queue deadline has
    passed, unless another transaction holds it, with QUEUE_TIMEOUT, reports how many it ended,
    and leaves every other execution alone. *)
Lemma expire_ends_overdue clk t busy d n d' id e :
  inv d → expireQueuedJobs clk t busy d = Ok (n, d') →
  (length (matching (λ e, e_state e = QUEUED ∧ (e_queueExpiresAt e ≤ t)%Z ∧ busy (e_id e) = false) d)
     ≤ EXPIRY_BATCH_SIZE)%nat →
  executions d !! id = Some e →
  executions d' !! id =
    Some (if decide (e_state e = QUEUED ∧ e_queueExpiresAt e ≤ t ∧ busy id = false)
          then data_expire t (next_seq e) e else e).
Proof.
  intros Hi E Hlen He. destruct (inv_rows _ Hi _ _ He) as [<- _].
  apply expire_spec in E as (_ & _ & _ & Hin & Hout); [|done]. case_decide as Hd.
  - apply Hin. unfold expired_rows. by eapply batch_complete.
  - rewrite Hout; [done|]. intros (row & Eid & Hr)%list_elem_of_fmap.
    destruct (batch_rows d _ _ _ (expired_rows t busy d) (inv_rows _ Hi) eq_refl) as [_ Hb].
    destruct (Hb row Hr) as (H1 & H2). rewrite <- Eid, He in H1. by simplify_eq.
Qed.
End Maintenance.
