(* ===== verification/Replay.v ===== *)
(** * The replay window

    [event] keeps, per execution, the newest public events within 256 rows and 256 KiB, and
    [replay] hands them to a reconnecting client only when they are a gap-free continuation of
    what the client has seen. *)

From S2P Require Import Prelude JsText Contracts Judge Database Serialization JobStore Lifecycle.
From S2P Require Import JobStoreFacts Invariant Sizes Progress Admission Executions ExecutionsFacts.
From S2P Require Import Pipeline Safety.
Local Open Scope Z_scope.

(** ** What the retention loop keeps *)

Definition total_bytes (l : list EventRow) : Z := sumZ (ev_bytes <$> l).

(** The complement of [discard_loop]. *)
Fixpoint keep_loop (i : nat) (total : Z) (l : list EventRow) : list EventRow :=
  match l with
  | [] => []
  | e :: l' =>
      let total' := total + ev_bytes e in
      (if (REPLAY_ROWS <=? i)%nat || (REPLAY_BYTES <? total') then [] else [e])
      ++ keep_loop (S i) total' l'
  end.

Lemma discard_subset i total l : discard_loop i total l ⊆ l.
Proof.
  revert i total. induction l as [|e l IH]; intros i total; [done|]. cbn.
  intros x [Hx|Hx]%elem_of_app; [case_match; set_solver|]. right. by eapply IH.
Qed.

Lemma keep_loop_filter i total l :
  NoDup (ev_key <$> l) →
  filter (λ e, ev_key e ∉ ev_key <$> discard_loop i total l) l = keep_loop i total l.
Proof.
  revert i total. induction l as [|e l IH]; intros i total Hnd; [done|].
  cbn in Hnd. apply NoDup_cons in Hnd as [Hni Hnd]. cbn [discard_loop keep_loop].
  set (tail := discard_loop (S i) (total + ev_bytes e) l).
  assert (Ht : ev_key e ∉ ev_key <$> tail).
  { intros (x & Ex & Hx)%list_elem_of_fmap. apply Hni. rewrite Ex.
    apply list_elem_of_fmap_2. by eapply discard_subset. }
  specialize (IH (S i) (total + ev_bytes e) Hnd). fold tail in IH.
  destruct (_ || _); cbn [app].
  - rewrite filter_cons_False by (intros Hn; apply Hn; cbn; left). rewrite <- IH.
    apply filter_ext_in. intros x Hx. cbn. rewrite not_elem_of_cons.
    assert (ev_key x ≠ ev_key e); [|tauto].
    intros E. apply Hni. rewrite <- E. by apply list_elem_of_fmap_2.
  - rewrite filter_cons_True by done. by rewrite IH.
Qed.

Lemma keep_loop_full i total l : (REPLAY_ROWS ≤ i)%nat → keep_loop i total l = [].
Proof.
  revert i total. induction l as [|e l IH]; intros i total Hi; [done|]. cbn [keep_loop].
  rewrite (proj2 (Nat.leb_le _ _)) by done. cbn. apply IH. lia.
Qed.

Lemma keep_loop_rows i total l : (length (keep_loop i total l) ≤ REPLAY_ROWS - i)%nat.
Proof.
  revert i total. induction l as [|e l IH]; intros i total; [cbn; lia|]. cbn -[REPLAY_ROWS].
  specialize (IH (S i) (total + ev_bytes e)). rewrite length_app. destruct (_ || _) eqn:E.
  - cbn -[REPLAY_ROWS]. lia.
  - apply orb_false_iff in E as [E%Nat.leb_gt _]. cbn -[REPLAY_ROWS]. lia.
Qed.

Lemma keep_loop_bytes i total l :
  Forall (λ e, 0 ≤ ev_bytes e) l → total_bytes (keep_loop i total l) ≤ Z.max 0 (REPLAY_BYTES - total).
Proof.
  revert i total. induction l as [|e l IH]; intros i total Hl; [cbn; lia|].
  inversion_clear Hl as [|? ? He Hl']. cbn [keep_loop].
  destruct (REPLAY_ROWS <=? i)%nat eqn:Ei; cbn [orb app].
  { rewrite keep_loop_full; [cbn; lia|]. apply Nat.leb_le in Ei. lia. }
  specialize (IH (S i) (total + ev_bytes e) Hl').
  destruct (REPLAY_BYTES <? total + ev_bytes e) eqn:Eb; cbn [app].
  - apply Z.ltb_lt in Eb. lia.
  - apply Z.ltb_ge in Eb. unfold total_bytes in *. rewrite fmap_cons. cbn [sumZ foldr].
    unfold sumZ in IH. lia.
Qed.

(** ** The window of one execution *)

#[local] Instance newer_first_total : Total newer_first.
Proof. intros a b. unfold newer_first. lia. Qed.
#[local] Instance newer_first_trans : Transitive newer_first.
Proof. intros a b c. unfold newer_first. lia. Qed.

Lemma rows_of_trim id l :
  NoDup (ev_key <$> l) →
  rows_of id (trim id l) ≡ₚ keep_loop 0 0 (merge_sort newer_first (rows_of id l)).
Proof.
  intros Hnd. rewrite <- keep_loop_filter.
  - unfold trim. set (ks := ev_key <$> _).
    trans (filter (λ e, ev_key e ∉ ks) (rows_of id l)); [|by rewrite merge_sort_Permutation].
    unfold rows_of. rewrite !list_filter_filter. apply reflexive_eq, list_filter_iff. tauto.
  - rewrite merge_sort_Permutation. eapply sublist_NoDup; [done|apply fmap_sublist, sublist_filter].
Qed.

(** The events of another execution are not touched. *)
Lemma rows_of_trim_other id j l : j ≠ id → rows_of j (trim id l) = rows_of j l.
Proof.
  intros Hne. unfold rows_of, trim. rewrite list_filter_filter. apply filter_ext_in.
  intros x Hx. split; [tauto|]. intros E. split; [done|].
  intros (y & Ek & Hy%discard_subset)%list_elem_of_fmap. rewrite merge_sort_Permutation in Hy.
  apply list_elem_of_filter in Hy as [Ey _]. unfold ev_key in Ek. congruence.
Qed.

Definition window_ok (l : list EventRow) : Prop :=
  (length l ≤ REPLAY_ROWS)%nat ∧ total_bytes l ≤ REPLAY_BYTES.

Lemma total_bytes_perm l k : l ≡ₚ k → total_bytes l = total_bytes k.
Proof.
  unfold total_bytes, sumZ. induction 1 as [|x l k _ IH|x y l|l k m _ IH1 _ IH2]; rewrite ?fmap_cons; cbn [foldr]; lia.
Qed.

Lemma total_bytes_sublist l k :
  Forall (λ e, 0 ≤ ev_bytes e) k → l `sublist_of` k → total_bytes l ≤ total_bytes k.
Proof.
  unfold total_bytes, sumZ. intros Hk Hs. induction Hs as [|x l k Hs IH|x l k Hs IH]; [done|..];
    inversion_clear Hk; rewrite ?fmap_cons; cbn [foldr]; specialize (IH ltac:(done)); lia.
Qed.

Lemma window_trim id l :
  NoDup (ev_key <$> l) → Forall (λ e, 0 ≤ ev_bytes e) l → window_ok (rows_of id (trim id l)).
Proof.
  intros Hnd Hb. pose proof (rows_of_trim id l Hnd) as Hp. split.
  - rewrite Hp. pose proof (keep_loop_rows 0 0 (merge_sort newer_first (rows_of id l))). lia.
  - rewrite (total_bytes_perm _ _ Hp).
    assert (Forall (λ e, 0 ≤ ev_bytes e) (merge_sort newer_first (rows_of id l))) as Hb'.
    { rewrite merge_sort_Permutation. rewrite Forall_forall in Hb |- *.
      intros x [_ Hx]%list_elem_of_filter. by apply Hb. }
    pose proof (keep_loop_bytes 0 0 _ Hb'). unfold REPLAY_BYTES in *. lia.
Qed.

Lemma window_sublist l k :
  Forall (λ e, 0 ≤ ev_bytes e) k → l `sublist_of` k → window_ok k → window_ok l.
Proof.
  intros Hk Hs [H1 H2]. split.
  - apply sublist_length in Hs. lia.
  - pose proof (total_bytes_sublist _ _ Hk Hs). lia.
Qed.

(** The newest event survives the trimming that its own insertion causes. *)
Lemma trim_keeps_newest id l r :
  NoDup (ev_key <$> (l ++ [r])) → ev_executionId r = id → ev_bytes r ≤ REPLAY_BYTES →
  (∀ x, x ∈ l → ev_executionId x = id → ¬ newer_first x r) → r ∈ trim id (l ++ [r]).
Proof.
  intros Hnd Hid Hb Hmax. pose proof (rows_of_trim id _ Hnd) as Hp.
  enough (r ∈ rows_of id (trim id (l ++ [r]))) as Hr by (by apply list_elem_of_filter in Hr as [_ Hr]).
  rewrite Hp. set (s := merge_sort newer_first (rows_of id (l ++ [r]))).
  assert (Hin : r ∈ s).
  { unfold s. rewrite merge_sort_Permutation. apply list_elem_of_filter. split; [done|].
    apply elem_of_app. right. left. }
  pose proof (StronglySorted_merge_sort newer_first (rows_of id (l ++ [r]))) as Hs.
  fold s in Hs. destruct s as [|x s'] eqn:Es; [by apply elem_of_nil in Hin|].
  assert (x = r) as ->.
  { apply elem_of_cons in Hin as [->|Hin]; [done|].
    assert (newer_first x r) as Hx.
    { apply StronglySorted_inv in Hs as [_ Hall]. rewrite Forall_forall in Hall. by apply Hall. }
    assert (x ∈ rows_of id (l ++ [r])) as Hx'.
    { rewrite <- (merge_sort_Permutation newer_first). fold s. rewrite Es. left. }
    apply list_elem_of_filter in Hx' as [Exid [Hl|Hl%list_elem_of_singleton]%elem_of_app]; [|done].
    by destruct (Hmax x Hl Exid). }
  cbn [keep_loop]. change (REPLAY_ROWS <=? 0)%nat with false. cbn [orb].
  rewrite (proj2 (Z.ltb_ge _ _)) by lia. left.
Qed.

(** ** Retention in every reachable database *)

Section Retention.
Context `{Zod} (stripVT : jsstr → jsstr) (hmac : jsstr → jsstr → jsstr) (sha256 : jsstr → jsstr).
Context (cfg : ConfigValues).

Definition windows_ok (d : db) : Prop := ∀ id, window_ok (rows_of id (events d)).

Lemma inv_bytes d : inv d → Forall (λ e, 0 ≤ ev_bytes e) (events d).
Proof.
  intros Hi. apply Forall_forall. intros r Hr.
  destruct (inv_events _ Hi r Hr) as (e & f & _ & _ & _ & Hb & _). lia.
Qed.
Lemma rows_sublist id l k : l `sublist_of` k → rows_of id l `sublist_of` rows_of id k.
Proof.
  induction 1 as [|x l k _ IH|x l k _ IH]; [done|..]; unfold rows_of in *; rewrite !filter_cons.
  - case_decide; [by constructor|done].
  - case_decide; [by constructor|done].
Qed.

(** Appending an event to a log and trimming it. *)
Lemma window_append d l r id j :
  inv d → l `sublist_of` events d → windows_ok d → NoDup (ev_key <$> (l ++ [r])) → 0 ≤ ev_bytes r →
  ev_executionId r = id → window_ok (rows_of j (trim id (l ++ [r]))).
Proof.
  intros Hi Hl Hw Hnd Hr Hid. pose proof (inv_bytes d Hi) as Hb.
  assert (Forall (λ e, 0 ≤ ev_bytes e) l) as Hbl.
  { rewrite Forall_forall in Hb |- *. intros x Hx. apply Hb. by eapply elem_of_sublist. }
  destruct (decide (j = id)) as [->|Hne].
  - apply window_trim; [done|]. apply Forall_app. split; [done|]. by constructor.
  - rewrite rows_of_trim_other by done. unfold rows_of. rewrite filter_app.
    rewrite (filter_cons_False _ r) by congruence. rewrite filter_nil, app_nil_r.
    eapply window_sublist; [|by apply (rows_sublist j), Hl|by apply Hw].
    rewrite Forall_forall in Hb |- *. intros x [_ Hx]%list_elem_of_filter. by apply Hb.
Qed.

Lemma effect_windows c id d d' : inv d → effect c id d d' → windows_ok d → windows_ok d'.
Proof.
  intros Hi He Hw. pose proof (effect_inv c id d d' Hi He) as Hi'.
  destruct He as [|obs Hobs|old new evs obs ns Ho Hs Hch Hobs]; [done|done|].
  destruct (inv_rows _ Hi _ _ Ho) as [<- _].
  destruct Hch as [Ha Hl|c' prev f Hreq Ha Hl Hok Hsz Hpub Hfree]; [done|].
  intros j. cbn [put events]. assert (Hid : e_id prev = e_id old) by (unfold e_id; by rewrite Hreq).
  eapply (window_append d); [done|apply base_events_sublist|done| |apply byteLength_nonneg|done].
  rewrite fmap_app. apply NoDup_app. split_and!; [|intros k Hk ->%list_elem_of_singleton|apply NoDup_singleton].
  - eapply sublist_NoDup; [by apply (inv_keys _ Hi)|apply fmap_sublist, base_events_sublist].
  - apply Hfree. unfold ev_key, event_row in Hk. cbn in Hk. by rewrite Hid, Ha, Hl in Hk.
Qed.

Lemma effects_windows clk d d' : inv d → effects clk d d' → windows_ok d → windows_ok d'.
Proof.
  intros Hi Hr. induction Hr as [|d d1 d2 [id He] _ IH]; [done|]. intros Hw.
  apply IH; [by eapply effect_inv|by eapply effect_windows].
Qed.

Lemma windows_sublist d d' :
  inv d → events d' `sublist_of` events d → windows_ok d → windows_ok d'.
Proof.
  intros Hi Hs Hw id. eapply window_sublist; [|by apply rows_sublist|by apply Hw].
  pose proof (inv_bytes d Hi) as Hb. rewrite Forall_forall in Hb |- *.
  intros x [_ Hx]%list_elem_of_filter. by apply Hb.
Qed.

Lemma outcome_windows K d d' : inv d → outcome hmac sha256 cfg K d d' → windows_ok d → windows_ok d'.
Proof.
  intros Hi Ho Hw. destruct Ho as [d' Ex Ev Hi'|clk d1 d' Hs Ex Hsub Hi' _|c id userId input key ip r d' Hcr Hi'].
  - intros id. rewrite Ev. apply Hw.
  - eapply (windows_sublist d1); [exact (effects_inv _ _ _ Hi Hs)|done|exact (effects_windows _ _ _ Hi Hs Hw)].
  - destruct Hcr as (version & round & f & _ & _ & _ & _ & _ & Hnew & _ & _ & _ & _ & _ & ->).
    intros j. cbn [events]. eapply (window_append d); [done|done|done| |apply byteLength_nonneg|done].
    rewrite fmap_app. apply NoDup_app. split_and!; [by apply (inv_keys _ Hi)| |apply NoDup_singleton].
    intros k (x & -> & Hx)%list_elem_of_fmap E%list_elem_of_singleton.
    destruct (inv_events _ Hi x Hx) as (e' & _ & He & _). unfold ev_key, event_row in E. cbn in E.
    injection E as E1 _ _. change (ev_executionId x = id) in E1. rewrite E1 in He. congruence.
Qed.

(** The replay log is bounded in every reachable database: no execution ever holds more than
    256 stored events or more than 256 KiB of them, however much output its runs produce. *)
Lemma reachable_window d0 d :
  no_jobs d0 → reachable stripVT hmac sha256 cfg d0 d → windows_ok d.
Proof.
  intros H0 Hr. assert (inv d0 ∧ windows_ok d0) as Hd.
  { split; [by apply no_jobs_inv|]. destruct H0 as (_ & E & _). intros id. rewrite E. split; [cbn; lia|done]. }
  clear H0. revert Hd. induction Hr as [|d d1 d2 Hs _ IH]; intros [Hi Hw]; [done|].
  destruct (step_outcome _ _ _ _ _ _ Hi Hs) as [K Ho]. apply IH.
  split; [by eapply outcome_inv|by eapply outcome_windows].
Qed.

(** Trimming never loses the event that caused it: after [event] succeeds for the current row
    of an execution, the new event is stored, with the next sequence number. *)
Lemma event_is_stored c row f d z d' :
  inv d → executions d !! e_id row = Some row → event c row f d = Ok (z, d') →
  z = e_lastSequence row + 1 ∧ event_row c row f ∈ events d'.
Proof.
  intros Hi Hrow ((Hok & Hsz & Hfree) & -> & ->)%event_Ok. split; [done|]. cbn [set_events events].
  apply trim_keeps_newest.
  - rewrite fmap_app. apply NoDup_app. split_and!; [by apply (inv_keys _ Hi)| |apply NoDup_singleton].
    intros k Hk ->%list_elem_of_singleton. by apply Hfree.
  - done.
  - cbn [event_row ev_bytes]. unfold REPLAY_BYTES. lia.
  - intros x Hx Eid. destruct (inv_events _ Hi x Hx) as (e & g & He & Ha & Hs & _).
    rewrite Eid in He. simplify_eq. unfold newer_first, event_row, next_seq. cbn. lia.
Qed.
End Retention.

(** ** Replay to a client *)

Section ReplayProtocol.
Context `{Zod}.

Lemma consecutive_seqZ n l : consecutive n l = true ↔ ev_sequence <$> l = seqZ n (Z.of_nat (length l)).
Proof.
  revert n. induction l as [|e l IH]; intros n; [done|]. cbn [consecutive length].
  rewrite seqZ_cons by lia. rewrite fmap_cons, andb_true_iff, Z.eqb_eq, IH.
  replace (Z.pred (Z.of_nat (S (length l)))) with (Z.of_nat (length l)) by lia.
  replace (n + 1) with (Z.succ n) by lia. split; [intros [-> ->]; done|]. by intros [= -> ->].
Qed.

(** What a client may receive as the continuation after [after]. *)
Definition continuation (row : Execution) (publicIds : list uuid) (after : Z)
    (l : list PublicExecutionEvent) : Prop :=
  pe_sequence <$> l = seqZ (after + 1) (e_lastSequence row - after)
  ∧ Forall (λ p, pe_executionId p = e_id row ∧ pe_attempt p = e_attempt row
                 ∧ match pe_fields p with
                   | console_output caseId _ _ => e_mode row = RUN ∧ caseId ∈ publicIds
                   | _ => True
                   end) l.

Lemma replay_safe_parse row publicIds e :
  replay_safe row publicIds e = true →
  ∃ p, publicExecutionEventSchema (ev_payload e) = Some p ∧ pe_sequence p = ev_sequence e
    ∧ pe_executionId p = e_id row ∧ pe_attempt p = e_attempt row
    ∧ match pe_fields p with
      | console_output caseId _ _ => e_mode row = RUN ∧ caseId ∈ publicIds
      | _ => True
      end.
Proof.
  unfold replay_safe. destruct (publicExecutionEventSchema (ev_payload e)) as [p|]; [|done].
  rewrite !andb_true_iff, bool_decide_eq_true, !Z.eqb_eq. intros [[[H1 H2] H3] H4].
  exists p. split_and!; try done. destruct (pe_fields p); try done. by checks.
Qed.

Lemma replay_parse row publicIds rows :
  forallb (replay_safe row publicIds) rows = true →
  let ps := omap (λ e, publicExecutionEventSchema (ev_payload e)) rows in
  pe_sequence <$> ps = ev_sequence <$> rows
  ∧ Forall (λ p, pe_executionId p = e_id row ∧ pe_attempt p = e_attempt row
                 ∧ match pe_fields p with
                   | console_output caseId _ _ => e_mode row = RUN ∧ caseId ∈ publicIds
                   | _ => True
                   end) ps.
Proof.
  induction rows as [|e rows IH]; [done|]. cbn [forallb omap list_omap].
  intros [(p & -> & Hs & Hrest)%replay_safe_parse Ht]%andb_true_iff. destruct (IH Ht) as [IH1 IH2].
  cbn [fmap list_fmap]. split; [|by constructor]. f_equal; [done|apply IH1].
Qed.

(** The public test cases of the pinned version. *)
Definition public_ids (d : db) (row : Execution) : list uuid :=
  jc_id <$> public_cases d (x_problemVersionId (e_req row)).

Lemma publicSnapshot_position row problemId testCases s :
  publicSnapshot row problemId testCases = Ok s →
  es_executionId s = e_id row ∧ es_attempt s = e_attempt row ∧ es_lastSequence s = e_lastSequence row.
Proof.
  unfold publicSnapshot. destruct (e_mode row), (e_publicResults row); try destruct (negb _); by intros [= <-].
Qed.

(** What a successful replay read and answered. *)
Lemma replay_Ok t userId id attempt after d r d' :
  rows_wf d → replay t userId id attempt after d = Ok (r, d') →
  d' = d ∧ ∃ row, executions d !! id = Some row ∧ x_userId (e_req row) = userId
    ∧ es_executionId (rp_snapshot r) = id ∧ es_attempt (rp_snapshot r) = e_attempt row
    ∧ es_lastSequence (rp_snapshot r) = e_lastSequence row
    ∧ (if rp_replayAvailable r
       then attempt = e_attempt row ∧ after ≤ e_lastSequence row
            ∧ continuation row (public_ids d row) after (rp_events r)
       else rp_events r = []).
Proof.
  intros Hwf E. unfold replay in E. rewrite locked_run in E.
  destruct (executions d !! id) as [row|] eqn:Hrow; [|by inv_tx].
  case_bool_decide as Hu; cbn [negb] in E; [|by inv_tx]. inv_tx.
  destruct (problemVersions d !! x_problemVersionId (e_req row)) as [v|] eqn:Hv; [|by inv_tx]. inv_tx.
  set (rows := replay_rows t row after d) in E.
  set (ids := jc_id <$> filter (λ c, jc_visibility c = PUBLIC) (pv_testCases v)) in E.
  destruct (publicSnapshot row (pv_problemId v) (Some ids)) as [snap|] eqn:Esn; [|by inv_tx]. inv_tx.
  split; [done|]. exists row. cbn [rp_snapshot rp_replayAvailable rp_events].
  destruct (publicSnapshot_position _ _ _ _ Esn) as (S1 & S2 & S3). destruct (Hwf _ _ Hrow) as [Hid _].
  split_and!; [done|done|congruence|done|done|].
  assert (public_ids d row = ids) as Eids by (unfold public_ids, public_cases; by rewrite Hv).
  destruct (_ && consecutive (after + 1) rows) eqn:Ec; [|done].
  rewrite !andb_true_iff, !Z.eqb_eq, Z.leb_le in Ec. destruct Ec as [[[[Hsafe ->] Hle] Hlen] Hcons].
  split_and!; try done. destruct (replay_parse _ _ _ Hsafe) as [H1 H2]. rewrite Eids. split; [|done].
  rewrite H1. apply consecutive_seqZ in Hcons. by rewrite Hcons, Hlen.
Qed.

(** Replay is sound.  It only reads, only for the owner, and when it reports the replay as
    available the client was on the current attempt and the events it gets are exactly those with
    sequence numbers from its cursor + 1 to the last one, in order and without gaps, all with the
    execution's identity and with console output of public cases of a RUN only; otherwise no event
    is sent. *)
Lemma replay_sound t userId id attempt after d r d' :
  rows_wf d → replay t userId id attempt after d = Ok (r, d') →
  d' = d ∧ ∃ row, executions d !! id = Some row ∧ x_userId (e_req row) = userId
    ∧ (if rp_replayAvailable r
       then attempt = e_attempt row ∧ after ≤ e_lastSequence row
            ∧ continuation row (public_ids d row) after (rp_events r)
       else rp_events r = []).
Proof.
  intros Hwf E. destruct (replay_Ok _ _ _ _ _ _ _ _ Hwf E) as (Hd & row & H1 & H2 & _ & _ & _ & H3).
  split; [done|]. by exists row.
Qed.

(** The stored, unexpired events after the cursor, in order, when none is missing. *)
Lemma older_first_sorted (l : list EventRow) `{!RelDecision older_first} :
  StronglySorted Z.le (ev_sequence <$> merge_sort older_first l).
Proof.
  eapply StronglySorted_fmap; [|apply StronglySorted_merge_sort].
  - done.
  - intros a b c. unfold older_first. lia.
  - intros a b. unfold older_first. lia.
Qed.

Lemma seqZ_sorted n k : StronglySorted Z.le (seqZ n k).
Proof.
  destruct (decide (0 ≤ k)) as [Hk|Hk]; [|rewrite seqZ_nil by lia; constructor].
  revert n. pattern k. apply natlike_ind; [| |done].
  - intros n. rewrite seqZ_nil by lia. constructor.
  - intros x Hx IH n. rewrite seqZ_cons by lia. replace (Z.pred (Z.succ x)) with x by lia.
    constructor; [apply IH|]. apply Forall_forall. intros y [Hy _]%elem_of_seqZ. lia.
Qed.

Lemma complete_rows t row after d :
  inv d → executions d !! e_id row = Some row → after ≤ e_lastSequence row →
  (∀ s, after < s ≤ e_lastSequence row →
     ∃ r, r ∈ events d ∧ ev_key r = (e_id row, e_attempt row, s) ∧ t < ev_expiresAt r) →
  e_lastSequence row - after ≤ Z.of_nat REPLAY_ROWS →
  ev_sequence <$> replay_rows t row after d = seqZ (after + 1) (e_lastSequence row - after)
  ∧ ∀ r, r ∈ replay_rows t row after d → r ∈ events d ∧ ev_executionId r = e_id row ∧ ev_attempt r = e_attempt row.
Proof.
  intros Hi Hrow Hle Hall Hroom. unfold replay_rows. set (F := filter _ (events d)).
  assert (HF : ∀ r, r ∈ F ↔ r ∈ events d ∧ ev_executionId r = e_id row ∧ ev_attempt r = e_attempt row
                       ∧ after < ev_sequence r ∧ t < ev_expiresAt r).
  { intros r. unfold F. rewrite list_elem_of_filter. tauto. }
  assert (Hnd : NoDup (ev_sequence <$> F)).
  { apply (NoDup_fmap_1 (λ s, (e_id row, e_attempt row, s))). rewrite <- list_fmap_compose.
    replace ((λ s, (e_id row, e_attempt row, s)) ∘ ev_sequence <$> F) with (ev_key <$> F).
    - eapply sublist_NoDup; [by apply (inv_keys _ Hi)|apply fmap_sublist, sublist_filter].
    - apply list_fmap_ext. intros i r Hr%list_elem_of_lookup_2. apply HF in Hr as (_ & E1 & E2 & _).
      cbn. unfold ev_key. by rewrite E1, E2. }
  assert (Hseq : ev_sequence <$> F ≡ₚ seqZ (after + 1) (e_lastSequence row - after)).
  { apply NoDup_Permutation; [done|apply NoDup_seqZ|]. intros s. rewrite elem_of_seqZ, list_elem_of_fmap. split.
    - intros (r & -> & (Hr & E1 & E2 & Hlt & _)%HF).
      destruct (inv_events _ Hi r Hr) as (e & f & He & _ & Hs & _). rewrite E1 in He. simplify_eq. lia.
    - intros Hs. destruct (Hall s ltac:(lia)) as (r & Hr & Ek & Hx). exists r. unfold ev_key in Ek.
      simplify_eq. split; [done|]. apply HF. split_and!; try done. lia. }
  assert (Hsort : ev_sequence <$> merge_sort older_first F = seqZ (after + 1) (e_lastSequence row - after)).
  { apply (StronglySorted_unique Z.le); [apply older_first_sorted|apply seqZ_sorted|].
    by rewrite merge_sort_Permutation. }
  assert (Hlen : length (merge_sort older_first F) = Z.to_nat (e_lastSequence row - after)).
  { by rewrite <- (length_fmap ev_sequence), Hsort, length_seqZ. }
  rewrite take_ge by (rewrite Hlen; lia). split; [done|].
  intros r. rewrite merge_sort_Permutation, HF. tauto.
Qed.

(** Replay is complete: when the owner asks from a cursor of the current attempt and every
    later event is still stored and unexpired, within the window of 256 rows, the replay is
    available (with the events that [replay_sound] describes). *)
Lemma replay_complete t userId id attempt after row v s d :
  inv d → executions d !! id = Some row → x_userId (e_req row) = userId →
  problemVersions d !! x_problemVersionId (e_req row) = Some v →
  publicSnapshot row (pv_problemId v) (Some (public_ids d row)) = Ok s →
  attempt = e_attempt row → after ≤ e_lastSequence row ≤ after + Z.of_nat REPLAY_ROWS →
  (∀ n, after < n ≤ e_lastSequence row →
     ∃ r, r ∈ events d ∧ ev_key r = (id, attempt, n) ∧ t < ev_expiresAt r) →
  ∃ r, replay t userId id attempt after d = Ok (r, d) ∧ rp_replayAvailable r = true.
Proof.
  intros Hi Hrow Hu Hv Hsn -> Hroom Hall. destruct (inv_rows _ Hi _ _ Hrow) as [<- _].
  destruct (complete_rows t row after d) as [Hseq Hrows]; try done; [lia|lia|].
  assert (public_ids d row = jc_id <$> filter (λ c, jc_visibility c = PUBLIC) (pv_testCases v)) as Eids
    by (unfold public_ids, public_cases; by rewrite Hv).
  unfold replay. rewrite locked_run, Hrow, bool_decide_eq_true_2 by done. cbn [negb].
  rewrite (bind_run _ _ _ _ _ eq_refl), Hv, (bind_run _ _ _ _ _ eq_refl). rewrite <- Eids, Hsn.
  eexists. split; [reflexivity|]. cbn [rp_replayAvailable].
  set (rows := replay_rows t row after d) in *.
  assert (Hlen : Z.of_nat (length rows) = e_lastSequence row - after).
  { rewrite <- (length_fmap ev_sequence), Hseq, length_seqZ. lia. }
  rewrite !andb_true_iff, !Z.eqb_eq, Z.leb_le. split_and!; try done; [|lia|].
  - apply forallb_forall. intros r Hr%list_elem_of_In. destruct (Hrows r Hr) as (Hev & Eid & Eat).
    destruct (inv_events _ Hi r Hev) as (e & f & He & _ & _ & _ & Hp & Hok & Hpub).
    rewrite Eid in He. simplify_eq. unfold replay_safe. rewrite Hp, event_parse_print by done. cbn.
    rewrite Eid, Eat, bool_decide_eq_true_2, !Z.eqb_refl by done. cbn. destruct f; try done.
    destruct Hpub as [Hm Hin]. apply andb_true_iff. split; by apply bool_decide_eq_true.
  - apply consecutive_seqZ. by rewrite Hseq, Hlen.
Qed.
End ReplayProtocol.
