(* ===== verification/Channel.v ===== *)
(** * What a client of the realtime channel sees

    The specification of the channel is a receiver that keeps, for every execution, the attempt and
    the sequence number it has reached: an acknowledgement or a synchronisation sets them, an event
    has to be the next one.  The theorem is that the receiver accepts everything [Realtime.v] sends to a
    socket, however commands, polls and disconnections interleave.  The channel is proved against the
    interface [ReplaySource], which [Replay.v] discharges for the job store. *)

From S2P Require Import Prelude JsText Contracts Judge Database Serialization JobStore.
From S2P Require Import JobStoreFacts.
From S2P Require Import Invariant Replay Realtime.
Local Open Scope Z_scope.

(** ** The receiver *)

Abbreviation positions := (gmap uuid (Z * Z)).

Definition receive_event (e : PublicExecutionEvent) (p : positions) : option positions :=
  match p !! pe_executionId e with
  | Some (attempt, n) =>
      if (pe_attempt e =? attempt) && (pe_sequence e =? n + 1)
      then Some (<[pe_executionId e := (attempt, n + 1)]> p) else None
  | None => None
  end.
Fixpoint receive_events (l : list PublicExecutionEvent) (p : positions) : option positions :=
  match l with
  | [] => Some p
  | e :: l' => match receive_event e p with Some p' => receive_events l' p' | None => None end
  end.
(** An acknowledgement puts the client where it said it is, and moves it through the replayed events
    to the position of the snapshot. *)
Definition receive (m : Message) (p : positions) : option positions :=
  match m with
  | ack_error _ => Some p
  | execution_sync s => Some (<[es_executionId s := (es_attempt s, es_lastSequence s)]> p)
  | emitted e => receive_event e p
  | ack_ok q r =>
      let id := cu_executionId q in
      let at_ := (es_attempt (rp_snapshot r), es_lastSequence (rp_snapshot r)) in
      if rp_replayAvailable r then
        match receive_events (rp_events r) (<[id := (cu_attempt q, cu_afterSequence q)]> p) with
        | Some p' => if bool_decide (p' !! id = Some at_) then Some p' else None
        | None => None
        end
      else if bool_decide (rp_events r = []) then Some (<[id := at_]> p) else None
  end.
Fixpoint receive_all (l : list Message) (p : positions) : option positions :=
  match l with
  | [] => Some p
  | m :: l' => match receive m p with Some p' => receive_all l' p' | None => None end
  end.
Definition sent_to (s : nat) (rt : Realtime) : list Message := snd <$> filter (λ w, w.1 = s) (rt_wire rt).

Lemma receive_all_app l k p : receive_all (l ++ k) p = match receive_all l p with Some q => receive_all k q | None => None end.
Proof. revert p. induction l as [|m l IH]; intros p; cbn; [done|]. destruct (receive m p); [apply IH|done]. Qed.

(** ** The interface to the job store *)

(** [replays u id a n r]: the replay for the user [u] after the event [n] of attempt [a] may answer [r]. *)
Class ReplaySource (replays : uuid → uuid → Z → Z → Replay → Prop) : Prop := {
  replays_identity u id a n r : replays u id a n r → es_executionId (rp_snapshot r) = id;
  replays_available u id a n r : replays u id a n r → rp_replayAvailable r = true →
    es_attempt (rp_snapshot r) = a ∧ n ≤ es_lastSequence (rp_snapshot r) ∧
    pe_sequence <$> rp_events r = seqZ (n + 1) (es_lastSequence (rp_snapshot r) - n) ∧
    Forall (λ e, pe_executionId e = id ∧ pe_attempt e = a) (rp_events r);
  replays_unavailable u id a n r : replays u id a n r → rp_replayAvailable r = false → rp_events r = []
}.

(** Consecutive events move the receiver to the last of them. *)
Lemma receive_consecutive id a n m l p :
  n ≤ m → pe_sequence <$> l = seqZ (n + 1) (m - n) → Forall (λ e, pe_executionId e = id ∧ pe_attempt e = a) l →
  p !! id = Some (a, n) → receive_events l p = Some (<[id := (a, m)]> p).
Proof.
  revert n p. induction l as [|e l IH]; intros n p Hnm Hs Hf Hp.
  - destruct (decide (m = n)) as [->|Hne]; [cbn; by rewrite insert_id|].
    rewrite seqZ_cons in Hs by lia. discriminate Hs.
  - destruct (decide (m = n)) as [->|Hne]; [rewrite Z.sub_diag in Hs; discriminate Hs|].
    rewrite seqZ_cons in Hs by lia. injection Hs as He Hs. apply Forall_cons in Hf as [[Hid Ha] Hf].
    cbn. unfold receive_event. rewrite Hid, Hp, Ha, He, !Z.eqb_refl. cbn.
    rewrite (IH (n + 1)); [by rewrite insert_insert_eq|lia| |done|by rewrite lookup_insert_eq].
    by replace (m - (n + 1)) with (Z.pred (m - n)) by lia.
Qed.
Lemma receive_emitted l p : receive_all (emitted <$> l) p = receive_events l p.
Proof. revert p. induction l as [|e l IH]; intros p; cbn; [done|]. destruct (receive_event e p); [apply IH|done]. Qed.

(** ** Runs of the channel *)

Section Channel.
Context `{HZ : Zod} (replays : uuid → uuid → Z → Z → Replay → Prop) `{!ReplaySource replays}.

(** What a replay that a command or a poll awaits may answer. *)
Definition answers (u : uuid) (q : Cursor) (answer : result Replay) : Prop :=
  ∀ r, answer = Ok r → replays u (cu_executionId q) (cu_attempt q) (cu_afterSequence q) r.

Inductive rt_step (rt : Realtime) : Realtime → Prop :=
| st_handshake_begin : rt_step rt (handshake_begin rt).2
| st_handshake_end principal address : rt_step rt (handshake_end principal address rt).2
| st_connect now s userId address :
    rt_clients rt !! s = None → sent_to s rt = [] → rt_step rt (connect now s userId address rt)
| st_disconnect s : rt_step rt (disconnect s rt)
| st_subscribe now input ack s : rt_step rt (subscribe now input ack s rt)
| st_command_resume s : rt_step rt (command_resume s rt)
| st_command_principal principal s : rt_step rt (command_principal principal s rt)
| st_command_replay answer s :
    (∀ c q, rt_clients rt !! s = Some c → cl_command c = Some (ReplayingCommand q) → answers (cl_userId c) q answer) →
    rt_step rt (command_replay answer s rt)
| st_unsubscribe id s : rt_step rt (unsubscribe id s rt)
| st_tick : rt_step rt (tick rt)
| st_poll_next : rt_step rt (poll_next rt)
| st_poll_principal principal s : rt_step rt (poll_principal principal s rt)
| st_poll_replay answer writable s :
    (∀ c q todo, rt_clients rt !! s = Some c → cl_polling c = Some (ReplayingPoll q todo) →
       answers (cl_userId c) q answer) →
    rt_step rt (poll_replay answer writable s rt).

(** ** The invariant *)

(** The message carries nothing but what a replay for [u] answered. *)
Definition shown_to (u : uuid) (m : Message) : Prop :=
  match m with
  | ack_error _ => True
  | ack_ok q r => replays u (cu_executionId q) (cu_attempt q) (cu_afterSequence q) r
  | execution_sync s => ∃ q r, replays u (cu_executionId q) (cu_attempt q) (cu_afterSequence q) r ∧ rp_snapshot r = s
  | emitted e => ∃ q r, replays u (cu_executionId q) (cu_attempt q) (cu_afterSequence q) r ∧ e ∈ rp_events r
  end.

Definition reached (p : positions) (q : Cursor) : Prop :=
  p !! cu_executionId q = Some (cu_attempt q, cu_afterSequence q).
Definition pending (c : Client) : option Cursor :=
  match cl_command c with
  | Some (WaitingPoll q | ResolvingCommand q | ReplayingCommand q) => Some q
  | None => None
  end.
Definition waiting (c : Client) : Prop :=
  match cl_command c with None | Some (WaitingPoll _) => True | Some _ => False end.

Record client_ok (p : positions) (u : uuid) (c : Client) : Prop := {
  ck_user : cl_userId c = u;
  ck_distinct : NoDup (cu_executionId <$> cl_subscriptions c);
  ck_limit : (length (cl_subscriptions c) ≤ 5)%nat;
  ck_reached : Forall (reached p) (cl_subscriptions c);
  ck_exclusive : cl_polling c ≠ None → waiting c;
  ck_polled q todo : cl_polling c = Some (ReplayingPoll q todo) → reached p q;
  ck_room q : pending c = Some q →
    subscribed (cu_executionId q) (cl_subscriptions c) = true ∨ (length (cl_subscriptions c) < 5)%nat
}.
Definition socket_ok (s : nat) (rt : Realtime) (p : positions) (u : uuid) : Prop :=
  receive_all (sent_to s rt) ∅ = Some p ∧ Forall (shown_to u) (sent_to s rt) ∧
  ∀ c, rt_clients rt !! s = Some c → client_ok p u c.
Definition channel_ok (rt : Realtime) : Prop := ∀ s, ∃ p u, socket_ok s rt p u.

Lemma sent_to_send s s' ms w : snd <$> filter (λ w : nat * Message, w.1 = s') (w ++ (pair s <$> ms))
  = (snd <$> filter (λ w, w.1 = s') w) ++ (if decide (s = s') then ms else []).
Proof.
  rewrite filter_app, fmap_app. f_equal. case_decide as E.
  - subst. rewrite filter_all_in; [|by intros ? (m & -> & _)%list_elem_of_fmap].
    rewrite <- list_fmap_compose. apply list_fmap_id.
  - rewrite filter_none_in; [done|]. intros ? (m & -> & _)%list_elem_of_fmap. done.
Qed.

(** A step that concerns one socket and sends it [ms]. *)
Lemma channel_update rt rt' s ms :
  channel_ok rt → (∀ s', s' ≠ s → rt_clients rt' !! s' = rt_clients rt !! s') →
  rt_wire rt' = rt_wire rt ++ (pair s <$> ms) →
  (∀ p u, socket_ok s rt p u →
     ∃ p', receive_all ms p = Some p' ∧ Forall (shown_to u) ms ∧ ∀ c, rt_clients rt' !! s = Some c → client_ok p' u c) →
  channel_ok rt'.
Proof.
  intros Hok Hother Hw Hs s'. destruct (Hok s') as (p & u & H). destruct (decide (s' = s)) as [->|Hne].
  - destruct (Hs p u H) as (p' & Hp' & Hm & Hc). destruct H as (H1 & H2 & _). exists p', u.
    unfold socket_ok, sent_to in *. rewrite Hw, sent_to_send, decide_True, receive_all_app, H1 by done.
    split_and!; [done|by apply Forall_app|done].
  - destruct H as (H1 & H2 & H3). exists p, u. unfold socket_ok, sent_to in *.
    rewrite Hw, sent_to_send, decide_False, app_nil_r by congruence. rewrite Hother by done. done.
Qed.
(** A step that sends nothing. *)
Lemma channel_silent rt rt' s :
  channel_ok rt → (∀ s', s' ≠ s → rt_clients rt' !! s' = rt_clients rt !! s') → rt_wire rt' = rt_wire rt →
  (∀ p u, (∀ c, rt_clients rt !! s = Some c → client_ok p u c) → ∀ c, rt_clients rt' !! s = Some c → client_ok p u c) →
  channel_ok rt'.
Proof.
  intros Hok Hother Hw Hs. apply (channel_update rt rt' s []); [done|done|by rewrite app_nil_r|].
  intros p u (_ & _ & H3). exists p. split_and!; [done|by constructor|by apply Hs].
Qed.

(** ** Subscriptions *)

Lemma subscribed_true id l : subscribed id l = true ↔ id ∈ cu_executionId <$> l.
Proof.
  unfold subscribed. rewrite existsb_exists, list_elem_of_fmap. split.
  - intros (c & Hc%list_elem_of_In & E%bool_decide_eq_true). by exists c.
  - intros (c & -> & Hc). exists c. split; [by apply list_elem_of_In|]. by apply bool_decide_eq_true.
Qed.
Lemma replace_ids q (l : list Cursor) :
  cu_executionId <$> ((λ c, if bool_decide (cu_executionId c = cu_executionId q) then q else c) <$> l)
  = cu_executionId <$> l.
Proof. rewrite <- list_fmap_compose. apply list_fmap_ext. intros _ c _. cbn. by case_bool_decide. Qed.

Lemma advance_ids q l : cu_executionId <$> advance q l = cu_executionId <$> l.
Proof. apply replace_ids. Qed.
Lemma length_advance q l : length (advance q l) = length l.
Proof. apply length_fmap. Qed.

(** The receiver after its position for [q]'s execution has been set to [q]. *)
Lemma replace_reached p q (l : list Cursor) :
  Forall (reached p) l →
  Forall (reached (<[cu_executionId q := (cu_attempt q, cu_afterSequence q)]> p))
    ((λ c, if bool_decide (cu_executionId c = cu_executionId q) then q else c) <$> l).
Proof.
  rewrite !Forall_forall. intros Hl c (x & -> & Hx)%list_elem_of_fmap. unfold reached.
  case_bool_decide as E; [by rewrite lookup_insert_eq|]. rewrite lookup_insert_ne by congruence. by apply Hl.
Qed.
Lemma advance_ok p q l :
  NoDup (cu_executionId <$> l) → (length l ≤ 5)%nat → Forall (reached p) l →
  let l' := advance q l in
  NoDup (cu_executionId <$> l') ∧ (length l' ≤ 5)%nat ∧
  Forall (reached (<[cu_executionId q := (cu_attempt q, cu_afterSequence q)]> p)) l' ∧
  ∀ id, subscribed id l = true ∨ (length l < 5)%nat → subscribed id l' = true ∨ (length l' < 5)%nat.
Proof.
  intros Hn Hlen Hp. cbn zeta. rewrite advance_ids, length_advance. split_and!; [done|done|by apply replace_reached|].
  intros id [Hs|]; [left|by right]. apply subscribed_true. rewrite advance_ids. by apply subscribed_true.
Qed.
Lemma map_set_ok p q l :
  NoDup (cu_executionId <$> l) → (length l ≤ 5)%nat → Forall (reached p) l →
  subscribed (cu_executionId q) l = true ∨ (length l < 5)%nat →
  let l' := map_set q l in
  NoDup (cu_executionId <$> l') ∧ (length l' ≤ 5)%nat ∧
  Forall (reached (<[cu_executionId q := (cu_attempt q, cu_afterSequence q)]> p)) l'.
Proof.
  intros Hn Hlen Hp Hroom. unfold map_set. destruct (subscribed (cu_executionId q) l) eqn:E.
  - rewrite replace_ids, length_fmap. split_and!; [done|done|by apply replace_reached].
  - destruct Hroom as [?|Hroom]; [done|].
    assert (cu_executionId q ∉ cu_executionId <$> l) as Hq by (intros Hi; apply subscribed_true in Hi; congruence).
    rewrite fmap_app, length_app. cbn. split_and!; [|lia|].
    + apply NoDup_app. split_and!; [done| |apply NoDup_singleton]. intros x Hx ->%list_elem_of_singleton. done.
    + apply Forall_app. split; [|constructor; [unfold reached; by rewrite lookup_insert_eq|constructor]].
      rewrite Forall_forall in *. intros c Hc. unfold reached. rewrite lookup_insert_ne; [by apply Hp|].
      intros E'. apply Hq. rewrite E'. apply list_elem_of_fmap. by exists c.
Qed.
Lemma map_delete_ok p id l :
  NoDup (cu_executionId <$> l) → Forall (reached p) l →
  NoDup (cu_executionId <$> map_delete id l) ∧ Forall (reached p) (map_delete id l).
Proof.
  intros Hn Hp. split.
  - eapply sublist_NoDup; [exact Hn|]. apply fmap_sublist, sublist_filter.
  - rewrite Forall_forall in *. intros c [_ Hc]%list_elem_of_filter. by apply Hp.
Qed.
Lemma map_delete_room id i l :
  (length l ≤ 5)%nat → subscribed i l = true ∨ (length l < 5)%nat →
  subscribed i (map_delete id l) = true ∨ (length (map_delete id l) < 5)%nat.
Proof.
  intros Hl Hr. pose proof (length_filter (λ c, cu_executionId c ≠ id) l). unfold map_delete in *.
  destruct (decide (i = id)) as [->|Hne]; [|destruct Hr as [Hr|Hr]; [left|right; lia]].
  - right. destruct Hr as [(c & E & Hc)%subscribed_true%list_elem_of_fmap|]; [|lia].
    pose proof (length_filter_lt (λ c, cu_executionId c ≠ id) l c Hc ltac:(by intros [])). lia.
  - apply subscribed_true in Hr. apply subscribed_true. apply list_elem_of_fmap in Hr as (c & -> & Hc).
    apply list_elem_of_fmap. exists c. split; [done|]. by apply list_elem_of_filter.
Qed.

Lemma next_cursor_Some todo l q todo' : next_cursor todo l = Some (ReplayingPoll q todo') → q ∈ l.
Proof.
  induction todo as [|id todo IH]; cbn; [done|]. destruct (list_find _ l) as [[i c]|] eqn:E; [|done].
  intros [= -> ->]. apply list_find_Some in E as (Hi & _). by eapply list_elem_of_lookup_2.
Qed.

(** ** Changes of one client *)

Lemma client_rate p u c n w : client_ok p u c → client_ok p u (set_rate n w c).
Proof. intros []. by split. Qed.
Lemma client_idle p u c : client_ok p u c → client_ok p u (set_command None c).
Proof. intros []. split; try done. Qed.
Lemma client_wait p u c q :
  cl_command c = None →
  subscribed (cu_executionId q) (cl_subscriptions c) = true ∨ (length (cl_subscriptions c) < 5)%nat →
  client_ok p u c → client_ok p u (set_command (Some (WaitingPoll q)) c).
Proof. intros Hk Hr []. split; try done. by intros ? [= <-]. Qed.
Lemma client_command p u c q k :
  cl_polling c = None → pending c = Some q → pending (set_command (Some k) c) = Some q →
  client_ok p u c → client_ok p u (set_command (Some k) c).
Proof.
  intros Hp Hq Hk [H1 H2 H3 H4 H5 H6 H7]. split; try done.
  rewrite Hk. intros ? [= <-]. by apply H7.
Qed.
Lemma client_poll p u c : cl_command c = None → client_ok p u c → client_ok p u (set_polling (Some ResolvingPoll) c).
Proof. intros Hk [H1 H2 H3 H4 H5 H6 H7]. split; try done. intros _. unfold waiting. cbn. by rewrite Hk. Qed.
Lemma client_iterate p u c todo :
  waiting c → client_ok p u c → client_ok p u (set_polling (next_cursor todo (cl_subscriptions c)) c).
Proof.
  intros Hw [H1 H2 H3 H4 H5 H6 H7]. split; try done. cbn. intros q todo' Hn%next_cursor_Some.
  rewrite Forall_forall in H4. by apply H4.
Qed.
Lemma client_unsubscribe p u c id :
  client_ok p u c → client_ok p u (set_subscriptions (map_delete id (cl_subscriptions c)) c).
Proof.
  intros [H1 H2 H3 H4 H5 H6 H7]. destruct (map_delete_ok p id _ H2 H4) as [Hn Hf]. split; try done; cbn.
  - etransitivity; [apply length_filter|done].
  - intros q Hq. apply map_delete_room; [done|]. by apply H7.
Qed.

(** ** The steps *)

Lemma channel_same rt rt' :
  channel_ok rt → rt_clients rt' = rt_clients rt → rt_wire rt' = rt_wire rt → channel_ok rt'.
Proof. intros Hok Hc Hw s. unfold socket_ok, sent_to in *. rewrite Hc, Hw. apply (Hok s). Qed.
Lemma channel_disconnect s rt : channel_ok rt → channel_ok (disconnect s rt).
Proof.
  intros Hok. apply (channel_silent rt _ s); [done| |done|]; cbn.
  - intros s' Hne. by apply lookup_delete_ne.
  - intros p u _ c. by rewrite lookup_delete_eq.
Qed.
Lemma channel_connect now s userId address rt :
  rt_clients rt !! s = None → sent_to s rt = [] → channel_ok rt → channel_ok (connect now s userId address rt).
Proof.
  intros _ Hsent Hok s'. destruct (decide (s' = s)) as [->|Hne].
  - exists ∅, userId. unfold socket_ok. change (sent_to s (connect now s userId address rt)) with (sent_to s rt).
    rewrite Hsent. split_and!; [done|by constructor|]. cbn. intros c. rewrite lookup_insert_eq. intros [= <-].
    split; cbn; try done; try constructor. lia.
  - destruct (Hok s') as (p & u & H1 & H2 & H3). exists p, u. split_and!; [done|done|]. cbn.
    by rewrite lookup_insert_ne by done.
Qed.

(** The client [c] of [s] becomes [c'], and is sent [ms]. *)
Lemma channel_put s c c' ms rt :
  rt_clients rt !! s = Some c → channel_ok rt →
  (∀ p u, Forall (shown_to u) (sent_to s rt) → client_ok p u c →
     ∃ p', receive_all ms p = Some p' ∧ Forall (shown_to u) ms ∧ client_ok p' u c') →
  channel_ok (send s ms (put_client s c' rt)).
Proof.
  intros Hc Hok Hs. apply (channel_update rt _ s ms); [done| |done|]; cbn.
  - intros s' Hne. by rewrite lookup_insert_ne.
  - intros p u (_ & H2 & H3). destruct (Hs p u H2 (H3 c Hc)) as (p' & Hp & Hm & Hok'). exists p'.
    split_and!; [done|done|]. intros x. rewrite lookup_insert_eq. by intros [= <-].
Qed.
Lemma channel_put_silent s c c' rt :
  rt_clients rt !! s = Some c → channel_ok rt → (∀ p u, client_ok p u c → client_ok p u c') →
  channel_ok (put_client s c' rt).
Proof.
  intros Hc Hok Hs. apply (channel_silent rt _ s); [done| |done|]; cbn.
  - intros s' Hne. by rewrite lookup_insert_ne.
  - intros p u H3 x. rewrite lookup_insert_eq. intros [= <-]. apply Hs. by apply H3.
Qed.
Lemma channel_put_error s c c' code rt :
  rt_clients rt !! s = Some c → channel_ok rt → (∀ p u, client_ok p u c → client_ok p u c') →
  channel_ok (send s [ack_error code] (put_client s c' rt)).
Proof.
  intros Hc Hok Hs. apply (channel_put s c); [done|done|]. intros p u _ H3. exists p.
  split_and!; [done|by repeat constructor|by apply Hs].
Qed.

Lemma channel_subscribe now input ack s rt : channel_ok rt → channel_ok (subscribe now input ack s rt).
Proof.
  intros Hok. unfold subscribe. destruct (rt_clients rt !! s) as [c0|] eqn:Ec; [|done].
  destruct ack; cbn [negb]; [|by apply channel_disconnect].
  set (c1 := if 60000 <=? now - cl_window c0 then _ else _). set (c := set_rate _ _ c1).
  assert (Hc : ∀ p u, client_ok p u c0 → client_ok p u c).
  { intros p u H. apply client_rate. subst c1. destruct (_ <=? _); [by apply client_rate|done]. }
  destruct (_ || _) eqn:Eb; [by apply (channel_put_error s c0)|]. apply orb_false_iff in Eb as [_ Eb].
  destruct (executionSubscriptionSchema input) as [q|]; [|by apply (channel_put_error s c0)].
  destruct (negb _ && _) eqn:El; [by apply (channel_put_error s c0)|].
  apply (channel_put_silent s c0); [done|done|]. intros p u H. apply client_wait; [| |by apply Hc].
  - unfold commandBusy in Eb. apply bool_decide_eq_false in Eb. by apply eq_None_not_Some.
  - apply andb_false_iff in El as [El|El]; [left; by apply negb_false_iff|right; by apply Nat.leb_gt].
Qed.

Lemma channel_command_resume s rt : channel_ok rt → channel_ok (command_resume s rt).
Proof.
  intros Hok. unfold command_resume. destruct (rt_clients rt !! s) as [c|] eqn:Ec; [|done].
  destruct (cl_command c) as [[q| |]|] eqn:Ek; try done. destruct (cl_polling c) eqn:Ep; [done|].
  apply (channel_put_silent s c); [done|done|]. intros p u. apply (client_command _ _ _ q); [done| |done].
  unfold pending. by rewrite Ek.
Qed.

(** Past the wait for the poll, a command has its client for itself. *)
Lemma command_alone p u c : client_ok p u c → ¬ waiting c → cl_polling c = None.
Proof.
  intros Hok Hw. destruct (cl_polling c) eqn:E; [|done]. destruct Hw. apply (ck_exclusive _ _ _ Hok). by rewrite E.
Qed.

Lemma channel_command_principal principal s rt : channel_ok rt → channel_ok (command_principal principal s rt).
Proof.
  intros Hok. unfold command_principal. destruct (rt_clients rt !! s) as [c|] eqn:Ec; [|done].
  destruct (cl_command c) as [[|q|]|] eqn:Ek; try done. destruct principal as [o|e].
  - destruct (bool_decide _); [|by apply channel_disconnect]. apply (channel_put_silent s c); [done|done|].
    intros p u H. apply (client_command _ _ _ q); [|by unfold pending; rewrite Ek|done|done].
    apply (command_alone p u c H). unfold waiting. rewrite Ek. tauto.
  - apply (channel_put_error s c); [done|done|]. intros p u. apply client_idle.
Qed.

(** What the receiver makes of a replay. *)
Lemma receive_ack u q r p :
  replays u (cu_executionId q) (cu_attempt q) (cu_afterSequence q) r →
  let at_ := cursor_of (cu_executionId q) r in
  receive (ack_ok q r) p = Some (<[cu_executionId q := (cu_attempt at_, cu_afterSequence at_)]> p).
Proof.
  intros Hr. cbn. destruct (rp_replayAvailable r) eqn:Ea.
  - destruct (replays_available _ _ _ _ _ Hr Ea) as (Hat & Hle & Hs & Hf).
    rewrite (receive_consecutive (cu_executionId q) (cu_attempt q) (cu_afterSequence q) (es_lastSequence (rp_snapshot r)));
      [|done..|by rewrite lookup_insert_eq].
    by rewrite insert_insert_eq, lookup_insert_eq, Hat, bool_decide_eq_true_2.
  - by rewrite (replays_unavailable _ _ _ _ _ Hr Ea), bool_decide_eq_true_2.
Qed.
Lemma receive_poll u q r p :
  replays u (cu_executionId q) (cu_attempt q) (cu_afterSequence q) r → reached p q →
  let at_ := cursor_of (cu_executionId q) r in
  receive_all (if negb (rp_replayAvailable r) then [execution_sync (rp_snapshot r)] else emitted <$> rp_events r) p
  = Some (<[cu_executionId q := (cu_attempt at_, cu_afterSequence at_)]> p).
Proof.
  intros Hr Hp. destruct (rp_replayAvailable r) eqn:Ea; cbn.
  - destruct (replays_available _ _ _ _ _ Hr Ea) as (Hat & Hle & Hs & Hf).
    rewrite receive_emitted, Hat. by apply (receive_consecutive _ _ (cu_afterSequence q)).
  - by rewrite (replays_identity _ _ _ _ _ Hr).
Qed.

Lemma channel_command_replay answer s rt :
  (∀ c q, rt_clients rt !! s = Some c → cl_command c = Some (ReplayingCommand q) → answers (cl_userId c) q answer) →
  channel_ok rt → channel_ok (command_replay answer s rt).
Proof.
  intros Hans Hok. unfold command_replay. destruct (rt_clients rt !! s) as [c|] eqn:Ec; [|done].
  destruct (cl_command c) as [[| |q]|] eqn:Ek; try done. destruct answer as [r|e].
  2: { apply (channel_put_error s c); [done|done|]. intros p u. apply client_idle. }
  apply (channel_put s c); [done|done|]. intros p u _ H.
  pose proof (Hans c q eq_refl Ek r eq_refl) as Hr. rewrite (ck_user _ _ _ H) in Hr.
  assert (Hpoll : cl_polling c = None) by (apply (command_alone p u c H); unfold waiting; rewrite Ek; tauto).
  destruct H as [H1 H2 H3 H4 H5 H6 H7].
  destruct (map_set_ok p (cursor_of (cu_executionId q) r) (cl_subscriptions c) H2 H3 H4) as (N1 & N2 & N3).
  { apply (H7 q). unfold pending. by rewrite Ek. }
  eexists. split_and!; [cbn [receive_all]; by rewrite (receive_ack u q r p Hr)|by constructor|].
  split; cbn [cl_userId cl_subscriptions cl_polling cl_command set_command set_subscriptions]; try done.
  intros q' todo. by rewrite Hpoll.
Qed.

Lemma channel_poll_replay answer writable s rt :
  (∀ c q todo, rt_clients rt !! s = Some c → cl_polling c = Some (ReplayingPoll q todo) →
     answers (cl_userId c) q answer) →
  channel_ok rt → channel_ok (poll_replay answer writable s rt).
Proof.
  intros Hans Hok. unfold poll_replay. destruct (rt_clients rt !! s) as [c|] eqn:Ec; [|done].
  destruct (cl_polling c) as [[|q todo]|] eqn:Ek; try done.
  destruct answer as [r|e]; [|by apply channel_disconnect].
  destruct writable; cbn [negb]; [|by apply channel_disconnect].
  apply (channel_put s c); [done|done|]. intros p u _ H.
  pose proof (Hans c q todo eq_refl Ek r eq_refl) as Hr. rewrite (ck_user _ _ _ H) in Hr.
  assert (Hw : waiting c) by (apply (ck_exclusive _ _ _ H); by rewrite Ek).
  eexists. split_and!; [by apply (receive_poll u), (ck_polled _ _ _ H q todo)| |].
  - destruct (rp_replayAvailable r); cbn.
    + apply Forall_forall. intros m (e & -> & He)%list_elem_of_fmap. by exists q, r.
    + repeat constructor. by exists q, r.
  - apply (client_iterate _ _ (set_subscriptions _ (set_polling None c))); [done|]. destruct H as [H1 H2 H3 H4 H5 H6 H7].
    destruct (advance_ok p (cursor_of (cu_executionId q) r) (cl_subscriptions c) H2 H3 H4) as (N1 & N2 & N3 & N4).
    split; try done. intros q' Hq'. by apply N4, H7.
Qed.

Lemma channel_poll_principal principal s rt : channel_ok rt → channel_ok (poll_principal principal s rt).
Proof.
  intros Hok. unfold poll_principal. destruct (rt_clients rt !! s) as [c|] eqn:Ec; [|done].
  destruct (cl_polling c) as [[|]|] eqn:Ek; try done. destruct (bool_decide _); [|by apply channel_disconnect].
  apply (channel_put_silent s c); [done|done|]. intros p u H. apply client_iterate; [|done].
  apply (ck_exclusive _ _ _ H). by rewrite Ek.
Qed.
Lemma channel_poll_next rt : channel_ok rt → channel_ok (poll_next rt).
Proof.
  intros Hok. unfold poll_next. destruct (polling_someone rt); [done|].
  destruct (rt_round rt) as [[|s rest]|]; [by apply (channel_same rt)| |done].
  assert (Hok' : channel_ok (set_round (Some rest) rt)) by by apply (channel_same rt).
  destruct (rt_clients rt !! s) as [c|] eqn:Ec; [|done]. destruct (commandBusy c) eqn:Eb; [done|].
  apply (channel_put_silent s c); [done|done|]. intros p u. apply client_poll.
  apply bool_decide_eq_false in Eb. by apply eq_None_not_Some.
Qed.
Lemma channel_unsubscribe id s rt : channel_ok rt → channel_ok (unsubscribe id s rt).
Proof.
  intros Hok. unfold unsubscribe. destruct (rt_clients rt !! s) as [c|] eqn:Ec; [|done].
  apply (channel_put_silent s c); [done|done|]. intros p u. apply client_unsubscribe.
Qed.

Lemma channel_step rt rt' : rt_step rt rt' → channel_ok rt → channel_ok rt'.
Proof.
  intros [] Hok; auto using channel_connect, channel_disconnect, channel_subscribe, channel_command_resume,
    channel_command_principal, channel_command_replay, channel_unsubscribe, channel_poll_next, channel_poll_principal,
    channel_poll_replay.
  - unfold handshake_begin. destruct (_ <=? _); [done|by apply (channel_same rt)].
  - unfold handshake_end. destruct principal as [[u|]|]; [destruct (_ || _)|..]; by apply (channel_same rt).
  - unfold tick. destruct (rt_round rt); [done|by apply (channel_same rt)].
Qed.

Lemma channel_start : channel_ok no_clients.
Proof.
  intros s. exists ∅, []. split_and!; [done|by constructor|]. intros c Hc.
  change ((∅ : gmap nat Client) !! s = Some c) in Hc. by rewrite lookup_empty in Hc.
Qed.

(** C20: the channel.  Whatever commands, polls, unsubscriptions, connections and disconnections
    interleave, the receiver accepts all that is sent to a socket: between an acknowledgement or
    synchronisation and the next one, a client gets the events of an execution one by one in order,
    none twice and none left out.  Everything comes from replays for the user whose session opened the
    socket, and a socket keeps at most five subscriptions, each at the position its client has reached. *)
Theorem channel_exact rt s :
  rtc rt_step no_clients rt →
  ∃ p u, receive_all (sent_to s rt) ∅ = Some p ∧ Forall (shown_to u) (sent_to s rt) ∧
    ∀ c, rt_clients rt !! s = Some c →
      cl_userId c = u ∧ (length (cl_subscriptions c) ≤ 5)%nat ∧ NoDup (cu_executionId <$> cl_subscriptions c) ∧
      Forall (reached p) (cl_subscriptions c) ∧ (cl_polling c ≠ None → waiting c).
Proof.
  intros Hrun. pose proof channel_start as Hok.
  assert (H : channel_ok rt) by (induction Hrun as [|? ? ? Hs _ IH]; [done|by apply IH, (channel_step _ _ Hs)]).
  destruct (H s) as (p & u & H1 & H2 & H3). exists p, u. split_and!; [done|done|].
  intros c Hc. by destruct (H3 c Hc).
Qed.
End Channel.

(** ** The channel over the job store *)

Section JobStoreChannel.
Context `{HZ : Zod}.

(** A replay of the job store, in some database and at some time. *)
Definition job_replays (u id : uuid) (a n : Z) (r : Replay) : Prop :=
  ∃ t d d', rows_wf d ∧ replay t u id a n d = Ok (r, d').

#[export] Instance job_replay_source : ReplaySource job_replays.
Proof.
  split.
  - intros u id a n r (t & d & d' & Hwf & H). by destruct (replay_Ok _ _ _ _ _ _ _ _ Hwf H) as (_ & row & _ & _ & ? & _).
  - intros u id a n r (t & d & d' & Hwf & H) Ha.
    destruct (replay_Ok _ _ _ _ _ _ _ _ Hwf H) as (_ & row & Hrow & _ & _ & Hat & Hlast & Hr).
    rewrite Ha in Hr. destruct Hr as (-> & Hle & Hs & Hf). rewrite Hat, Hlast. split_and!; [done|done|done|].
    destruct (Hwf _ _ Hrow) as [Hid _]. eapply Forall_impl; [exact Hf|]. cbn. intros e (E1 & E2 & _). by rewrite E1, E2, Hid.
  - intros u id a n r (t & d & d' & Hwf & H) Ha.
    destruct (replay_Ok _ _ _ _ _ _ _ _ Hwf H) as (_ & row & _ & _ & _ & _ & _ & Hr). by rewrite Ha in Hr.
Qed.

(** Every event sent to a socket belongs to an execution of the socket's user, and console output only
    to public cases of a RUN. *)
Lemma channel_private rt s e :
  rtc (rt_step job_replays) no_clients rt → emitted e ∈ sent_to s rt →
  ∃ u d row, executions d !! pe_executionId e = Some row ∧ x_userId (e_req row) = u ∧
    (∀ c, rt_clients rt !! s = Some c → cl_userId c = u) ∧
    match pe_fields e with
    | console_output caseId _ _ => e_mode row = RUN ∧ caseId ∈ public_ids d row
    | _ => True
    end.
Proof.
  intros Hrun He. assert (H : channel_ok job_replays rt).
  { assert (Hok : channel_ok job_replays no_clients) by apply channel_start.
    induction Hrun as [|? ? ? Hs _ IH]; [done|by apply IH, (channel_step _ _ _ Hs)]. }
  destruct (H s) as (p & u & _ & Hsh & Hc). rewrite Forall_forall in Hsh.
  destruct (Hsh _ He) as (q & r & (t & d & d' & Hwf & Hr) & Hin).
  destruct (replay_Ok _ _ _ _ _ _ _ _ Hwf Hr) as (_ & row & Hrow & Hu & _ & _ & _ & Hev).
  destruct (rp_replayAvailable r); [|rewrite Hev in Hin; by apply elem_of_nil in Hin].
  destruct Hev as (_ & _ & _ & Hf). rewrite Forall_forall in Hf. destruct (Hf e Hin) as (E1 & _ & E2).
  destruct (Hwf _ _ Hrow) as [Hid _]. exists u, d, row. split_and!; [by rewrite E1, Hid|done| |done].
  intros c Hcl. by destruct (Hc c Hcl).
Qed.
End JobStoreChannel.
