(* ===== verification/Creation.v ===== *)
(** * Creation: idempotency and the transactional outbox

    A retried creation returns the execution of the first one, whatever happened in between; a
    reused key with other content is refused; a new job is committed together with its first
    public event, its dispatch intent and its quota charges. *)

From S2P Require Import Prelude JsText Contracts Judge Database Serialization JobStore Lifecycle.
From S2P Require Import JobStoreFacts Invariant Sizes Progress Admission Executions ExecutionsFacts.
From S2P Require Import Pipeline Safety Replay.
Local Open Scope Z_scope.

Section Creation.
Context `{Zod} (stripVT : jsstr → jsstr) (hmac : jsstr → jsstr → jsstr) (sha256 : jsstr → jsstr).
Context (cfg : ConfigValues).
Abbreviation create := (create hmac sha256).
Abbreviation reachable := (reachable stripVT hmac sha256 cfg).

(** An execution keeps its request for ever. *)
Lemma reachable_request d d' id e :
  inv d → reachable d d' → executions d !! id = Some e →
  ∃ e', executions d' !! id = Some e' ∧ e_req e' = e_req e.
Proof.
  intros Hi Hr. revert e. induction Hr as [d|d d1 d2 Hs _ IH]; intros e He; [by exists e|].
  destruct (step_outcome _ _ _ _ _ _ Hi Hs) as [K Ho].
  destruct (outcome_row _ _ _ _ _ _ _ _ Ho He) as (e1 & He1 & Hch).
  destruct (IH ltac:(by eapply outcome_inv) e1 He1) as (e2 & He2 & Hr2).
  exists e2. split; [done|]. rewrite Hr2. destruct Hch as [-> | (c & _ & Hst)]; [done|by eapply step_req].
Qed.

(** The execution a successful creation answers with. *)
Lemma create_receipt c id userId input key ip d r d' :
  inv d → create cfg c id userId input key ip d = Ok (r, d') →
  inv d' ∧ ∃ e, executions d' !! rc_executionId r = Some e ∧ e_id e = rc_executionId r
    ∧ x_userId (e_req e) = userId ∧ x_idempotencyKey (e_req e) = key
    ∧ x_payloadHash (e_req e) = payloadHash sha256 input.
Proof.
  intros Hi E. apply create_Ok in E as (_ & [(p & Hp & Hh & -> & ->) | Hcr]).
  - split; [done|]. apply find_idempotent_Some in Hp as (i & Hp & Hu & Hk).
    destruct (inv_rows _ Hi _ _ Hp) as [<- _]. by exists p.
  - split; [by eapply created_inv|].
    destruct Hcr as (version & round & f & -> & _ & _ & _ & _ & Hnew & _ & _ & _ & _ & _ & ->).
    cbn [rc_executionId executions]. eexists. rewrite lookup_insert_eq. by split_and!.
Qed.

Lemma find_idempotent_row u k d id e :
  inv d → executions d !! id = Some e → x_userId (e_req e) = u → x_idempotencyKey (e_req e) = k →
  find_idempotent u k d = Some e.
Proof.
  intros Hi He Hu Hk. destruct (find_idempotent u k d) as [p|] eqn:Ef.
  - apply find_idempotent_Some in Ef as (i & Hp & Hpu & Hpk).
    assert (i = id) as -> by (eapply (inv_idem _ Hi); try done; congruence). congruence.
  - exfalso. by eapply find_idempotent_None.
Qed.

(** C6: creation is idempotent.  After a successful creation, and after any further transactions
    by anyone, repeating the request with the same key and content answers with the same execution
    and its present state, and changes nothing. *)
Theorem create_idempotent c id userId input key ip d r d1 d2 c' id' ip' :
  inv d → create cfg c id userId input key ip d = Ok (r, d1) → reachable d1 d2 →
  ∃ e, executions d2 !! rc_executionId r = Some e
    ∧ create cfg c' id' userId input key ip' d2
      = Ok (mkReceipt (rc_executionId r) (e_state e) None, d2).
Proof.
  intros Hi E Hr. pose proof (create_Ok _ _ _ _ _ _ _ _ _ _ _ _ E) as [Hen _].
  destruct (create_receipt _ _ _ _ _ _ _ _ _ Hi E) as (Hi1 & e & He & Hid & Hu & Hk & Hh).
  destruct (reachable_request _ _ _ _ Hi1 Hr He) as (e2 & He2 & Hreq).
  assert (inv d2) as Hi2 by by eapply reachable_from_inv.
  exists e2. split; [done|]. unfold Executions.create. rewrite Hen. cbn [negb].
  rewrite (bind_run _ _ _ _ _ eq_refl), (find_idempotent_row userId key d2 (rc_executionId r) e2); try done;
    [|by rewrite Hreq..].
  rewrite Hreq, Hh, bool_decide_eq_true_2 by done. cbn [negb].
  unfold e_id in *. by rewrite Hreq, Hid.
Qed.

(** C7: a key is never reused for other content.  Provided SHA-256 does not collide, a creation
    with the key of an earlier one but a different problem, language, mode, source or competition is
    refused with IDEMPOTENCY_CONFLICT. *)
Theorem create_conflict c id userId input key ip d r d1 d2 c' id' ip' input' :
  (∀ x y, sha256 x = sha256 y → x = y) →
  inv d → create cfg c id userId input key ip d = Ok (r, d1) → reachable d1 d2 →
  input_units input → input_units input' → input' ≠ input →
  create cfg c' id' userId input' key ip' d2 = Err (api 409 "IDEMPOTENCY_CONFLICT").
Proof.
  intros Hsha Hi E Hr Hin Hin' Hne. pose proof (create_Ok _ _ _ _ _ _ _ _ _ _ _ _ E) as [Hen _].
  destruct (create_receipt _ _ _ _ _ _ _ _ _ Hi E) as (Hi1 & e & He & Hid & Hu & Hk & Hh).
  destruct (reachable_request _ _ _ _ Hi1 Hr He) as (e2 & He2 & Hreq).
  assert (inv d2) as Hi2 by by eapply reachable_from_inv.
  unfold Executions.create. rewrite Hen. cbn [negb].
  rewrite (bind_run _ _ _ _ _ eq_refl), (find_idempotent_row userId key d2 (rc_executionId r) e2); try done;
    [|by rewrite Hreq..].
  rewrite Hreq, Hh, bool_decide_eq_false_2; [done|].
  intros Eh%Hsha. by apply payload_text_inj in Eh.
Qed.

(** The event of an execution that has no other is kept. *)
Lemma trim_first d er :
  inv d → executions d !! ev_executionId er = None → ev_bytes er ≤ REPLAY_BYTES →
  trim (ev_executionId er) (events d ++ [er]) = events d ++ [er].
Proof.
  intros Hi Hfresh Hb. unfold trim.
  assert (rows_of (ev_executionId er) (events d) = []) as Hnone.
  { apply elem_of_nil_inv. intros x [Ex Hx]%list_elem_of_filter.
    destruct (inv_events _ Hi x Hx) as (e' & _ & He & _). rewrite Ex in He. congruence. }
  assert (rows_of (ev_executionId er) (events d ++ [er]) = [er]) as ->.
  { unfold rows_of in *. rewrite filter_app, Hnone, filter_cons_True by done. done. }
  change (merge_sort newer_first [er]) with [er]. cbn [discard_loop]. rewrite Z.add_0_l.
  change (REPLAY_ROWS <=? 0)%nat with false. rewrite (proj2 (Z.ltb_ge _ _)) by done. cbn [orb app fmap list_fmap].
  apply filter_all_in. intros x _ ?%elem_of_nil. done.
Qed.

(** C8: a new job is committed as a whole.  One row is added: QUEUED, with the published current
    version pinned, the round of its competition, the submitted source, the payload hash and the queue
    deadline; its first event, public, with sequence 1 and the state QUEUED, and its dispatch intent are
    appended; and (when the three quota keys are distinct) each of the global, address and user
    counters of the current minute grew by one and is within its limit.  Nothing else is changed: no other
    execution, event, intent or counter, no notification, and nothing of the other tables. *)
Theorem create_commits c id userId input key ip d r d' :
  inv d → create cfg c id userId input key ip d = Ok (r, d') → executions d !! id = None →
  rc_executionId r = id → NoDup (charged_keys hmac cfg (t_adm c / 60000) userId ip) →
  ∃ version round,
    let first := event_json (mkEvent id 0 1 (execution_status QUEUED None)) in
    published_version (ce_problemId input) d = Some version ∧ round_of (t_comp c) userId input d = Ok (round, d)
    ∧ executions d' =
        <[id := mkExecution
            (mkRequest id userId version round (ce_language input) (ce_mode input) (ce_sourceCode input)
               (sha256 (stringify (hash_json input))) key (insNow (t_row c)) (t_queue c + QUEUE_TTL_SECONDS cfg * 1000))
            QUEUED None 0 1 None None None None None None None None]> (executions d)
    ∧ events d' = events d ++ [mkEventRow id 0 1 k_execution_status first (byteLength (stringify first))
                                 (evNow (t_row c) + 10 * 60 * 1000)]
    ∧ outbox d' = outbox d ++ [mkOutboxRow id EXECUTION_CREATED 0 (insNow (t_row c)) None None None (insNow (t_row c)) 0]
    ∧ (∀ scope limit, (scope, limit) ∈ scopes cfg userId ip →
         let k := executionRateKey hmac (EXECUTION_RATE_LIMIT_KEY cfg) (t_adm c / 60000) scope in
         rate_count d' k = rate_count d k + 1 ∧ rate_count d' k ≤ limit)
    ∧ (∀ k, k ∉ charged_keys hmac cfg (t_adm c / 60000) userId ip → rateLimits d' !! k = rateLimits d !! k)
    ∧ notifications d' = notifications d ∧ problemVersions d' = problemVersions d ∧ problems d' = problems d
    ∧ users d' = users d ∧ competitions d' = competitions d.
Proof.
  intros Hi E Hfresh Hid Hnd. apply create_Ok in E as (_ & [(p & Hp & Hh & -> & ->) | Hcr]).
  { apply find_idempotent_Some in Hp as (i & Hp & _). destruct (inv_rows _ Hi _ _ Hp) as [<- _].
    cbn in Hid. congruence. }
  destruct Hcr as (version & round & f & -> & _ & _ & _ & [Hv Hr] & Hnew & _ & _ & _ & Hsz & (d1 & Hres & <-) & ->).
  exists version, round. destruct (reserve_Ok _ _ _ _ _ _ _ _ _ Hnd Hres) as (_ & _ & Hch & Hrest).
  split_and!; try done. set (er := event_row _ _ _). cbn [events].
  change id with (ev_executionId er). rewrite trim_first; [done|done|done|].
  cbn [er event_row ev_bytes]. unfold REPLAY_BYTES. lia.
Qed.
End Creation.
