(* ===== verification/Queue.v ===== *)
(** * The queue ([apps/api/src/executions/queue.ts])

    The dispatcher that turns outbox intents into queue jobs, and the worker that processes a
    job: claim, run the backend, report the result, or hand the job back. *)

From S2P Require Import Prelude JsText Contracts Judge Io Database Serialization JobStore.
Local Open Scope Z_scope.

(** ** The outbox dispatcher *)

Record QueueJob := mkQueueJob { qj_id : jsstr; qj_executionId : uuid }.
#[export] Instance QueueJob_eq_dec : EqDecision QueueJob. Proof. solve_decision. Defined.

(** [exec-<id>-g<generation>]. *)
Definition job_id (o : OutboxRow) : jsstr :=
  js "exec-" ++ o_executionId o ++ js "-g" ++ js (pretty (o_generation o)).
Definition job_of (o : OutboxRow) : QueueJob := mkQueueJob (job_id o) (o_executionId o).

(** [publishedAt IS NULL AND nextDispatchAt <= t AND (dispatchExpiresAt IS NULL OR <= t)]. *)
Definition due (t : Z) (o : OutboxRow) : bool :=
  bool_decide (o_publishedAt o = None) && (o_nextDispatchAt o <=? t)
  && match o_dispatchExpiresAt o with None => true | Some x => x <=? t end.

Definition older_first (a b : OutboxRow) : Prop := o_createdAt a ≤ o_createdAt b.
#[export] Instance older_first_dec : RelDecision older_first.
Proof. intros a b. unfold older_first. apply _. Defined.

Definition with_dispatch (token : option uuid) (expires : option Z) (attempts : Z) (next : Z)
    (published : option Z) (o : OutboxRow) : OutboxRow :=
  mkOutboxRow (o_executionId o) (o_kind o) (o_generation o) (o_createdAt o) published token expires
    next attempts.

(** The row a dispatcher holds after claiming [o] at time [t]. *)
Definition claimed_row (token : uuid) (t : Z) (o : OutboxRow) : OutboxRow :=
  with_dispatch (Some token) (Some (t + 10000)) (o_dispatchAttempts o + 1) (o_nextDispatchAt o)
    (o_publishedAt o) o.

Abbreviation okey := (uuid * OutboxKind * Z)%type.

(** The UPDATE ... RETURNING of one selected row, at its own clock reading. *)
Definition claim_row (token : uuid) (clk : okey → Z) (k : okey) : tx db (list OutboxRow) :=
  l ← gets outbox;
  let t := clk k in
  let hit o := bool_decide (o_key o = k) && due t o in
  _ ← modify (set_outbox (fmap (λ o, if hit o then claimed_row token t o else o)));
  mret (claimed_row token t <$> filter (λ o, hit o = true) l).

Fixpoint claim_rows (token : uuid) (clk : okey → Z) (ks : list okey) : tx db (list OutboxRow) :=
  match ks with
  | [] => mret []
  | k :: ks' => updated ← claim_row token clk k; rest ← claim_rows token clk ks'; mret (updated ++ rest)
  end.

(** The claiming transaction: up to 20 due rows that no other dispatcher has locked. *)
Definition claim_intents (token : uuid) (t : Z) (clk : okey → Z) (busy : OutboxRow → bool) :
    tx db (list OutboxRow) :=
  l ← gets outbox;
  claim_rows token clk
    (o_key <$> take 20 (merge_sort older_first (filter (λ o, due t o && negb (busy o) = true) l))).

(** Whether the execution of an intent still needs its job. *)
Definition needs_job (t : Z) (o : OutboxRow) (e : Execution) : bool :=
  (bool_decide (e_state e = QUEUED) && (t <? e_queueExpiresAt e))
  || ((bool_decide (e_state e = COMPILING) || bool_decide (e_state e = RUNNING))
      && bool_decide (o_kind o = EXECUTION_RECOVERY) && (o_generation o =? e_attempt e)).

Definition announces (o : OutboxRow) : bool :=
  bool_decide (o_kind o = EXECUTION_CREATED) || bool_decide (o_kind o = EXECUTION_RECOVERY).

(** [nextDispatchAt = now + min(30000, 1000 * 2 ** min(attempts, 5))]. *)
Definition backoff (attempts : Z) : Z := Z.min 30000 (1000 * 2 ^ Z.min attempts 5).

(** The clock readings of one dispatch. *)
Record DispatchClock := mkDispatchClock { dk_check : Z; dk_publish : Z; dk_backoff : Z }.

(** The database and the jobs the queue service has accepted. *)
Record Broker := mkBroker { br_db : db; br_jobs : list QueueJob }.
Definition set_db (f : db → db) (b : Broker) : Broker := mkBroker (f (br_db b)) (br_jobs b).

Section Dispatcher.
(** [Queue.add] of BullMQ: the jobs after adding one, or [None] when it throws. *)
Context (queue_add : list QueueJob → QueueJob → option (list QueueJob)).

Definition add_job (j : QueueJob) : io Broker unit := λ b,
  match queue_add (br_jobs b) j with
  | Some jobs => (Ok tt, mkBroker (br_db b) jobs)
  | None => (Err (JsError "QUEUE_UNAVAILABLE"), b)
  end.

Definition publish_row (token : uuid) (t : Z) (k : okey) (o : OutboxRow) : OutboxRow :=
  if bool_decide (o_key o = k) && bool_decide (o_dispatchToken o = Some token)
     && match o_dispatchExpiresAt o with Some x => t <? x | None => false end
  then with_dispatch None None (o_dispatchAttempts o) (o_nextDispatchAt o) (Some t) o else o.
Definition release_row (token : uuid) (next : Z) (k : okey) (o : OutboxRow) : OutboxRow :=
  if bool_decide (o_key o = k) && bool_decide (o_dispatchToken o = Some token)
  then with_dispatch None None (o_dispatchAttempts o) next (o_publishedAt o) o else o.

Definition dispatch_one (token : uuid) (clk : okey → DispatchClock) (o : OutboxRow) : io Broker unit :=
  let t := clk (o_key o) in
  catch
    (_ ← (if announces o then
            execution ← ask (λ b, executions (br_db b) !! o_executionId o);
            if match execution with Some e => needs_job (dk_check t) o e | None => false end
            then add_job (job_of o) else mret tt
          else mret tt);
     update (set_db (set_outbox (fmap (publish_row token (dk_publish t) (o_key o))))))
    (λ _, update (set_db (set_outbox (fmap
            (release_row token (dk_backoff t + backoff (o_dispatchAttempts o)) (o_key o)))))).

Definition on_db {A} (m : tx db A) : io Broker A := λ b,
  let '(r, d) := transaction m (br_db b) in (r, mkBroker d (br_jobs b)).

Definition dispatcher_tick (token : uuid) (t : Z) (clk : okey → Z) (busy : OutboxRow → bool)
    (dclk : okey → DispatchClock) : io Broker nat :=
  intents ← on_db (claim_intents token t clk busy);
  _ ← io_each (dispatch_one token dclk) intents;
  mret (length intents).

(** The timer of [QueuePipeline]: reconcile, then dispatch; a failure is logged and the next
    tick tries again. *)
Definition pipeline_tick `{Zod} (mc : MaintainClocks) (mbusy : uuid → bool)
    (mbusyOutbox : OutboxRow → bool) (token : uuid) (t : Z) (clk : okey → Z)
    (busy : OutboxRow → bool) (dclk : okey → DispatchClock) : io Broker unit :=
  catch (_ ← on_db (maintain mc mbusy mbusyOutbox);
         _ ← dispatcher_tick token t clk busy dclk; mret tt) (λ _, mret tt).
End Dispatcher.

(** ** The worker *)

(** [recoverableRunnerFailure]: the runner client's own errors. *)
Definition recoverable_codes : list string :=
  ["RUNNER_CAPACITY"; "DUPLICATE_ATTEMPT"; "EXECUTION_UNAVAILABLE"]%string.
Definition recoverableRunnerFailure (e : error) : bool :=
  match e with
  | RunnerExecutionError code => existsb (String.eqb code) recoverable_codes
  | _ => false
  end.

(** The clock readings of the three transactions of a job. *)
Record JobClocks := mkJobClocks { jk_claim : Clock; jk_finish : Clock; jk_end : Clock }.

Section Worker.
Context `{Zod} (stripVT : jsstr → jsstr) {W : Type}.

Definition lift {A} (m : tx db A) : io (db * W) A := λ s,
  let '(r, d) := transaction m s.1 in (r, (d, s.2)).

(** What the backend is given: the lease stands for the callbacks bound to it. *)
Abbreviation ExecutionBackend := (Lease → Execution → io (db * W) JudgedResult).

(** The [catch] clause: hand a recoverable failure back, end the job on any other. *)
Definition settle_failure (c : Clock) (lease : Lease) (e : error) : io (db * W) unit :=
  if recoverableRunnerFailure e then _ ← lift (recover c lease); mret tt
  else _ ← lift (fail c lease (negb (bool_decide (e = SandboxCleanupError)))); mret tt.

Definition run_claimed (k : JobClocks) (backend : ExecutionBackend) (lease : Lease)
    (execution : Execution) : io (db * W) unit :=
  catch (result ← backend lease execution; _ ← lift (finish stripVT (jk_finish k) lease result); mret tt)
        (settle_failure (jk_end k) lease).

(** The processor of [startExecutionWorker]; [token] is the fresh lease token of [claim]. *)
Definition process_job (k : JobClocks) (backend : ExecutionBackend) (token executionId : uuid) :
    io (db * W) unit :=
  _ ← raise_when (negb (z_uuid executionId)) ZodError;
  claimed ← lift (claim (jk_claim k) token executionId);
  match claimed with
  | None => mret tt
  | Some (lease, execution) => run_claimed k backend lease execution
  end.
End Worker.

(** * Dispatching is at least once

    An intent is marked as published only after the queue accepted its job, or when its
    execution no longer needs one. *)


Section Dispatch.
Context (queue_add : list QueueJob → QueueJob → option (list QueueJob)).
(** BullMQ: adding keeps the other jobs, and a job with the identifier exists afterwards (a
    second job with an identifier that is known is ignored). *)
Hypothesis add_accepts : ∀ q j q', queue_add q j = Some q' → ∃ j', j' ∈ q' ∧ qj_id j' = qj_id j.
Hypothesis add_keeps : ∀ q j q', queue_add q j = Some q' → q ⊆ q'.

(** The job of the intent is queued, or its execution needs none at the time of the check. *)
Definition justified (clk : okey → DispatchClock) (d : db) (jobs : list QueueJob) (o : OutboxRow) : Prop :=
  announces o = true →
  (∀ e, executions d !! o_executionId o = Some e → needs_job (dk_check (clk (o_key o))) o e = false) ∨
  ∃ j, j ∈ jobs ∧ qj_id j = job_id o.

Lemma justified_key clk d jobs o o' :
  o_key o' = o_key o → justified clk d jobs o → justified clk d jobs o'.
Proof.
  unfold o_key. intros [= E1 E2 E3] Hj. unfold justified, announces, needs_job, job_id, o_key in *.
  by rewrite E1, E2, E3.
Qed.
Lemma justified_jobs clk d jobs jobs' o :
  jobs ⊆ jobs' → justified clk d jobs o → justified clk d jobs' o.
Proof. intros Hs Hj Ha. destruct (Hj Ha) as [?|(j & Hin & E)]; [by left|right; eauto]. Qed.

(** Only the outbox changes, and a row that is published now was published before or is
    justified. *)
Definition sound (clk : okey → DispatchClock) (b0 b : Broker) : Prop :=
  br_db b = set_outbox (λ _, outbox (br_db b)) (br_db b0) ∧ br_jobs b0 ⊆ br_jobs b ∧
  ∀ o, o ∈ outbox (br_db b) → o_publishedAt o ≠ None →
    (∃ o0, o0 ∈ outbox (br_db b0) ∧ o_key o0 = o_key o ∧ o_publishedAt o0 ≠ None) ∨
    justified clk (br_db b0) (br_jobs b) o.

#[local] Instance sound_preorder clk : PreOrder (sound clk).
Proof.
  split.
  - intros b. split_and!; [by destruct b as [[] ?]|done|]. intros o Ho Hp. left. eauto.
  - intros b1 b2 b3 (E12 & J12 & P12) (E23 & J23 & P23). split_and!.
    + rewrite E23, E12. done.
    + etrans; eassumption.
    + intros o Ho Hp. destruct (P23 o Ho Hp) as [(o2 & Ho2 & Ek & Hp2)|Hj].
      * destruct (P12 o2 Ho2 Hp2) as [(o1 & ? & ? & ?)|Hj]; [left; exists o1; split_and!; congruence|].
        right. eapply justified_jobs, justified_key; [exact J23|symmetry; exact Ek|exact Hj].
      * right. rewrite E12 in Hj. exact Hj.
Qed.

(** Updating rows without publishing any. *)
Lemma sound_map clk b (f : OutboxRow → OutboxRow) :
  (∀ o, o_key (f o) = o_key o) →
  (∀ o, o_publishedAt (f o) ≠ None → o_publishedAt o ≠ None ∨ justified clk (br_db b) (br_jobs b) (f o)) →
  sound clk b (set_db (set_outbox (fmap f)) b).
Proof.
  intros Hk Hp. split_and!; [done|done|]. intros o Ho Hpub. cbn in Ho.
  apply list_elem_of_fmap in Ho as (o0 & -> & Ho0). destruct (Hp o0 Hpub) as [?|Hj]; [left|by right].
  exists o0. split_and!; [done|by rewrite Hk|done].
Qed.

Lemma on_db_run {A} (m : tx db A) b : (on_db m b).2 = mkBroker (transaction m (br_db b)).2 (br_jobs b).
Proof. unfold on_db. by destruct (transaction m (br_db b)). Qed.

Lemma claim_rows_sound token clk dclk ks d l d' jobs :
  claim_rows token clk ks d = Ok (l, d') → sound dclk (mkBroker d jobs) (mkBroker d' jobs).
Proof.
  revert d l. induction ks as [|k ks IH]; intros d l; cbn [claim_rows].
  { intros [_ ->]%mret_Ok. reflexivity. }
  intros (u & d1 & H1 & H2)%bind_Ok. apply bind_Ok in H2 as (r & d2 & H2 & [_ ->]%mret_Ok).
  etrans; [|by eapply IH]. unfold claim_row in H1. inv_tx.
  apply (sound_map dclk (mkBroker d jobs)).
  - intros o. by destruct (_ && _).
  - intros o. destruct (_ && _); auto.
Qed.

Lemma dispatch_one_sound token clk o : respects (sound clk) (dispatch_one queue_add token clk o).
Proof.
  intros b. unfold dispatch_one, catch.
  set (attempt := if announces o then _ else _).
  assert (sound clk b (attempt b).2 ∧ ((attempt b).1 = Ok tt → justified clk (br_db b) (br_jobs (attempt b).2) o)) as [Hs Hj].
  { unfold attempt, justified. destruct (announces o); [|split; [reflexivity|done]].
    unfold mbind, io_bind, ask. destruct (executions (br_db b) !! o_executionId o) as [e|];
      [|split; [reflexivity|intros _ _; by left]].
    destruct (needs_job _ o e) eqn:En; [|split; [reflexivity|intros _ _; left; by intros ? [= <-]]].
    unfold add_job. destruct (queue_add (br_jobs b) (job_of o)) as [jobs|] eqn:Eq; cbn; [|split; [reflexivity|done]].
    split; [|intros _ _; right; by apply add_accepts in Eq].
    split_and!; [by destruct b as [[] ?]|by eapply add_keeps|]. intros o' Ho' Hp. left. eauto. }
  unfold mbind, io_bind. destruct (attempt b) as [[[]|e] b1]; cbn in Hs, Hj |- *.
  - etrans; [exact Hs|]. apply sound_map.
    + intros o'. unfold publish_row. by destruct (_ && _).
    + intros o'. unfold publish_row. destruct (bool_decide_reflect (o_key o' = o_key o)) as [Ek|]; [|auto].
      destruct (_ && _); [|auto]. intros _. right. destruct Hs as (E & _ & _). rewrite E.
      apply (justified_key _ _ _ o); [done|]. exact (Hj eq_refl).
  - etrans; [exact Hs|]. apply sound_map.
    + intros o'. unfold release_row. by destruct (_ && _).
    + intros o'. unfold release_row. destruct (_ && _); auto.
Qed.

(** C23: no intent is lost between the outbox and the queue.  After a tick of the dispatcher,
    every outbox row that is marked published was published before, or the queue holds the job
    of its execution and generation, or the execution needed no job when the dispatcher looked;
    the tick changes nothing in the database but the outbox, whatever the queue does. *)
Theorem dispatch_at_least_once token t clk busy dclk b :
  let b' := (dispatcher_tick queue_add token t clk busy dclk b).2 in
  br_db b' = set_outbox (λ _, outbox (br_db b')) (br_db b) ∧
  ∀ o, o ∈ outbox (br_db b') → o_publishedAt o ≠ None → announces o = true →
    (∃ o0, o0 ∈ outbox (br_db b) ∧ o_key o0 = o_key o ∧ o_publishedAt o0 ≠ None) ∨
    (∃ j, j ∈ br_jobs b' ∧ qj_id j = job_id o) ∨
    (∀ e, executions (br_db b) !! o_executionId o = Some e → needs_job (dk_check (dclk (o_key o))) o e = false).
Proof.
  assert (respects (sound dclk) (dispatcher_tick queue_add token t clk busy dclk)) as Hr.
  { unfold dispatcher_tick. apply respects_bind; [apply _| |intros l].
    - intros b'. rewrite on_db_run. unfold transaction.
      destruct (claim_intents _ _ _ _ _) as [[l d']|e] eqn:E; cbn; [|by destruct b'; reflexivity].
      destruct b' as [d jobs]. unfold claim_intents in E. inv_tx. by eapply claim_rows_sound.
    - apply respects_bind; [apply _| |intros; apply respects_ret, _].
      apply respects_each; [apply _|]. apply dispatch_one_sound. }
  destruct (Hr b) as (E & _ & Hp). split; [exact E|]. intros o Ho Hpub Ha.
  destruct (Hp o Ho Hpub) as [?|Hj]; [by left|]. right. destruct (Hj Ha); auto.
Qed.
End Dispatch.
