(* ===== verification/Worker.v ===== *)
(** * The worker never abandons a job

    However the backend of a claimed job ends, the job ends or is handed back while its lease
    is valid.  Beside the backend the worker renews the lease every second: the processor as a machine,
    its heartbeat, its report and every other transaction of the pipeline interleaved. *)

From S2P Require Import Prelude JsText Contracts Judge Io Database Serialization JobStore Lifecycle.
From S2P Require Import JobStoreFacts Invariant Sizes Progress Admission Executions ExecutionsFacts.
From S2P Require Import Pipeline Outcomes Queue.
Local Open Scope Z_scope.

Section Worker.
Context `{Zod} (stripVT : jsstr → jsstr) {W : Type}.
Context (uuid_length : ∀ s, z_uuid s = true → length s = 36%nat ∧ Forall unit_ok s).

(** The execution has ended, or its lease is given up and an unpublished recovery intent of its
    attempt is in the outbox. *)
Definition job_over (c : Clock) (id : uuid) (d : db) : Prop :=
  ∃ row, executions d !! id = Some row ∧
    (isTerminal (e_state row) = true ∨
     e_leaseExpiresAt row = Some (now c) ∧
     ∃ o, o ∈ outbox d ∧ o_key o = (id, EXECUTION_RECOVERY, e_attempt row) ∧ o_publishedAt o = None).

Lemma settled_over c row input id d d' :
  executions d' = <[id := settled stripVT c row input]> (executions d) → job_over c id d'.
Proof.
  intros E. eexists. rewrite E, lookup_insert_eq. split; [done|]. left. unfold settled.
  by destruct (e_cancellationRequestedAt row).
Qed.
Lemma failed_over c row b id d d' :
  executions d' = <[id := failed c row b]> (executions d) → job_over c id d'.
Proof.
  intros E. eexists. rewrite E, lookup_insert_eq. split; [done|]. left. unfold failed.
  by destruct (e_cancellationRequestedAt row), b.
Qed.

Lemma outbox_upsert_has r f l :
  (∀ o, o_key (f o) = o_key o ∧ o_publishedAt (f o) = None) → o_publishedAt r = None →
  ∃ o, o ∈ (if outbox_has (o_key r) l
            then (λ o, if bool_decide (o_key o = o_key r) then f o else o) <$> l else l ++ [r]) ∧
       o_key o = o_key r ∧ o_publishedAt o = None.
Proof.
  intros Hf Hr. destruct (outbox_has (o_key r) l) eqn:E.
  - unfold outbox_has in E. apply existsb_exists in E as (o & Ho%list_elem_of_In & Ek).
    apply bool_decide_eq_true in Ek. exists (f o). destruct (Hf o) as [Hk Hp]. split_and!; [|congruence|done].
    apply list_elem_of_fmap. exists o. by rewrite bool_decide_eq_true_2.
  - exists r. split_and!; [|done|done]. apply elem_of_app. right. by left.
Qed.

Lemma recover_run c lease row d :
  inv d → seq_room d → clock_ok c →
  executions d !! l_executionId lease = Some row → valid (now c) row lease = true →
  ∃ d', recover c lease d = Ok (true, d') ∧ job_over c (l_executionId lease) d'.
Proof.
  intros Hi Hroom Hc Hrow Hv. pose proof Hv as Ha. apply valid_authorised in Ha as (Ha & _).
  destruct (inv_rows _ Hi _ _ Hrow) as [Hid Hok]. pose proof (Hroom _ _ Hrow) as Hrm. rewrite <- Hid in *.
  unfold recover. rewrite locked_run, <- Hid, Hrow, Hv. cbn [negb].
  destruct (bool_decide_reflect (is_Some (e_cancellationRequestedAt row))) as [Hcan|Hcan].
  { destruct (terminal_run uuid_length c row T_CANCELLED None d) as (d1 & E1 & Ex1); try done.
    { by apply rs_worker_cancelled. }
    exists d1. rewrite (bind_run _ _ _ _ _ E1). split; [done|].
    eexists. rewrite Ex1, lookup_insert_eq. split; [done|by left]. }
  destruct (MAX_ATTEMPTS <=? e_attempt row).
  { destruct (terminal_run uuid_length c row T_INTERNAL_ERROR (Some JOB_FAILURE) d) as (d1 & E1 & Ex1); try done.
    { by apply rs_worker_failed; auto. }
    exists d1. rewrite (bind_run _ _ _ _ _ E1). split; [done|].
    eexists. rewrite Ex1, lookup_insert_eq. split; [done|by left]. }
  destruct (update_same c row (data_lease (now c)) d) as [d1 E1]; try done;
    [by apply rs_release|cbn; intros E; by apply authorised_not_finished in Ha|].
  rewrite (bind_run _ _ _ _ _ E1). apply execution_update_Ok in E1 as (o & Ho & -> & _ & _ & ->).
  assert (o = row) as -> by (cbn in *; congruence).
  eexists. split; [reflexivity|]. exists (data_lease (now c) row). cbn. rewrite lookup_insert_eq.
  split; [done|]. right. split; [done|].
  apply (outbox_upsert_has (new_outbox (e_id row) EXECUTION_RECOVERY (e_attempt row) (insNow c))); done.
Qed.

(** C9: a worker never abandons a claimed job.  Whatever the backend did and however it ended
    (a result of any shape, any exception), as long as the lease is still valid when the worker
    reports, processing succeeds and afterwards the execution has ended, or its lease is given
    up and an unpublished recovery intent will have it dispatched again. *)
Theorem job_never_abandoned k backend lease execution s r s1 row :
  backend lease execution s = (r, s1) →
  inv s1.1 → seq_room s1.1 → clock_ok (jk_finish k) → clock_ok (jk_end k) →
  executions s1.1 !! l_executionId lease = Some row →
  valid (now (jk_finish k)) row lease = true → valid (now (jk_end k)) row lease = true →
  ∃ s', run_claimed (W := W) stripVT k backend lease execution s = (Ok tt, s') ∧
    (job_over (jk_finish k) (l_executionId lease) s'.1 ∨ job_over (jk_end k) (l_executionId lease) s'.1).
Proof.
  intros Hb Hi Hroom Hcf Hce Hrow Hvf Hve.
  assert (∀ e, ∃ s', settle_failure (jk_end k) lease e s1 = (Ok tt, s') ∧
                     job_over (jk_end k) (l_executionId lease) s'.1) as Hend.
  { intros e. unfold settle_failure. destruct (recoverableRunnerFailure e).
    - destruct (recover_run (jk_end k) lease row s1.1) as (d' & E & Ho); try done.
      exists (d', s1.2). split; [|done]. unfold mbind, io_bind, lift, transaction. by rewrite E.
    - destruct (fail_run uuid_length (jk_end k) lease (negb (bool_decide (e = SandboxCleanupError))) row s1.1)
        as (d' & E & Ex); try done.
      exists (d', s1.2). split; [|by eapply failed_over]. unfold mbind, io_bind, lift, transaction. by rewrite E. }
  unfold run_claimed, catch. unfold mbind at 1, io_bind at 1. rewrite Hb.
  destruct r as [result|e]; [|destruct (Hend e) as (s' & E & ?); eauto].
  unfold mbind, io_bind, lift, transaction.
  destruct (finish stripVT (jk_finish k) lease result s1.1) as [[b d']|e] eqn:Ef.
  - exists (d', s1.2). split; [done|]. left.
    apply (finish_returned _ _ _ _ row) in Ef as [_ Ex]; [by eapply settled_over|done..].
  - destruct (Hend e) as (s' & E & ?). exists s'. split; [|by right]. by destruct s1.
Qed.
End Worker.

(** ** The processor and its heartbeat *)

(** Where the processor of a claimed job stands: the backend runs, its result or its failure is to be
    reported, or [finally] waits for a heartbeat under way. *)
Inductive Phase :=
| Working
| Reporting (result : JudgedResult)
| Failing (e : error)
| Draining (r : result unit)
| Processed (r : result unit).
(** The database, the abort signal, whether a heartbeat is pending, and the phase. *)
Record Shift := mkShift { sh_db : db; sh_aborted : bool; sh_pending : bool; sh_phase : Phase }.

Inductive ShiftEvent :=
| Tick
| Beat (c : Clock)
| Returns (r : result JudgedResult)
| Report (c : Clock)
| Finally
| Elsewhere (o : op).

Section Shift.
Context `{Zod} (stripVT : jsstr → jsstr) (hmac : jsstr → jsstr → jsstr) (sha256 : jsstr → jsstr).
Context (cfg : ConfigValues) (lease : Lease).

(** The interval is cleared when [finally] begins. *)
Definition timer_runs (p : Phase) : bool :=
  match p with Draining _ | Processed _ => false | _ => true end.
(** [heartbeat]: anything but an active lease aborts. *)
Definition heartbeat (c : Clock) (s : Shift) : Shift :=
  let '(r, d) := transaction (renew c lease) (sh_db s) in
  mkShift d (sh_aborted s || negb (match r with Ok ACTIVE => true | _ => false end)) false (sh_phase s).
(** What [catch] does with a failure. *)
Definition report_failure (c : Clock) (e : error) : tx db unit :=
  if recoverableRunnerFailure e then void (recover c lease)
  else void (fail c lease (negb (bool_decide (e = SandboxCleanupError)))).

Definition shift_step (s : Shift) (e : ShiftEvent) : Shift :=
  match e, sh_phase s with
  | Tick, p => if timer_runs p && negb (sh_pending s) then mkShift (sh_db s) (sh_aborted s) true p else s
  | Beat c, _ => if sh_pending s then heartbeat c s else s
  | Returns (Ok result), Working => mkShift (sh_db s) (sh_aborted s) (sh_pending s) (Reporting result)
  | Returns (Err e), Working => mkShift (sh_db s) (sh_aborted s) (sh_pending s) (Failing e)
  | Report c, Reporting result =>
      let '(r, d) := transaction (finish stripVT c lease result) (sh_db s) in
      mkShift d (sh_aborted s) (sh_pending s) (match r with Ok _ => Draining (Ok tt) | Err e => Failing e end)
  | Report c, Failing e =>
      let '(r, d) := transaction (report_failure c e) (sh_db s) in
      mkShift d (sh_aborted s) (sh_pending s) (Draining r)
  | Finally, Draining r => if sh_pending s then s else mkShift (sh_db s) (sh_aborted s) false (Processed r)
  | Elsewhere o, p => mkShift (run stripVT hmac sha256 cfg o (sh_db s)) (sh_aborted s) (sh_pending s) p
  | _, _ => s
  end.
Definition shift_run : Shift → list ShiftEvent → Shift := foldl shift_step.
Definition shift0 (d : db) : Shift := mkShift d false false Working.

(** Every step is a transaction of the pipeline or leaves the database alone. *)
Lemma void_transaction {A} (m : tx db A) d : (transaction (void m) d).2 = (transaction m d).2.
Proof. unfold transaction, void, fmap, tx_fmap. by destruct (m d) as [[]|]. Qed.
Lemma shift_step_db s e :
  sh_db (shift_step s e) = sh_db s ∨ ∃ o, sh_db (shift_step s e) = run stripVT hmac sha256 cfg o (sh_db s).
Proof.
  unfold run. destruct e as [|c|[result|e]|c| |o]; cbn [shift_step].
  - left. by destruct (_ && _).
  - destruct (sh_pending s); [|by left]. right. exists (OpRenew c lease). unfold heartbeat. cbn [body].
    rewrite void_transaction. by destruct (transaction _ _).
  - left. by destruct (sh_phase s).
  - left. by destruct (sh_phase s).
  - destruct (sh_phase s) as [|result|e|r|r]; [by left| | |by left|by left]; right.
    + exists (OpFinish c lease result). cbn [body]. rewrite void_transaction. by destruct (transaction _ _).
    + unfold report_failure. destruct (recoverableRunnerFailure e).
      * exists (OpRecover c lease). cbn [body]. by destruct (transaction _ _).
      * exists (OpFail c lease (negb (bool_decide (e = SandboxCleanupError)))). cbn [body]. by destruct (transaction _ _).
  - left. destruct (sh_phase s); try done. by destruct (sh_pending s).
  - right. by exists o.
Qed.
(** So what holds of every reachable database holds while a worker is on shift. *)
Lemma shift_reachable d es : reachable stripVT hmac sha256 cfg d (sh_db (shift_run (shift0 d) es)).
Proof.
  assert (∀ s, reachable stripVT hmac sha256 cfg d (sh_db s) →
    reachable stripVT hmac sha256 cfg d (sh_db (shift_run s es))) as H'; [|apply H'; constructor].
  induction es as [|e es IH]; intros s Hs; [done|]. apply IH. destruct (shift_step_db s e) as [->|[o ->]]; [done|].
  eapply rtc_r; [exact Hs|]. constructor.
Qed.

(** Without a heartbeat and with nobody else at work the shift is [run_claimed]: what the backend returned is
    reported, and what failed is settled. *)
Lemma settle_failure_run {W} c e d (w : W) :
  settle_failure c lease e (d, w)
  = let '(r, d') := transaction (report_failure c e) d in (r, (d', w)).
Proof.
  unfold settle_failure, report_failure, lift, mbind, io_bind, transaction, void, fmap, tx_fmap, mret, io_ret.
  destruct (recoverableRunnerFailure e); cbn [fst snd];
    [destruct (recover c lease d) as [[]|]|destruct (fail c lease _ d) as [[]|]]; done.
Qed.
Lemma shift_runs {W} k (backend : Lease → Execution → io (db * W) JudgedResult) execution d w r d1 w1 :
  backend lease execution (d, w) = (r, (d1, w1)) →
  let s := shift_run (shift0 d1)
             [Returns r; Report (match r with Ok _ => jk_finish k | Err _ => jk_end k end); Report (jk_end k); Finally] in
  ∃ res, sh_phase s = Processed res ∧ run_claimed stripVT k backend lease execution (d, w) = (res, (sh_db s, w1)).
Proof.
  intros Hb. unfold run_claimed, catch, mbind at 1, io_bind at 1. rewrite Hb. unfold shift0, shift_run.
  destruct r as [result|e]; cbn [foldl shift_step sh_phase sh_db sh_aborted sh_pending].
  - unfold mbind, io_bind, lift, mret, io_ret. cbn [fst snd].
    destruct (transaction (finish stripVT (jk_finish k) lease result) d1) as [[b|e] d2]; [cbn; eauto|].
    cbn [foldl shift_step sh_phase sh_db sh_aborted sh_pending]. rewrite settle_failure_run.
    destruct (transaction (report_failure (jk_end k) e) d2) as [x d3]. cbn. eauto.
  - rewrite settle_failure_run. destruct (transaction (report_failure (jk_end k) e) d1) as [x d3]. cbn. eauto.
Qed.

(** The next heartbeat tells the backend: a requested cancellation, or a lease without authority, raises
    the abort signal. *)
Lemma heartbeat_aborts c s :
  (∀ row, executions (sh_db s) !! l_executionId lease = Some row →
     valid (now c) row lease = false ∨ is_Some (e_cancellationRequestedAt row)) →
  sh_aborted (heartbeat c s) = true.
Proof.
  intros Hrow. unfold heartbeat, transaction.
  assert (∀ d', renew c lease (sh_db s) ≠ Ok (ACTIVE, d')) as Hn.
  { intros d'. unfold renew. rewrite locked_run. destruct (executions (sh_db s) !! _) as [row|] eqn:E; [|done].
    destruct (Hrow row eq_refl) as [->|Hc]; [done|]. destruct (valid _ _ _); [|done]. cbn [negb]. cbv zeta.
    destruct (_ <=? now c); [done|]. intros (u & d1 & _ & H1)%bind_Ok.
    rewrite (bool_decide_eq_true_2 _ Hc) in H1. done. }
  destruct (renew c lease (sh_db s)) as [[[] d']|e]; cbn; rewrite ?orb_true_r; try done. by destruct (Hn d').
Qed.
(** Once raised the signal stays. *)
Lemma aborted_stays s es : sh_aborted s = true → sh_aborted (shift_run s es) = true.
Proof.
  revert s. induction es as [|e es IH]; intros s Hs; [done|]. apply IH.
  destruct e as [|c|[result|e]|c| |o]; cbn [shift_step]; unfold heartbeat; repeat (case_match; cbn); try done;
    by rewrite Hs.
Qed.
(** Once the job is processed nothing of it is under way: no heartbeat is pending and none begins, and the
    database changes only by what others do. *)
Definition quiet (s : Shift) : Prop := (∃ r, sh_phase s = Processed r) ∧ sh_pending s = false.
Lemma finally_quiet s r : sh_phase (shift_step s Finally) = Processed r →
  sh_phase s = Processed r ∨ quiet (shift_step s Finally).
Proof.
  cbn [shift_step]. destruct (sh_phase s) eqn:E; cbn; rewrite ?E; auto. destruct (sh_pending s) eqn:Ep; cbn; rewrite ?E; [done|].
  intros [= <-]. right. split; cbn; eauto.
Qed.
Lemma quiet_step s e :
  quiet s → quiet (shift_step s e)
  ∧ ((∀ o, e ≠ Elsewhere o) → sh_db (shift_step s e) = sh_db s).
Proof.
  intros [[r Hr] Hp]. destruct e as [|c|[result|e]|c| |o]; cbn [shift_step]; rewrite ?Hr, ?Hp; cbn;
    (split; [split; cbn; eauto|]); naive_solver.
Qed.
End Shift.
