(* ===== verification/Leaderboard.v ===== *)
(** * Competition standings ([apps/api/src/competitions/competitions.ts])

    [buildLeaderboard]: points of the problems of a competition, what a participant solved after
    joining, the penalty, and the ranking. *)

From S2P Require Import Prelude JsText Contracts.
Local Open Scope Z_scope.

Abbreviation rowid := (list Z).

(** ** Status *)

Inductive CompetitionStatus := ST_UPCOMING | ST_FINISHED | ST_LIVE.
Definition status (startsAt endsAt now : Z) : CompetitionStatus :=
  if now <? startsAt then ST_UPCOMING else if endsAt <=? now then ST_FINISHED else ST_LIVE.

(** ** Data *)

Record RoundProblem := mkRoundProblem { rb_problemId : rowid; rb_points : Z }.
(** A SUBMIT execution in a round of the competition; the verdict is absent while it runs. *)
Record Attempt := mkAttempt { at_problemId : rowid; at_verdict : option Verdict; at_createdAt : Z }.
(** A registration with its user's attempts, in the order of [createdAt]. *)
Record Registration := mkRegistration {
  rg_username : jsstr; rg_displayName : jsstr; rg_joinedAt : Z; rg_executions : list Attempt
}.
Record Entry := mkEntry {
  en_username : jsstr; en_displayName : jsstr; en_score : Z; en_solved : Z; en_penalty : Z;
  en_joinedAt : Z
}.

(** ** Scoring *)

(** The most points any round gives for a problem. *)
Definition add_points (m : gmap rowid Z) (p : RoundProblem) : gmap rowid Z :=
  <[rb_problemId p := Z.max (default 0 (m !! rb_problemId p)) (rb_points p)]> m.
Definition points_of (rounds : list (list RoundProblem)) : gmap rowid Z :=
  foldl (foldl add_points) ∅ rounds.

(** [solved] in insertion order, and the wrong attempts. *)
Record Tally := mkTally { ta_solved : list (rowid * Z); ta_wrong : Z }.

Definition tally_step (joinedAt : Z) (t : Tally) (a : Attempt) : Tally :=
  if at_createdAt a <? joinedAt then t
  else if bool_decide (at_problemId a ∈ fst <$> ta_solved t) then t
  else if bool_decide (at_verdict a = Some ACCEPTED)
  then mkTally (ta_solved t ++ [(at_problemId a, at_createdAt a)]) (ta_wrong t)
  else mkTally (ta_solved t) (ta_wrong t + 1).
Definition tally (r : Registration) : Tally :=
  foldl (tally_step (rg_joinedAt r)) (mkTally [] 0) (rg_executions r).

Definition sum_by {A} (f : A → Z) (l : list A) : Z := foldl (λ n a, n + f a) 0 l.

Definition entry (points : gmap rowid Z) (startsAt : Z) (r : Registration) : Entry :=
  let t := tally r in
  mkEntry (rg_username r) (rg_displayName r)
    (sum_by (λ s : rowid * Z, default 0 (points !! s.1)) (ta_solved t))
    (Z.of_nat (length (ta_solved t)))
    (sum_by (λ s : rowid * Z, Z.max 0 ((s.2 - startsAt) / 60000)) (ta_solved t) + ta_wrong t * 20)
    (rg_joinedAt r).

Section Ranking.
(** [a.localeCompare(b)] of the engine's locale. *)
Context (localeCompare : jsstr → jsstr → Z).

(** The comparator [b.score-a.score || b.solved-a.solved || a.penalty-b.penalty || ...]. *)
Definition compare_entries (a b : Entry) : Z :=
  if negb (en_score b - en_score a =? 0) then en_score b - en_score a
  else if negb (en_solved b - en_solved a =? 0) then en_solved b - en_solved a
  else if negb (en_penalty a - en_penalty b =? 0) then en_penalty a - en_penalty b
  else localeCompare (en_username a) (en_username b).

Definition ahead (a b : Entry) : Prop := compare_entries a b ≤ 0.
#[global] Instance ahead_dec : RelDecision ahead.
Proof. intros a b. unfold ahead. apply _. Defined.

Definition buildLeaderboard (rounds : list (list RoundProblem)) (startsAt : Z)
    (registrations : list Registration) : list (Z * Entry) :=
  imap (λ i e, (Z.of_nat i + 1, e))
    (merge_sort ahead (entry (points_of rounds) startsAt <$> registrations)).
End Ranking.

(** ** What the score counts *)

(** The problem was accepted after the participant joined. *)
Definition solved_by (r : Registration) (p : rowid) : Prop :=
  ∃ a, a ∈ rg_executions r ∧ at_problemId a = p ∧ at_verdict a = Some ACCEPTED ∧ rg_joinedAt r ≤ at_createdAt a.

Lemma tally_spec joinedAt l t :
  NoDup (fst <$> ta_solved t) →
  let t' := foldl (tally_step joinedAt) t l in
  NoDup (fst <$> ta_solved t') ∧
  ∀ p, p ∈ fst <$> ta_solved t' ↔ p ∈ fst <$> ta_solved t ∨
    ∃ a, a ∈ l ∧ at_problemId a = p ∧ at_verdict a = Some ACCEPTED ∧ joinedAt ≤ at_createdAt a.
Proof.
  revert t. induction l as [|a l IH]; intros t Hnd; cbn [foldl].
  { split; [done|]. intros p. split; [by left|]. intros [?|(a & Ha & _)]; [done|by apply elem_of_nil in Ha]. }
  assert (NoDup (fst <$> ta_solved (tally_step joinedAt t a)) ∧
    ∀ p, p ∈ fst <$> ta_solved (tally_step joinedAt t a) ↔ p ∈ fst <$> ta_solved t ∨
      at_problemId a = p ∧ at_verdict a = Some ACCEPTED ∧ joinedAt ≤ at_createdAt a) as [Hnd' Hp].
  { unfold tally_step. destruct (Z.ltb_spec (at_createdAt a) joinedAt); [split; [done|intros p; split; [by left|intros [?|?]; [done|lia]]]|].
    case_bool_decide as Hin; [split; [done|intros p; naive_solver]|].
    case_bool_decide as Hv; [|split; [done|intros p; naive_solver]].
    cbn. rewrite fmap_app. cbn. split.
    - apply NoDup_app. split_and!; [done| |apply NoDup_singleton].
      intros x Hx Hy. apply list_elem_of_singleton in Hy as ->. done.
    - intros p. rewrite elem_of_app, list_elem_of_singleton. naive_solver. }
  destruct (IH _ Hnd') as [Hn Hq]. split; [exact Hn|]. intros p. rewrite Hq, Hp. split.
  - intros [[?|(<- & ?)]|(b & Hb & ?)]; [by left|right; exists a; split; [left|done]|right; exists b; split; [by right|done]].
  - intros [?|(b & [->|Hb]%elem_of_cons & Hb1 & Hb2)]; [by left; left|left; right; done|right; eauto].
Qed.

Lemma sum_by_perm {A} (f : A → Z) l : sum_by f l = sumZ (f <$> l).
Proof.
  unfold sum_by. enough (∀ n, foldl (λ n a, n + f a) n l = n + sumZ (f <$> l)) as H by (rewrite H; lia).
  induction l as [|a l IH]; intros n; cbn; [lia|]. rewrite IH. unfold sumZ. lia.
Qed.

Lemma compare_ahead lc a b : ahead lc a b → en_score b ≤ en_score a.
Proof. unfold ahead, compare_entries. destruct (Z.eqb_spec (en_score b - en_score a) 0); cbn; lia. Qed.

Lemma ahead_lex lc a b :
  ahead lc a b ↔
  en_score b < en_score a ∨ en_score b = en_score a ∧
  (en_solved b < en_solved a ∨ en_solved b = en_solved a ∧
   (en_penalty a < en_penalty b ∨ en_penalty a = en_penalty b ∧ lc (en_username a) (en_username b) ≤ 0)).
Proof.
  unfold ahead, compare_entries.
  destruct (Z.eqb_spec (en_score b - en_score a) 0); cbn; [|lia].
  destruct (Z.eqb_spec (en_solved b - en_solved a) 0); cbn; [|lia].
  destruct (Z.eqb_spec (en_penalty a - en_penalty b) 0); cbn; lia.
Qed.

Lemma ahead_trans lc : (∀ x y z, lc x y ≤ 0 → lc y z ≤ 0 → lc x z ≤ 0) → Transitive (ahead lc).
Proof.
  intros Htr a b c. rewrite !ahead_lex. intros Hab Hbc.
  specialize (Htr (en_username a) (en_username b) (en_username c)). lia.
Qed.
Lemma ahead_total lc : (∀ x y, lc x y ≤ 0 ∨ lc y x ≤ 0) → Total (ahead lc).
Proof. intros Htot a b. rewrite !ahead_lex. destruct (Htot (en_username a) (en_username b)); lia. Qed.

(** ** Points *)

Lemma points_max_list ps m p :
  default 0 (foldl add_points m ps !! p) =
  foldl (λ n q, if bool_decide (rb_problemId q = p) then Z.max n (rb_points q) else n) (default 0 (m !! p)) ps.
Proof.
  revert m. induction ps as [|q ps IH]; intros m; cbn; [done|]. rewrite IH. f_equal. unfold add_points.
  case_bool_decide as E; [subst; by rewrite lookup_insert_eq|by rewrite lookup_insert_ne].
Qed.

(** C40: the standings.  The leaderboard ranks every registration exactly once, 1, 2, 3, ..., with
    non-increasing scores; the score of a participant is the sum of the points of the distinct
    problems they got accepted after joining, each counted once however often it was submitted. *)
Theorem standings_correct lc rounds startsAt registrations :
  (∀ x y, lc x y ≤ 0 ∨ lc y x ≤ 0) → (∀ x y z, lc x y ≤ 0 → lc y z ≤ 0 → lc x z ≤ 0) →
  let board := buildLeaderboard lc rounds startsAt registrations in
  snd <$> board ≡ₚ entry (points_of rounds) startsAt <$> registrations ∧
  fst <$> board = (λ i, Z.of_nat i + 1) <$> seq 0 (length registrations) ∧
  StronglySorted (λ a b, en_score b ≤ en_score a) (snd <$> board) ∧
  ∀ r, r ∈ registrations → ∃ ps, NoDup ps ∧ (∀ p, p ∈ ps ↔ solved_by r p) ∧
    en_score (entry (points_of rounds) startsAt r) = sumZ ((λ p, default 0 (points_of rounds !! p)) <$> ps) ∧
    en_solved (entry (points_of rounds) startsAt r) = Z.of_nat (length ps).
Proof.
  intros Htot Htr. cbv zeta. unfold buildLeaderboard.
  set (l := merge_sort (ahead lc) _). assert (l ≡ₚ entry (points_of rounds) startsAt <$> registrations) as Hl
    by apply merge_sort_Permutation.
  assert (snd <$> imap (λ i e, (Z.of_nat i + 1, e)) l = l) as Es.
  { apply list_eq. intros i. rewrite list_lookup_fmap, list_lookup_imap. by destruct (l !! i). }
  rewrite Es. split_and!; [done| | |].
  - apply list_eq. intros i. rewrite !list_lookup_fmap, list_lookup_imap.
    assert (length registrations = length l) as -> by (rewrite Hl, length_fmap; done).
    destruct (l !! i) as [e|] eqn:E.
    + apply lookup_lt_Some in E. rewrite lookup_seq_lt by done. done.
    + apply lookup_ge_None in E. rewrite lookup_seq_ge by done. done.
  - assert (StronglySorted (ahead lc) l) as Hs.
    { apply StronglySorted_merge_sort; [by apply ahead_trans|by apply ahead_total]. }
    clear -Hs. induction Hs as [|a l Hs IH Hf]; constructor; [done|].
    eapply Forall_impl; [exact Hf|]. intros b. apply compare_ahead.
  - intros r Hr. destruct (tally_spec (rg_joinedAt r) (rg_executions r) (mkTally [] 0)) as [Hnd Hp]; [constructor|].
    exists (fst <$> ta_solved (tally r)). split_and!; [exact Hnd| | |].
    + intros p. unfold tally. rewrite Hp. cbn. unfold solved_by. split; [|by right].
      intros [?%elem_of_nil|?]; done.
    + cbn. rewrite sum_by_perm, <- list_fmap_compose. done.
    + cbn. by rewrite length_fmap.
Qed.

(** ** Infrastructure failures *)

(** The penalty blames the participant for the platform.  A submission that ends in
    INTERNAL_ERROR (a queue timeout, a lost sandbox) or is still running counts as a wrong
    attempt of a problem that is not solved yet and adds twenty penalty minutes, exactly as a
    wrong answer does. *)
Lemma infrastructure_failure_penalised points startsAt r a :
  at_verdict a = Some VINTERNAL_ERROR ∨ at_verdict a = None →
  rg_joinedAt r ≤ at_createdAt a → ¬ solved_by r (at_problemId a) →
  let r' := mkRegistration (rg_username r) (rg_displayName r) (rg_joinedAt r) (rg_executions r ++ [a]) in
  en_penalty (entry points startsAt r') = en_penalty (entry points startsAt r) + 20 ∧
  en_score (entry points startsAt r') = en_score (entry points startsAt r).
Proof.
  intros Hv Hj Hs. cbv zeta. unfold entry, tally. cbn [rg_joinedAt rg_executions].
  rewrite foldl_app. cbn [foldl].
  destruct (tally_spec (rg_joinedAt r) (rg_executions r) (mkTally [] 0)) as [_ Hp]; [constructor|].
  set (t := foldl _ _ _) in *. unfold tally_step.
  destruct (Z.ltb_spec (at_createdAt a) (rg_joinedAt r)); [lia|].
  rewrite bool_decide_eq_false_2, bool_decide_eq_false_2.
  - cbn [ta_solved ta_wrong en_penalty en_score]. split; [lia|done].
  - destruct Hv as [->| ->]; done.
  - rewrite Hp. intros [Hn|Hin]; [by apply elem_of_nil in Hn|by apply Hs].
Qed.
