(* ===== verification/Sessions.v ===== *)
(** * Sessions and guards

    [apps/api/src/auth/session.ts] (session secrets, the resolution of a cookie to a principal,
    and the guard with its origin and CSRF checks), [apps/api/src/auth/roles.guard.ts], and the
    response [apps/api/src/common/errors.ts] makes of what they throw. *)

From S2P Require Import Prelude JsText Contracts JsString RuntimePolicy.
Local Open Scope Z_scope.

Inductive Role := R_USER | R_MODERATOR | R_ADMIN.
#[export] Instance Role_eq_dec : EqDecision Role. Proof. solve_decision. Defined.

Record UserRow := mkUserRow {
  us_username : jsstr; us_role : Role; us_deactivatedAt : option Z; us_bannedAt : option Z;
  us_suspendedUntil : option Z; us_restrictionReason : option jsstr
}.
Record SessionRow := mkSessionRow {
  se_id : jsstr; se_userId : jsstr; se_tokenHash : jsstr; se_csrfTokenHash : jsstr;
  se_expiresAt : Z; se_revokedAt : option Z
}.
Inductive Restriction := BANNED (reason : option jsstr) | SUSPENDED (reason : option jsstr) (until : Z).
Record Principal := mkPrincipal {
  pn_userId : jsstr; pn_username : jsstr; pn_role : Role; pn_sessionId : jsstr;
  pn_csrfTokenHash : jsstr; pn_csrfToken : jsstr; pn_restriction : option Restriction
}.

(** The session table joined with its users, unique in [tokenHash]. *)
Abbreviation sessions := (list (SessionRow * UserRow)).

(** The request as the guards read it: the session cookie, the method and two headers. *)
Record Request := mkRequest {
  rq_cookie : option jsstr; rq_method : string; rq_origin : option jsstr; rq_csrf : option jsstr
}.

(** [/^[A-Za-z0-9_-]{43}$/], 32 bytes in base64url. *)
Definition token_ok (t : jsstr) : bool := forallb is_token_char t && (length t =? 43)%nat.
(** [/^[a-f0-9]{64}$/]. *)
Definition digest_ok (d : jsstr) : bool := forallb is_hex d && (length d =? 64)%nat.

(** [Buffer.from(text, 'hex')]. *)
Fixpoint from_hex (s : jsstr) : list Z :=
  match s with
  | a :: b :: s' => (unhex a * 16 + unhex b) :: from_hex s'
  | _ => []
  end.

Definition hashesEqual (a b : jsstr) : bool :=
  if negb (digest_ok a) || negb (digest_ok b) then false else bool_decide (from_hex a = from_hex b).

Section Sessions.
(** SHA-256 in hexadecimal and HMAC-SHA-256 in base64url ([node:crypto]). *)
Context (sha256 : jsstr → jsstr) (hmac : jsstr → jsstr → jsstr).

Definition hashToken (token : jsstr) : jsstr := sha256 token.
Definition csrfForSession (token : jsstr) : jsstr := hmac token (js "ArenaCore:csrf:v1").

Record SessionSecrets := mkSecrets {
  sx_token : jsstr; sx_csrfToken : jsstr; sx_tokenHash : jsstr; sx_csrfTokenHash : jsstr
}.
(** [newSessionSecrets] from 32 random bytes in base64url. *)
Definition newSessionSecrets (token : jsstr) : SessionSecrets :=
  let csrfToken := csrfForSession token in
  mkSecrets token csrfToken (hashToken token) (hashToken csrfToken).

Definition find_session (h : jsstr) (db : sessions) : option (SessionRow * UserRow) :=
  snd <$> list_find (λ r : SessionRow * UserRow, se_tokenHash r.1 = h) db.

Definition restriction_of (now : Z) (u : UserRow) : option Restriction :=
  match us_bannedAt u with
  | Some _ => Some (BANNED (us_restrictionReason u))
  | None =>
      match us_suspendedUntil u with
      | Some until => if now <? until then Some (SUSPENDED (us_restrictionReason u) until) else None
      | None => None
      end
  end.

(** [Sessions.resolve]; [now] and [now'] are its two clock readings. *)
Definition resolve (now now' : Z) (db : sessions) (req : Request) : option Principal :=
  match rq_cookie req with
  | None => None
  | Some token =>
      if negb (token_ok token) then None else
      match find_session (hashToken token) db with
      | None => None
      | Some (s, u) =>
          if bool_decide (is_Some (se_revokedAt s)) || (se_expiresAt s <=? now)
             || bool_decide (is_Some (us_deactivatedAt u)) then None else
          Some (mkPrincipal (se_userId s) (us_username u) (us_role u) (se_id s) (se_csrfTokenHash s)
                  (csrfForSession token) (restriction_of now' u))
      end
  end.

Definition safe_method (m : string) : bool := existsb (String.eqb m) ["GET"; "HEAD"; "OPTIONS"]%string.

(** [Math.max(1, Math.ceil((until - now) / 1000))]. *)
Definition retry_after (until now : Z) : Z := Z.max 1 (- (- (until - now) / 1000)).

(** [SessionGuard.canActivate]: the principal it attaches to the request. *)
Definition canActivate (publicOrigin : jsstr) (allowRestricted : bool) (now now' now'' : Z)
    (db : sessions) (req : Request) : result Principal :=
  match resolve now now' db req with
  | None => Err (ApiError 401 "AUTHENTICATION_REQUIRED" None)
  | Some p =>
      match if allowRestricted then None else pn_restriction p with
      | Some (BANNED _) => Err (ApiError 403 "ACCOUNT_BANNED" None)
      | Some (SUSPENDED _ until) => Err (ApiError 403 "ACCOUNT_SUSPENDED" (Some (retry_after until now'')))
      | None =>
          if safe_method (rq_method req) then Ok p else
          if negb (bool_decide (rq_origin req = Some publicOrigin))
          then Err (ApiError 403 "INVALID_ORIGIN" None) else
          match rq_csrf req with
          | None => Err (ApiError 403 "INVALID_CSRF_TOKEN" None)
          | Some csrf =>
              if negb (token_ok csrf) || negb (hashesEqual (hashToken csrf) (pn_csrfTokenHash p))
              then Err (ApiError 403 "INVALID_CSRF_TOKEN" None) else Ok p
          end
      end
  end.

(** [RolesGuard.canActivate] for the roles a handler requires. *)
Definition requireRoles (roles : list Role) (principal : option Principal) : result unit :=
  if (length roles =? 0)%nat then Ok tt else
  match principal with
  | None => Err (ApiError 401 "AUTHENTICATION_REQUIRED" None)
  | Some p => if bool_decide (pn_role p ∈ roles) then Ok tt else Err (ApiError 403 "PERMISSION_DENIED" None)
  end.

(** The guards of a controller class such as [AdminController], in order. *)
Definition guarded (publicOrigin : jsstr) (allowRestricted : bool) (roles : list Role)
    (now now' now'' : Z) (db : sessions) (req : Request) : result Principal :=
  match canActivate publicOrigin allowRestricted now now' now'' db req with
  | Err e => Err e
  | Ok p => match requireRoles roles (Some p) with Ok _ => Ok p | Err e => Err e end
  end.
End Sessions.

(** ** The error filter *)

Record Response := mkResponse {
  rs_status : Z; rs_code : string; rs_retryAfter : option Z; rs_logged : bool
}.

(** What reaches the filter: an error of the program, a framework exception, an object with a
    status (the body parser's), or anything else. *)
Inductive Thrown := T_error (e : error) | T_http (status : Z) | T_object (status : Z) | T_other.

Definition internal : Z * string := (500, "INTERNAL_ERROR"%string).
(** [ErrorFilter.catch]: status and code of the reply, the Retry-After header (a zero is
    dropped), and whether the failure is logged. *)
Definition error_filter (t : Thrown) : Response :=
  let '(status, code) :=
    match t with
    | T_error (ApiError status code _) => (status, code)
    | T_http status =>
        (status, if status =? 404 then "NOT_FOUND"%string
                 else if status =? 413 then "PAYLOAD_TOO_LARGE"%string else "INVALID_REQUEST"%string)
    | T_object status =>
        if status =? 413 then (413, "PAYLOAD_TOO_LARGE"%string)
        else if status =? 400 then (400, "INVALID_JSON"%string) else internal
    | _ => internal
    end in
  let retry := match t with
               | T_error (ApiError _ _ (Some n)) => if n =? 0 then None else Some n
               | _ => None
               end in
  mkResponse status code retry (500 <=? status).

(** ** Facts *)

Lemma unhex_inj a b : is_hex a = true → is_hex b = true → unhex a = unhex b → a = b.
Proof. unfold is_hex, is_digit, unhex. repeat case_match; lia. Qed.
Lemma unhex_range a : is_hex a = true → 0 ≤ unhex a < 16.
Proof. unfold is_hex, is_digit, unhex. repeat case_match; lia. Qed.

Lemma from_hex_inj n a b :
  length a = (2 * n)%nat → length b = (2 * n)%nat → forallb is_hex a = true → forallb is_hex b = true →
  from_hex a = from_hex b → a = b.
Proof.
  revert a b. induction n as [|n IH]; intros a b.
  { intros E1 E2. apply nil_length_inv in E1 as ->. by apply nil_length_inv in E2 as ->. }
  destruct a as [|x1 [|x2 a]], b as [|y1 [|y2 b]]; cbn; try lia. rewrite !andb_true_iff.
  intros E1 E2 (Hx1 & Hx2 & Ha) (Hy1 & Hy2 & Hb) [= E Er].
  pose proof (unhex_range x2 Hx2). pose proof (unhex_range y2 Hy2).
  assert (unhex x1 = unhex y1 ∧ unhex x2 = unhex y2) as [?%unhex_inj ?%unhex_inj] by lia; [|done..].
  f_equal; [done|]. f_equal; [done|]. apply IH; [lia|lia|done..].
Qed.

(** Comparing decoded digests is comparing digests. *)
Lemma hashesEqual_spec a b :
  hashesEqual a b = true ↔ a = b ∧ digest_ok a = true.
Proof.
  unfold hashesEqual. destruct (digest_ok a) eqn:Ea, (digest_ok b) eqn:Eb; cbn; try (split; [done|naive_solver]).
  rewrite bool_decide_eq_true. split; [|by intros [-> _]]. intros E. split; [|done].
  unfold digest_ok in *. rewrite andb_true_iff, Nat.eqb_eq in Ea, Eb.
  destruct Ea as [Ha La], Eb as [Hb Lb]. by apply (from_hex_inj 32).
Qed.

Section Facts.
Context (sha256 : jsstr → jsstr) (hmac : jsstr → jsstr → jsstr).

(** The session that authenticates a request: its token hashes to the stored digest, it is
    neither revoked nor expired, and its user is active. *)
Definition authenticates (now : Z) (db : sessions) (req : Request) (s : SessionRow) (u : UserRow) : Prop :=
  ∃ token, rq_cookie req = Some token ∧ token_ok token = true ∧
    find_session (sha256 token) db = Some (s, u) ∧
    se_revokedAt s = None ∧ now < se_expiresAt s ∧ us_deactivatedAt u = None.

Lemma resolve_Some now now' db req p :
  resolve sha256 hmac now now' db req = Some p →
  ∃ s u, authenticates now db req s u ∧ pn_userId p = se_userId s ∧ pn_role p = us_role u ∧
    pn_csrfTokenHash p = se_csrfTokenHash s ∧ pn_restriction p = restriction_of now' u.
Proof.
  unfold resolve. destruct (rq_cookie req) as [token|] eqn:Ec; [|done].
  destruct (token_ok token) eqn:Et; [cbn [negb]|done].
  destruct (find_session _ db) as [[s u]|] eqn:Ef; [|done].
  destruct (_ || _) eqn:E; [done|]. rewrite !orb_false_iff, !bool_decide_eq_false, Z.leb_gt in E.
  destruct E as [[Er Ex] Ed]. rewrite <- !eq_None_not_Some in Er, Ed. intros [= <-].
  exists s, u. split; [|done]. exists token. done.
Qed.

(** What an accepted request has shown to the session guard. *)
Lemma canActivate_Ok origin allow now now' now'' db req p :
  canActivate sha256 hmac origin allow now now' now'' db req = Ok p →
  ∃ s u, authenticates now db req s u ∧ pn_userId p = se_userId s ∧ pn_role p = us_role u ∧
    (allow = false → restriction_of now' u = None) ∧
    (safe_method (rq_method req) = false →
      rq_origin req = Some origin ∧ ∃ csrf, rq_csrf req = Some csrf ∧ sha256 csrf = se_csrfTokenHash s).
Proof.
  unfold canActivate. destruct (resolve _ _ now now' db req) as [q|] eqn:Er; [|done].
  apply resolve_Some in Er as (s & u & Ha & Hu & Hr & Hc & Hx). intros H. exists s, u.
  rewrite <- Hc, <- Hx, <- Hr.
  destruct (if allow then None else pn_restriction q) as [[]|] eqn:El; [done..|].
  assert (q = p ∧ (safe_method (rq_method req) = false → rq_origin req = Some origin ∧
            ∃ csrf, rq_csrf req = Some csrf ∧ sha256 csrf = pn_csrfTokenHash q)) as [-> Hmut].
  { destruct (safe_method (rq_method req)); [by injection H as ->|].
    case_bool_decide as Ho; cbn [negb] in H; [|done]. destruct (rq_csrf req) as [csrf|]; [|done].
    destruct (negb (token_ok csrf) || _) eqn:E; [done|]. apply orb_false_iff in E as [_ E].
    apply negb_false_iff, hashesEqual_spec in E as [E _]. injection H as ->. eauto. }
  split_and!; try done. by intros ->.
Qed.

(** What a request must prove.  The guards let a request through only for a live session of
    an active account with one of the required roles, never for a banned or suspended account
    unless the handler allows it, and for every method that is not GET, HEAD or OPTIONS only
    with the site's own origin and a CSRF token whose digest is the one stored with that very
    session. *)
Lemma guards_protect origin allow roles now now' now'' db req p :
  guarded sha256 hmac origin allow roles now now' now'' db req = Ok p →
  ∃ s u, authenticates now db req s u ∧ pn_userId p = se_userId s ∧
    (roles ≠ [] → us_role u ∈ roles) ∧
    (allow = false → restriction_of now' u = None) ∧
    (safe_method (rq_method req) = false →
      rq_origin req = Some origin ∧ ∃ csrf, rq_csrf req = Some csrf ∧ sha256 csrf = se_csrfTokenHash s).
Proof.
  unfold guarded. destruct (canActivate _ _ _ _ _ _ _ _ _) as [q|] eqn:E; [|done].
  destruct (requireRoles roles (Some q)) as [[]|] eqn:Hroles; [|done]. intros [= ->].
  apply canActivate_Ok in E as (s & u & Ha & Hu & Hr & Hx & Hm). exists s, u. split_and!; try done.
  intros Hne. unfold requireRoles in Hroles. destruct (Nat.eqb_spec (length roles) 0) as [E|]; [by apply nil_length_inv in E|].
  rewrite <- Hr. by case_bool_decide.
Qed.

(** A new session works.  A session stored with the digests of [newSessionSecrets] passes the
    guard with its own token and CSRF token from the site's origin, for any method, until it
    expires, while the account is active and unrestricted. *)
Lemma new_session_passes origin token s u now now' now'' method :
  token_ok token = true → token_ok (csrfForSession hmac token) = true →
  digest_ok (sha256 (csrfForSession hmac token)) = true →
  let x := newSessionSecrets sha256 hmac token in
  se_tokenHash s = sx_tokenHash x → se_csrfTokenHash s = sx_csrfTokenHash x →
  se_revokedAt s = None → now < se_expiresAt s → us_deactivatedAt u = None → restriction_of now' u = None →
  canActivate sha256 hmac origin false now now' now'' [(s, u)]
    (mkRequest (Some (sx_token x)) method (Some origin) (Some (sx_csrfToken x)))
  = Ok (mkPrincipal (se_userId s) (us_username u) (us_role u) (se_id s) (se_csrfTokenHash s)
          (sx_csrfToken x) None).
Proof.
  intros Ht Hct Hd x Hth Hch Hr Hx Hda Hres. unfold canActivate, resolve. cbn [rq_cookie sx_token x newSessionSecrets].
  rewrite Ht. cbn [negb]. unfold find_session. cbn [list_find].
  rewrite decide_True by done. cbn [fmap option_fmap option_map snd].
  rewrite Hr, Hda. rewrite !bool_decide_eq_false_2 by (by intros []). cbn [orb].
  rewrite (proj2 (Z.leb_gt _ _)) by done. cbn [orb pn_restriction]. rewrite Hres.
  cbn [rq_method rq_origin rq_csrf sx_csrfToken newSessionSecrets]. destruct (safe_method method); [done|].
  rewrite bool_decide_eq_true_2 by done. cbn [negb]. subst x. cbn [newSessionSecrets sx_csrfToken]. rewrite Hct.
  cbn [negb orb pn_csrfTokenHash].
  assert (hashesEqual (hashToken sha256 (csrfForSession hmac token)) (se_csrfTokenHash s) = true) as ->; [|done].
  apply hashesEqual_spec. split; [by rewrite Hch|done].
Qed.
End Facts.
