(* ===== verification/Password.v ===== *)
(** * Stored passwords ([apps/api/src/auth/password.ts])

    The encoding of a password hash, [scrypt$N$R$P$salt$derived] with salt and key in base64url, and
    its verification.  The key derivation (scrypt, of [node:crypto]) is a parameter. *)

From S2P Require Import Prelude JsText Contracts JsString RuntimePolicy.
Local Open Scope Z_scope.

(** ** base64url *)

Definition b64_char (i : Z) : Z :=
  if i <? 26 then 65 + i else if i <? 52 then 71 + i else if i <? 62 then i - 4
  else if i =? 62 then 45 else 95.

(** [buffer.toString('base64url')], without padding. *)
Fixpoint to_base64url (l : list Z) : jsstr :=
  match l with
  | a :: b :: c :: l' =>
      b64_char (a / 4) :: b64_char (a mod 4 * 16 + b / 16) :: b64_char (b mod 16 * 4 + c / 64)
      :: b64_char (c mod 64) :: to_base64url l'
  | [a; b] => [b64_char (a / 4); b64_char (a mod 4 * 16 + b / 16); b64_char (b mod 16 * 4)]
  | [a] => [b64_char (a / 4); b64_char (a mod 4 * 16)]
  | [] => []
  end.

(** The value of a character of either base64 alphabet. *)
Definition b64_value (u : Z) : option Z :=
  if is_upper u then Some (u - 65) else if is_lower u then Some (u - 71)
  else if is_digit u then Some (u + 4)
  else if (u =? 45) || (u =? 43) then Some 62 else if (u =? 95) || (u =? 47) then Some 63 else None.

(** The values before the first padding character; other characters are skipped. *)
Fixpoint b64_values (s : jsstr) : list Z :=
  match s with
  | [] => []
  | u :: s' => if u =? 61 then []
               else match b64_value u with Some v => v :: b64_values s' | None => b64_values s' end
  end.
Fixpoint b64_bytes (l : list Z) : list Z :=
  match l with
  | w :: x :: y :: z :: l' =>
      (w * 4 + x / 16) :: (x mod 16 * 16 + y / 4) :: (y mod 4 * 64 + z) :: b64_bytes l'
  | [w; x; y] => [w * 4 + x / 16; x mod 16 * 16 + y / 4]
  | [w; x] => [w * 4 + x / 16]
  | _ => []
  end.
(** [Buffer.from(text, 'base64url')]. *)
Definition from_base64url (s : jsstr) : list Z := b64_bytes (b64_values s).

(** [Number(text)] for decimal integers, the only numerals the encoding contains; white space
    around them is ignored and the empty text is zero. *)
Definition digits_value (s : jsstr) : Z := foldl (λ n u, n * 10 + (u - 48)) 0 s.
Definition to_number (s : jsstr) : option Z :=
  let t := trim s in if forallb is_digit t then Some (digits_value t) else None.

(** ** Hashing and verifying *)

Definition SCRYPT_N : Z := 32768.
Definition SCRYPT_R : Z := 8.
Definition SCRYPT_P : Z := 1.
Definition KEY_LENGTH : nat := 32.
Definition DOLLAR : Z := 36.

Definition encode_password (salt derived : list Z) : jsstr :=
  intercalate [DOLLAR] [js "scrypt"; num SCRYPT_N; num SCRYPT_R; num SCRYPT_P;
                        to_base64url salt; to_base64url derived].
Definition dummy : jsstr := encode_password (replicate 16 0) (replicate KEY_LENGTH 0).

Section Password.
(** [scrypt(password, salt, 32, {N, r, p})]. *)
Context (derive : jsstr → list Z → list Z).

(** [hashPassword] with the 16 random bytes it draws. *)
Definition hashPassword (salt : list Z) (password : jsstr) : jsstr :=
  encode_password salt (derive password salt).

Definition verifyPassword (password : jsstr) (encoded : option jsstr) : bool :=
  match split DOLLAR (default dummy encoded) with
  | [scheme; n; r; p; salt64; expected64] =>
      if negb (bool_decide (scheme = js "scrypt")) then false else
      let salt := from_base64url salt64 in
      let expected := from_base64url expected64 in
      if negb (bool_decide (to_number n = Some SCRYPT_N) && bool_decide (to_number r = Some SCRYPT_R)
               && bool_decide (to_number p = Some SCRYPT_P) && (length salt =? 16)%nat
               && (length expected =? KEY_LENGTH)%nat) then false else
      let matches := bool_decide (derive password salt = expected) in
      match encoded with
      | Some (_ :: _) => matches
      | _ => false
      end
  | _ => false
  end.
End Password.

(** ** Facts *)

Definition byte (b : Z) : Prop := 0 ≤ b < 256.

Lemma b64_value_char i : 0 ≤ i < 64 → b64_value (b64_char i) = Some i.
Proof.
  intros Hi. unfold b64_char, b64_value, is_upper, is_lower, is_digit.
  repeat case_match; try lia; f_equal; lia.
Qed.
Lemma b64_char_plain i : 0 ≤ i < 64 → b64_char i ≠ 61 ∧ b64_char i ≠ DOLLAR.
Proof. intros Hi. unfold b64_char, DOLLAR. repeat case_match; lia. Qed.

(** Induction by groups of three bytes. *)
Lemma triples_ind (P : list Z → Prop) :
  P [] → (∀ a, P [a]) → (∀ a b, P [a; b]) → (∀ a b c l, P l → P (a :: b :: c :: l)) → ∀ l, P l.
Proof.
  intros H0 H1 H2 H3. fix IH 1. intros [|a [|b [|c l]]]; [done|auto|auto|]. apply H3, IH.
Qed.

Definition sextet (v : Z) : Prop := 0 ≤ v < 64.

(** The sextets of a buffer. *)
Fixpoint sextets (l : list Z) : list Z :=
  match l with
  | a :: b :: c :: l' => [a / 4; a mod 4 * 16 + b / 16; b mod 16 * 4 + c / 64; c mod 64] ++ sextets l'
  | [a; b] => [a / 4; a mod 4 * 16 + b / 16; b mod 16 * 4]
  | [a] => [a / 4; a mod 4 * 16]
  | [] => []
  end.

Lemma to_base64url_sextets l : to_base64url l = b64_char <$> sextets l.
Proof. induction l as [| | |a b c l IH] using triples_ind; [done..|]. cbn. by rewrite IH. Qed.

Lemma sextets_range l : Forall byte l → Forall sextet (sextets l).
Proof.
  unfold sextet, byte. induction l as [|a|a b|a b c l IH] using triples_ind; cbn; rewrite ?Forall_cons; intros H.
  - constructor.
  - repeat constructor; zdiv.
  - destruct H as (? & ? & _). repeat constructor; zdiv.
  - destruct H as (? & ? & ? & H). split_and!; [zdiv..|by apply IH].
Qed.

Lemma b64_bytes_sextets l : Forall byte l → b64_bytes (sextets l) = l.
Proof.
  unfold byte. induction l as [|a|a b|a b c l IH] using triples_ind; cbn; rewrite ?Forall_cons; intros H.
  - done.
  - f_equal. zdiv.
  - destruct H as (? & ? & _). repeat f_equal; zdiv.
  - destruct H as (? & ? & ? & H). rewrite IH by done. repeat f_equal; zdiv.
Qed.

Lemma b64_values_chars l : Forall sextet l → b64_values (b64_char <$> l) = l.
Proof.
  induction 1 as [|v l Hv Hl IH]; [done|]. cbn. destruct (b64_char_plain v Hv) as [Hn _].
  rewrite (proj2 (Z.eqb_neq _ _) Hn), b64_value_char by done. by rewrite IH.
Qed.

Lemma base64url_roundtrip l : Forall byte l → from_base64url (to_base64url l) = l.
Proof.
  intros Hl. unfold from_base64url. rewrite to_base64url_sextets, b64_values_chars by (by apply sextets_range).
  by apply b64_bytes_sextets.
Qed.

(** Splitting undoes joining when no part contains the separator. *)
Lemma split_intercalate sep l :
  l ≠ [] → Forall (λ p, sep ∉ p) l → split sep (intercalate [sep] l) = l.
Proof.
  induction l as [|p l IH]; [done|]. intros _ [Hp Hl]%Forall_cons.
  assert (Hpre : ∀ r, sep ∉ p → split sep (p ++ sep :: r) = p :: split sep r).
  { clear. induction p as [|u p IH]; intros r Hn; cbn; [by rewrite Z.eqb_refl|].
    apply not_elem_of_cons in Hn as [Hu Hn]. rewrite (proj2 (Z.eqb_neq _ _)) by congruence. by rewrite IH. }
  assert (Hlast : sep ∉ p → split sep p = [p]).
  { clear. induction p as [|u p IH]; intros Hn; cbn; [done|].
    apply not_elem_of_cons in Hn as [Hu Hn]. rewrite (proj2 (Z.eqb_neq _ _)) by congruence. by rewrite IH. }
  destruct l as [|q l]; cbn [intercalate]; [by apply Hlast|].
  cbn [app]. rewrite Hpre by done. f_equal. by apply IH.
Qed.

Lemma base64url_no_dollar l : Forall byte l → DOLLAR ∉ to_base64url l.
Proof.
  intros Hl. rewrite to_base64url_sextets, list_elem_of_fmap. intros (v & E & Hv).
  apply sextets_range in Hl. rewrite Forall_forall in Hl. by destruct (b64_char_plain v (Hl v Hv)).
Qed.

Lemma split_encoded salt derived :
  Forall byte salt → Forall byte derived →
  split DOLLAR (encode_password salt derived)
  = [js "scrypt"; num SCRYPT_N; num SCRYPT_R; num SCRYPT_P; to_base64url salt; to_base64url derived].
Proof.
  intros Hs Hd. apply split_intercalate; [done|].
  assert (∀ s : jsstr, bool_decide (DOLLAR ∉ s) = true → DOLLAR ∉ s) as Hb
    by (intros s H; by apply bool_decide_eq_true in H).
  repeat constructor; try (apply Hb; vm_compute; reflexivity); by apply base64url_no_dollar.
Qed.

Lemma verify_hashed derive salt p q :
  Forall byte salt → length salt = 16%nat →
  Forall byte (derive p salt) → length (derive p salt) = KEY_LENGTH →
  verifyPassword derive q (Some (hashPassword derive salt p)) = bool_decide (derive q salt = derive p salt).
Proof.
  intros Hs Hl Hd Hk.
  unfold verifyPassword, hashPassword. cbn [from_option id]. rewrite split_encoded by done.
  rewrite bool_decide_eq_true_2 by done. cbn [negb].
  rewrite !base64url_roundtrip, Hl, Hk by done. cbn [Nat.eqb].
  rewrite !bool_decide_eq_true_2 by (vm_compute; reflexivity). rewrite Nat.eqb_refl. cbn [andb negb].
  destruct (encode_password salt (derive p salt)) eqn:E; [|done].
  apply (f_equal (split DOLLAR)) in E. rewrite split_encoded in E by done. discriminate E.
Qed.

(** C31: a stored password verifies.  With a 16-byte salt, a password verifies against the stored hash
    of another exactly when both derive the same key with that salt, so the right password always
    does; against a missing credential none does, although the same work is done. *)
Theorem password_roundtrip derive salt p q :
  Forall byte salt → length salt = 16%nat →
  Forall byte (derive p salt) → length (derive p salt) = KEY_LENGTH →
  verifyPassword derive q (Some (hashPassword derive salt p)) = bool_decide (derive q salt = derive p salt)
  ∧ verifyPassword derive p (Some (hashPassword derive salt p)) = true
  ∧ verifyPassword derive q None = false.
Proof.
  intros Hs Hl Hd Hk. rewrite !verify_hashed by done. split_and!; [done|by apply bool_decide_eq_true|].
  unfold verifyPassword. repeat case_match; done.
Qed.
