(* ===== verification/JsNumber.v ===== *)
(** * [Number(text)]

    The conversion of a string to a number that [z.coerce.number()] applies, as far as integers go:
    the grammar of a string's numeric literal and the rounding of its exact value to a double. *)

From S2P Require Import Prelude JsText Contracts JsString RuntimePolicy Password.
Local Open Scope Z_scope.

(** ** Rounding *)

(** The integer nearest to [a / b], ties to even. *)
Definition div_even (a b : Z) : Z :=
  let q := a / b in
  match 2 * (a mod b) ?= b with
  | Lt => q
  | Gt => q + 1
  | Eq => if Z.even q then q else q + 1
  end.

(** The exponent of the unit in the last place of the double nearest to [a / b]. *)
Definition ulp_exponent (a b : Z) : Z :=
  let k := Z.log2 a - Z.log2 b - 52 in
  let below := if 0 <=? k + 52 then a <? b * 2 ^ (k + 52) else a * 2 ^ (- (k + 52)) <? b in
  Z.max (-1074) (if below then k - 1 else k).

(** The double nearest to the positive rational [a / b] when it is an integer. *)
Definition round64 (a b : Z) : option Z :=
  let k := ulp_exponent a b in
  if 0 <=? k then Some (div_even a (b * 2 ^ k) * 2 ^ k)
  else let n := div_even (a * 2 ^ (- k)) b in
       if n mod 2 ^ (- k) =? 0 then Some (n / 2 ^ (- k)) else None.

(** ** The literal *)

Fixpoint span (f : Z → bool) (s : jsstr) : jsstr * jsstr :=
  match s with
  | u :: s' => if f u then let '(a, b) := span f s' in (u :: a, b) else ([], s)
  | [] => ([], [])
  end.

Definition is_e (u : Z) : bool := (u =? 101) || (u =? 69).
Definition signed (s : jsstr) : Z * jsstr :=
  match s with
  | u :: s' => if u =? 45 then (-1, s') else if u =? 43 then (1, s') else (1, s)
  | [] => (1, [])
  end.
Definition all_digits (s : jsstr) : option Z :=
  match s with
  | [] => None
  | _ => if forallb is_digit s then Some (digits_value s) else None
  end.
Definition exponent_of (s : jsstr) : option Z :=
  match s with
  | [] => Some 0
  | u :: s' => if is_e u then let '(sg, ds) := signed s' in Z.mul sg <$> all_digits ds else None
  end.

(** The exact value of an unsigned decimal literal, as a significand and a power of ten. *)
Definition decimal (s : jsstr) : option (Z * Z) :=
  let '(int, r) := span is_digit s in
  let '(frac, r') := match r with
                     | u :: s' => if u =? 46 then span is_digit s' else ([], r)
                     | [] => ([], [])
                     end in
  match int ++ frac with
  | [] => None
  | ds => e ← exponent_of r'; Some (digits_value ds, e - Z.of_nat (length frac))
  end.

(** [0x], [0o] and [0b] literals, which take no sign. *)
Definition digit_of (u : Z) : Z :=
  if is_digit u then u - 48
  else if is_lower u then u - 87 else if is_upper u then u - 55 else 36.
Definition radix_of (u : Z) : option Z :=
  if (u =? 120) || (u =? 88) then Some 16
  else if (u =? 111) || (u =? 79) then Some 8
  else if (u =? 98) || (u =? 66) then Some 2 else None.
Definition radix_literal (s : jsstr) : option Z :=
  match s with
  | 48 :: u :: ((_ :: _) as ds) =>
      r ← radix_of u;
      if forallb (λ d, digit_of d <? r) ds then Some (foldl (λ n d, n * r + digit_of d) 0 ds) else None
  | _ => None
  end.

Definition scaled (m e : Z) : option Z :=
  if m =? 0 then Some 0
  else if 0 <=? e then round64 (m * 10 ^ e) 1 else round64 m (10 ^ (- e)).

(** The integer that [Number(text)] is; [None] for [NaN], an infinity or a fraction.  (A finite
    literal beyond the range of doubles, an infinity in the language, is kept as the integer it
    denotes: no check lets either through.) *)
Definition Number (text : jsstr) : option Z :=
  let t := trim text in
  match t with
  | [] => Some 0
  | _ =>
      match radix_literal t with
      | Some n => if n =? 0 then Some 0 else round64 n 1
      | None => let '(sg, s) := signed t in
                '(m, e) ← decimal s; Z.mul sg <$> scaled m e
      end
  end.

Example Number_plain : Number (js "3001") = Some 3001. Proof. reflexivity. Qed.
Example Number_space : Number (js " 15 ") = Some 15. Proof. reflexivity. Qed.
Example Number_empty : Number [] = Some 0. Proof. reflexivity. Qed.
Example Number_hex : Number (js "0x1F4") = Some 500. Proof. reflexivity. Qed.
Example Number_exponent : Number (js "1.2e3") = Some 1200. Proof. reflexivity. Qed.
Example Number_fraction : Number (js "1.5") = None. Proof. reflexivity. Qed.
Example Number_tail : Number (js "12px") = None. Proof. reflexivity. Qed.
Example Number_negative : Number (js "-7.") = Some (-7). Proof. reflexivity. Qed.
Example Number_rounds : Number (js "299.99999999999999999999") = Some 300. Proof. vm_compute. reflexivity. Qed.
Example Number_unsafe : Number (js "9007199254740993") = Some 9007199254740992. Proof. vm_compute. reflexivity. Qed.

(** ** Integers that fit are exact *)

Lemma div_even_exact n b : 0 < b → div_even (n * b) b = n.
Proof.
  intros Hb. unfold div_even. rewrite Z.mod_mul, Z.div_mul by lia.
  rewrite (proj2 (Z.compare_lt_iff _ _)) by lia. done.
Qed.

Lemma ulp_exponent_integer n : 0 < n < 2 ^ 53 → ulp_exponent n 1 ≤ 0.
Proof.
  intros Hn. unfold ulp_exponent. change (Z.log2 1) with 0.
  assert (Z.log2 n < 53) by (apply Z.log2_lt_pow2; lia).
  case_match; lia.
Qed.

Lemma round64_integer n : 0 < n < 2 ^ 53 → round64 n 1 = Some n.
Proof.
  intros Hn. unfold round64. pose proof (ulp_exponent_integer n Hn) as Hk.
  set (k := ulp_exponent n 1) in *. clearbody k. destruct (Z.leb_spec 0 k) as [Hz|Hz].
  - assert (k = 0) as -> by lia. change (1 * 2 ^ 0) with 1. f_equal.
    rewrite <- (Z.mul_1_r n) at 1. rewrite div_even_exact by lia. lia.
  - assert (0 < 2 ^ (- k)) by (apply Z.pow_pos_nonneg; lia).
    replace (div_even (n * 2 ^ (- k)) 1) with (n * 2 ^ (- k)) by (rewrite <- (Z.mul_1_r (n * 2 ^ (- k))) at 2; by rewrite div_even_exact). rewrite Z.mod_mul, Z.div_mul by lia.
    done.
Qed.

(** ** Decimal integers convert back *)

Lemma digit_char i : (i < 10)%N →
  is_digit (ascii_code (pretty_N_char i)) = true ∧ ascii_code (pretty_N_char i) - 48 = Z.of_N i.
Proof.
  intros Hi. destruct i as [|p]; [done|]. destruct p as [[[[]|[]|]|[[]|[]|]|]|[[[]|[]|]|[[]|[]|]|]|]; (exfalso; lia) || (split; reflexivity).
Qed.

Lemma js_cons a s : js (String.String a s) = ascii_code a :: js s.
Proof. done. Qed.

Lemma pretty_go_digits x s :
  forallb is_digit (js (pretty_N_go x s)) = forallb is_digit (js s)
  ∧ digits_value (js (pretty_N_go x s)) = foldl (λ n u, n * 10 + (u - 48)) (Z.of_N x) (js s).
Proof.
  unfold digits_value. revert s. induction (N.lt_wf_0 x) as [x _ IH]. intros s.
  destruct (decide (x = 0)%N) as [->|Hx]; [by rewrite pretty_N_go_0|].
  rewrite pretty_N_go_step by lia. pose proof (N.mod_lt x 10 ltac:(lia)) as Hm.
  destruct (IH (x / 10)%N) with (s := String.String (pretty_N_char (x mod 10)) s) as [E1 E2];
    [apply N.div_lt; lia|].
  destruct (digit_char _ Hm) as [D V]. rewrite E1, E2, js_cons. cbn [forallb foldl]. rewrite D, V. split; [done|].
  f_equal. pose proof (N.div_mod x 10 ltac:(lia)). lia.
Qed.

Lemma num_digits n : 0 ≤ n → forallb is_digit (num n) = true ∧ digits_value (num n) = n ∧ num n ≠ [].
Proof.
  intros Hn. unfold num. destruct n as [|p|]; [done| |lia].
  change (pretty (Z.pos p)) with (pretty_N_go (N.pos p) "").
  destruct (pretty_go_digits (N.pos p) "") as [E1 E2]. rewrite E1, E2. split_and!; [done|done|].
  intros E. rewrite E in E2. done.
Qed.

Lemma span_all f s : forallb f s = true → span f s = (s, []).
Proof.
  induction s as [|u s IH]; [done|]. cbn. intros [Hu Hs]%andb_true_iff. by rewrite Hu, (IH Hs).
Qed.

Lemma digit_no_space u : is_digit u = true → is_space u = false.
Proof. unfold is_digit, is_space. intros ?%andb_true_iff. lia. Qed.

Lemma trimStart_digits s : forallb is_digit s = true → trimStart s = s.
Proof. destruct s as [|u s]; [done|]. cbn. intros [Hu _]%andb_true_iff. by rewrite digit_no_space. Qed.

Lemma trim_digits s : forallb is_digit s = true → trim s = s.
Proof.
  intros Hs. unfold trim. rewrite (trimStart_digits s Hs), trimStart_digits; [apply reverse_involutive|].
  rewrite forallb_forall in *. intros u Hu. apply Hs, in_rev. unfold reverse in Hu. by rewrite <- rev_alt in Hu.
Qed.

Lemma radix_digits s : forallb is_digit s = true → radix_literal s = None.
Proof.
  intros Hs. destruct s as [|z [|u s]]; [done|by destruct z as [|[]|]; cbn; repeat case_match|].
  cbn in Hs. apply andb_true_iff in Hs as [_ [Hu _]%andb_true_iff].
  assert (radix_of u = None) as Hr. { unfold is_digit in Hu. unfold radix_of. repeat case_match; try done; lia. }
  unfold radix_literal. rewrite Hr. by repeat case_match.
Qed.

Lemma Number_num n : 0 ≤ n < 2 ^ 53 → Number (num n) = Some n.
Proof.
  intros Hn. destruct (num_digits n) as (Hd & Hv & Hne); [lia|]. unfold Number.
  rewrite trim_digits, radix_digits by done. destruct (num n) as [|u s] eqn:E; [done|].
  assert (signed (u :: s) = (1, u :: s)) as ->.
  { cbn in Hd. apply andb_true_iff in Hd as [Hu _]. unfold is_digit in Hu. cbn. repeat case_match; lia || done. }
  unfold decimal. rewrite span_all by done. cbn [app length mbind option_bind exponent_of fmap option_fmap option_map].
  rewrite app_nil_r, Hv. cbn. unfold scaled. destruct (Z.eqb_spec n 0) as [->|Hz]; [done|].
  rewrite Z.leb_refl, Z.mul_1_r, round64_integer by lia. cbn. f_equal. lia.
Qed.
