(* ===== verification/Json.v ===== *)
(** * [JSON.parse]

    The parser of the language: the grammar of ECMA-404 on UTF-16 text, numbers rounded to doubles,
    of a repeated name the last value.  It always ends, and it inverts [JSON.stringify]. *)

From S2P Require Import Prelude JsText Contracts JsString RuntimePolicy Buffers Password JsNumber.
Local Open Scope Z_scope.

(** ** Values *)

(** What a text parses to.  A number is the integer it denotes, or [None] for a fraction or an
    infinity; the sign of zero is not kept.  The names of an object are in the order in which they
    are first set, which no code asks of a parsed object. *)
Inductive value : Type :=
| VNull
| VBool (b : bool)
| VNum (n : option Z)
| VStr (s : jsstr)
| VArr (l : list value)
| VObj (l : list (jsstr * value)).

(** Setting a property: a repeated name keeps its place. *)
Fixpoint assign (k : jsstr) (v : value) (l : list (jsstr * value)) : list (jsstr * value) :=
  match l with
  | [] => [(k, v)]
  | (k', v') :: l' => if decide (k' = k) then (k, v) :: l' else (k', v') :: assign k v l'
  end.

(** ** Tokens *)

Definition is_ws (u : Z) : bool := (u =? 32) || (u =? 9) || (u =? 10) || (u =? 13).
Fixpoint skip_ws (s : jsstr) : jsstr :=
  match s with
  | u :: s' => if is_ws u then skip_ws s' else s
  | [] => []
  end.
(** The next unit after white space, when it is [c]. *)
Definition expect (c : Z) (s : jsstr) : option jsstr :=
  match skip_ws s with
  | u :: r => if u =? c then Some r else None
  | [] => None
  end.

Definition hex_value (c : Z) : option Z :=
  if is_digit c then Some (c - 48)
  else if (97 <=? c) && (c <=? 102) then Some (c - 87)
  else if (65 <=? c) && (c <=? 70) then Some (c - 55) else None.
Definition hex_unit (a b d e : Z) : option Z :=
  a ← hex_value a; b ← hex_value b; d ← hex_value d; e ← hex_value e;
  Some (a * 4096 + b * 256 + d * 16 + e).
Definition SLASH : Z := 47.
Definition simple_escape (c : Z) : option Z := if c =? SLASH then Some SLASH else short_unescape c.

(** The characters of a string up to the closing quote, and what follows. *)
Fixpoint string_body (s : jsstr) : option (jsstr * jsstr) :=
  match s with
  | [] => None
  | u :: r =>
      if u =? QUOTE then Some ([], r)
      else if u <? 32 then None
      else if u =? BACKSLASH then
        match r with
        | c :: r1 =>
            if c =? 117 then
              match r1 with
              | a :: b :: d :: e :: r2 =>
                  x ← hex_unit a b d e; prod_map (cons x) id <$> string_body r2
              | _ => None
              end
            else x ← simple_escape c; prod_map (cons x) id <$> string_body r1
        | [] => None
        end
      else prod_map (cons u) id <$> string_body r
  end.

(** At least one digit. *)
Definition digits1 (s : jsstr) : option (jsstr * jsstr) :=
  match span is_digit s with
  | ([], _) => None
  | x => Some x
  end.
Definition leading_zero (int : jsstr) : bool :=
  match int with
  | u :: _ :: _ => u =? 48
  | _ => false
  end.
Definition fraction (s : jsstr) : option (jsstr * jsstr) :=
  match s with
  | u :: r => if u =? 46 then digits1 r else Some ([], s)
  | [] => Some ([], [])
  end.
Definition exponent (s : jsstr) : option (Z * jsstr) :=
  match s with
  | u :: r => if is_e u then let '(sg, r) := signed r in
                             '(ds, r) ← digits1 r; Some (sg * digits_value ds, r)
              else Some (0, s)
  | [] => Some (0, [])
  end.
Definition minus (s : jsstr) : Z * jsstr :=
  match s with
  | u :: r => if u =? 45 then (-1, r) else (1, s)
  | [] => (1, [])
  end.
Definition number_token (s : jsstr) : option (option Z * jsstr) :=
  let '(sg, r) := minus s in
  '(int, r) ← digits1 r;
  if leading_zero int then None else
  '(frac, r) ← fraction r;
  '(e, r) ← exponent r;
  Some (Z.mul sg <$> scaled (digits_value (int ++ frac)) (e - Z.of_nat (length frac)), r).

Definition literal (s : jsstr) : option (value * jsstr) :=
  if startsWith (js "null") s then Some (VNull, drop 4 s)
  else if startsWith (js "true") s then Some (VBool true, drop 4 s)
  else if startsWith (js "false") s then Some (VBool false, drop 5 s) else None.

(** ** The parser *)

Definition COMMA : Z := 44.
Definition COLON : Z := 58.
Definition LBRACKET : Z := 91.
Definition RBRACKET : Z := 93.
Definition LBRACE : Z := 123.
Definition RBRACE : Z := 125.

Fixpoint parse_value (n : nat) (s : jsstr) : option (value * jsstr) :=
  match n with
  | O => None
  | S n =>
      match skip_ws s with
      | [] => None
      | u :: r =>
          if u =? LBRACE then
            match expect RBRACE r with
            | Some r' => Some (VObj [], r')
            | None => members n [] r
            end
          else if u =? LBRACKET then
            match expect RBRACKET r with
            | Some r' => Some (VArr [], r')
            | None => elements n [] r
            end
          else if u =? QUOTE then prod_map VStr id <$> string_body r
          else match literal (u :: r) with
               | Some x => Some x
               | None => prod_map VNum id <$> number_token (u :: r)
               end
      end
  end
with members (n : nat) (acc : list (jsstr * value)) (s : jsstr) : option (value * jsstr) :=
  match n with
  | O => None
  | S n =>
      r ← expect QUOTE s;
      '(k, r) ← string_body r;
      r ← expect COLON r;
      '(v, r) ← parse_value n r;
      match expect COMMA r with
      | Some r' => members n (assign k v acc) r'
      | None => r' ← expect RBRACE r; Some (VObj (assign k v acc), r')
      end
  end
with elements (n : nat) (acc : list value) (s : jsstr) : option (value * jsstr) :=
  match n with
  | O => None
  | S n =>
      '(v, r) ← parse_value n s;
      match expect COMMA r with
      | Some r' => elements n (acc ++ [v]) r'
      | None => r' ← expect RBRACKET r; Some (VArr (acc ++ [v]), r')
      end
  end.

(** Two steps for every unit and one more are enough ([fuel_enough]). *)
Definition enough (s : jsstr) : nat := S (2 * length s).
(** [JSON.parse]; [None] is a [SyntaxError]. *)
Definition parse (s : jsstr) : option value :=
  '(v, r) ← parse_value (enough s) s;
  match skip_ws r with
  | [] => Some v
  | _ => None
  end.


(** Text with its double quotes written as single ones. *)
Definition text (s : string) : jsstr := (λ u, if u =? 39 then QUOTE else u) <$> js s.
Example parse_sample :
  parse (text " {'a': [1, -20.5e1, 2.5, true], 'b':'\u0041\/' , 'a':null}")
  = Some (VObj [(js "a", VNull); (js "b", VStr (js "A/"))]).
Proof. vm_compute. reflexivity. Qed.
Example parse_rejects :
  parse ∘ text <$> ["{'a':1,}"; "[1 2]"; "01"; "1."; "'\x'"; "{a:1}"; "nul"; ""; "[] []"; "-"]%string
  = replicate 10 None.
Proof. vm_compute. reflexivity. Qed.

(** ** Tokens consume text *)

Lemma skip_ws_length s : (length (skip_ws s) ≤ length s)%nat.
Proof. induction s as [|u s IH]; [done|]. cbn. destruct (is_ws u); cbn; lia. Qed.
Lemma expect_length c s r : expect c s = Some r → (length r < length s)%nat.
Proof.
  unfold expect. pose proof (skip_ws_length s) as H. destruct (skip_ws s) as [|u r']; [done|].
  destruct (u =? c); [|done]. intros [= <-]. cbn in H. lia.
Qed.
Lemma span_length f s a b : span f s = (a, b) → length s = (length a + length b)%nat.
Proof.
  revert a b. induction s as [|u s IH]; intros a b; cbn; [by intros [= <- <-]|].
  destruct (f u); [|by intros [= <- <-]]. destruct (span f s) as [a' b'] eqn:E. intros [= <- <-].
  cbn. by rewrite (IH _ _ eq_refl).
Qed.

Lemma string_body_length s t r : string_body s = Some (t, r) → (length r < length s)%nat.
Proof.
  remember (length s) as n eqn:En. assert (length s ≤ n)%nat as Hn by lia. rewrite En. clear En.
  revert s t r Hn. induction n as [|n IH]; intros [|u s] t r Hn; try done; cbn [length] in *; [lia|].
  cbn [string_body].
  repeat match goal with
  | |- context [if ?c then _ else _] => destruct c
  | |- context [match ?l with [] => _ | _ :: _ => _ end] => is_var l; destruct l; cbn [length] in *
  end; try done.
  - intros [= _ <-]. lia.
  - intros (x & _ & ([t' r'] & H & [= _ ->])%fmap_Some)%bind_Some. apply IH in H; lia.
  - intros (x & _ & ([t' r'] & H & [= _ ->])%fmap_Some)%bind_Some. apply IH in H; cbn [length] in *; lia.
  - intros ([t' r'] & H & [= _ ->])%fmap_Some. apply IH in H; lia.
Qed.

Lemma digits1_length s d r : digits1 s = Some (d, r) → (length r < length s)%nat.
Proof.
  unfold digits1. destruct (span is_digit s) as [[|x a] b] eqn:E; [done|].
  apply span_length in E. intros [= _ <-]. rewrite E. cbn. lia.
Qed.
Lemma fraction_length s d r : fraction s = Some (d, r) → (length r ≤ length s)%nat.
Proof.
  destruct s as [|u s]; cbn; [by intros [= _ <-]|]. destruct (u =? 46); [|by intros [= _ <-]].
  intros ?%digits1_length. lia.
Qed.
Lemma signed_length s : (length (signed s).2 ≤ length s)%nat.
Proof. destruct s as [|u s]; cbn; [done|]. repeat case_match; cbn; lia. Qed.
Lemma exponent_length s d r : exponent s = Some (d, r) → (length r ≤ length s)%nat.
Proof.
  destruct s as [|u s]; cbn; [by intros [= _ <-]|]. destruct (is_e u); [|by intros [= _ <-]].
  pose proof (signed_length s) as Hs. destruct (signed s) as [sg s'].
  intros ([x y] & ?%digits1_length & [= _ <-])%bind_Some. cbn in *. lia.
Qed.
Lemma number_token_length s n r : number_token s = Some (n, r) → (length r < length s)%nat.
Proof.
  unfold number_token. assert (length (minus s).2 ≤ length s)%nat as Hm.
  { destruct s as [|u s]; cbn; [done|]. case_match; cbn; lia. }
  destruct (minus s) as [sg s1]. cbn in Hm.
  intros ([i s2] & ?%digits1_length & H)%bind_Some. destruct (leading_zero i); [done|].
  apply bind_Some in H as ([f s3] & ?%fraction_length & ([e s4] & ?%exponent_length & [= _ <-])%bind_Some). lia.
Qed.
Lemma literal_length s v r : literal s = Some (v, r) → (length r < length s)%nat.
Proof.
  unfold literal. destruct s as [|u s]; [done|]. intros H.
  repeat (case_match; [injection H as _ <-; cbn; rewrite length_drop; lia|]). done.
Qed.

(** Every construct that parses consumes some text. *)
Lemma parse_consumes n :
  (∀ s v r, parse_value n s = Some (v, r) → (length r < length s)%nat) ∧
  (∀ acc s v r, members n acc s = Some (v, r) → (length r < length s)%nat) ∧
  (∀ acc s v r, elements n acc s = Some (v, r) → (length r < length s)%nat).
Proof.
  induction n as [|n (IHv & IHm & IHe)]; [done|]. split_and!.
  - intros s v r. cbn [parse_value]. pose proof (skip_ws_length s) as Hs. destruct (skip_ws s) as [|u s']; [done|].
    cbn [length] in Hs.
    destruct (u =? LBRACE).
    { destruct (expect RBRACE s') as [r'|] eqn:E; [apply expect_length in E; intros [= _ <-]; lia|].
      intros ?%IHm. lia. }
    destruct (u =? LBRACKET).
    { destruct (expect RBRACKET s') as [r'|] eqn:E; [apply expect_length in E; intros [= _ <-]; lia|].
      intros ?%IHe. lia. }
    destruct (u =? QUOTE).
    { intros ([t r'] & ?%string_body_length & [= _ ->])%fmap_Some. lia. }
    destruct (literal (u :: s')) as [[w r']|] eqn:E.
    { apply literal_length in E. cbn [length] in E. intros [= _ <-]. lia. }
    intros ([t r'] & H%number_token_length & [= _ ->])%fmap_Some. cbn [length] in H. lia.
  - intros acc s v r. cbn [members].
    intros (s1 & H1%expect_length & ([k s2] & H2%string_body_length & (s3 & H3%expect_length
      & ([w s4] & H4%IHv & H)%bind_Some)%bind_Some)%bind_Some)%bind_Some.
    destruct (expect COMMA s4) as [s5|] eqn:E; [apply expect_length in E; apply IHm in H; lia|].
    apply bind_Some in H as (s5 & ?%expect_length & [= _ <-]). lia.
  - intros acc s v r. cbn [elements]. intros ([w s4] & H4%IHv & H)%bind_Some.
    destruct (expect COMMA s4) as [s5|] eqn:E; [apply expect_length in E; apply IHe in H; lia|].
    apply bind_Some in H as (s5 & ?%expect_length & [= _ <-]). lia.
Qed.

(** ** The fuel is enough *)

Lemma option_bind_ext_in {A B} (f g : A → option B) m : (∀ x, m = Some x → f x = g x) → m ≫= f = m ≫= g.
Proof. destruct m; cbn; auto. Qed.

Lemma fuel_irrelevant n :
  (∀ s m, (2 * length s < n)%nat → (n ≤ m)%nat → parse_value m s = parse_value n s) ∧
  (∀ acc s m, (2 * length s + 1 < n)%nat → (n ≤ m)%nat → members m acc s = members n acc s) ∧
  (∀ acc s m, (2 * length s + 1 < n)%nat → (n ≤ m)%nat → elements m acc s = elements n acc s).
Proof.
  induction n as [|n (IHv & IHm & IHe)]; [split_and!; lia|].
  split_and!; intros; (destruct m as [|m]; [lia|]).
  - cbn [parse_value]. pose proof (skip_ws_length s) as Hs. destruct (skip_ws s) as [|u s']; [done|].
    cbn [length] in Hs. rewrite IHm, IHe by lia. done.
  - cbn [members]. apply option_bind_ext_in. intros s1 H1%expect_length.
    apply option_bind_ext_in. intros [k s2] H2%string_body_length.
    apply option_bind_ext_in. intros s3 H3%expect_length. rewrite IHv by lia.
    apply option_bind_ext_in. intros [v s4] H4%parse_consumes.
    destruct (expect COMMA s4) as [s5|] eqn:E; [|done]. apply expect_length in E. apply IHm; lia.
  - cbn [elements]. rewrite IHv by lia. apply option_bind_ext_in. intros [v s4] H4%parse_consumes.
    destruct (expect COMMA s4) as [s5|] eqn:E; [|done]. apply expect_length in E. apply IHe; lia.
Qed.

(** More fuel never changes what [JSON.parse] answers: it stops because the text ends, not because
    the fuel does. *)
Lemma fuel_enough s n : (enough s ≤ n)%nat → parse_value n s = parse_value (enough s) s.
Proof. intros Hn. apply (proj1 (fuel_irrelevant (enough s))); unfold enough in *; lia. Qed.

(** ** Strings read back *)

Lemma hex_value_digit d : 0 ≤ d < 16 → hex_value (hexdigit d) = Some d.
Proof. intros Hd. unfold hex_value, hexdigit, is_digit. repeat case_match; f_equal; lia. Qed.
Lemma hex_unit_hex4 u : unit_ok u →
  hex_unit (hexdigit (u / 4096)) (hexdigit (u / 256 mod 16)) (hexdigit (u / 16 mod 16)) (hexdigit (u mod 16)) = Some u.
Proof.
  intros [H0 H1]. unfold hex_unit. rewrite !hex_value_digit by zdiv. cbn [mbind option_bind]. f_equal. zdiv.
Qed.

Lemma string_raw u r :
  (u =? QUOTE) = false → (u <? 32) = false → (u =? BACKSLASH) = false →
  string_body (u :: r) = prod_map (cons u) id <$> string_body r.
Proof. intros E1 E2 E3. cbn [string_body]. by rewrite E1, E2, E3. Qed.

Lemma string_escape_unit u r :
  unit_ok u → string_body (escape_unit u ++ r) = prod_map (cons u) id <$> string_body r.
Proof.
  intros Hu. unfold escape_unit. destruct (short_escape u) as [c|] eqn:E.
  - apply assocZ_Some in E. unfold short_escapes in E.
    repeat (apply elem_of_cons in E as [E|E]; [simplify_eq; reflexivity|]). by apply elem_of_nil in E.
  - case_match eqn:Eu.
    + unfold escape_u, hex4. cbn [app string_body]. change (string_body ?x) with (string_body x).
      rewrite hex_unit_hex4 by done. done.
    + apply string_raw; [apply Z.eqb_neq; intros ->; discriminate| |apply Z.eqb_neq; intros ->; discriminate].
      by apply orb_false_iff in Eu as [[? _]%orb_false_iff _].
Qed.

Lemma string_points s r :
  Forall unit_ok s → string_body (mjoin (escape_point <$> points s) ++ QUOTE :: r) = Some (s, r).
Proof.
  induction s as [|u|u v s E IH|u v s E IH] using points_ind; rewrite ?Forall_cons; intros Hs.
  - done.
  - destruct Hs as [Hu _]. cbn [points fmap list_fmap mjoin list_join escape_point].
    by rewrite app_nil_r, string_escape_unit.
  - destruct Hs as (_ & _ & Hs). rewrite points_pair, fmap_cons, join_cons by done. cbn [escape_point app].
    unfold is_high, is_low in E. rewrite !string_raw by (unfold QUOTE, BACKSLASH; lia). by rewrite IH.
  - destruct Hs as (Hu & Hs). rewrite points_unit, fmap_cons, join_cons, <- app_assoc by done. cbn [escape_point].
    rewrite string_escape_unit by done. rewrite IH by by rewrite Forall_cons. done.
Qed.
Lemma expect_quote s r : expect QUOTE (quote s ++ r) = Some (mjoin (escape_point <$> points s) ++ QUOTE :: r).
Proof. unfold quote. cbn. by rewrite <- app_assoc. Qed.

(** ** Numbers read back *)

(** The text after a value: no longer number follows. *)
Definition stops (r : jsstr) : Prop :=
  match r with
  | [] => True
  | u :: _ => is_digit u = false ∧ (u =? 46) = false ∧ is_e u = false
  end.

Lemma span_app f s r :
  forallb f s = true → match r with u :: _ => f u = false | [] => True end → span f (s ++ r) = (s, r).
Proof.
  intros Hs Hr. induction s as [|u s IH].
  - destruct r as [|u r]; cbn; [done|]. by rewrite Hr.
  - cbn in *. apply andb_true_iff in Hs as [Hu Hs]. by rewrite Hu, IH.
Qed.

Lemma pretty_go_head x s :
  (0 < x)%N → ∃ a t, js (pretty_N_go x s) = a :: t ∧ is_digit a = true ∧ a ≠ 48.
Proof.
  revert s. induction (N.lt_wf_0 x) as [x _ IH]. intros s Hx. rewrite pretty_N_go_step by done.
  pose proof (N.mod_lt x 10 ltac:(lia)) as Hm. destruct (decide (x / 10 = 0)%N) as [E|E].
  - rewrite E, pretty_N_go_0, js_cons. eexists _, _. split; [done|].
    destruct (digit_char _ Hm) as [D V]. split; [done|].
    intros E48. pose proof (N.div_mod x 10 ltac:(lia)) as Hd. rewrite E48 in V. lia.
  - apply IH; [apply N.div_lt; lia|by apply N.neq_0_lt_0].
Qed.
Lemma num_plain n : 0 ≤ n → leading_zero (num n) = false.
Proof.
  intros Hn. destruct n as [|p|]; [done| |lia].
  destruct (pretty_go_head (N.pos p) "" ltac:(done)) as (a & t & E & _ & Ha). unfold num.
  change (pretty (Z.pos p)) with (pretty_N_go (N.pos p) ""). rewrite E.
  destruct t; [done|]. cbn. by apply Z.eqb_neq.
Qed.

(** The units of a printed number: an optional sign and digits. *)
Lemma digits1_num n r : 0 ≤ n → stops r → digits1 (num n ++ r) = Some (num n, r).
Proof.
  intros Hn Hr. destruct (num_digits n Hn) as (Hd & _ & Hne). unfold digits1.
  rewrite span_app by (done || by destruct r; [|apply Hr]). by destruct (num n).
Qed.
Lemma fraction_stops r : stops r → fraction r = Some ([], r).
Proof. destruct r as [|u r]; [done|]. cbn. by intros (_ & -> & _). Qed.
Lemma exponent_stops r : stops r → exponent r = Some (0, r).
Proof. destruct r as [|u r]; [done|]. cbn. by intros (_ & _ & ->). Qed.
Lemma scaled_integer n : 0 ≤ n < 2 ^ 53 → scaled n 0 = Some n.
Proof.
  intros Hn. unfold scaled. destruct (Z.eqb_spec n 0) as [->|]; [done|]. cbn. rewrite Z.mul_1_r. apply round64_integer. lia.
Qed.

Lemma js_pretty_neg p : js (pretty (Z.neg p)) = 45 :: num (Z.pos p).
Proof. done. Qed.
Lemma minus_num n r : 0 ≤ n → minus (num n ++ r) = (1, num n ++ r).
Proof.
  intros Hn. destruct (num_digits n Hn) as (Hd & _ & Hne). destruct (num n) as [|u s]; [done|].
  cbn in Hd. apply andb_true_iff in Hd as [Hu _]. unfold is_digit in Hu. cbn. case_match; [lia|done].
Qed.
Lemma number_tail sg n r :
  0 ≤ n < 2 ^ 53 → stops r →
  ('(int, r) ← digits1 (num n ++ r);
   if leading_zero int then None else
   '(frac, r) ← fraction r;
   '(e, r) ← exponent r;
   Some (Z.mul sg <$> scaled (digits_value (int ++ frac)) (e - Z.of_nat (length frac)), r))
  = Some (Some (sg * n), r).
Proof.
  intros Hn Hr. rewrite digits1_num by (done || lia). cbn [mbind option_bind]. rewrite num_plain by lia.
  rewrite fraction_stops by done. cbn [mbind option_bind]. rewrite exponent_stops by done. cbn [mbind option_bind length].
  destruct (num_digits n) as (_ & Hv & _); [lia|]. by rewrite app_nil_r, Hv, scaled_integer.
Qed.
Lemma number_token_num n r :
  Z.abs n < 2 ^ 53 → stops r → number_token (js (pretty n) ++ r) = Some (Some n, r).
Proof.
  intros Hn Hr. unfold number_token. destruct n as [|p|p].
  - change (js (pretty 0)) with (num 0). rewrite minus_num by lia. by rewrite number_tail.
  - change (js (pretty (Z.pos p))) with (num (Z.pos p)). rewrite minus_num by lia.
    rewrite number_tail by (done || lia). by rewrite Z.mul_1_l.
  - rewrite js_pretty_neg. cbn [app minus]. rewrite Z.eqb_refl, number_tail by (done || lia). done.
Qed.
Lemma pretty_head (n : Z) : ∃ u t, js (pretty n) = u :: t ∧ (is_digit u = true ∨ u = 45).
Proof.
  destruct n as [|p|p].
  - by exists 48, []; auto.
  - destruct (pretty_go_head (N.pos p) "" ltac:(done)) as (a & t & E & D & _). exists a, t. auto.
  - rewrite js_pretty_neg. eauto.
Qed.

(** ** The round trip *)

Lemma json_nested_ind (P : json → Prop) :
  P JNull → (∀ b, P (JBool b)) → (∀ n, P (JNum n)) → (∀ s, P (JStr s)) →
  (∀ l, Forall P l → P (JArr l)) → (∀ l, Forall (λ kv, P kv.2) l → P (JObj l)) → ∀ j, P j.
Proof.
  intros H1 H2 H3 H4 H5 H6. fix IH 1. intros [|b|n|s|l|l]; [done|auto..| |].
  - apply H5. induction l as [|j l IHl]; constructor; [apply IH|done].
  - apply H6. induction l as [|[k j] l IHl]; constructor; [apply IH|done].
Qed.

(** What [JSON.stringify] can be given: safe integers, UTF-16 text, objects that set a name once. *)
Definition unit_okb (u : Z) : bool := (0 <=? u) && (u <? 65536).
Fixpoint plain (j : json) : bool :=
  match j with
  | JNull | JBool _ => true
  | JNum n => Z.abs n <? 2 ^ 53
  | JStr s => forallb unit_okb s
  | JArr l => forallb plain l
  | JObj l => bool_decide (NoDup l.*1) && forallb (λ kv, plain kv.2) l
  end.
Fixpoint of_json (j : json) : value :=
  match j with
  | JNull => VNull
  | JBool b => VBool b
  | JNum n => VNum (Some n)
  | JStr s => VStr s
  | JArr l => VArr (List.map of_json l)
  | JObj l => VObj (List.map (λ kv, (js kv.1, of_json kv.2)) l)
  end.

Lemma unit_okb_spec s : forallb unit_okb s = true → Forall unit_ok s.
Proof.
  rewrite forallb_forall, Forall_forall. intros H u Hu%list_elem_of_In. apply H in Hu. unfold unit_okb in Hu.
  unfold unit_ok. lia.
Qed.

Lemma assign_new k v l : k ∉ l.*1 → assign k v l = l ++ [(k, v)].
Proof.
  induction l as [|[k' v'] l IH]; [done|]. cbn. rewrite elem_of_cons. intros Hk.
  rewrite decide_False by (intros ->; tauto). by rewrite IH by tauto.
Qed.

(** The parser at a value of the list, at any fuel that is enough for the text. *)
Definition reads (j : json) : Prop :=
  ∀ n r, plain j = true → stops r → (2 * length (stringify j ++ r) < n)%nat →
    parse_value n (stringify j ++ r) = Some (of_json j, r).

Lemma elements_read l :
  Forall reads l → ∀ j acc n r,
  reads j → plain j = true → forallb plain l = true →
  (2 * length (intercalate (js ",") (stringify <$> j :: l) ++ js "]" ++ r) + 1 < n)%nat →
  elements n acc (intercalate (js ",") (stringify <$> j :: l) ++ js "]" ++ r)
  = Some (VArr (acc ++ (of_json <$> j :: l)), r).
Proof.
  induction 1 as [|x l Hx Hl IH]; intros j acc n r Hj Pj Pl Hn; (destruct n as [|n]; [lia|]); cbn [elements].
  - cbn [fmap list_fmap intercalate] in *. rewrite Hj by (done || lia). done.
  - cbn [forallb] in Pl. apply andb_true_iff in Pl as [Px Pl].
    change (intercalate (js ",") (stringify <$> j :: x :: l))
      with (stringify j ++ js "," ++ intercalate (js ",") (stringify <$> x :: l)) in *.
    rewrite <- !app_assoc in *. rewrite Hj by (done || lia). cbn [mbind option_bind].
    change (expect COMMA (js "," ++ ?s)) with (Some s). cbv iota.
    rewrite !length_app in Hn. cbn [length js] in Hn. rewrite IH; [by rewrite <- app_assoc|done..|].
    rewrite !length_app. cbn in *. lia.
Qed.

Definition entry_text (kv : string * json) : jsstr := quote (js kv.1) ++ js ":" ++ stringify kv.2.
Definition entry_value (kv : string * json) : jsstr * value := (js kv.1, of_json kv.2).

Lemma entry_read kv n acc r r' :
  reads kv.2 → plain kv.2 = true → stops r' →
  (2 * length (entry_text kv ++ r') + 1 < S n)%nat → r = entry_text kv ++ r' →
  members (S n) acc r =
    match expect COMMA r' with
    | Some r'' => members n (assign (js kv.1) (of_json kv.2) acc) r''
    | None => r'' ← expect RBRACE r'; Some (VObj (assign (js kv.1) (of_json kv.2) acc), r'')
    end.
Proof.
  intros Hj Pj Hr Hn ->. unfold entry_text in *. rewrite <- !app_assoc in *. cbn [members].
  rewrite expect_quote. cbn [mbind option_bind]. rewrite string_points by apply js_unit_ok. cbn [mbind option_bind].
  change (expect COLON (js ":" ++ ?s)) with (Some s). cbn [mbind option_bind].
  rewrite !length_app in Hn. rewrite Hj by (done || rewrite !length_app; lia). done.
Qed.

Lemma entry_names l : (entry_value <$> l).*1 = js <$> l.*1.
Proof. by rewrite <- !list_fmap_compose. Qed.

Lemma members_read l :
  Forall (λ kv, reads kv.2) l → ∀ kv acc n r,
  reads kv.2 → plain kv.2 = true → forallb (λ kv, plain kv.2) l = true →
  NoDup (acc.*1 ++ (entry_value <$> kv :: l).*1) →
  (2 * length (intercalate (js ",") (entry_text <$> kv :: l) ++ js "}" ++ r) + 1 < n)%nat →
  members n acc (intercalate (js ",") (entry_text <$> kv :: l) ++ js "}" ++ r)
  = Some (VObj (acc ++ (entry_value <$> kv :: l)), r).
Proof.
  induction 1 as [|x l Hx Hl IH]; intros kv acc n r Hj Pj Pl Hd Hn; (destruct n as [|n]; [lia|]).
  all: assert (js kv.1 ∉ acc.*1) as Hk by
    (apply NoDup_app in Hd as (_ & Hd & _); intros Hin; apply (Hd _ Hin); left).
  - cbn [fmap list_fmap intercalate] in *. rewrite (entry_read kv n acc _ (js "}" ++ r)) by (done || lia).
    change (expect COMMA (js "}" ++ r)) with (@None jsstr). cbv iota. by rewrite assign_new.
  - cbn [forallb] in Pl. apply andb_true_iff in Pl as [Px Pl].
    change (intercalate (js ",") (entry_text <$> kv :: x :: l))
      with (entry_text kv ++ js "," ++ intercalate (js ",") (entry_text <$> x :: l)) in *.
    rewrite <- !app_assoc in *.
    rewrite (entry_read kv n acc _ (js "," ++ intercalate (js ",") (entry_text <$> x :: l) ++ js "}" ++ r)) by (done || lia).
    change (expect COMMA (js "," ++ ?s)) with (Some s). cbv iota. rewrite assign_new by done.
    rewrite (length_app (entry_text kv)) in Hn. cbn [length js fmap list_fmap app String.list_ascii_of_string] in Hn.
    rewrite IH; [by rewrite <- app_assoc|done..| |cbn in *; lia].
    rewrite fmap_app, <- app_assoc. exact Hd.
Qed.

Lemma stringify_arr l : stringify (JArr l) = js "[" ++ intercalate (js ",") (stringify <$> l) ++ js "]".
Proof. done. Qed.
Lemma stringify_obj l : stringify (JObj l) = js "{" ++ intercalate (js ",") (entry_text <$> l) ++ js "}".
Proof. cbn [stringify]. do 3 f_equal. apply map_ext. by intros []. Qed.
Lemma of_json_obj l : of_json (JObj l) = VObj (entry_value <$> l).
Proof. done. Qed.

(** No value begins with a closing bracket. *)
Lemma stringify_head j : ∃ u t, stringify j = u :: t ∧ is_ws u = false ∧ u ≠ RBRACKET.
Proof.
  destruct j as [|[]|n|s|l|l]; try (eexists _, _; split; [reflexivity|done]).
  destruct (pretty_head n) as (u & t & E & D). exists u, t. split; [exact E|].
  unfold is_digit, is_ws, RBRACKET in *. destruct D as [D| ->]; [|done]. split; lia.
Qed.

Lemma literal_number u t : is_digit u = true ∨ u = 45 → literal (u :: t) = None.
Proof.
  intros H. assert ((110 =? u) = false ∧ (116 =? u) = false ∧ (102 =? u) = false) as (E1 & E2 & E3).
  { unfold is_digit in H. lia. }
  unfold literal. change (startsWith (js "null") (u :: t)) with ((110 =? u) && startsWith (js "ull") t).
  change (startsWith (js "true") (u :: t)) with ((116 =? u) && startsWith (js "rue") t).
  change (startsWith (js "false") (u :: t)) with ((102 =? u) && startsWith (js "alse") t). by rewrite E1, E2, E3.
Qed.

Lemma intercalate_head sep x l : ∃ t, intercalate sep (x :: l) = x ++ t.
Proof. destruct l as [|y l]; [exists []; by rewrite app_nil_r|by eexists]. Qed.
Lemma expect_skips c u r : is_ws u = false → u ≠ c → expect c (u :: r) = None.
Proof. intros Hw Hu. unfold expect. cbn. rewrite Hw. by rewrite (proj2 (Z.eqb_neq u c)). Qed.

Lemma parse_array n s : expect RBRACKET s = None → parse_value (S n) (js "[" ++ s) = elements n [] s.
Proof. intros E. change (parse_value (S n) _) with (match expect RBRACKET s with Some r => Some (VArr [], r) | None => elements n [] s end).
  by rewrite E. Qed.
Lemma parse_object n s : expect RBRACE s = None → parse_value (S n) (js "{" ++ s) = members n [] s.
Proof. intros E. change (parse_value (S n) _) with (match expect RBRACE s with Some r => Some (VObj [], r) | None => members n [] s end).
  by rewrite E. Qed.

Lemma read_number m : reads (JNum m).
Proof.
  intros [|n] r Hp Hr Hn; [lia|]. cbn [stringify plain of_json] in *. apply Z.ltb_lt in Hp.
  pose proof (number_token_num m r Hp Hr) as Ht.
  destruct (pretty_head m) as (u & t & E & D). rewrite E in *. cbn [app] in *. cbn [parse_value].
  pose proof D as D'. unfold is_digit in D'.
  assert (skip_ws (u :: t ++ r) = u :: t ++ r) as ->. { cbn. unfold is_ws. case_match; [lia|done]. }
  unfold LBRACE, LBRACKET, QUOTE. rewrite !(proj2 (Z.eqb_neq u _)) by lia. by rewrite literal_number, Ht.
Qed.
Lemma read_string s : reads (JStr s).
Proof.
  intros [|n] r Hp Hr Hn; [lia|]. cbn [stringify plain of_json] in *. apply unit_okb_spec in Hp.
  unfold quote. cbn [app parse_value skip_ws]. rewrite <- app_assoc. cbn [app]. change (is_ws QUOTE) with false. cbv iota.
  change (QUOTE =? LBRACE) with false. change (QUOTE =? LBRACKET) with false. rewrite Z.eqb_refl.
  by rewrite string_points.
Qed.
Lemma read_array l : Forall reads l → reads (JArr l).
Proof.
  intros IH [|n] r Hp Hr Hn; [lia|]. rewrite stringify_arr in *. cbn [plain] in Hp. destruct l as [|x l]; [done|].
  rewrite <- !app_assoc in *. cbn [forallb] in Hp. apply andb_true_iff in Hp as [Px Pl].
  apply Forall_cons in IH as [Hx IH]. rewrite parse_array; cycle 1.
  - destruct (stringify_head x) as (u & t & E & Hw & Hu). cbn [fmap list_fmap].
    destruct (intercalate_head (js ",") (stringify x) (stringify <$> l)) as [t' ->]. rewrite E. by apply expect_skips.
  - apply (elements_read l IH x [] n r); [done..|]. cbn in *. lia.
Qed.
Lemma read_object l : Forall (λ kv, reads kv.2) l → reads (JObj l).
Proof.
  intros IH [|n] r Hp Hr Hn; [lia|]. rewrite stringify_obj, of_json_obj in *. cbn [plain] in Hp.
  destruct l as [|x l]; [done|]. rewrite <- !app_assoc in *.
  apply andb_true_iff in Hp as [Hd%bool_decide_eq_true Hp]. cbn [forallb] in Hp. apply andb_true_iff in Hp as [Px Pl].
  apply Forall_cons in IH as [Hx IH]. rewrite parse_object; cycle 1.
  - cbn [fmap list_fmap]. destruct (intercalate_head (js ",") (entry_text x) (entry_text <$> l)) as [t' ->]. done.
  - apply (members_read l IH x [] n r); [done..| |cbn in *; lia].
    rewrite entry_names. by apply (NoDup_fmap_2 js).
Qed.

Lemma stringify_read j : reads j.
Proof.
  induction j using json_nested_ind; eauto using read_number, read_string, read_array, read_object;
    intros [|n] r Hp Hr Hn; try lia; [done|by destruct b].
Qed.

(** [JSON.parse] inverts [JSON.stringify] on every value of safe integers, UTF-16 text, arrays and
    objects that set each name once. *)
Lemma parse_stringify j : plain j = true → parse (stringify j) = Some (of_json j).
Proof.
  intros Hp. unfold parse. pose proof (stringify_read j (enough (stringify j)) [] Hp I) as H.
  rewrite app_nil_r in H. rewrite H by (unfold enough; lia). done.
Qed.

(** ** JSON as UTF-8 *)

Lemma wf_app s t : well_formed s = true → well_formed t = true → well_formed (s ++ t) = true.
Proof.
  induction s as [|u|u v s E IH|u v s E IH] using points_ind; intros Hs Ht; [done| | |].
  - cbn in *. destruct t as [|v t]; [done|]. apply negb_true_iff in Hs. apply orb_false_iff in Hs as [-> ->]. done.
  - cbn in *. rewrite E in *. auto.
  - cbn [app]. change (well_formed (u :: v :: s ++ t) = true). cbn [well_formed] in Hs |- *. rewrite E in *.
    apply andb_true_iff in Hs as [-> Hs]. by apply IH.
Qed.
Lemma wf_plain s : Forall (λ u, is_high u || is_low u = false) s → well_formed s = true.
Proof.
  induction 1 as [|u s Hu _ IH]; [done|]. apply (wf_app [u] s); [|done]. cbn. by rewrite Hu.
Qed.
Lemma wf_ascii s : Forall (λ u, 0 ≤ u < 256) s → well_formed s = true.
Proof.
  intros H. apply wf_plain. eapply Forall_impl; [exact H|]. intros u Hu. cbn in Hu. unfold is_high, is_low. lia.
Qed.
Lemma js_ascii s : Forall (λ u, 0 ≤ u < 256) (js s).
Proof.
  unfold js. apply Forall_fmap, Forall_forall. intros a _. cbn.
  pose proof (Ascii.N_ascii_bounded a). unfold ascii_code. lia.
Qed.
Lemma wf_js s : well_formed (js s) = true.
Proof. apply wf_ascii, js_ascii. Qed.

Lemma hexdigit_ascii d : 0 ≤ d < 16 → 0 ≤ hexdigit d < 256.
Proof. unfold hexdigit. intros. case_match; lia. Qed.
Lemma escape_unit_units u : unit_ok u → Forall unit_ok (escape_unit u) ∧ well_formed (escape_unit u) = true.
Proof.
  intros Hu. unfold escape_unit. destruct (short_escape u) as [c|] eqn:E.
  - apply assocZ_Some in E. unfold short_escapes in E.
    repeat (apply elem_of_cons in E as [E|E]; [simplify_eq; split; [repeat constructor; done|reflexivity]|]).
    by apply elem_of_nil in E.
  - destruct (_ || _) eqn:Es.
    + assert (Forall (λ x, 0 ≤ x < 256) (escape_u u)) as Ha.
      { destruct Hu. unfold escape_u, hex4. repeat constructor; try (unfold BACKSLASH; lia); apply hexdigit_ascii; zdiv. }
      split; [|by apply wf_ascii]. eapply Forall_impl; [exact Ha|]. unfold unit_ok. cbn. lia.
    + split; [by repeat constructor; apply Hu|]. cbn. apply orb_false_iff in Es as [[_ ->]%orb_false_iff ->]. done.
Qed.
Lemma escaped_units s :
  Forall unit_ok s → Forall unit_ok (mjoin (escape_point <$> points s)) ∧ well_formed (mjoin (escape_point <$> points s)) = true.
Proof.
  induction s as [|u|u v s E IH|u v s E IH] using points_ind; rewrite ?Forall_cons; intros Hs.
  - done.
  - destruct Hs as [Hu _]. cbn [points fmap list_fmap mjoin list_join escape_point]. rewrite app_nil_r. by apply escape_unit_units.
  - destruct Hs as (Hu & Hv & Hs). rewrite points_pair, fmap_cons, join_cons by done. cbn [escape_point app].
    destruct (IH Hs) as [H1 H2]. split; [by repeat constructor; try apply Hu; try apply Hv|].
    cbn [well_formed]. by rewrite E.
  - destruct Hs as (Hu & Hs). rewrite points_unit, fmap_cons, join_cons by done. cbn [escape_point].
    destruct (IH ltac:(by rewrite Forall_cons)) as [H1 H2]. destruct (escape_unit_units u Hu) as [H3 H4].
    split; [by apply Forall_app|by apply wf_app].
Qed.

(** The units of a text, and that its surrogates are paired. *)
Definition sound_text (s : jsstr) : Prop := Forall unit_ok s ∧ well_formed s = true.
Lemma sound_app s t : sound_text s → sound_text t → sound_text (s ++ t).
Proof. intros [? ?] [? ?]. split; [by apply Forall_app|by apply wf_app]. Qed.
Lemma sound_js s : sound_text (js s).
Proof. split; [apply js_unit_ok|apply wf_js]. Qed.
Lemma sound_quote s : Forall unit_ok s → sound_text (quote s).
Proof.
  intros Hs. apply (sound_app [QUOTE]); [by repeat constructor|]. apply sound_app; [by apply escaped_units|by repeat constructor].
Qed.
Lemma sound_intercalate l : Forall sound_text l → sound_text (intercalate (js ",") l).
Proof.
  induction 1 as [|x l Hx Hl IH]; [done|]. destruct l as [|y l]; [done|].
  apply sound_app; [done|]. apply sound_app; [apply sound_js|done].
Qed.
Create HintDb sound.
#[local] Hint Resolve sound_app sound_js sound_quote sound_intercalate js_unit_ok : sound.

(** [JSON.stringify] never writes a lone surrogate. *)
Lemma stringify_sound j : plain j = true → sound_text (stringify j).
Proof.
  induction j as [|b|m|s|l IH|l IH] using json_nested_ind; intros Hp; try apply sound_js.
  - apply sound_quote. by apply unit_okb_spec.
  - rewrite stringify_arr. cbn [plain] in Hp. do 2 (apply sound_app; auto with sound). apply sound_intercalate.
    rewrite forallb_forall in Hp. rewrite Forall_fmap. rewrite Forall_forall in IH |- *. intros x Hx.
    apply IH, Hp; [done|by apply list_elem_of_In].
  - rewrite stringify_obj. cbn [plain] in Hp. apply andb_true_iff in Hp as [_ Hp].
    do 2 (apply sound_app; auto with sound). apply sound_intercalate.
    rewrite forallb_forall in Hp. rewrite Forall_fmap. rewrite Forall_forall in IH |- *. intros x Hx. unfold compose, entry_text.
    do 2 (apply sound_app; auto with sound). apply IH; [done|]. by apply (Hp x), list_elem_of_In.
Qed.

Lemma encode_unit_bytes u : unit_ok u → Forall byte (encode_unit u).
Proof.
  intros [H0 H1]. unfold encode_unit, cont, byte, is_high, is_low, REPLACEMENT.
  repeat case_match; repeat constructor; zdiv.
Qed.
Lemma encode_bytes s : Forall unit_ok s → Forall byte (encode s).
Proof.
  induction s as [|u|u v s E IH|u v s E IH] using points_ind; rewrite ?Forall_cons; intros Hs.
  - constructor.
  - by apply encode_unit_bytes, Hs.
  - destruct Hs as (Hu & Hv & Hs). cbn [encode]. rewrite E. apply Forall_app. split; [|by apply IH].
    unfold is_high, is_low in E. unfold encode4, scalar, cont, byte. repeat constructor; zdiv.
  - destruct Hs as (Hu & Hs). rewrite encode_lone by done. apply Forall_app. split; [by apply encode_unit_bytes|].
    apply IH. by rewrite Forall_cons.
Qed.

(** JSON written to a buffer and read back. *)
Lemma parse_utf8 j : plain j = true → parse (decode (encode (stringify j))) = Some (of_json j).
Proof.
  intros Hp. destruct (stringify_sound j Hp) as [H1 H2]. rewrite decode_encode by done. by apply parse_stringify.
Qed.

(** * [URLSearchParams]

    The form encoding of the language's URL library: what [toString] writes and the parser reads back, on
    the bytes of the UTF-8 encoding. *)


Definition AMP : Z := 38.
Definition EQUALS : Z := 61.
Definition PERCENT : Z := 37.
Definition PLUS : Z := 43.

(** ** Writing *)

Definition form_plain (b : Z) : bool := is_alnum b || (b =? 42) || (b =? 45) || (b =? 46) || (b =? 95).
Definition hex_upper (d : Z) : Z := if d <? 10 then 48 + d else 55 + d.
Definition form_byte (b : Z) : jsstr :=
  if b =? 32 then [PLUS] else if form_plain b then [b] else [PERCENT; hex_upper (b / 16); hex_upper (b mod 16)].
Definition form_text (s : jsstr) : jsstr := mjoin (form_byte <$> encode s).
Definition form_pair (kv : jsstr * jsstr) : jsstr := form_text kv.1 ++ [EQUALS] ++ form_text kv.2.
(** [new URLSearchParams(entries).toString()]. *)
Definition form (l : list (jsstr * jsstr)) : jsstr := intercalate [AMP] (form_pair <$> l).

(** ** Reading *)

Fixpoint percent_decode (s : jsstr) : buffer :=
  match s with
  | [] => []
  | u :: r =>
      if u =? PLUS then 32 :: percent_decode r
      else if u =? PERCENT then
        match r with
        | a :: b :: r' =>
            match hex_value a, hex_value b with
            | Some x, Some y => (x * 16 + y) :: percent_decode r'
            | _, _ => u :: percent_decode r
            end
        | _ => u :: percent_decode r
        end
      else u :: percent_decode r
  end.
(** The name before the first [=] and the value after it. *)
Fixpoint cut (s : jsstr) : jsstr * jsstr :=
  match s with
  | [] => ([], [])
  | u :: r => if u =? EQUALS then ([], r) else let '(a, b) := cut r in (u :: a, b)
  end.
Definition parse_pair (s : jsstr) : jsstr * jsstr :=
  let '(k, v) := cut s in (decode (percent_decode k), decode (percent_decode v)).
(** The pairs of a query; empty parts are skipped. *)
Definition form_parse (s : jsstr) : list (jsstr * jsstr) :=
  parse_pair <$> filter (λ p, p ≠ []) (split AMP s).
(** [searchParams.get(name)]. *)
Fixpoint search_get (k : jsstr) (l : list (jsstr * jsstr)) : option jsstr :=
  match l with
  | [] => None
  | (k', v) :: l' => if decide (k' = k) then Some v else search_get k l'
  end.

(** ** The round trip *)

Lemma hex_value_upper d : 0 ≤ d < 16 → hex_value (hex_upper d) = Some d.
Proof. intros Hd. unfold hex_value, hex_upper, is_digit. repeat case_match; try lia; f_equal; lia. Qed.

Lemma percent_byte b r : byte b → percent_decode (form_byte b ++ r) = b :: percent_decode r.
Proof.
  intros [H0 H1]. unfold form_byte. destruct (Z.eqb_spec b 32) as [->|]; [done|].
  destruct (form_plain b) eqn:E.
  - unfold form_plain, is_alnum, is_lower, is_upper, is_digit in E.
    cbn [app percent_decode]. unfold PLUS, PERCENT. by rewrite !(proj2 (Z.eqb_neq b _)) by lia.
  - cbn [app percent_decode]. change (PERCENT =? PLUS) with false. rewrite Z.eqb_refl, !hex_value_upper by zdiv.
    f_equal. zdiv.
Qed.
Lemma percent_bytes l : Forall byte l → percent_decode (mjoin (form_byte <$> l)) = l.
Proof.
  induction 1 as [|b l Hb _ IH]; [done|]. rewrite fmap_cons, join_cons, percent_byte by done. by rewrite IH.
Qed.

(** The separators do not occur in encoded text. *)
Lemma form_byte_clean b u : byte b → u ∈ form_byte b → (u ≠ AMP) ∧ (u ≠ EQUALS).
Proof.
  intros [H0 H1]. unfold form_byte, AMP, EQUALS. destruct (b =? 32); [|destruct (form_plain b) eqn:E].
  - intros ->%list_elem_of_singleton. done.
  - intros ->%list_elem_of_singleton. unfold form_plain, is_alnum, is_lower, is_upper, is_digit in E. lia.
  - assert (∀ d, 0 ≤ d < 16 → (hex_upper d ≠ 38) ∧ (hex_upper d ≠ 61)) as Hh.
    { intros d Hd. unfold hex_upper. case_match; lia. }
    rewrite !elem_of_cons. intros [->|[->|[->|[]%elem_of_nil]]]; [done|apply Hh; zdiv..].
Qed.
Lemma form_text_clean s : Forall unit_ok s → (AMP ∉ form_text s) ∧ (EQUALS ∉ form_text s).
Proof.
  intros Hs%encode_bytes. rewrite Forall_forall in Hs. unfold form_text.
  split; intros Hu; apply list_elem_of_join in Hu as (l & Hu & (b & -> & Hb)%list_elem_of_fmap);
    by apply form_byte_clean in Hu as [? ?]; [|by apply Hs].
Qed.

Lemma cut_at s t : EQUALS ∉ s → cut (s ++ [EQUALS] ++ t) = (s, t).
Proof.
  induction s as [|u s IH]; [done|]. rewrite not_elem_of_cons. intros [Hu Hs]. specialize (IH Hs). cbn in *.
  rewrite (proj2 (Z.eqb_neq _ _)) by done. by rewrite IH.
Qed.

Definition sound_pair (kv : jsstr * jsstr) : Prop := sound_text kv.1 ∧ sound_text kv.2.
Lemma parse_form_pair kv : sound_pair kv → parse_pair (form_pair kv) = kv.
Proof.
  intros [[Hk Wk] [Hv Wv]]. destruct kv as [k v]. unfold parse_pair, form_pair. cbn [fst snd] in *.
  rewrite cut_at by (by apply form_text_clean). unfold form_text.
  by rewrite !percent_bytes, !decode_encode by by (done || apply encode_bytes).
Qed.

Lemma form_pair_clean kv : sound_pair kv → AMP ∉ form_pair kv.
Proof.
  intros [[Hk _] [Hv _]]. unfold form_pair. rewrite !not_elem_of_app, list_elem_of_singleton.
  split_and!; [by apply form_text_clean|done|by apply form_text_clean].
Qed.

(** The parameters that [URLSearchParams] writes are those its parser reads, for text without lone
    surrogates. *)
Lemma form_roundtrip l : Forall sound_pair l → form_parse (form l) = l.
Proof.
  intros Hl. unfold form_parse, form. destruct l as [|p l]; [done|].
  rewrite split_intercalate; [|done|].
  - rewrite filter_all_in; cycle 1.
    { intros x (kv & -> & _)%list_elem_of_fmap. unfold form_pair. by destruct (form_text kv.1). }
    rewrite <- list_fmap_compose. rewrite <- (list_fmap_id (p :: l)) at 2. apply list_fmap_ext.
    intros i kv Hi. apply parse_form_pair. rewrite Forall_forall in Hl. by eapply Hl, list_elem_of_lookup_2.
  - rewrite Forall_fmap. eapply Forall_impl; [exact Hl|]. apply form_pair_clean.
Qed.
