(* ===== verification/Config.v ===== *)
(** * Configuration ([apps/api/src/config/config.ts], [executions/worker-config.ts], [queue.ts:10-14])

    The environment schemas of the API and of the worker with their cross-field rules, the getters
    the other parts read, and the Redis connection options.  The environment is a function from
    names to optional strings.  A flag ['true'|'false'] is a [bool].  What a rejected environment's
    message lists (the names of the offending fields) is not modelled.

    The URL parser, [node:net]'s [isIP], Zod's URL format and [decodeURIComponent] are parameters. *)

From S2P Require Import Prelude JsText Contracts JsString RuntimePolicy Password JsNumber.
Local Open Scope Z_scope.

(** A parsed [URL]; the components the configuration reads. *)
Record Url := mkUrl {
  u_protocol : jsstr; u_username : jsstr; u_password : jsstr; u_hostname : jsstr; u_port : jsstr;
  u_pathname : jsstr; u_search : jsstr; u_hash : jsstr; u_origin : jsstr
}.

Definition nonempty (s : jsstr) : bool := match s with [] => false | _ => true end.
(** The truth value of an optional string. *)
Definition truthy (o : option jsstr) : bool := match o with Some s => nonempty s | None => false end.

(** ** Standard base64 *)

Definition b64_std (u : Z) : Z := if u =? 45 then 43 else if u =? 95 then 47 else u.
(** [buffer.toString('base64')], padded. *)
Definition to_base64 (l : list Z) : jsstr :=
  (b64_std <$> to_base64url l) ++ replicate ((3 - length l mod 3) mod 3) 61.
(** [Buffer.from(text, 'base64')], which accepts both alphabets. *)
Definition from_base64 (s : jsstr) : list Z := from_base64url s.

(** [/^[A-Za-z0-9+/]{43}=$/]. *)
Definition b64_unit (u : Z) : bool := is_alnum u || (u =? 43) || (u =? 47).
Definition key_format (s : jsstr) : bool :=
  (length s =? 44)%nat && forallb b64_unit (take 43 s) && bool_decide (drop 43 s = [61]).
Definition canonical (s : jsstr) : bool := bool_decide (to_base64 (from_base64 s) = s).

(** ** The values *)

Inductive NodeEnv := Development | Test | Production.
Inductive ClientAuthMethod := ClientSecretBasic | ClientSecretPost.
Inductive IdTokenAlg := RS256 | ES256.
#[export] Instance NodeEnv_dec : EqDecision NodeEnv. Proof. solve_decision. Defined.

Record Values := mkValues {
  NODE_ENV : NodeEnv; HOST : jsstr; PORT : Z; PUBLIC_ORIGIN : jsstr; API_ORIGIN : option jsstr;
  DATABASE_URL : jsstr; EXECUTIONS_ENABLED : bool; PIPELINE_ENABLED : bool; REALTIME_ENABLED : bool;
  REDIS_URL : option jsstr; QUEUE_NAME : jsstr; OIDC_ENABLED : bool; OIDC_ISSUER : option jsstr;
  OIDC_CLIENT_ID : option jsstr; OIDC_CLIENT_SECRET : option jsstr; OIDC_TRANSACTION_KEY : option jsstr;
  OIDC_CLIENT_AUTH_METHOD : ClientAuthMethod; OIDC_ID_TOKEN_ALG : IdTokenAlg;
  PASSWORD_AUTH_ENABLED : bool; AUTH_TRANSACTION_KEY : option jsstr;
  GOOGLE_AUTH_ENABLED : bool; GOOGLE_CLIENT_ID : option jsstr; GOOGLE_CLIENT_SECRET : option jsstr;
  GITHUB_AUTH_ENABLED : bool; GITHUB_CLIENT_ID : option jsstr; GITHUB_CLIENT_SECRET : option jsstr;
  SESSION_TTL_SECONDS : Z; AUTH_LOGIN_REQUESTS_PER_MINUTE : Z; AUTH_LOGIN_GLOBAL_PER_MINUTE : Z;
  TRUST_PROXY_CIDRS : jsstr; MAX_ACTIVE_JOBS_PER_USER : Z; MAX_ACTIVE_JOBS_GLOBAL : Z;
  EXECUTION_CREATIONS_PER_MINUTE : Z; EXECUTION_IP_CREATIONS_PER_MINUTE : Z;
  EXECUTION_GLOBAL_CREATIONS_PER_MINUTE : Z; EXECUTION_RATE_LIMIT_KEY : option jsstr;
  QUEUE_TTL_SECONDS : Z; JOB_MAINTENANCE_INTERVAL_SECONDS : Z
}.

(** ** Schema combinators: a field maps an environment entry to its value, or rejects it *)

Definition env := string → option jsstr.
Definition field (A : Type) := option jsstr → option A.

Definition with_default {A} (d : A) (p : jsstr → option A) : field A :=
  λ v, match v with None => Some d | Some s => p s end.
Definition required {A} (p : jsstr → option A) : field A := λ v, v ≫= p.
(** [optionalString]: the empty string counts as absent. *)
Definition optionalString (p : jsstr → option jsstr) : field (option jsstr) := λ v,
  match v with
  | None | Some [] => Some None
  | Some s => Some <$> p s
  end.
Definition refine {A} (f : A → bool) (p : jsstr → option A) : jsstr → option A :=
  λ s, a ← p s; if f a then Some a else None.

Fixpoint choice {A} (l : list (string * A)) (s : jsstr) : option A :=
  match l with
  | [] => None
  | (name, a) :: l' => if bool_decide (s = js name) then Some a else choice l' s
  end.
Definition flag : field bool := with_default false (choice [("true", true); ("false", false)]).
(** [z.coerce.number().int().min(lo).max(hi).default(d)]. *)
Definition coerced (lo hi d : Z) : field Z := with_default d (refine (λ n, (lo <=? n) && (n <=? hi)) Number).
Definition zstring : jsstr → option jsstr := Some.
Definition sized (lo hi : Z) : jsstr → option jsstr := refine (λ s, (lo <=? slen s) && (slen s <=? hi)) zstring.
Definition zkey : field (option jsstr) := optionalString (refine key_format zstring).

(** [/^postgres(ql)?:\/\//] and [/^rediss?:\/\//]. *)
Definition postgres_url (s : jsstr) : bool :=
  startsWith (js "postgres://") s || startsWith (js "postgresql://") s.
Definition redis_url (s : jsstr) : bool := startsWith (js "redis://") s || startsWith (js "rediss://") s.
(** [/^[A-Za-z0-9_-]{1,80}$/]. *)
Definition queue_name (s : jsstr) : bool :=
  (1 <=? slen s) && (slen s <=? 80) && forallb (λ u, is_alnum u || (u =? 95) || (u =? 45)) s.

Section Config.
Context (URL : jsstr → option Url) (z_url : jsstr → option jsstr) (isIP : jsstr → Z)
        (decodeURIComponent : jsstr → option jsstr).

(** ** The schema of the API *)

Definition envSchema (e : env) : option Values :=
  let text name := optionalString (refine nonempty zstring) (e name) in
  NODE_ENV ← with_default Development
    (choice [("development", Development); ("test", Test); ("production", Production)]) (e "NODE_ENV");
  HOST ← with_default (js "127.0.0.1") zstring (e "HOST");
  PORT ← coerced 1 65535 3001 (e "PORT");
  PUBLIC_ORIGIN ← with_default (js "http://localhost:3000") z_url (e "PUBLIC_ORIGIN");
  API_ORIGIN ← optionalString z_url (e "API_ORIGIN");
  DATABASE_URL ← required (refine postgres_url z_url) (e "DATABASE_URL");
  EXECUTIONS_ENABLED ← flag (e "EXECUTIONS_ENABLED");
  PIPELINE_ENABLED ← flag (e "PIPELINE_ENABLED");
  REALTIME_ENABLED ← flag (e "REALTIME_ENABLED");
  REDIS_URL ← optionalString (refine redis_url z_url) (e "REDIS_URL");
  QUEUE_NAME ← with_default (js "arenacore-executions") (refine queue_name zstring) (e "QUEUE_NAME");
  OIDC_ENABLED ← flag (e "OIDC_ENABLED");
  OIDC_ISSUER ← optionalString z_url (e "OIDC_ISSUER");
  OIDC_CLIENT_ID ← optionalString (sized 1 255) (e "OIDC_CLIENT_ID");
  OIDC_CLIENT_SECRET ← text "OIDC_CLIENT_SECRET";
  OIDC_TRANSACTION_KEY ← zkey (e "OIDC_TRANSACTION_KEY");
  OIDC_CLIENT_AUTH_METHOD ← with_default ClientSecretBasic
    (choice [("client_secret_basic", ClientSecretBasic); ("client_secret_post", ClientSecretPost)])
    (e "OIDC_CLIENT_AUTH_METHOD");
  OIDC_ID_TOKEN_ALG ← with_default RS256 (choice [("RS256", RS256); ("ES256", ES256)]) (e "OIDC_ID_TOKEN_ALG");
  PASSWORD_AUTH_ENABLED ← flag (e "PASSWORD_AUTH_ENABLED");
  AUTH_TRANSACTION_KEY ← zkey (e "AUTH_TRANSACTION_KEY");
  GOOGLE_AUTH_ENABLED ← flag (e "GOOGLE_AUTH_ENABLED");
  GOOGLE_CLIENT_ID ← optionalString (sized 1 255) (e "GOOGLE_CLIENT_ID");
  GOOGLE_CLIENT_SECRET ← text "GOOGLE_CLIENT_SECRET";
  GITHUB_AUTH_ENABLED ← flag (e "GITHUB_AUTH_ENABLED");
  GITHUB_CLIENT_ID ← optionalString (sized 1 255) (e "GITHUB_CLIENT_ID");
  GITHUB_CLIENT_SECRET ← text "GITHUB_CLIENT_SECRET";
  SESSION_TTL_SECONDS ← coerced 300 86400 28800 (e "SESSION_TTL_SECONDS");
  AUTH_LOGIN_REQUESTS_PER_MINUTE ← coerced 1 100 20 (e "AUTH_LOGIN_REQUESTS_PER_MINUTE");
  AUTH_LOGIN_GLOBAL_PER_MINUTE ← coerced 1 10000 120 (e "AUTH_LOGIN_GLOBAL_PER_MINUTE");
  TRUST_PROXY_CIDRS ← with_default [] zstring (e "TRUST_PROXY_CIDRS");
  MAX_ACTIVE_JOBS_PER_USER ← coerced 1 10 1 (e "MAX_ACTIVE_JOBS_PER_USER");
  MAX_ACTIVE_JOBS_GLOBAL ← coerced 1 100000 1000 (e "MAX_ACTIVE_JOBS_GLOBAL");
  EXECUTION_CREATIONS_PER_MINUTE ← coerced 1 1000 10 (e "EXECUTION_CREATIONS_PER_MINUTE");
  EXECUTION_IP_CREATIONS_PER_MINUTE ← coerced 1 10000 60 (e "EXECUTION_IP_CREATIONS_PER_MINUTE");
  EXECUTION_GLOBAL_CREATIONS_PER_MINUTE ← coerced 1 100000 300 (e "EXECUTION_GLOBAL_CREATIONS_PER_MINUTE");
  EXECUTION_RATE_LIMIT_KEY ← zkey (e "EXECUTION_RATE_LIMIT_KEY");
  QUEUE_TTL_SECONDS ← coerced 10 3600 120 (e "QUEUE_TTL_SECONDS");
  JOB_MAINTENANCE_INTERVAL_SECONDS ← coerced 1 300 15 (e "JOB_MAINTENANCE_INTERVAL_SECONDS");
  Some (mkValues NODE_ENV HOST PORT PUBLIC_ORIGIN API_ORIGIN DATABASE_URL EXECUTIONS_ENABLED PIPELINE_ENABLED
    REALTIME_ENABLED REDIS_URL QUEUE_NAME OIDC_ENABLED OIDC_ISSUER OIDC_CLIENT_ID OIDC_CLIENT_SECRET
    OIDC_TRANSACTION_KEY OIDC_CLIENT_AUTH_METHOD OIDC_ID_TOKEN_ALG PASSWORD_AUTH_ENABLED AUTH_TRANSACTION_KEY
    GOOGLE_AUTH_ENABLED GOOGLE_CLIENT_ID GOOGLE_CLIENT_SECRET GITHUB_AUTH_ENABLED GITHUB_CLIENT_ID
    GITHUB_CLIENT_SECRET SESSION_TTL_SECONDS AUTH_LOGIN_REQUESTS_PER_MINUTE AUTH_LOGIN_GLOBAL_PER_MINUTE
    TRUST_PROXY_CIDRS MAX_ACTIVE_JOBS_PER_USER MAX_ACTIVE_JOBS_GLOBAL EXECUTION_CREATIONS_PER_MINUTE
    EXECUTION_IP_CREATIONS_PER_MINUTE EXECUTION_GLOBAL_CREATIONS_PER_MINUTE EXECUTION_RATE_LIMIT_KEY
    QUEUE_TTL_SECONDS JOB_MAINTENANCE_INTERVAL_SECONDS).

(** ** The cross-field rules ([superRefine]); [true] when the rule adds no issue *)

Definition authMethods (v : Values) : list bool :=
  [PASSWORD_AUTH_ENABLED v; OIDC_ENABLED v; GOOGLE_AUTH_ENABLED v; GITHUB_AUTH_ENABLED v].
Definition any_auth (v : Values) : bool := existsb id (authMethods v).
Definition production (v : Values) : bool := bool_decide (NODE_ENV v = Production).

Definition feature_rules (v : Values) : bool :=
  implb (PIPELINE_ENABLED v) (truthy (REDIS_URL v))
  && implb (EXECUTIONS_ENABLED v) (truthy (EXECUTION_RATE_LIMIT_KEY v))
  && implb (OIDC_ENABLED v) (forallb truthy [OIDC_ISSUER v; OIDC_CLIENT_ID v; OIDC_CLIENT_SECRET v; OIDC_TRANSACTION_KEY v])
  && implb (GOOGLE_AUTH_ENABLED v) (forallb truthy [GOOGLE_CLIENT_ID v; GOOGLE_CLIENT_SECRET v])
  && implb (GITHUB_AUTH_ENABLED v) (forallb truthy [GITHUB_CLIENT_ID v; GITHUB_CLIENT_SECRET v])
  && implb (any_auth v && negb (truthy (AUTH_TRANSACTION_KEY v))) (truthy (OIDC_TRANSACTION_KEY v)).

Definition if_set (f : jsstr → bool) (o : option jsstr) : bool :=
  match o with Some s => implb (nonempty s) (f s) | None => true end.
Definition issuer_rule (s : jsstr) : bool :=
  match URL s with
  | None => false
  | Some u => bool_decide (u_protocol u = js "https:")
              && negb (nonempty (u_username u) || nonempty (u_password u) || nonempty (u_search u) || nonempty (u_hash u))
  end.
Definition key_rules (v : Values) : bool :=
  if_set issuer_rule (OIDC_ISSUER v) && if_set canonical (OIDC_TRANSACTION_KEY v)
  && if_set canonical (AUTH_TRANSACTION_KEY v) && if_set canonical (EXECUTION_RATE_LIMIT_KEY v).

(** An entry of [TRUST_PROXY_CIDRS]: an address with an optional prefix length. *)
Definition proxy_rule (cidr : jsstr) : bool :=
  match split 47 (trim cidr) with
  | address :: more =>
      let family := match address with [] => 0 | _ => isIP address end in
      negb (family =? 0)
      && match more with
         | [] => true
         | [prefix] => nonempty prefix && forallb is_digit prefix && (1 <=? digits_value prefix)
                       && (digits_value prefix <=? (if family =? 4 then 32 else 128))
         | _ => false
         end
  | [] => false
  end.
Definition proxies_rule (v : Values) : bool :=
  implb (nonempty (TRUST_PROXY_CIDRS v)) (forallb proxy_rule (split 44 (TRUST_PROXY_CIDRS v))).

Definition web_protocol (u : Url) : bool :=
  bool_decide (u_protocol u = js "http:") || bool_decide (u_protocol u = js "https:").
(** An exact origin: no path, credentials or trailing slash. *)
Definition exact_origin (s : jsstr) (u : Url) : bool :=
  bool_decide (u_origin u = s) && negb (nonempty (u_username u) || nonempty (u_password u)).
Definition parsed_api_origin (v : Values) : option Url :=
  match API_ORIGIN v with Some s => if nonempty s then URL s else None | None => None end.
Definition is_https (u : Url) : bool := bool_decide (u_protocol u = js "https:").

Definition origin_rules (v : Values) : bool :=
  match URL (PUBLIC_ORIGIN v) with
  | None => false
  | Some origin =>
      web_protocol origin && exact_origin (PUBLIC_ORIGIN v) origin
      && if_set (λ s, match URL s with Some u => web_protocol u && exact_origin s u | None => false end) (API_ORIGIN v)
      && implb (production v && EXECUTIONS_ENABLED v) (any_auth v && PIPELINE_ENABLED v && REALTIME_ENABLED v)
      && implb (production v) (is_https origin)
      && implb (production v) (match parsed_api_origin v with Some u => is_https u | None => true end)
  end.

Definition superRefine (v : Values) : bool :=
  feature_rules v && key_rules v && proxies_rule v && origin_rules v.

(** [parseConfig]; it throws where this is [None]. *)
Definition parseConfig (e : env) : option Values :=
  v ← envSchema e; if superRefine v then Some v else None.

(** ** The getters of [Config] *)

Definition orElse {A} (o d : option A) : option A := match o with Some a => Some a | None => d end.
Definition authTransactionKey (v : Values) : option jsstr := orElse (AUTH_TRANSACTION_KEY v) (OIDC_TRANSACTION_KEY v).
Definition apiOrigin (v : Values) : jsstr := default (PUBLIC_ORIGIN v) (API_ORIGIN v).
Definition secureCookies (v : Values) : bool := startsWith (js "https:") (apiOrigin v).
Definition callbackUrl (v : Values) : jsstr := apiOrigin v ++ js "/api/v1/auth/callback".
Definition loginCookieName (v : Values) : jsstr :=
  if production v then js "__Host-arenacore_oidc" else js "arenacore_oidc".
Definition cookieName (v : Values) : jsstr :=
  if production v then js "__Host-arenacore_session" else js "arenacore_session".

(** ** What the application is set up with ([bootstrap.ts]) *)

(** [app.set('trust proxy', ...)]. *)
Definition trustProxy (v : Values) : option (list jsstr) :=
  match TRUST_PROXY_CIDRS v with [] => None | s => Some (trim <$> split 44 s) end.
(** The origins credentialed cross-origin requests are allowed from. *)
Definition corsAllows (v : Values) (origin : option jsstr) : bool := bool_decide (origin = Some (PUBLIC_ORIGIN v)).

(** ** The worker's environment and Redis *)

Record WorkerValues := mkWorkerValues {
  w_RUNNER_SOCKET_PATH : jsstr; w_DATABASE_URL : jsstr; w_REDIS_URL : jsstr; w_QUEUE_NAME : jsstr
}.
Definition literal (name : string) : jsstr → option unit := choice [(name, tt)].
(** [/^\/(?:[^\0/]+\/)*[^\0/]+$/]: absolute, no empty segment, no trailing slash, no NUL. *)
Definition socket_path (s : jsstr) : bool :=
  match s with
  | 47 :: s' => forallb (λ p, nonempty p && forallb (λ u, negb (u =? 0)) p) (split 47 s')
  | _ => false
  end.
(** The path of a Redis URL: empty, or a slash and digits. *)
Definition database_path (s : jsstr) : bool :=
  match s with
  | [] => true
  | u :: s' => (u =? 47) && forallb is_digit s'
  end.
Definition parseWorkerConfig (e : env) : option WorkerValues :=
  _ ← required (literal "production") (e "NODE_ENV");
  _ ← required (literal "true") (e "RUNNER_WORKER_ENABLED");
  RUNNER_SOCKET_PATH ← required (refine socket_path zstring) (e "RUNNER_SOCKET_PATH");
  DATABASE_URL ← required (refine postgres_url z_url) (e "DATABASE_URL");
  REDIS_URL ← required (refine redis_url z_url) (e "REDIS_URL");
  QUEUE_NAME ← with_default (js "arenacore-executions") (refine queue_name zstring) (e "QUEUE_NAME");
  if match URL REDIS_URL with
     | Some redis => nonempty (u_search redis) || nonempty (u_hash redis) || negb (database_path (u_pathname redis))
     | None => false
     end
  then None else Some (mkWorkerValues RUNNER_SOCKET_PATH DATABASE_URL REDIS_URL QUEUE_NAME).

Record RedisOptions := mkRedisOptions {
  ro_host : jsstr; ro_port : option Z; ro_username : option jsstr; ro_password : option jsstr;
  ro_db : option Z; ro_tls : bool
}.
Definition decoded (s : jsstr) : option (option jsstr) :=
  match s with [] => Some None | _ => Some <$> decodeURIComponent s end.
(** [redisOptions]; it throws where this is [None]. *)
Definition redisOptions (url : jsstr) : option RedisOptions :=
  u ← URL url;
  if negb (bool_decide (u_protocol u = js "redis:") || bool_decide (u_protocol u = js "rediss:"))
     || nonempty (u_search u) || nonempty (u_hash u) || negb (database_path (u_pathname u))
  then None else
  username ← decoded (u_username u);
  password ← decoded (u_password u);
  Some (mkRedisOptions (u_hostname u)
    (match u_port u with [] => Some 6379 | p => Number p end) username password
    (match drop 1 (u_pathname u) with [] => Some 0 | d => Number d end)
    (bool_decide (u_protocol u = js "rediss:"))).
End Config.

(** ** Facts about the fields *)

Lemma refine_Some {A} (f : A → bool) p s a : refine f p s = Some a → p s = Some a ∧ f a = true.
Proof. unfold refine. intros (b & Hb & Hf)%bind_Some. by destruct (f b) eqn:E; simplify_eq. Qed.

Lemma coerced_range lo hi d v n : lo ≤ d ≤ hi → coerced lo hi d v = Some n → lo ≤ n ≤ hi.
Proof.
  intros Hd. unfold coerced, with_default. destruct v as [s|]; [|by intros [= <-]].
  intros [_ Hr]%refine_Some. lia.
Qed.

Lemma coerced_decimal lo hi d n : 0 ≤ n < 2 ^ 53 → lo ≤ n ≤ hi → coerced lo hi d (Some (num n)) = Some n.
Proof.
  intros Hn Hr. unfold coerced, with_default, refine. rewrite Number_num by done. cbn.
  by rewrite (proj2 (Z.leb_le _ _)), (proj2 (Z.leb_le _ _)) by lia.
Qed.

Lemma optionalString_Some p v s : optionalString p v = Some (Some s) → ∃ t, t ≠ [] ∧ p t = Some s.
Proof.
  unfold optionalString. destruct v as [[|u t]|]; [done| |done].
  intros (s' & Hs & [= ->])%fmap_Some. by exists (u :: t).
Qed.

Lemma zkey_Some v k : zkey v = Some (Some k) → key_format k = true.
Proof. intros (t & _ & [[= ->] Hk]%refine_Some)%optionalString_Some. done. Qed.

(** A key of the required format is 32 bytes. *)
Lemma b64_values_length p r : forallb b64_unit p = true → length (b64_values (p ++ 61 :: r)) = length p.
Proof.
  induction p as [|u p IH]; [done|]. cbn. intros [Hu Hp]%andb_true_iff.
  assert (Hv : u ≠ 61 ∧ ∃ x, b64_value u = Some x).
  { unfold b64_unit, is_alnum, b64_value in *. unfold is_upper, is_lower, is_digit in *.
    repeat case_match; split; try lia; eauto. }
  destruct Hv as [Hne [x ->]]. rewrite (proj2 (Z.eqb_neq _ _)) by done. cbn. by rewrite IH.
Qed.

Lemma b64_bytes_43 l : length l = 43%nat → length (b64_bytes l) = 32%nat.
Proof. intros Hl. do 43 (destruct l as [|? l]; [done|]). by destruct l. Qed.

Lemma key_format_bytes k : key_format k = true → length (from_base64 k) = 32%nat.
Proof.
  unfold key_format. intros [[Hl Hu]%andb_true_iff Hd%bool_decide_eq_true]%andb_true_iff.
  apply Nat.eqb_eq in Hl. unfold from_base64, from_base64url. apply b64_bytes_43.
  rewrite <- (take_drop 43 k), Hd, b64_values_length by done. rewrite length_take. lia.
Qed.

(** ** What the schema guarantees of the values *)

Record typed (v : Values) : Prop := {
  ty_port : 1 ≤ PORT v ≤ 65535;
  ty_session : 300 ≤ SESSION_TTL_SECONDS v ≤ 86400;
  ty_login : 1 ≤ AUTH_LOGIN_REQUESTS_PER_MINUTE v ≤ 100;
  ty_login_global : 1 ≤ AUTH_LOGIN_GLOBAL_PER_MINUTE v ≤ 10000;
  ty_user_jobs : 1 ≤ MAX_ACTIVE_JOBS_PER_USER v ≤ 10;
  ty_jobs : 1 ≤ MAX_ACTIVE_JOBS_GLOBAL v ≤ 100000;
  ty_user_rate : 1 ≤ EXECUTION_CREATIONS_PER_MINUTE v ≤ 1000;
  ty_ip_rate : 1 ≤ EXECUTION_IP_CREATIONS_PER_MINUTE v ≤ 10000;
  ty_rate : 1 ≤ EXECUTION_GLOBAL_CREATIONS_PER_MINUTE v ≤ 100000;
  ty_queue : 10 ≤ QUEUE_TTL_SECONDS v ≤ 3600;
  ty_interval : 1 ≤ JOB_MAINTENANCE_INTERVAL_SECONDS v ≤ 300;
  ty_keys : Forall (λ o, ∀ k, o = Some k → key_format k = true)
              [AUTH_TRANSACTION_KEY v; OIDC_TRANSACTION_KEY v; EXECUTION_RATE_LIMIT_KEY v];
  ty_database : postgres_url (DATABASE_URL v) = true;
  ty_redis : ∀ u, REDIS_URL v = Some u → redis_url u = true
}.

Section Facts.
Context (URL : jsstr → option Url) (z_url : jsstr → option jsstr) (isIP : jsstr → Z).

Lemma envSchema_typed e v : envSchema z_url e = Some v → typed v.
Proof.
  unfold envSchema. intros H. repeat (apply bind_Some in H as (? & ? & H)). injection H as <-.
  constructor; cbn;
    try (match goal with Hc : coerced _ _ _ (e ?n) = Some ?x |- _ ≤ ?x ≤ _ => by apply (coerced_range _ _ _ _ _) in Hc end).
  - repeat constructor; intros k ->; by eapply zkey_Some.
  - unfold required in *. match goal with Hd : _ ≫= refine postgres_url _ = Some _ |- _ => apply bind_Some in Hd as (? & _ & [_ ?]%refine_Some) end. done.
  - intros u ->. match goal with Hd : optionalString (refine redis_url _) _ = Some (Some _) |- _ => apply optionalString_Some in Hd as (? & _ & [_ ?]%refine_Some) end. done.
Qed.

Lemma envSchema_api_origin e v s :
  envSchema z_url e = Some v → API_ORIGIN v = Some s → ∃ t, z_url t = Some s.
Proof.
  unfold envSchema. intros H. repeat (apply bind_Some in H as (? & ? & H)). injection H as <-. cbn. intros ->.
  match goal with Ho : optionalString z_url _ = Some (Some s) |- _ => apply optionalString_Some in Ho as (t & _ & Ht) end.
  by exists t.
Qed.

Lemma parseConfig_inv e v : parseConfig URL z_url isIP e = Some v → typed v ∧ superRefine URL isIP v = true.
Proof.
  unfold parseConfig. intros (v' & Hv & Hr)%bind_Some. destruct (superRefine URL isIP v') eqn:E; simplify_eq.
  split; [by eapply envSchema_typed|done].
Qed.
End Facts.
