(* ===== verification/Accounts.v ===== *)
(** * Accounts, sign-in and sessions

    [apps/api/src/auth/login.service.ts] (rate limit, sign-in attempts, issuing sessions),
    [apps/api/src/auth/password-auth.service.ts], [apps/api/src/account/account.ts] (settings,
    sessions, password, email, deactivation), the logout of [apps/api/src/auth/auth.controller.ts],
    and the user administration of [apps/api/src/admin/admin.ts] ([setRole], [restrict]), over the
    tables they share.

    [clk n] is the [n]-th clock reading of a handler.  What a handler reads outside its transaction is
    read from [seen].  Hashes and the identity providers' gateways are parameters. *)

From S2P Require Import Prelude Io Paging JsText Contracts Judge JsString RuntimePolicy Catalogue.
From S2P Require Import Discussions Sessions Password.
Local Open Scope Z_scope.

(** ** Tables *)

Inductive ProfileVisibility := PROFILE_PUBLIC | PROFILE_PRIVATE.
Inductive ThemePreference := THEME_SYSTEM | THEME_DARK | THEME_LIGHT.

Record Profile := mkProfile {
  pf_displayName : jsstr; pf_bio : option jsstr; pf_location : option jsstr; pf_website : option jsstr;
  pf_avatarUrl : option jsstr
}.
Record Settings := mkSettings {
  st_profileVisibility : ProfileVisibility; st_themePreference : ThemePreference;
  st_productNotifications : bool; st_competitionNotifications : bool
}.
(** A row of [User]; [ur_row] holds the columns the session guard reads. *)
Record User := mkUser {
  ur_issuer : jsstr; ur_subject : jsstr; ur_row : UserRow; ur_profile : Profile; ur_settings : Settings;
  ur_createdAt : Z
}.
Record SessionEntry := mkEntry { sn_row : SessionRow; sn_createdAt : Z }.
Record Credential := mkCredential {
  cr_id : rowid; cr_userId : rowid; cr_email : jsstr; cr_passwordHash : jsstr
}.
Record AuthAttempt := mkAuthAttempt {
  aa_browserTokenHash : jsstr; aa_encryptedPayload : jsstr; aa_expiresAt : Z
}.

(** The tables; of competitions and discussions what deactivation touches: owners, registrations,
    likes and write quotas. *)
Record accounts := mkAccounts {
  ac_users : gmap rowid User; ac_sessions : gmap rowid SessionEntry; ac_credentials : gmap rowid Credential;
  ac_attempts : gmap jsstr AuthAttempt; ac_limits : gmap jsstr LimitRow;
  ac_owners : gmap rowid (option rowid); ac_registrations : gset (rowid * rowid);
  ac_likes : gset (rowid * rowid); ac_quotas : gmap rowid LimitRow; ac_audit : list AuditEvent
}.

Definition set_users (u : gmap rowid User) (a : accounts) : accounts :=
  mkAccounts u (ac_sessions a) (ac_credentials a) (ac_attempts a) (ac_limits a) (ac_owners a)
    (ac_registrations a) (ac_likes a) (ac_quotas a) (ac_audit a).
Definition set_sessions (s : gmap rowid SessionEntry) (a : accounts) : accounts :=
  mkAccounts (ac_users a) s (ac_credentials a) (ac_attempts a) (ac_limits a) (ac_owners a)
    (ac_registrations a) (ac_likes a) (ac_quotas a) (ac_audit a).
Definition set_credentials (c : gmap rowid Credential) (a : accounts) : accounts :=
  mkAccounts (ac_users a) (ac_sessions a) c (ac_attempts a) (ac_limits a) (ac_owners a)
    (ac_registrations a) (ac_likes a) (ac_quotas a) (ac_audit a).
Definition set_attempts (t : gmap jsstr AuthAttempt) (a : accounts) : accounts :=
  mkAccounts (ac_users a) (ac_sessions a) (ac_credentials a) t (ac_limits a) (ac_owners a)
    (ac_registrations a) (ac_likes a) (ac_quotas a) (ac_audit a).
Definition set_rates (l : gmap jsstr LimitRow) (a : accounts) : accounts :=
  mkAccounts (ac_users a) (ac_sessions a) (ac_credentials a) (ac_attempts a) l (ac_owners a)
    (ac_registrations a) (ac_likes a) (ac_quotas a) (ac_audit a).
Definition log_audit (actorId : rowid) (action : string) (targetId : rowid) : tx accounts unit :=
  modify (λ a, mkAccounts (ac_users a) (ac_sessions a) (ac_credentials a) (ac_attempts a) (ac_limits a)
    (ac_owners a) (ac_registrations a) (ac_likes a) (ac_quotas a)
    (ac_audit a ++ [mkAudit actorId action targetId])).

Definition the_accounts : tx accounts accounts := gets (λ a, a).

(** ** Users *)

(** The CHECKs [User_username_format], [User_profile_bounds], [User_avatar_url_shape] and
    [User_restrictionReason_length_check]. *)
Definition username_shape (s : jsstr) : bool :=
  (3 <=? slen s) && (slen s <=? 40)
  && forallb (λ u, is_lower u || is_digit u || (u =? 95)) s
  && match head s with Some u => is_lower u || is_digit u | None => false end
  && match last s with Some u => is_lower u || is_digit u | None => false end.
Definition at_most (n : Z) (s : option jsstr) : bool :=
  match s with None => true | Some t => char_length t <=? n end.
Definition avatar_shape (s : option jsstr) : bool :=
  match s with
  | None => true
  | Some t => (char_length t <=? 2048) && startsWith (js "https://") t
              && negb (existsb (λ u, (u <? 32) || (u =? 127)) t)
  end.
Definition user_checks (u : User) : bool :=
  username_shape (us_username (ur_row u))
  && at_most 280 (pf_bio (ur_profile u)) && at_most 100 (pf_location (ur_profile u))
  && at_most 2048 (pf_website (ur_profile u)) && avatar_shape (pf_avatarUrl (ur_profile u))
  && match us_restrictionReason (ur_row u) with None => true | Some r => chars_in 3 500 r end.

(** Writing a row: its CHECKs and the unique indexes on [(issuer, subject)] and [username]. *)
Definition same_identity (id : rowid) (u : User) (r : rowid * User) : bool :=
  negb (bool_decide (r.1 = id))
  && (bool_decide (ur_issuer r.2 = ur_issuer u) && bool_decide (ur_subject r.2 = ur_subject u)).
Definition same_username (id : rowid) (u : User) (r : rowid * User) : bool :=
  negb (bool_decide (r.1 = id)) && bool_decide (us_username (ur_row r.2) = us_username (ur_row u)).
Definition user_put (id : rowid) (u : User) : tx accounts unit :=
  a ← the_accounts;
  _ ← raise_if (negb (user_checks u)) (DbError "23514");
  _ ← raise_if (existsb (same_identity id u) (map_to_list (ac_users a))
                || existsb (same_username id u) (map_to_list (ac_users a))) (DbError "P2002");
  modify (set_users (<[id := u]> (ac_users a))).
(** [tx.user.update({where: {id}, data})]. *)
Definition user_update (id : rowid) (f : User → User) : tx accounts User :=
  a ← the_accounts;
  match ac_users a !! id with
  | None => throw (DbError "P2025")
  | Some u => _ ← user_put id (f u); mret (f u)
  end.

Definition with_row (f : UserRow → UserRow) (u : User) : User :=
  mkUser (ur_issuer u) (ur_subject u) (f (ur_row u)) (ur_profile u) (ur_settings u) (ur_createdAt u).
Definition with_profile (p : Profile) (u : User) : User :=
  mkUser (ur_issuer u) (ur_subject u) (ur_row u) p (ur_settings u) (ur_createdAt u).

(** ** Sessions *)

Definition revoke (now : Z) (s : SessionEntry) : SessionEntry :=
  let r := sn_row s in
  mkEntry (mkSessionRow (se_id r) (se_userId r) (se_tokenHash r) (se_csrfTokenHash r) (se_expiresAt r)
             (Some now)) (sn_createdAt s).
(** [session.updateMany({where, data: {revokedAt}})]. *)
Definition revoke_where (p : SessionEntry → bool) (now : Z) : tx accounts unit :=
  modify (λ a, set_sessions ((λ s, if p s then revoke now s else s) <$> ac_sessions a) a).

Definition unrevoked (s : SessionEntry) : bool := bool_decide (se_revokedAt (sn_row s) = None).
Definition of_user (userId : rowid) (s : SessionEntry) : bool := bool_decide (se_userId (sn_row s) = userId).
Definition active_of (userId : rowid) (now : Z) (s : SessionEntry) : bool :=
  of_user userId s && unrevoked s && (now <? se_expiresAt (sn_row s)).
Definition entry_id (s : SessionEntry) : rowid := se_id (sn_row s).

Definition active_sessions (userId : rowid) (now : Z) (a : accounts) : list SessionEntry :=
  merge_sort (newest sn_createdAt entry_id)
    (filter (λ s, active_of userId now s = true) (map_to_list (ac_sessions a)).*2).

Definition session_create (s : SessionEntry) : tx accounts unit :=
  a ← the_accounts;
  _ ← raise_if (bool_decide (is_Some (ac_sessions a !! entry_id s))
                || existsb (λ r, bool_decide (se_tokenHash (sn_row r.2) = se_tokenHash (sn_row s)))
                     (map_to_list (ac_sessions a))) (DbError "P2002");
  _ ← raise_if (bool_decide (ac_users a !! se_userId (sn_row s) = None)) (DbError "P2003");
  modify (set_sessions (<[entry_id s := s]> (ac_sessions a))).

Section Accounts.
Context (sha256 : jsstr → jsstr) (hmac : jsstr → jsstr → jsstr) (hmac_hex : jsstr → jsstr → jsstr).
Context (derive : jsstr → list Z → list Z).

(** The part of the configuration sign-in reads. *)
Record AuthConfig := mkAuthConfig {
  cf_authTransactionKey : option jsstr; cf_passwordAuthEnabled : bool; cf_PUBLIC_ORIGIN : jsstr;
  cf_SESSION_TTL_SECONDS : Z; cf_LOGIN_REQUESTS_PER_MINUTE : Z; cf_LOGIN_GLOBAL_PER_MINUTE : Z
}.
Context (config : AuthConfig).

(** The request as sign-in reads it: the two cookies, two headers and the address. *)
Record AuthRequest := mkAuthRequest {
  ar_session : option jsstr; ar_login : option jsstr; ar_origin : option jsstr;
  ar_secFetchSite : option jsstr; ar_ip : jsstr
}.

(** [if (cookie && validToken.test(cookie))]. *)
Definition valid_cookie (c : option jsstr) : option jsstr :=
  t ← c; if token_ok t then Some t else None.

(** [persistSession]; [id] and [createdAt] are what the database gives the new row. *)
Definition persistSession (clk : nat → Z) (id : rowid) (createdAt : Z) (req : AuthRequest) (userId : rowid)
    (action : string) (session : SessionSecrets) (expiresAt : Z) : tx accounts unit :=
  _ ← match valid_cookie (ar_session req) with
      | Some old => revoke_where (λ s, bool_decide (se_tokenHash (sn_row s) = sha256 old) && unrevoked s)
                      (clk 0%nat)
      | None => mret tt
      end;
  _ ← modify (λ a, set_sessions
        (filter (λ r, negb (of_user userId r.2 && (se_expiresAt (sn_row r.2) <=? clk 1%nat)) = true)
           (ac_sessions a)) a);
  active ← gets (active_sessions userId (clk 2%nat));
  _ ← (if (10 <=? length active)%nat
       then revoke_where (λ s, bool_decide (entry_id s ∈ entry_id <$> drop 9 active)) (clk 3%nat)
       else mret tt);
  _ ← session_create (mkEntry (mkSessionRow id userId (sx_tokenHash session) (sx_csrfTokenHash session)
                                 expiresAt None) createdAt);
  log_audit userId action userId.

(** [ensureAllowed]; its readings of the clock are [now] and [now']. *)
Definition ensureAllowed (now now' : Z) (u : UserRow) : tx accounts unit :=
  match us_bannedAt u with
  | Some _ => throw (ApiError 403 "ACCOUNT_BANNED" None)
  | None =>
      match us_suspendedUntil u with
      | Some until => if now <? until
                      then throw (ApiError 403 "ACCOUNT_SUSPENDED" (Some (retry_after until now')))
                      else mret tt
      | None => mret tt
      end
  end.

(** What the database draws for a sign-in: the session's id and time, and for a new user an id, a
    default username and a time. *)
Record Draw := mkDraw {
  dw_session : rowid; dw_sessionAt : Z; dw_user : rowid; dw_username : jsstr; dw_userAt : Z
}.

Definition expiry (now : Z) : Z := now + cf_SESSION_TTL_SECONDS config * 1000.

Definition issueUser (clk : nat → Z) (dw : Draw) (token : jsstr) (req : AuthRequest) (userId : rowid)
    (action : string) (a : accounts) : result (jsstr * Z) * accounts :=
  let session := newSessionSecrets sha256 hmac token in
  let expiresAt := expiry (clk 4%nat) in
  transaction
    (a0 ← the_accounts;
     match ac_users a0 !! userId with
     | None => throw (ApiError 401 "INVALID_CREDENTIALS" None)
     | Some u =>
         _ ← ensureAllowed (clk 5%nat) (clk 6%nat) (ur_row u);
         _ ← persistSession clk (dw_session dw) (dw_sessionAt dw) req userId action session expiresAt;
         mret (token, expiresAt)
     end) a.

Record VerifiedIdentity := mkIdentity { vi_issuer : jsstr; vi_subject : jsstr; vi_displayName : jsstr }.

Definition default_settings : Settings := mkSettings PROFILE_PUBLIC THEME_SYSTEM true true.
Definition new_user (issuer subject username displayName : jsstr) (createdAt : Z) : User :=
  mkUser issuer subject (mkUserRow username R_USER None None None None)
    (mkProfile displayName None None None None) default_settings createdAt.

Definition identity_of (i : VerifiedIdentity) (r : rowid * User) : Prop :=
  ur_issuer r.2 = vi_issuer i ∧ ur_subject r.2 = vi_subject i.
#[global] Instance identity_of_dec i r : Decision (identity_of i r).
Proof. unfold identity_of. apply _. Defined.

(** [user.upsert({where: {issuer_subject}, create: identity, update: {displayName}})]. *)
Definition user_upsert (dw : Draw) (i : VerifiedIdentity) : tx accounts (rowid * User) :=
  a ← the_accounts;
  match list_find (identity_of i) (map_to_list (ac_users a)) with
  | Some (_, (id, u)) =>
      u' ← user_update id (λ u, with_profile
             (mkProfile (vi_displayName i) (pf_bio (ur_profile u)) (pf_location (ur_profile u))
                (pf_website (ur_profile u)) (pf_avatarUrl (ur_profile u))) u);
      mret (id, u')
  | None =>
      let u := new_user (vi_issuer i) (vi_subject i) (dw_username dw) (vi_displayName i) (dw_userAt dw) in
      _ ← raise_if (bool_decide (is_Some (ac_users a !! dw_user dw))) (DbError "P2002");
      _ ← user_put (dw_user dw) u;
      mret (dw_user dw, u)
  end.

Definition issueIdentity (clk : nat → Z) (dw : Draw) (token : jsstr) (req : AuthRequest)
    (i : VerifiedIdentity) (a : accounts) : result (jsstr * Z) * accounts :=
  let session := newSessionSecrets sha256 hmac token in
  let expiresAt := expiry (clk 4%nat) in
  transaction
    (r ← user_upsert dw i;
     _ ← ensureAllowed (clk 5%nat) (clk 6%nat) (ur_row r.2);
     _ ← persistSession clk (dw_session dw) (dw_sessionAt dw) req r.1 "AUTH_LOGIN" session expiresAt;
     mret (token, expiresAt)) a.

(** ** The rate limit and the origin *)

Definition auth_scope (key : jsstr) (window : Z) (value : jsstr) : jsstr :=
  hmac_hex key (js "auth:" ++ num window ++ js ":" ++ value).

(** [authRateLimit.upsert({where: {key}, create: {key, expiresAt}, update: {count: {increment: 1}}})]. *)
Definition limit_upsert (key : jsstr) (expiresAt : Z) : tx accounts Z :=
  a ← the_accounts;
  let row := match ac_limits a !! key with
             | Some r => mkLimit (lm_count r + 1) (lm_expiresAt r)
             | None => mkLimit 1 expiresAt
             end in
  _ ← modify (set_rates (<[key := row]> (ac_limits a)));
  mret (lm_count row).

Definition limit (now : Z) (key ip : jsstr) : io accounts unit :=
  let window := now / 60000 in
  let expiresAt := (window + 1) * 60000 in
  counts ← atomically
    (_ ← modify (λ a, set_rates (filter (λ r, (lm_expiresAt r.2 <=? now) = false) (ac_limits a)) a);
     global ← limit_upsert (auth_scope key window (js "global")) expiresAt;
     client ← limit_upsert (auth_scope key window (js "ip:" ++ ip)) expiresAt;
     mret (global, client));
  raise_when ((cf_LOGIN_REQUESTS_PER_MINUTE config <? counts.2) || (cf_LOGIN_GLOBAL_PER_MINUTE config <? counts.1))
    (ApiError 429 "LOGIN_RATE_LIMIT" (Some (retry_after expiresAt now))).

Definition require_key : io accounts jsstr :=
  match cf_authTransactionKey config with
  | None => raise (ApiError 503 "IDENTITY_NOT_CONFIGURED" None)
  | Some key => mret key
  end.

Definition is_header (h : option jsstr) (v : jsstr) : bool := bool_decide (h = Some v).

Definition protect (now : Z) (req : AuthRequest) (requireOrigin : bool) : io accounts jsstr :=
  key ← require_key;
  _ ← raise_when ((requireOrigin && negb (is_header (ar_origin req) (cf_PUBLIC_ORIGIN config)))
                  || match ar_origin req with
                     | Some (u :: o) => negb (bool_decide (u :: o = cf_PUBLIC_ORIGIN config))
                     | _ => false
                     end
                  || is_header (ar_secFetchSite req) (js "cross-site"))
        (ApiError 403 "INVALID_ORIGIN" None);
  _ ← limit now key (ar_ip req);
  mret key.

(** ** Signing in through a provider *)

Inductive SocialProvider := P_auth0 | P_google | P_github.
Record LoginProof := mkLoginProof {
  lp_provider : SocialProvider; lp_verifier : jsstr; lp_nonce : jsstr; lp_returnTo : option jsstr
}.
(** The gateways to the providers and the sealing of a proof ([login-proof.ts]: AES-256-GCM over JSON,
    bound to the hash of the state). *)
Context (authorizationUrl : SocialProvider → jsstr → LoginProof → result jsstr).
Context (exchange : SocialProvider → list (jsstr * jsstr) → jsstr → LoginProof → result VerifiedIdentity).
Context (encryptProof : jsstr → jsstr → LoginProof → jsstr).
Context (decryptProof : jsstr → jsstr → jsstr → result LoginProof).

Definition LOGIN_TTL_SECONDS : Z := 300.
Definition invalid_login_state : error := ApiError 403 "INVALID_LOGIN_STATE" None.

Definition begin (clk : nat → Z) (state browserToken verifier nonce : jsstr) (req : AuthRequest)
    (provider : SocialProvider) (returnTo : jsstr) : io accounts (jsstr * jsstr) :=
  key ← protect (clk 0%nat) req false;
  let proof := mkLoginProof provider verifier nonce (Some returnTo) in
  location ← of_result (authorizationUrl provider state proof);
  let stateHash := sha256 state in
  let stale (r : jsstr * AuthAttempt) :=
    (aa_expiresAt r.2 <=? clk 1%nat)
    || match valid_cookie (ar_login req) with
       | Some old => bool_decide (aa_browserTokenHash r.2 = sha256 old)
       | None => false
       end in
  _ ← atomically
        (_ ← modify (λ a, set_attempts (filter (λ r, stale r = false) (ac_attempts a)) a);
         a ← the_accounts;
         _ ← raise_if (bool_decide (is_Some (ac_attempts a !! stateHash))) (DbError "P2002");
         modify (set_attempts (<[stateHash := mkAuthAttempt (sha256 browserToken)
                                   (encryptProof key stateHash proof)
                                   (clk 2%nat + LOGIN_TTL_SECONDS * 1000)]> (ac_attempts a))));
  mret (location, browserToken).

(** [authAttempt.deleteMany({where: {stateHash, browserTokenHash, expiresAt: {gt: now}}})]: whether a
    row was deleted. *)
Definition consume_attempt (now : Z) (stateHash browserTokenHash : jsstr) : tx accounts bool :=
  a ← the_accounts;
  match ac_attempts a !! stateHash with
  | Some t =>
      if bool_decide (aa_browserTokenHash t = browserTokenHash) && (now <? aa_expiresAt t)
      then _ ← modify (set_attempts (delete stateHash (ac_attempts a))); mret true
      else mret false
  | None => mret false
  end.

(** [finish]; the attempt is looked up in [seen].  Here nothing else is committed between the transaction
    that consumes the attempt and those of [issueIdentity]; the runs of AccountFacts take them apart. *)
Definition finish (clk : nat → Z) (dw : Draw) (token : jsstr) (req : AuthRequest) (state : jsstr)
    (params : list (jsstr * jsstr)) (seen : accounts) : io accounts (jsstr * Z * jsstr) :=
  key ← require_key;
  match valid_cookie (ar_login req) with
  | None => raise invalid_login_state
  | Some browserToken =>
      let stateHash := sha256 state in
      match ac_attempts seen !! stateHash with
      | None => raise invalid_login_state
      | Some attempt =>
          consumed ← atomically (consume_attempt (clk 7%nat) stateHash (sha256 browserToken));
          if negb consumed then raise invalid_login_state else
          match decryptProof key stateHash (aa_encryptedPayload attempt) with
          | Err _ => raise (ApiError 401 "LOGIN_FAILED" None)
          | Ok proof =>
              identity ← of_result (exchange (lp_provider proof) params state proof);
              session ← issueIdentity clk dw token req identity;
              mret (session, default (js "/problems") (lp_returnTo proof))
          end
      end
  end.

(** ** Signing in with a password *)

(** The CHECKs of [Credential]: a normalised email and a hash of 80 to 255 characters. *)
Definition credential_checks (c : Credential) : bool :=
  bool_decide (toLowerCase (trim (cr_email c)) = cr_email c) && chars_in 80 255 (cr_passwordHash c).
Definition credential_put (c : Credential) : tx accounts unit :=
  a ← the_accounts;
  _ ← raise_if (negb (credential_checks c)) (DbError "23514");
  _ ← raise_if (existsb (λ r, negb (bool_decide (r.1 = cr_id c))
                              && (bool_decide (cr_email r.2 = cr_email c)
                                  || bool_decide (cr_userId r.2 = cr_userId c)))
                  (map_to_list (ac_credentials a))) (DbError "P2002");
  _ ← raise_if (bool_decide (ac_users a !! cr_userId c = None)) (DbError "P2003");
  modify (set_credentials (<[cr_id c := c]> (ac_credentials a))).

Definition require_enabled : io accounts unit :=
  raise_when (negb (cf_passwordAuthEnabled config)) (ApiError 503 "IDENTITY_NOT_CONFIGURED" None).

Record Registration := mkRegister {
  rg_email : jsstr; rg_password : jsstr; rg_displayName : jsstr; rg_username : jsstr
}.

(** The insertion of a user with a credential, and what the handler makes of a conflict. *)
Definition user_create (dw : Draw) (credentialId : rowid) (u : User) (email passwordHash : jsstr) :
    io accounts rowid := λ a,
  match transaction
    (a0 ← the_accounts;
     _ ← raise_if (bool_decide (is_Some (ac_users a0 !! dw_user dw))
                   || bool_decide (is_Some (ac_credentials a0 !! credentialId))) (DbError "P2002");
     _ ← user_put (dw_user dw) u;
     _ ← credential_put (mkCredential credentialId (dw_user dw) email passwordHash);
     mret (dw_user dw)) a with
  | (Err (DbError code), a') =>
      if String.eqb code "P2002" then
        (Err (if negb (existsb (same_identity (dw_user dw) u) (map_to_list (ac_users a)))
                 && existsb (same_username (dw_user dw) u) (map_to_list (ac_users a))
              then ApiError 409 "USERNAME_TAKEN" None else ApiError 409 "ACCOUNT_EXISTS" None), a')
      else (Err (DbError code), a')
  | r => r
  end.

Definition register (clk : nat → Z) (dw : Draw) (credentialId : rowid) (salt : list Z) (token : jsstr)
    (req : AuthRequest) (input : Registration) : io accounts (jsstr * Z) :=
  _ ← require_enabled;
  _ ← protect (clk 0%nat) req true;
  let email := toLowerCase (trim (rg_email input)) in
  let passwordHash := hashPassword derive salt (rg_password input) in
  userId ← user_create dw credentialId
             (new_user (js "arenacore:password") email (toLowerCase (trim (rg_username input)))
                (trim (rg_displayName input)) (dw_userAt dw)) email passwordHash;
  issueUser clk dw token req userId "AUTH_PASSWORD_REGISTER".

Definition credential_by_email (email : jsstr) (a : accounts) : option Credential :=
  (λ r, r.2.2) <$> list_find (λ r : rowid * Credential, cr_email r.2 = email) (map_to_list (ac_credentials a)).

Definition authenticate (clk : nat → Z) (dw : Draw) (token : jsstr) (req : AuthRequest)
    (email password : jsstr) : io accounts (jsstr * Z) :=
  _ ← require_enabled;
  _ ← protect (clk 0%nat) req true;
  credential ← ask (credential_by_email (toLowerCase (trim email)));
  if negb (verifyPassword derive password (cr_passwordHash <$> credential))
  then raise (ApiError 401 "INVALID_CREDENTIALS" None) else
  match credential with
  | Some c => issueUser clk dw token req (cr_userId c) "AUTH_PASSWORD_LOGIN"
  | None => raise (JsError "TypeError")
  end.
End Accounts.
