(* ===== verification/LoginProof.v ===== *)
(** * The sealed proof of a pending sign-in ([auth/login-proof.ts])

    What [begin] stores of a sign-in and [finish] reads back: JSON under AES-256-GCM, bound to the hash of
    the state.  A proof that opens satisfies the schema whatever was stored, and a proof of the right
    shape opens to itself. *)

From S2P Require Import Prelude JsText Contracts Io JsString RuntimePolicy Buffers Sessions.
From S2P Require Import Password.
From S2P Require Import JsNumber Json Accounts.
From S2P Require Config.
Local Open Scope Z_scope.

(** ** The cipher *)

(** AES-256-GCM of [node:crypto]: from key, initialisation vector, additional data and plaintext the
    authentication tag and the ciphertext, and back, unless the authentication fails. *)
Class Aead := {
  gcm_seal : buffer → buffer → buffer → buffer → buffer * buffer;
  gcm_open : buffer → buffer → buffer → buffer → buffer → option buffer
}.
(** What the code relies on: what was sealed opens, under a tag of sixteen bytes, and the ciphertext is
    as long as the plaintext. *)
Class AeadLaws (G : Aead) : Prop := {
  gcm_opens k iv aad m : Forall byte m →
    gcm_open k iv aad (gcm_seal k iv aad m).1 (gcm_seal k iv aad m).2 = Some m;
  gcm_tag k iv aad m : length (gcm_seal k iv aad m).1 = 16%nat ∧ Forall byte (gcm_seal k iv aad m).1;
  gcm_text k iv aad m : Forall byte m →
    length (gcm_seal k iv aad m).2 = length m ∧ Forall byte (gcm_seal k iv aad m).2
}.

(** ** The schema *)

(** A path within the site. *)
Definition returnTo_ok (s : jsstr) : bool :=
  (slen s <=? 500) && startsWith (js "/") s && negb (startsWith (js "//") s) && negb (bool_decide (BACKSLASH ∈ s)).
Definition providers : list (string * SocialProvider) :=
  [("auth0", P_auth0); ("google", P_google); ("github", P_github)].
Definition provider_name (s : jsstr) : option SocialProvider := Config.choice providers s.

Fixpoint property (k : jsstr) (o : list (jsstr * value)) : option value :=
  match o with
  | [] => None
  | (k', v) :: o' => if decide (k' = k) then Some v else property k o'
  end.
(** A string that [p] accepts and transforms. *)
Definition text_value {A} (p : jsstr → option A) (v : value) : option A :=
  match v with VStr s => p s | _ => None end.
Definition when (p : jsstr → bool) (s : jsstr) : option jsstr := if p s then Some s else None.

Definition proof_keys : list jsstr := js <$> ["provider"; "verifier"; "nonce"; "returnTo"].
Definition proofSchema (v : value) : option LoginProof :=
  match v with
  | VObj o =>
      if negb (forallb (λ kv, bool_decide (kv.1 ∈ proof_keys)) o) then None else
      provider ← property (js "provider") o ≫= text_value provider_name;
      verifier ← property (js "verifier") o ≫= text_value (when token_ok);
      nonce ← property (js "nonce") o ≫= text_value (when token_ok);
      returnTo ← match property (js "returnTo") o with
                 | Some w => Some <$> text_value (when returnTo_ok) w
                 | None => Some None
                 end;
      Some (mkLoginProof provider verifier nonce returnTo)
  | _ => None
  end.

(** ** Sealing and opening *)

Definition provider_text (p : SocialProvider) : string :=
  match p with P_auth0 => "auth0" | P_google => "google" | P_github => "github" end.
(** The object [begin] builds; an undefined path is left out. *)
Definition proof_json (p : LoginProof) : json :=
  JObj ([("provider", JStr (js (provider_text (lp_provider p)))); ("verifier", JStr (lp_verifier p));
         ("nonce", JStr (lp_nonce p))]
        ++ match lp_returnTo p with Some r => [("returnTo", JStr r)] | None => [] end).

Section Proof.
Context {G : Aead}.

(** [encryptProof] with the twelve random bytes it draws; the key is the configured text, whose bytes
    [Buffer.from(key, 'base64')] are what the code passes. *)
Definition encryptProof (iv : buffer) (key stateHash : jsstr) (proof : LoginProof) : jsstr :=
  let '(tag, encrypted) := gcm_seal (Config.from_base64 key) iv (encode stateHash) (encode (stringify (proof_json proof))) in
  to_base64url (iv ++ tag ++ encrypted).

Definition decryptProof (key stateHash encoded : jsstr) : result LoginProof :=
  let data := from_base64url encoded in
  if (length data <? 29)%nat then Err (JsError "Invalid encrypted proof") else
  match gcm_open (Config.from_base64 key) (take 12 data) (encode stateHash) (take 16 (drop 12 data)) (drop 28 data) with
  | None => Err (JsError "Unsupported state or unable to authenticate data")
  | Some m =>
      match parse (decode m) with
      | None => Err (JsError "SyntaxError")
      | Some v => match proofSchema v with Some proof => Ok proof | None => Err ZodError end
      end
  end.

(** ** What opens satisfies the schema *)

Record proof_ok (p : LoginProof) : Prop := {
  po_verifier : token_ok (lp_verifier p) = true;
  po_nonce : token_ok (lp_nonce p) = true;
  po_path r : lp_returnTo p = Some r → returnTo_ok r = true
}.

Lemma text_when (p : jsstr → bool) v s : text_value (when p) v = Some s → p s = true.
Proof. destruct v as [| | |t| |]; try done. cbn. unfold when. destruct (p t) eqn:E; [|done]. by intros [= <-]. Qed.

Lemma proofSchema_ok v p : proofSchema v = Some p → proof_ok p.
Proof.
  unfold proofSchema. destruct v as [| | | | |o]; try done. destruct (negb _); [done|].
  intros (pr & _ & (ve & (w1 & _ & H1%text_when)%bind_Some & (no & (w2 & _ & H2%text_when)%bind_Some
    & (rt & H3 & [= <-])%bind_Some)%bind_Some)%bind_Some)%bind_Some.
  split; [done..|]. intros r. cbn. intros ->. destruct (property (js "returnTo") o) as [w|]; [|done].
  apply fmap_Some in H3 as (r' & H3%text_when & [= ->]). done.
Qed.

(** Whatever is stored, a proof that opens has tokens of the right form and a path within the site. *)
Lemma decryptProof_ok key h e p : decryptProof key h e = Ok p → proof_ok p.
Proof.
  unfold decryptProof. destruct (_ <? _)%nat; [done|]. destruct (gcm_open _ _ _ _ _); [|done].
  destruct (parse _); [|done]. destruct (proofSchema _) eqn:E; [|done]. intros [= <-]. by eapply proofSchema_ok.
Qed.

(** ** A proof opens to itself *)

Context {GL : AeadLaws G}.

Lemma token_units t : token_ok t = true → forallb unit_okb t = true.
Proof.
  unfold token_ok. intros [H _]%andb_true_iff. rewrite forallb_forall in *. intros u Hu. apply H in Hu.
  unfold is_token_char, is_upper, is_lower, is_digit, unit_okb in *. lia.
Qed.
Lemma text_when_Some (p : jsstr → bool) s : p s = true → text_value (when p) (VStr s) = Some s.
Proof. intros E. cbn. unfold when. by rewrite E. Qed.

Lemma proof_json_schema p : proof_ok p → proofSchema (of_json (proof_json p)) = Some p.
Proof.
  intros [Hv Hn Hr]. destruct p as [pr ve no rt]. cbn [lp_verifier lp_nonce lp_returnTo] in *.
  assert (text_value provider_name (VStr (js (provider_text pr))) = Some pr) as Hp by by destruct pr.
  apply text_when_Some in Hv, Hn. destruct rt as [r|].
  - specialize (Hr r eq_refl). apply text_when_Some in Hr.
    change (proofSchema _) with
      (provider ← text_value provider_name (VStr (js (provider_text pr)));
       verifier ← text_value (when token_ok) (VStr ve); nonce ← text_value (when token_ok) (VStr no);
       returnTo ← Some <$> text_value (when returnTo_ok) (VStr r); Some (mkLoginProof provider verifier nonce returnTo)).
    by rewrite Hp, Hv, Hn, Hr.
  - change (proofSchema _) with
      (provider ← text_value provider_name (VStr (js (provider_text pr)));
       verifier ← text_value (when token_ok) (VStr ve); nonce ← text_value (when token_ok) (VStr no);
       Some (mkLoginProof provider verifier nonce None)).
    by rewrite Hp, Hv, Hn.
Qed.

(** The path is a string of UTF-16 units, as every string of the language is. *)
Definition path_units (p : LoginProof) : Prop := ∀ r, lp_returnTo p = Some r → forallb unit_okb r = true.

Lemma proof_json_plain p : proof_ok p → path_units p → plain (proof_json p) = true.
Proof.
  intros [Hv%token_units Hn%token_units _] Hr. unfold proof_json, path_units in *. destruct (lp_returnTo p) as [r|].
  - cbn [app plain forallb snd]. rewrite Hv, Hn, (Hr r eq_refl). by destruct (lp_provider p).
  - cbn [app plain forallb snd]. rewrite Hv, Hn. by destruct (lp_provider p).
Qed.

(** What [encryptProof] stores, [decryptProof] reads back, under the same key and the hash of the same
    state. *)
Lemma decrypt_encrypt iv key h p :
  length iv = 12%nat → Forall byte iv → proof_ok p → path_units p →
  decryptProof key h (encryptProof iv key h p) = Ok p.
Proof.
  intros Hi Hb Hp Hr. pose proof (proof_json_plain p Hp Hr) as Hj.
  destruct (stringify_sound _ Hj) as [Hu _]. set (m := encode (stringify (proof_json p))).
  assert (Forall byte m) as Hm by by apply encode_bytes.
  unfold decryptProof, encryptProof. fold m.
  pose proof (gcm_opens (Config.from_base64 key) iv (encode h) m Hm) as Ho.
  pose proof (gcm_tag (Config.from_base64 key) iv (encode h) m) as [Lt Bt].
  pose proof (gcm_text (Config.from_base64 key) iv (encode h) m Hm) as [Lc Bc].
  destruct (gcm_seal _ iv _ m) as [tag ct]. cbn [fst snd] in *.
  rewrite base64url_roundtrip by by rewrite !Forall_app.
  assert (length m ≠ 0)%nat as Lm by done.
  rewrite (proj2 (Nat.ltb_ge _ _)) by (rewrite !length_app; lia).
  rewrite (take_app_length' iv), (drop_app_length' iv), (take_app_length' tag) by done.
  replace (drop 28 (iv ++ tag ++ ct)) with ct; cycle 1.
  { rewrite app_assoc, drop_app_length'; [done|rewrite length_app; lia]. }
  rewrite Ho. unfold m. by rewrite parse_utf8, proof_json_schema.
Qed.
End Proof.
