(* ===== verification/Gateways.v ===== *)
(** * The gateways to the identity providers ([auth/github.gateway.ts], [auth/oidc.gateway.ts])

    Where a sign-in is sent to, and what becomes of a provider's answer.  HTTP is an answer to a request;
    the functions of openid-client are parameters. *)

From S2P Require Import Prelude JsText Contracts Io JsString RuntimePolicy Catalogue Buffers.
From S2P Require Import Sizes Sessions Password JsNumber Json Accounts LoginProof.
From S2P Require Config.
Local Open Scope Z_scope.

Definition login_failed : error := ApiError 401 "LOGIN_FAILED" None.
Definition not_configured : error := ApiError 503 "IDENTITY_NOT_CONFIGURED" None.
Definition unavailable : error := ApiError 503 "IDENTITY_UNAVAILABLE" None.
(** The value of a setting that the code asserts to be there. *)
Definition asserted (o : option jsstr) : jsstr := default (js "undefined") o.

(** [name.replace(/[\u0000-\u001f\u007f]/g, '').trim().slice(0, 120)], or the default name. *)
Definition printable (u : Z) : bool := negb ((u <=? 31) || (u =? 127)).
Definition clean_name (s : jsstr) : jsstr := take 120 (trim (filter (λ u, printable u = true) s)).
Definition name_or_default (s : jsstr) : jsstr := if Config.nonempty s then s else js "ArenaCore user".

(** ** GitHub *)

(** A request and its answer: a network error or a timeout, or a status and a text. *)
Record HttpRequest := mkHttp {
  hq_method : string; hq_url : jsstr; hq_headers : list (string * jsstr); hq_body : option jsstr
}.
Inductive HttpAnswer := Http_failed | Http (ok : bool) (text : jsstr).

Definition tokenResponse (v : value) : option jsstr :=
  match v with
  | VObj o =>
      token ← property (js "access_token") o ≫= text_value (when (len_in 1 2048));
      _ ← property (js "token_type") o ≫= text_value (when (λ s, bool_decide (toLowerCase s = js "bearer")));
      Some token
  | _ => None
  end.
Record GithubUser := mkGithubUser { gh_id : Z; gh_login : jsstr; gh_name : option jsstr }.
Definition positive_int (v : value) : option Z :=
  match v with VNum (Some n) => check (λ n, safe_int n && (0 <? n)) n | _ => None end.
Definition userResponse (v : value) : option GithubUser :=
  match v with
  | VObj o =>
      id ← property (js "id") o ≫= positive_int;
      login ← property (js "login") o ≫= text_value (when (len_in 1 100));
      name ← match property (js "name") o with
             | None | Some VNull => Some None
             | Some w => Some <$> text_value (when (len_in 0 120)) w
             end;
      Some (mkGithubUser id login name)
  | _ => None
  end.

Section Github.
Context (v : Config.Values) (fetch : HttpRequest → HttpAnswer).
(** [createHash('sha256').update(text).digest('base64url')]. *)
Context (sha256_base64url : jsstr → jsstr).

Definition github_settings : result (jsstr * jsstr) :=
  if Config.GITHUB_AUTH_ENABLED v
  then Ok (asserted (Config.GITHUB_CLIENT_ID v), asserted (Config.GITHUB_CLIENT_SECRET v))
  else Err not_configured.

Definition github_authorizationUrl (state : jsstr) (proof : LoginProof) : result jsstr :=
  match github_settings with
  | Err e => Err e
  | Ok (clientId, _) =>
      Ok (js "https://github.com/login/oauth/authorize?" ++ form
            [(js "client_id", clientId); (js "redirect_uri", Config.callbackUrl v); (js "state", state);
             (js "code_challenge", sha256_base64url (lp_verifier proof)); (js "code_challenge_method", js "S256");
             (js "allow_signup", js "true")])
  end.

Definition token_request (clientId clientSecret code : jsstr) (proof : LoginProof) : HttpRequest :=
  mkHttp "POST" (js "https://github.com/login/oauth/access_token")
    [("Accept", js "application/json"); ("Content-Type", js "application/x-www-form-urlencoded")]
    (Some (form [(js "client_id", clientId); (js "client_secret", clientSecret); (js "code", code);
                 (js "redirect_uri", Config.callbackUrl v); (js "code_verifier", lp_verifier proof)])).
Definition profile_request (token : jsstr) : HttpRequest :=
  mkHttp "GET" (js "https://api.github.com/user")
    [("Accept", js "application/vnd.github+json"); ("Authorization", js "Bearer " ++ token);
     ("X-GitHub-Api-Version", js "2022-11-28"); ("User-Agent", js "ArenaCore")] None.
(** A request whose answer is JSON that [schema] accepts. *)
Definition fetch_json {A} (schema : value → option A) (r : HttpRequest) : option A :=
  match fetch r with
  | Http true text => parse text ≫= schema
  | _ => None
  end.

(** [exchange]; [params] are those of the callback, which its URL carries as a query. *)
Definition github_exchange (params : list (jsstr * jsstr)) (state : jsstr) (proof : LoginProof) : result VerifiedIdentity :=
  match github_settings with
  | Err e => Err e
  | Ok (clientId, clientSecret) =>
      let get k := search_get (js k) (form_parse (form params)) in
      if negb (bool_decide (get "state" = Some state)) || negb (Config.truthy (get "code")) then Err login_failed else
      match
        (token ← fetch_json tokenResponse (token_request clientId clientSecret (default [] (get "code")) proof);
         profile ← fetch_json userResponse (profile_request token);
         let name := match gh_name profile with Some n => if Config.nonempty n then n else gh_login profile
                                              | None => gh_login profile end in
         Some (mkIdentity (js "https://github.com") (num (gh_id profile)) (name_or_default (clean_name name))))
      with
      | Some i => Ok i
      | None => Err login_failed
      end
  end.
End Github.

(** ** OpenID Connect *)

Inductive OidcProvider := O_auth0 | O_google.
#[export] Instance OidcProvider_dec : EqDecision OidcProvider. Proof. solve_decision. Defined.
Definition oidc_provider (p : SocialProvider) : option OidcProvider :=
  match p with P_auth0 => Some O_auth0 | P_google => Some O_google | P_github => None end.

Record OidcSettings := mkOidcSettings {
  os_issuer : jsstr; os_clientId : jsstr; os_clientSecret : jsstr; os_method : jsstr; os_algorithm : jsstr
}.
(** What discovery found out about a provider. *)
Record Metadata := mkMetadata {
  md_authorization_endpoint : option jsstr; md_token_endpoint : option jsstr; md_jwks_uri : option jsstr;
  md_id_token_algs : option (list jsstr); md_auth_methods : option (list jsstr); md_challenge_methods : option (list jsstr)
}.
Record Claims := mkClaims { cl_sub : value; cl_iss : value; cl_name : value }.

Section Oidc.
Context (v : Config.Values) (URL : jsstr → option Config.Url).
(** openid-client: a configuration and its metadata, the URL it builds from parameters, the S256
    challenge, and the claims of a code grant ([None] where it throws). *)
Context {Configuration : Type} (serverMetadata : Configuration → Metadata).
Context (buildAuthorizationUrl : Configuration → list (string * jsstr) → jsstr) (challenge : jsstr → jsstr).
Context (grant : Configuration → list (jsstr * jsstr) → jsstr → LoginProof → option (option Claims)).

Definition method_text (m : Config.ClientAuthMethod) : jsstr :=
  js (match m with Config.ClientSecretBasic => "client_secret_basic" | Config.ClientSecretPost => "client_secret_post" end).
Definition alg_text (a : Config.IdTokenAlg) : jsstr := js (match a with Config.RS256 => "RS256" | Config.ES256 => "ES256" end).

Definition oidc_settings (p : OidcProvider) : result OidcSettings :=
  match p with
  | O_google =>
      if negb (Config.GOOGLE_AUTH_ENABLED v) then Err not_configured else
      Ok (mkOidcSettings (js "https://accounts.google.com") (asserted (Config.GOOGLE_CLIENT_ID v))
            (asserted (Config.GOOGLE_CLIENT_SECRET v)) (js "client_secret_post") (js "RS256"))
  | O_auth0 =>
      if negb (Config.OIDC_ENABLED v) then Err not_configured else
      Ok (mkOidcSettings (asserted (Config.OIDC_ISSUER v)) (asserted (Config.OIDC_CLIENT_ID v))
            (asserted (Config.OIDC_CLIENT_SECRET v)) (method_text (Config.OIDC_CLIENT_AUTH_METHOD v))
            (alg_text (Config.OIDC_ID_TOKEN_ALG v)))
  end.

(** The checks of [load] on what discovery returned. *)
Definition safe_endpoint (e : option jsstr) : bool :=
  match e with
  | Some s =>
      Config.nonempty s
      && match URL s with
         | Some u => Config.is_https u && negb (Config.nonempty (Config.u_username u))
                     && negb (Config.nonempty (Config.u_password u)) && negb (Config.nonempty (Config.u_hash u))
         | None => false
         end
  | None => false
  end.
Definition includes (l : list jsstr) (s : jsstr) : bool := bool_decide (s ∈ l).
Definition metadata_ok (s : OidcSettings) (m : Metadata) : bool :=
  forallb safe_endpoint [md_authorization_endpoint m; md_token_endpoint m; md_jwks_uri m]
  && match md_id_token_algs m with Some l => includes l (os_algorithm s) | None => false end
  && match md_auth_methods m with Some l => includes l (os_method s) | None => true end
  && match md_challenge_methods m with Some l => includes l (js "S256") | None => true end.

(** [load], given what [oidc.discovery] answers to the settings. *)
Definition load (discovery : OidcSettings → option Configuration) (p : OidcProvider) : option Configuration :=
  match oidc_settings p with
  | Err _ => None
  | Ok s => c ← discovery s; if metadata_ok s (serverMetadata c) then Some c else None
  end.

(** [discover] with the configurations kept so far: a failure is not kept. *)
Abbreviation cache := (OidcProvider → option Configuration).
Definition discover (discovery : OidcSettings → option Configuration) (p : OidcProvider) : io cache Configuration :=
  λ c, match oidc_settings p with
       | Err e => (Err e, c)
       | Ok _ =>
           match c p with
           | Some cfg => (Ok cfg, c)
           | None =>
               match load discovery p with
               | Some cfg => (Ok cfg, λ q, if decide (q = p) then Some cfg else c q)
               | None => (Err unavailable, c)
               end
           end
       end.

Definition no_oidc : error := JsError "GitHub is not an OIDC provider".
Definition oidc_authorizationUrl (discovery : OidcSettings → option Configuration) (state : jsstr) (proof : LoginProof) :
    io cache jsstr :=
  match oidc_provider (lp_provider proof) with
  | None => raise no_oidc
  | Some p =>
      cfg ← discover discovery p;
      mret (buildAuthorizationUrl cfg
        [("redirect_uri", Config.callbackUrl v); ("scope", js "openid profile"); ("response_type", js "code");
         ("response_mode", js "query"); ("state", state); ("nonce", lp_nonce proof);
         ("code_challenge", challenge (lp_verifier proof)); ("code_challenge_method", js "S256")])
  end.

(** What [exchange] makes of the claims. *)
Definition identity_of_claims (p : OidcProvider) (claims : option Claims) : option VerifiedIdentity :=
  match oidc_settings p, claims with
  | Ok s, Some c =>
      match cl_sub c, cl_iss c with
      | VStr sub, VStr iss =>
          if negb (Config.nonempty sub) || (255 <? slen sub) || negb (bool_decide (iss = os_issuer s)) then None else
          let name := match cl_name c with VStr n => clean_name n | _ => [] end in
          Some (mkIdentity iss sub (name_or_default name))
      | _, _ => None
      end
  | _, _ => None
  end.
Definition oidc_exchange (discovery : OidcSettings → option Configuration) (params : list (jsstr * jsstr))
    (state : jsstr) (proof : LoginProof) : io cache VerifiedIdentity :=
  match oidc_provider (lp_provider proof) with
  | None => raise no_oidc
  | Some p =>
      cfg ← discover discovery p;
      match grant cfg params state proof ≫= identity_of_claims p with
      | Some i => mret i
      | None => raise login_failed
      end
  end.
End Oidc.

(** ** Both together, as [login.service.ts] calls them *)

Section Gateways.
Context (v : Config.Values) (URL : jsstr → option Config.Url).
Context (fetch : HttpRequest → HttpAnswer) (sha256_base64url : jsstr → jsstr).
Context {Configuration : Type} (serverMetadata : Configuration → Metadata).
Context (buildAuthorizationUrl : Configuration → list (string * jsstr) → jsstr) (challenge : jsstr → jsstr).
Context (grant : Configuration → list (jsstr * jsstr) → jsstr → LoginProof → option (option Claims)).

Abbreviation cache := (OidcProvider → option Configuration).
Definition authorizationUrl (discovery : OidcSettings → option Configuration) (provider : SocialProvider)
    (state : jsstr) (proof : LoginProof) : io cache jsstr :=
  match provider with
  | P_github => of_result (github_authorizationUrl v sha256_base64url state proof)
  | _ => oidc_authorizationUrl v URL serverMetadata buildAuthorizationUrl challenge discovery state proof
  end.
Definition exchange (discovery : OidcSettings → option Configuration) (provider : SocialProvider)
    (params : list (jsstr * jsstr)) (state : jsstr) (proof : LoginProof) : io cache VerifiedIdentity :=
  match provider with
  | P_github => of_result (github_exchange v fetch params state proof)
  | _ => oidc_exchange v URL serverMetadata grant discovery params state proof
  end.

(** *** Names *)

Lemma trim_part s : trim s `sublist_of` s.
Proof. destruct (trim_infix s) as (p & q & E). rewrite E at 2. by apply sublist_inserts_l, sublist_inserts_r. Qed.
Lemma clean_name_sublist s : clean_name s `sublist_of` filter (λ u, printable u = true) s.
Proof. unfold clean_name. etrans; [apply sublist_take|apply trim_part]. Qed.
Lemma shown_name_ok s (n := name_or_default (clean_name s)) :
  1 ≤ slen n ≤ 120 ∧ Forall (λ u, printable u = true) n.
Proof.
  unfold n, name_or_default. destruct (Config.nonempty (clean_name s)) eqn:E; cycle 1.
  { split; [vm_compute; split; discriminate|]. repeat constructor. }
  split.
  - unfold slen. assert (length (clean_name s) ≤ 120)%nat by (unfold clean_name; rewrite length_take; lia).
    destruct (clean_name s); [done|]. cbn [length] in *. lia.
  - rewrite Forall_forall. intros u Hu. eapply elem_of_sublist in Hu; [|apply clean_name_sublist].
    by apply list_elem_of_filter in Hu as [? _].
Qed.

(** *** Configurations *)

(** The configurations that are kept have passed the checks of [load]. *)
Definition checked (p : OidcProvider) (cfg : Configuration) : Prop :=
  ∃ s, oidc_settings v p = Ok s ∧ metadata_ok URL s (serverMetadata cfg) = true.
Definition cache_ok (c : cache) : Prop := ∀ p cfg, c p = Some cfg → checked p cfg.

Lemma discover_checked discovery p c r c' :
  cache_ok c → discover v URL serverMetadata discovery p c = (r, c') →
  cache_ok c' ∧ ∀ cfg, r = Ok cfg → checked p cfg.
Proof.
  intros Hc. unfold discover. destruct (oidc_settings v p) as [s|e] eqn:Es; [|intros [= <- <-]; by split].
  destruct (c p) as [cfg|] eqn:Ec; [intros [= <- <-]; split; [done|]; intros ? [= <-]; by apply Hc|].
  unfold load. rewrite Es. destruct (discovery s) as [cfg|]; cbn; [|intros [= <- <-]; by split].
  destruct (metadata_ok URL s (serverMetadata cfg)) eqn:Em; [|intros [= <- <-]; by split].
  assert (checked p cfg) as Hp by by exists s.
  intros [= <- <-]. split; [|by intros ? [= <-]]. intros q cfg'. case_decide as E; [|apply Hc].
  subst q. by intros [= <-].
Qed.

(** An outage of the provider is not remembered: after a failure the next call asks again. *)
Lemma discover_retries discovery p c s :
  oidc_settings v p = Ok s → c p = None → load v URL serverMetadata discovery p = None →
  discover v URL serverMetadata discovery p c = (Err unavailable, c).
Proof. intros Hs Hc Hl. unfold discover. by rewrite Hs, Hc, Hl. Qed.

(** *** Where a sign-in is sent *)

Lemma oidc_url_checked discovery p state proof c l c' :
  cache_ok c → oidc_provider (lp_provider proof) = Some p →
  oidc_authorizationUrl v URL serverMetadata buildAuthorizationUrl challenge discovery state proof c = (Ok l, c') →
  cache_ok c' ∧ ∃ cfg query, checked p cfg ∧ l = buildAuthorizationUrl cfg query ∧
    ("redirect_uri", Config.callbackUrl v) ∈ query ∧ ("state", state) ∈ query ∧
    ("code_challenge", challenge (lp_verifier proof)) ∈ query.
Proof.
  clear grant. intros Hc Hp. unfold oidc_authorizationUrl. rewrite Hp. unfold mbind, io_bind, mret, io_ret.
  destruct (discover v URL serverMetadata discovery p c) as [[cfg|] c1] eqn:Ed; [|done].
  apply discover_checked in Ed as [Hc1 Hcfg]; [|done].
  intros [= <- <-]. split; [done|]. eexists cfg, _. split; [by apply Hcfg|]. split; [done|].
  split_and!; set_solver.
Qed.

(** Where [login] sends a browser.  The gateways build an authorization URL only for a provider that is
    enabled: GitHub's own page with the site's callback, the state and the challenge of the proof, or what
    openid-client builds from a discovered configuration all of whose endpoints are plain HTTPS and that
    supports the algorithm, the client authentication and PKCE; and the configurations that are kept go
    on having passed these checks. *)
Lemma authorization_checked discovery provider state proof c l c' :
  cache_ok c → lp_provider proof = provider →
  authorizationUrl discovery provider state proof c = (Ok l, c') →
  cache_ok c' ∧
  match oidc_provider provider with
  | None => Config.GITHUB_AUTH_ENABLED v = true ∧
      ∃ query, l = js "https://github.com/login/oauth/authorize?" ++ form query ∧
        (js "redirect_uri", Config.callbackUrl v) ∈ query ∧ (js "state", state) ∈ query ∧
        (js "code_challenge", sha256_base64url (lp_verifier proof)) ∈ query
  | Some p => ∃ cfg query, checked p cfg ∧ l = buildAuthorizationUrl cfg query ∧
        ("redirect_uri", Config.callbackUrl v) ∈ query ∧ ("state", state) ∈ query ∧
        ("code_challenge", challenge (lp_verifier proof)) ∈ query
  end.
Proof.
  clear grant. intros Hc Hp. destruct provider; cbn [authorizationUrl oidc_provider].
  - intros H. by eapply oidc_url_checked in H; [|done|by rewrite Hp].
  - intros H. by eapply oidc_url_checked in H; [|done|by rewrite Hp].
  - unfold github_authorizationUrl, github_settings, of_result. destruct (Config.GITHUB_AUTH_ENABLED v); [|done].
    intros [= <- <-]. split; [done|]. split; [done|]. eexists. split; [done|]. split_and!; set_solver.
Qed.

(** *** What an identity is *)

Lemma slen_bytes s : slen s ≤ byteLength s.
Proof.
  unfold slen. induction s as [|u|u v' s E IH|u v' s E IH] using points_ind; [done| | |].
  - cbn [length byteLength]. pose proof (unit_bytes_bounds u). lia.
  - rewrite byteLength_pair by done. cbn [length]. lia.
  - rewrite byteLength_unit by done. pose proof (unit_bytes_bounds u). cbn [length] in *. lia.
Qed.
Lemma id_length n : safe_int n && (0 <? n) = true → 1 ≤ slen (num n) ≤ 255.
Proof.
  intros [Hs Hn]%andb_true_iff. assert (0 ≤ n) as H0 by lia. split.
  - destruct (num_digits n H0) as (_ & _ & Hne). unfold slen. destruct (num n); [done|]. cbn [length]. lia.
  - pose proof (number_bytes n Hs H0) as Hb. pose proof (slen_bytes (num n)). unfold num in *. lia.
Qed.

Definition issuer_of (p : SocialProvider) : result jsstr :=
  match p with
  | P_github => Ok (js "https://github.com")
  | P_google => Ok (js "https://accounts.google.com")
  | P_auth0 => Ok (asserted (Config.OIDC_ISSUER v))
  end.

Lemma github_vouched params state proof i :
  Forall sound_pair params → github_exchange v fetch params state proof = Ok i →
  Config.GITHUB_AUTH_ENABLED v = true ∧ search_get (js "state") params = Some state
  ∧ Config.truthy (search_get (js "code") params) = true
  ∧ ∃ n name, safe_int n && (0 <? n) = true
      ∧ i = mkIdentity (js "https://github.com") (num n) (name_or_default (clean_name name)).
Proof.
  intros Hs. unfold github_exchange, github_settings. destruct (Config.GITHUB_AUTH_ENABLED v); [|done].
  rewrite form_roundtrip by done. destruct (bool_decide _) eqn:E1; [|done]. destruct (Config.truthy _) eqn:E2; [|done].
  apply bool_decide_eq_true in E1. cbn [negb orb].
  destruct (fetch_json _ tokenResponse _) as [token|]; [|done]. cbn [mbind option_bind].
  unfold fetch_json. destruct (fetch _) as [|[] t]; try done. destruct (parse t) as [w|]; [|done]. cbn [mbind option_bind].
  destruct (userResponse w) as [u|] eqn:Eu; [|done]. intros [= <-]. split_and!; [done..|].
  destruct w as [| | | | |o]; try done. apply bind_Some in Eu as (id & (x & _ & Hid)%bind_Some & Eu).
  apply bind_Some in Eu as (login & _ & (name & _ & [= <-])%bind_Some).
  destruct x as [| |[n|]| | |]; try done. cbn in Hid. unfold check in Hid.
  destruct (_ && _) eqn:En in Hid; [|done]. injection Hid as <-. by eexists n, _.
Qed.

Lemma oidc_vouched discovery p params state proof c i c' :
  oidc_provider (lp_provider proof) = Some p →
  oidc_exchange v URL serverMetadata grant discovery params state proof c = (Ok i, c') →
  ∃ s name, oidc_settings v p = Ok s ∧ vi_issuer i = os_issuer s ∧ 1 ≤ slen (vi_subject i) ≤ 255
    ∧ vi_displayName i = name_or_default (clean_name name).
Proof.
  intros Hp. unfold oidc_exchange. rewrite Hp. unfold mbind, io_bind, mret, io_ret.
  destruct (discover v URL serverMetadata discovery p c) as [[cfg|] c1]; [|done].
  destruct (grant cfg params state proof) as [claims|]; [|done]. cbn [option_bind].
  destruct (identity_of_claims v p claims) as [j|] eqn:Ej; [|done]. intros [= <- <-]. unfold identity_of_claims in Ej.
  destruct (oidc_settings v p) as [s|]; [|done]. destruct claims as [cl|]; [|done].
  destruct (cl_sub cl) as [| | |sub| |]; try done. destruct (cl_iss cl) as [| | |iss| |]; try done.
  destruct (Config.nonempty sub) eqn:E1; [|done]. destruct (255 <? slen sub) eqn:E2; [done|].
  destruct (bool_decide _) eqn:E3; [|done]. apply bool_decide_eq_true in E3. injection Ej as <-. cbn.
  exists s, (match cl_name cl with VStr n => n | _ => [] end). split_and!; [done|done| |lia|by destruct (cl_name cl)].
  unfold slen. destruct sub; [done|]. cbn [length]. lia.
Qed.

(** What the gateways vouch for.  An identity has the issuer of the provider that the proof names,
    which is enabled, a subject of at most 255 characters and a name of 1 to 120 printable characters,
    whatever the provider answers; and GitHub's is issued only to a callback that carries the state of
    the attempt and a code. *)
Lemma identity_vouched discovery provider params state proof c i c' :
  lp_provider proof = provider → Forall sound_pair params →
  exchange discovery provider params state proof c = (Ok i, c') →
  issuer_of provider = Ok (vi_issuer i)
  ∧ match oidc_provider provider with
    | None => Config.GITHUB_AUTH_ENABLED v = true ∧ search_get (js "state") params = Some state
              ∧ Config.truthy (search_get (js "code") params) = true
    | Some p => ∃ s, oidc_settings v p = Ok s
    end
  ∧ 1 ≤ slen (vi_subject i) ≤ 255 ∧ 1 ≤ slen (vi_displayName i) ≤ 120
  ∧ Forall (λ u, printable u = true) (vi_displayName i).
Proof.
  intros Hp Hs. destruct provider; cbn [exchange oidc_provider].
  1-2: intros H; apply (oidc_vouched _ _ _ _ _ _ _ _ (f_equal oidc_provider Hp)) in H
         as (s & name & Es & Ei & Hsub & Hn); rewrite Hn; pose proof (shown_name_ok name) as Hd.
  - split; [|split; [by exists s|split; [done|exact Hd]]]. unfold oidc_settings in Es.
    destruct (negb _); [done|]. injection Es as <-. by rewrite Ei.
  - split; [|split; [by exists s|split; [done|exact Hd]]]. unfold oidc_settings in Es.
    destruct (negb _); [done|]. injection Es as <-. by rewrite Ei.
  - unfold of_result. intros [= H _]. apply github_vouched in H as (Hg & Hst & Hcode & n & name & Hn & ->); [|done].
    cbn. split; [done|]. split; [done|]. split; [by apply id_length|apply shown_name_ok].
Qed.
End Gateways.
