(* ===== verification/SelfService.v ===== *)
(** * What users and administrators do to accounts

    [apps/api/src/account/account.ts]: settings, session management, password, email and deactivation;
    the logout of [apps/api/src/auth/auth.controller.ts]; roles and restrictions of
    [apps/api/src/admin/admin.ts]. *)

From S2P Require Import Prelude Io Paging JsText Contracts Judge JsString RuntimePolicy Catalogue.
From S2P Require Import Discussions Sessions Password Accounts.
Local Open Scope Z_scope.

(** ** Settings and sessions *)

(** [settingsSchema]: at least one setting. *)
Record SettingsInput := mkSettingsInput {
  sg_profileVisibility : option ProfileVisibility; sg_themePreference : option ThemePreference;
  sg_productNotifications : option bool; sg_competitionNotifications : option bool
}.
Definition settingsSchema (i : SettingsInput) : result SettingsInput :=
  match sg_profileVisibility i, sg_themePreference i, sg_productNotifications i, sg_competitionNotifications i with
  | None, None, None, None => Err invalid_request
  | _, _, _, _ => Ok i
  end.

Definition apply_settings (i : SettingsInput) (s : Settings) : Settings :=
  mkSettings (default (st_profileVisibility s) (sg_profileVisibility i))
    (default (st_themePreference s) (sg_themePreference i))
    (default (st_productNotifications s) (sg_productNotifications i))
    (default (st_competitionNotifications s) (sg_competitionNotifications i)).
Definition with_settings (f : Settings → Settings) (u : User) : User :=
  mkUser (ur_issuer u) (ur_subject u) (ur_row u) (ur_profile u) (f (ur_settings u)) (ur_createdAt u).

Definition updateSettings (userId : rowid) (input : SettingsInput) (a : accounts) : result Settings * accounts :=
  transaction
    (u ← user_update userId (with_settings (apply_settings input));
     _ ← log_audit userId "ACCOUNT_SETTINGS_UPDATE" userId;
     mret (ur_settings u)) a.

Definition credential_of (userId : rowid) (a : accounts) : option Credential :=
  (λ r, r.2.2) <$> list_find (λ r : rowid * Credential, cr_userId r.2 = userId) (map_to_list (ac_credentials a)).

Record SettingsView := mkSettingsView {
  sv_username : jsstr; sv_displayName : jsstr; sv_avatarUrl : option jsstr; sv_settings : Settings;
  sv_hasPassword : bool; sv_email : option jsstr
}.
Definition settings (userId : rowid) (a : accounts) : result SettingsView :=
  match ac_users a !! userId with
  | None => Err not_found
  | Some u =>
      let c := credential_of userId a in
      Ok (mkSettingsView (us_username (ur_row u)) (pf_displayName (ur_profile u)) (pf_avatarUrl (ur_profile u))
            (ur_settings u) (bool_decide (is_Some c)) (cr_email <$> c))
  end.

(** [sessions]: id, whether it is the current one, creation and expiry. *)
Definition sessions_list (now : Z) (userId currentSessionId : rowid) (a : accounts) :
    list (rowid * bool * Z * Z) :=
  (λ s, (entry_id s, bool_decide (entry_id s = currentSessionId), sn_createdAt s, se_expiresAt (sn_row s)))
  <$> active_sessions userId now a.

(** [tx.session.update({where: {id}, data: {revokedAt}})]. *)
Definition session_revoke (now : Z) (id : rowid) : tx accounts unit :=
  a ← the_accounts;
  _ ← raise_if (bool_decide (ac_sessions a !! id = None)) (DbError "P2025");
  modify (λ a, set_sessions (alter (revoke now) id (ac_sessions a)) a).

Definition revokeSession (now : Z) (userId currentSessionId sessionId : rowid) (seen a : accounts) :
    result bool * accounts :=
  match s ← ac_sessions seen !! sessionId; if of_user userId s && unrevoked s then Some s else None with
  | None => (Err not_found, a)
  | Some _ =>
      let current := bool_decide (sessionId = currentSessionId) in
      transaction
        (_ ← session_revoke now sessionId;
         _ ← log_audit userId (if current then "ACCOUNT_CURRENT_SESSION_REVOKE" else "ACCOUNT_SESSION_REVOKE")
               sessionId;
         mret current) a
  end.

(** Every other session of the user that is not revoked. *)
Definition others (userId currentSessionId : rowid) (s : SessionEntry) : bool :=
  of_user userId s && negb (bool_decide (entry_id s = currentSessionId)) && unrevoked s.

Definition revokeOtherSessions (now now' : Z) (userId currentSessionId : rowid) (a : accounts) :
    result nat * accounts :=
  let live s := others userId currentSessionId s && (now <? se_expiresAt (sn_row s)) in
  transaction
    (changed ← gets (λ a, length (filter (λ s, live s = true) (map_to_list (ac_sessions a)).*2));
     _ ← revoke_where live now';
     _ ← log_audit userId "ACCOUNT_OTHER_SESSIONS_REVOKE" userId;
     mret changed) a.

(** [AuthController.logout]. *)
Definition logout (now : Z) (userId sessionId : rowid) (a : accounts) : result unit * accounts :=
  transaction
    (_ ← session_revoke now sessionId;
     log_audit userId "AUTH_LOGOUT" userId) a.

(** ** Password and email *)

Definition credential_update (id : rowid) (f : Credential → Credential) : tx accounts unit :=
  a ← the_accounts;
  match ac_credentials a !! id with
  | None => throw (DbError "P2025")
  | Some c => credential_put (f c)
  end.
Definition with_hash (h : jsstr) (c : Credential) : Credential := mkCredential (cr_id c) (cr_userId c) (cr_email c) h.
Definition with_email (e : jsstr) (c : Credential) : Credential :=
  mkCredential (cr_id c) (cr_userId c) e (cr_passwordHash c).
Definition with_subject (s : jsstr) (u : User) : User :=
  mkUser (ur_issuer u) s (ur_row u) (ur_profile u) (ur_settings u) (ur_createdAt u).

Definition invalid_credentials : error := ApiError 401 "INVALID_CREDENTIALS" None.

Section SelfService.
Context (derive : jsstr → list Z → list Z).

(** [password] and [passwordSchema]. *)
Definition password_ok (p : jsstr) : bool := len_in 12 128 p && (byteLength p <=? 256).
Definition passwordSchema (currentPassword newPassword : jsstr) : result (jsstr * jsstr) :=
  if password_ok currentPassword && password_ok newPassword && negb (bool_decide (currentPassword = newPassword))
  then Ok (currentPassword, newPassword) else Err invalid_request.

Definition changePassword (now : Z) (salt : list Z) (userId currentSessionId : rowid)
    (currentPassword newPassword : jsstr) (seen a : accounts) : result unit * accounts :=
  match credential_of userId seen with
  | None => (Err (ApiError 409 "PASSWORD_NOT_AVAILABLE" None), a)
  | Some c =>
      if negb (verifyPassword derive currentPassword (Some (cr_passwordHash c)))
      then (Err invalid_credentials, a) else
      let passwordHash := hashPassword derive salt newPassword in
      transaction
        (_ ← credential_update (cr_id c) (with_hash passwordHash);
         _ ← revoke_where (others userId currentSessionId) now;
         log_audit userId "ACCOUNT_PASSWORD_CHANGE" userId) a
  end.

(** [catch (error) { if P2002 throw EMAIL_TAKEN }]. *)
Definition email_taken {A S} (r : result A * S) : result A * S :=
  match r with
  | (Err (DbError code), a) =>
      if String.eqb code "P2002" then (Err (ApiError 409 "EMAIL_TAKEN" None), a) else r
  | _ => r
  end.

Definition changeEmail (now : Z) (userId currentSessionId : rowid) (currentPassword newEmail : jsstr)
    (seen a : accounts) : result (bool * jsstr) * accounts :=
  match credential_of userId seen with
  | None => (Err (ApiError 409 "EMAIL_NOT_AVAILABLE" None), a)
  | Some c =>
      if negb (verifyPassword derive currentPassword (Some (cr_passwordHash c)))
      then (Err invalid_credentials, a) else
      let newEmail := toLowerCase (trim newEmail) in
      if bool_decide (newEmail = cr_email c) then (Ok (false, cr_email c), a) else
      email_taken (transaction
        (_ ← credential_update (cr_id c) (with_email newEmail);
         _ ← user_update userId (with_subject newEmail);
         _ ← revoke_where (others userId currentSessionId) now;
         _ ← log_audit userId "ACCOUNT_EMAIL_CHANGE" userId;
         mret (true, newEmail)) a)
  end.

(** ** Deactivation *)

(** The row of a deactivated user; [suffix] is a random uuid without hyphens. *)
Definition deactivated (now : Z) (suffix : jsstr) (u : User) : User :=
  let r := ur_row u in
  mkUser (js "arenacore:deleted") suffix
    (mkUserRow (js "deleted_" ++ take 24 suffix) (us_role r) (Some now) (us_bannedAt r) (us_suspendedUntil r)
       (us_restrictionReason r))
    (mkProfile (js "Deleted user") None None None None)
    (mkSettings PROFILE_PRIVATE (st_themePreference (ur_settings u)) false false) (ur_createdAt u).

(** What the deactivation removes beside the sessions: credential, ownership of competitions,
    registrations, likes and the write quota. *)
Definition forget_user (userId : rowid) (a : accounts) : accounts :=
  mkAccounts (ac_users a) (ac_sessions a)
    (filter (λ r, cr_userId r.2 ≠ userId) (ac_credentials a)) (ac_attempts a) (ac_limits a)
    ((λ o, if bool_decide (o = Some userId) then None else o) <$> ac_owners a)
    (filter (λ r, r.2 ≠ userId) (ac_registrations a)) (filter (λ l, l.2 ≠ userId) (ac_likes a))
    (delete userId (ac_quotas a)) (ac_audit a).

Definition deactivate (now now' : Z) (suffix : jsstr) (userId : rowid) (currentPassword : option jsstr)
    (seen a : accounts) : result unit * accounts :=
  let refused :=
    match credential_of userId seen with
    | None => false
    | Some c =>
        match currentPassword with
        | None => true
        | Some p => negb (verifyPassword derive p (Some (cr_passwordHash c)))
        end
    end in
  if refused then (Err invalid_credentials, a) else
  transaction
    (_ ← revoke_where (λ s, of_user userId s && unrevoked s) now;
     _ ← modify (forget_user userId);
     _ ← user_update userId (deactivated now' suffix);
     log_audit userId "ACCOUNT_DEACTIVATE" userId) a.
End SelfService.

(** ** Roles and restrictions *)

Definition with_role (role : Role) : User → User :=
  with_row (λ r, mkUserRow (us_username r) role (us_deactivatedAt r) (us_bannedAt r) (us_suspendedUntil r)
                   (us_restrictionReason r)).
Definition admins (a : accounts) : list User :=
  filter (λ u, us_role (ur_row u) = R_ADMIN) (map_to_list (ac_users a)).*2.
Definition is_admin (r : Role) : bool := bool_decide (r = R_ADMIN).

Definition setRole (actorId userId : rowid) (role : Role) (seen a : accounts) : result Role * accounts :=
  if bool_decide (actorId = userId) && negb (is_admin role)
  then (Err (ApiError 409 "SELF_DEMOTION_FORBIDDEN" None), a) else
  match ac_users seen !! userId with
  | None => (Err not_found, a)
  | Some user =>
      let old := us_role (ur_row user) in
      if bool_decide (old = role) then (Ok old, a) else
      transaction
        (a0 ← the_accounts;
         _ ← (if is_admin old && negb (is_admin role)
              then raise_if (length (admins a0) <=? 1)%nat (ApiError 409 "LAST_ADMIN_REQUIRED" None)
              else mret tt);
         u ← user_update userId (with_role role);
         _ ← log_audit actorId "ADMIN_USER_ROLE_UPDATE" userId;
         mret (us_role (ur_row u))) a
  end.

Inductive RestrictionInput := RI_SUSPEND (until : Z) (reason : jsstr) | RI_BAN (reason : jsstr) | RI_CLEAR.
Definition is_clear (i : RestrictionInput) : bool := match i with RI_CLEAR => true | _ => false end.
Definition restriction_action (i : RestrictionInput) : string :=
  match i with RI_SUSPEND _ _ => "SUSPEND" | RI_BAN _ => "BAN" | RI_CLEAR => "CLEAR" end.
(** [restrictionInput]: the reason is trimmed and bounded. *)
Definition restrictionInput (i : RestrictionInput) : result RestrictionInput :=
  match i with
  | RI_SUSPEND until reason =>
      if len_in 3 500 (trim reason) then Ok (RI_SUSPEND until (trim reason)) else Err invalid_request
  | RI_BAN reason => if len_in 3 500 (trim reason) then Ok (RI_BAN (trim reason)) else Err invalid_request
  | RI_CLEAR => Ok RI_CLEAR
  end.

(** The columns a restriction writes: [bannedAt], [suspendedUntil], [restrictionReason]. *)
Definition restriction_data (now : Z) (i : RestrictionInput) : result (option Z * option Z * option jsstr) :=
  match i with
  | RI_BAN reason => Ok (Some now, None, Some reason)
  | RI_SUSPEND until reason =>
      if (until <=? now) || (now + 365 * 24 * 60 * 60 * 1000 <? until)
      then Err (ApiError 400 "INVALID_SUSPENSION" None) else Ok (None, Some until, Some reason)
  | RI_CLEAR => Ok (None, None, None)
  end.
Definition with_restriction (d : option Z * option Z * option jsstr) : User → User :=
  with_row (λ r, mkUserRow (us_username r) (us_role r) (us_deactivatedAt r) d.1.1 d.1.2 d.2).

Definition restrict (now : Z) (actorId userId : rowid) (input : RestrictionInput) (seen a : accounts) :
    result (option Z * option Z * option jsstr) * accounts :=
  if bool_decide (actorId = userId) then (Err (ApiError 409 "SELF_RESTRICTION_FORBIDDEN" None), a) else
  match ac_users seen !! userId with
  | None => (Err not_found, a)
  | Some user =>
      if is_admin (us_role (ur_row user)) then (Err (ApiError 409 "ADMIN_RESTRICTION_FORBIDDEN" None), a) else
      match restriction_data now input with
      | Err e => (Err e, a)
      | Ok data =>
          transaction
            (_ ← user_update userId (with_restriction data);
             _ ← (if is_clear input then mret tt
                  else revoke_where (λ s, of_user userId s && unrevoked s) now);
             _ ← log_audit actorId ("ADMIN_USER_RESTRICTION_" +:+ restriction_action input) userId;
             mret data) a
      end
  end.
