(* ===== verification/AccountFacts.v ===== *)
(** * Sessions over time

    Every operation on accounts only ever revokes or removes sessions, except for the one session a
    sign-in creates; so a session that was revoked never authenticates again.  A sign-in leaves its
    user at most ten active sessions, and its own token works. *)

From S2P Require Import Prelude Io Paging JsText Contracts Judge JsString RuntimePolicy Catalogue.
From S2P Require Import Publication Discussions Sessions Password Accounts SelfService.
From S2P Require Import Forum.
Local Open Scope Z_scope.

(** ** Relations that committed transactions respect *)

Section Preserves.
Context {S : Type} (R : relation S) `{!PreOrder R}.

Definition preserves {A} (m : tx S A) : Prop := ∀ s a s', m s = Ok (a, s') → R s s'.

Lemma preserves_ret {A} (a : A) : preserves (mret a).
Proof. intros s b s' [_ ->]%mret_Ok. reflexivity. Qed.
Lemma preserves_gets {A} (f : S → A) : preserves (gets f).
Proof. intros s b s' [_ ->]%gets_Ok. reflexivity. Qed.
Lemma preserves_throw {A} e : preserves (throw (A := A) e).
Proof. by intros s b s'. Qed.
Lemma preserves_raise_if b e : preserves (raise_if b e).
Proof. intros s u s' [_ ->]%raise_if_Ok. reflexivity. Qed.
Lemma preserves_modify f : (∀ s, R s (f s)) → preserves (modify f).
Proof. intros H s u s' ->%modify_Ok. apply H. Qed.
Lemma preserves_bind {A B} (m : tx S A) (f : A → tx S B) :
  preserves m → (∀ a, preserves (f a)) → preserves (m ≫= f).
Proof. intros Hm Hf s b s' (a & s1 & H1 & H2)%bind_Ok. etrans; [by eapply Hm|by eapply Hf]. Qed.
Lemma respects_atomically {A} (m : tx S A) : preserves m → respects R (atomically m).
Proof.
  intros Hm s. unfold atomically, transaction. destruct (m s) as [[a s']|] eqn:E; cbn; [by eapply Hm|reflexivity].
Qed.
End Preserves.

Create HintDb accounts.
#[export] Hint Resolve preserves_ret preserves_gets preserves_throw preserves_raise_if : accounts.
#[export] Hint Extern 0 (PreOrder _) => apply _ : accounts.

(** Walks a transaction body down to its writes. *)
Ltac go_tx :=
  repeat first
    [ solve [auto with accounts]
    | apply preserves_bind; [apply _| |intros ?]
    | match goal with |- preserves _ (match ?x with _ => _ end) => destruct x end
    | match goal with |- preserves _ (let _ := _ in _) => cbv zeta end ].

(** ** How the session table may change *)

(** The same session, at most revoked since. *)
Definition later (s s' : SessionEntry) : Prop :=
  entry_id s' = entry_id s ∧ se_userId (sn_row s') = se_userId (sn_row s) ∧
  se_tokenHash (sn_row s') = se_tokenHash (sn_row s) ∧
  se_csrfTokenHash (sn_row s') = se_csrfTokenHash (sn_row s) ∧
  se_expiresAt (sn_row s') = se_expiresAt (sn_row s) ∧ sn_createdAt s' = sn_createdAt s ∧
  (unrevoked s' = true → unrevoked s = true).
#[export] Instance later_preorder : PreOrder later.
Proof.
  split; [by intros s|].
  intros s1 s2 s3 (?&?&?&?&?&?&L1) (?&?&?&?&?&?&L2). split_and!; try congruence. auto.
Qed.

Lemma revoke_later now s : later s (revoke now s).
Proof. by split_and!. Qed.

(** Sessions are only revoked or removed, except that one with the given id and hash may appear. *)
Definition issues (id : rowid) (hash : jsstr) (a a' : accounts) : Prop :=
  ∀ k s', ac_sessions a' !! k = Some s' →
  (∃ s, ac_sessions a !! k = Some s ∧ later s s') ∨
  (k = id ∧ entry_id s' = id ∧ se_tokenHash (sn_row s') = hash).

#[export] Instance issues_preorder id hash : PreOrder (issues id hash).
Proof.
  split.
  - intros a k s Hs. left. exists s. split; [done|reflexivity].
  - intros a b c H1 H2 k s'' Hs''. destruct (H2 k s'' Hs'') as [(s' & Hs' & L2)|?]; [|auto].
    destruct (H1 k s' Hs') as [(s & Hs & L1)|(-> & Ei & E)].
    + left. exists s. split; [done|by etrans].
    + right. destruct L2 as (-> & _ & -> & _). done.
Qed.

Section Issues.
Context (id : rowid) (hash : jsstr).

Lemma issues_same a a' : ac_sessions a' = ac_sessions a → issues id hash a a'.
Proof. intros E k s Hs. rewrite E in Hs. left. exists s. split; [done|reflexivity]. Qed.

Lemma issues_map a f : (∀ s, later s (f s)) → issues id hash a (set_sessions (f <$> ac_sessions a) a).
Proof. intros Hf k s'. cbn. rewrite lookup_fmap_Some. intros (s & <- & Hs). eauto. Qed.

Lemma issues_filter a (P : rowid * SessionEntry → Prop) `{!∀ r, Decision (P r)} :
  issues id hash a (set_sessions (filter P (ac_sessions a)) a).
Proof. intros k s'. cbn. intros [Hs _]%map_lookup_filter_Some. left. exists s'. split; [done|reflexivity]. Qed.

Lemma issues_alter a now k : issues id hash a (set_sessions (alter (revoke now) k (ac_sessions a)) a).
Proof.
  intros k' s'. cbn. rewrite lookup_alter_Some. intros [(<- & s & Hs & ->)|[_ Hs]]; left.
  - eauto using revoke_later.
  - exists s'. split; [done|reflexivity].
Qed.

Lemma session_create_issues s :
  entry_id s = id → se_tokenHash (sn_row s) = hash → preserves (issues id hash) (session_create s).
Proof.
  intros Ei Eh a u a' H. unfold session_create in H. inv_cat. unfold the_accounts in *. inv_cat.
  intros k s'. cbn. rewrite lookup_insert_Some. intros [[<- <-]|[_ Hs]]; [by right|].
  left. exists s'. split; [done|reflexivity].
Qed.

Lemma revoke_where_issues p now : preserves (issues id hash) (revoke_where p now).
Proof. apply preserves_modify. intros a. apply issues_map. intros s. destruct (p s); [apply revoke_later|reflexivity]. Qed.
Lemma log_audit_issues x y z : preserves (issues id hash) (log_audit x y z).
Proof. apply preserves_modify. intros a. by apply issues_same. Qed.
Lemma the_accounts_issues : preserves (issues id hash) the_accounts.
Proof. apply preserves_gets. apply _. Qed.
Lemma modify_same_issues f :
  (∀ a, ac_sessions (f a) = ac_sessions a) → preserves (issues id hash) (modify f).
Proof. intros Hf. apply preserves_modify. intros a. by apply issues_same. Qed.
End Issues.

#[export] Hint Resolve session_create_issues revoke_where_issues log_audit_issues the_accounts_issues : accounts.
#[export] Hint Extern 1 (preserves (issues _ _) (modify _)) =>
  first [apply modify_same_issues; intros; reflexivity
        | apply preserves_modify; intros; apply issues_filter] : accounts.

Section Operations.
Context (id : rowid) (hash : jsstr).

Lemma user_put_issues i u : preserves (issues id hash) (user_put i u).
Proof. unfold user_put. go_tx. Qed.
#[local] Hint Resolve user_put_issues : accounts.
Lemma user_update_issues i f : preserves (issues id hash) (user_update i f).
Proof. unfold user_update. go_tx. Qed.
Lemma credential_put_issues c : preserves (issues id hash) (credential_put c).
Proof. unfold credential_put. go_tx. Qed.
#[local] Hint Resolve user_update_issues credential_put_issues : accounts.
Lemma credential_update_issues i f : preserves (issues id hash) (credential_update i f).
Proof. unfold credential_update. go_tx. Qed.
Lemma ensureAllowed_issues t t' u : preserves (issues id hash) (ensureAllowed t t' u).
Proof. unfold ensureAllowed. go_tx. Qed.
Lemma user_upsert_issues dw i : preserves (issues id hash) (user_upsert dw i).
Proof. unfold user_upsert. go_tx. Qed.
Lemma limit_upsert_issues k t : preserves (issues id hash) (limit_upsert k t).
Proof. unfold limit_upsert. go_tx. Qed.
Lemma consume_issues t h b : preserves (issues id hash) (consume_attempt t h b).
Proof. unfold consume_attempt. go_tx. Qed.
End Operations.

#[export] Hint Resolve user_put_issues user_update_issues credential_put_issues credential_update_issues
  ensureAllowed_issues user_upsert_issues limit_upsert_issues consume_issues : accounts.

Lemma transaction_issues {A} id hash (m : tx accounts A) a :
  preserves (issues id hash) m → issues id hash a (transaction m a).2.
Proof. intros Hm. apply (respects_atomically (issues id hash) m Hm a). Qed.

Section Signing.
Context (sha256 : jsstr → jsstr) (hmac hmac_hex : jsstr → jsstr → jsstr) (derive : jsstr → list Z → list Z).
Context (config : AuthConfig).

Lemma issueUser_issues clk dw token req u action :
  respects (issues (dw_session dw) (sha256 token)) (issueUser sha256 hmac config clk dw token req u action).
Proof. intros a. apply transaction_issues. go_tx. Qed.
Lemma issueIdentity_issues clk dw token req i :
  respects (issues (dw_session dw) (sha256 token)) (issueIdentity sha256 hmac config clk dw token req i).
Proof. intros a. apply transaction_issues. go_tx. Qed.

Lemma limit_issues id hash t key ip : respects (issues id hash) (limit hmac_hex config t key ip).
Proof. unfold limit. go_io. apply respects_atomically; [apply _|]. go_tx. Qed.
#[local] Hint Resolve limit_issues issueUser_issues issueIdentity_issues : io.
Lemma protect_issues id hash t req b : respects (issues id hash) (protect hmac_hex config t req b).
Proof. unfold protect, require_key. go_io. Qed.
#[local] Hint Resolve protect_issues : io.

Lemma user_create_issues id hash dw cid u email h : respects (issues id hash) (user_create dw cid u email h).
Proof.
  intros a. unfold user_create.
  match goal with |- context [transaction ?m a] => assert (issues id hash a (transaction m a).2) as H end.
  { apply transaction_issues. go_tx. }
  destruct (transaction _ a) as [[|[]] a']; cbn in *; try done. by destruct (String.eqb _ _).
Qed.
#[local] Hint Resolve user_create_issues : io.

Lemma register_issues clk dw cid salt token req input :
  respects (issues (dw_session dw) (sha256 token))
    (register sha256 hmac hmac_hex derive config clk dw cid salt token req input).
Proof. unfold register, require_enabled. go_io. Qed.
Lemma authenticate_issues clk dw token req email password :
  respects (issues (dw_session dw) (sha256 token))
    (authenticate sha256 hmac hmac_hex derive config clk dw token req email password).
Proof. unfold authenticate, require_enabled. go_io. Qed.

Context (authorizationUrl : SocialProvider → jsstr → LoginProof → result jsstr).
Context (exchange : SocialProvider → list (jsstr * jsstr) → jsstr → LoginProof → result VerifiedIdentity).
Context (encryptProof : jsstr → jsstr → LoginProof → jsstr).
Context (decryptProof : jsstr → jsstr → jsstr → result LoginProof).

Lemma begin_issues id hash clk state browser verifier nonce req provider returnTo :
  respects (issues id hash)
    (begin sha256 hmac_hex config authorizationUrl encryptProof clk state browser verifier nonce req provider returnTo).
Proof. unfold begin. go_io. apply respects_atomically; [apply _|]. go_tx. Qed.
Lemma finish_issues clk dw token req state params seen :
  respects (issues (dw_session dw) (sha256 token))
    (finish sha256 hmac config exchange decryptProof clk dw token req state params seen).
Proof.
  unfold finish, require_key. go_io. apply respects_atomically; [apply _|]. auto with accounts.
Qed.
End Signing.

Lemma email_taken_state {A S} (r : result A * S) : (email_taken r).2 = r.2.
Proof. destruct r as [[|[]] ?]; cbn; try done. by destruct (String.eqb _ _). Qed.

(** ** Runs *)

Section Runs.
Context (sha256 : jsstr → jsstr) (hmac hmac_hex : jsstr → jsstr → jsstr) (derive : jsstr → list Z → list Z).
Context (config : AuthConfig).
Context (authorizationUrl : SocialProvider → jsstr → LoginProof → result jsstr).
Context (exchange : SocialProvider → list (jsstr * jsstr) → jsstr → LoginProof → result VerifiedIdentity).
Context (encryptProof : jsstr → jsstr → LoginProof → jsstr).
Context (decryptProof : jsstr → jsstr → jsstr → result LoginProof).

(** An operation in one go, and also the transactions that a sign-in consists of one by one, since those of
    others may come in between. *)
Inductive account_op :=
| O_limit (now : Z) (key ip : jsstr)
| O_create (dw : Draw) (cid : rowid) (u : User) (email passwordHash : jsstr)
| O_issueUser (clk : nat → Z) (dw : Draw) (token : jsstr) (req : AuthRequest) (userId : rowid) (action : string)
| O_consume (now : Z) (state browserToken : jsstr)
| O_issueIdentity (clk : nat → Z) (dw : Draw) (token : jsstr) (req : AuthRequest) (identity : VerifiedIdentity)
| O_register (clk : nat → Z) (dw : Draw) (cid : rowid) (salt : list Z) (token : jsstr) (req : AuthRequest)
    (input : Registration)
| O_authenticate (clk : nat → Z) (dw : Draw) (token : jsstr) (req : AuthRequest) (email password : jsstr)
| O_begin (clk : nat → Z) (state browserToken verifier nonce : jsstr) (req : AuthRequest)
    (provider : SocialProvider) (returnTo : jsstr)
| O_finish (clk : nat → Z) (dw : Draw) (token : jsstr) (req : AuthRequest) (state : jsstr)
    (params : list (jsstr * jsstr)) (seen : accounts)
| O_settings (userId : rowid) (input : SettingsInput)
| O_revoke (now : Z) (userId current sessionId : rowid) (seen : accounts)
| O_revokeOthers (now now' : Z) (userId current : rowid)
| O_logout (now : Z) (userId sessionId : rowid)
| O_password (now : Z) (salt : list Z) (userId current : rowid) (old new : jsstr) (seen : accounts)
| O_email (now : Z) (userId current : rowid) (password newEmail : jsstr) (seen : accounts)
| O_deactivate (now now' : Z) (suffix : jsstr) (userId : rowid) (password : option jsstr) (seen : accounts)
| O_setRole (actorId userId : rowid) (role : Role) (seen : accounts)
| O_restrict (now : Z) (actorId userId : rowid) (input : RestrictionInput) (seen : accounts).

Definition account_step (a : accounts) (o : account_op) : accounts :=
  match o with
  | O_limit now key ip => (limit hmac_hex config now key ip a).2
  | O_create dw cid u email passwordHash => (user_create dw cid u email passwordHash a).2
  | O_issueUser clk dw token req userId action =>
      (issueUser sha256 hmac config clk dw token req userId action a).2
  | O_consume now state browserToken =>
      (atomically (consume_attempt now (sha256 state) (sha256 browserToken)) a).2
  | O_issueIdentity clk dw token req identity => (issueIdentity sha256 hmac config clk dw token req identity a).2
  | O_register clk dw cid salt token req input =>
      (register sha256 hmac hmac_hex derive config clk dw cid salt token req input a).2
  | O_authenticate clk dw token req email password =>
      (authenticate sha256 hmac hmac_hex derive config clk dw token req email password a).2
  | O_begin clk state browserToken verifier nonce req provider returnTo =>
      (begin sha256 hmac_hex config authorizationUrl encryptProof clk state browserToken verifier nonce req
         provider returnTo a).2
  | O_finish clk dw token req state params seen =>
      (finish sha256 hmac config exchange decryptProof clk dw token req state params seen a).2
  | O_settings userId input => (updateSettings userId input a).2
  | O_revoke now userId current sessionId seen => (revokeSession now userId current sessionId seen a).2
  | O_revokeOthers now now' userId current => (revokeOtherSessions now now' userId current a).2
  | O_logout now userId sessionId => (logout now userId sessionId a).2
  | O_password now salt userId current old new seen =>
      (changePassword derive now salt userId current old new seen a).2
  | O_email now userId current password newEmail seen =>
      (changeEmail derive now userId current password newEmail seen a).2
  | O_deactivate now now' suffix userId password seen =>
      (deactivate derive now now' suffix userId password seen a).2
  | O_setRole actorId userId role seen => (setRole actorId userId role seen a).2
  | O_restrict now actorId userId input seen => (restrict now actorId userId input seen a).2
  end.

(** The token a sign-in drew, and the id of its session. *)
Definition op_draw (o : account_op) : option (rowid * jsstr) :=
  match o with
  | O_register _ dw _ _ token _ _ | O_authenticate _ dw token _ _ _ | O_finish _ dw token _ _ _ _
  | O_issueUser _ dw token _ _ _ | O_issueIdentity _ dw token _ _ =>
      Some (dw_session dw, token)
  | _ => None
  end.

#[local] Hint Extern 1 (preserves (issues _ _) (modify _)) =>
  apply preserves_modify; intros; apply issues_alter : accounts.

Lemma step_issues a o id token :
  (op_draw o = None ∨ op_draw o = Some (id, token)) → issues id (sha256 token) a (account_step a o).
Proof.
  intros Ho. destruct o; cbn [account_step];
    try (destruct Ho as [|[= <- <-]]; [done|];
         first [apply register_issues|apply authenticate_issues|apply finish_issues|apply issueUser_issues
               |apply issueIdentity_issues]).
  - apply limit_issues.
  - apply user_create_issues.
  - apply transaction_issues. auto with accounts.
  - apply begin_issues.
  - apply transaction_issues. go_tx.
  - unfold revokeSession. destruct (_ ≫= _); [|reflexivity]. apply transaction_issues. go_tx.
  - apply transaction_issues. go_tx.
  - apply transaction_issues. go_tx.
  - unfold changePassword. destruct (credential_of _ _); [|reflexivity]. destruct (negb _); [reflexivity|].
    apply transaction_issues. go_tx.
  - unfold changeEmail. destruct (credential_of _ _); [|reflexivity]. destruct (negb _); [reflexivity|].
    destruct (bool_decide _); [reflexivity|]. rewrite email_taken_state. apply transaction_issues. go_tx.
  - unfold deactivate. match goal with |- context [if ?b then _ else _] => destruct b end; [reflexivity|].
    apply transaction_issues. go_tx.
  - unfold setRole. destruct (_ && _); [reflexivity|]. destruct (ac_users _ !! _); [|reflexivity].
    destruct (bool_decide _); [reflexivity|]. apply transaction_issues. go_tx.
  - unfold restrict. destruct (bool_decide _); [reflexivity|]. destruct (ac_users _ !! _); [|reflexivity].
    destruct (is_admin _); [reflexivity|]. destruct (restriction_data _ _); [|reflexivity].
    apply transaction_issues. go_tx.
Qed.

(** No session of the table has the hash. *)
Definition unused (hash : jsstr) (a : accounts) : Prop :=
  ∀ k s, ac_sessions a !! k = Some s → se_tokenHash (sn_row s) ≠ hash.

(** A run, latest state first; the ids and tokens drawn at random do not repeat. *)
Inductive account_run (a0 : accounts) : list accounts → Prop :=
| arun_start : account_run a0 [a0]
| arun_step a hist o :
    account_run a0 (a :: hist) →
    (∀ id token g, op_draw o = Some (id, token) → g ∈ a :: hist →
       ac_sessions g !! id = None ∧ unused (sha256 token) g) →
    account_run a0 (account_step a o :: a :: hist).

(** A session of a step is an older one, or has a hash that no earlier state knew. *)
Lemma step_lineage a0 a hist o k s' :
  account_run a0 (a :: hist) →
  (∀ id token g, op_draw o = Some (id, token) → g ∈ a :: hist →
     ac_sessions g !! id = None ∧ unused (sha256 token) g) →
  ac_sessions (account_step a o) !! k = Some s' →
  (∃ s, ac_sessions a !! k = Some s ∧ later s s') ∨
  (∃ id token, op_draw o = Some (id, token) ∧ k = id ∧ se_tokenHash (sn_row s') = sha256 token).
Proof.
  intros Hrun Hnew Hs'. destruct (op_draw o) as [[id token]|] eqn:Eo.
  - destruct (step_issues a o id token (or_intror Eo) k s' Hs') as [?|(-> & _ & E)]; [by left|right; eauto].
  - left. destruct (step_issues a o (k ++ [0]) [] (or_introl Eo) k s' Hs') as [?|(E & _)]; [done|].
    exfalso. apply (f_equal length) in E. rewrite length_app in E. cbn in E. lia.
Qed.

Lemma run_lineage a0 a hist g k s' :
  account_run a0 (a :: hist) → g ∈ a :: hist → ac_sessions a !! k = Some s' →
  (∃ s, ac_sessions g !! k = Some s ∧ later s s') ∨ unused (se_tokenHash (sn_row s')) g.
Proof.
  remember (a :: hist) as l eqn:El. intros Hr. revert a hist El g s'.
  induction Hr as [|a1 hist1 o Hrun IH Hnew]; intros a hist [= <- <-] g s'.
  { intros ->%list_elem_of_singleton Hs. left. exists s'. split; [done|reflexivity]. }
  rewrite elem_of_cons. intros [->|Hg] Hs'; [left; exists s'; split; [done|reflexivity]|].
  destruct (step_lineage _ _ _ _ _ _ Hrun Hnew Hs') as [(s & Hs & L)|(id & token & Eo & -> & E)].
  - destruct (IH a1 hist1 eq_refl g s Hg Hs) as [(s0 & Hs0 & L0)|Hu].
    + left. exists s0. split; [done|by etrans].
    + right. destruct L as (_ & _ & -> & _). done.
  - right. rewrite E. by apply (Hnew id token g Eo Hg).
Qed.

Definition tokens_unique (a : accounts) : Prop :=
  ∀ k k' s s', ac_sessions a !! k = Some s → ac_sessions a !! k' = Some s' →
  se_tokenHash (sn_row s) = se_tokenHash (sn_row s') → k = k'.

Lemma run_tokens a0 a hist : tokens_unique a0 → account_run a0 (a :: hist) → tokens_unique a.
Proof.
  intros H0. remember (a :: hist) as l eqn:El. intros Hr. revert a hist El.
  induction Hr as [|a1 hist1 o Hrun IH Hnew]; intros a hist [= <- <-]; [done|].
  specialize (IH a1 hist1 eq_refl). intros k k' s s' Hs Hs' E.
  destruct (step_lineage _ _ _ _ _ _ Hrun Hnew Hs) as [(r & Hr & L)|(id & token & Eo & -> & Eh)],
    (step_lineage _ _ _ _ _ _ Hrun Hnew Hs') as [(r' & Hr' & L')|(id' & token' & Eo' & -> & Eh')].
  - destruct L as (_ & _ & E1 & _), L' as (_ & _ & E1' & _). by apply (IH k k' r r'); [..|congruence].
  - exfalso. destruct L as (_ & _ & E1 & _). destruct (Hnew _ _ a1 Eo' ltac:(left)) as [_ Hu].
    apply (Hu k r Hr). congruence.
  - exfalso. destruct L' as (_ & _ & E1' & _). destruct (Hnew _ _ a1 Eo ltac:(left)) as [_ Hu].
    apply (Hu k' r' Hr'). congruence.
  - congruence.
Qed.

(** The table as the guard reads it: sessions with their users. *)
Definition session_rows (a : accounts) : sessions :=
  omap (λ s, u ← ac_users a !! se_userId (sn_row s); Some (sn_row s, ur_row u)) (map_to_list (ac_sessions a)).*2.

Lemma session_rows_elem a r u :
  (r, u) ∈ session_rows a → ∃ k s, ac_sessions a !! k = Some s ∧ sn_row s = r.
Proof.
  unfold session_rows. rewrite list_elem_of_omap. intros (s & Hs & E).
  apply list_elem_of_fmap in Hs as ([k s'] & -> & Hk%elem_of_map_to_list). cbn in *.
  destruct (ac_users a !! _); [|done]. injection E as <- _. eauto.
Qed.

Lemma find_session_elem h (db : sessions) r u :
  find_session h db = Some (r, u) → (r, u) ∈ db ∧ se_tokenHash r = h.
Proof.
  unfold find_session. destruct (list_find _ db) as [[i x]|] eqn:E; [|done]. intros [= ->].
  apply list_find_Some in E as (Hi & Hh & _). split; [by eapply list_elem_of_lookup_2|done].
Qed.

(** C26: signing out is final.  Once a session has been revoked, by its user, by a change of password or
    email, by the session cap, by a deactivation or by an administrator, no later state of the run
    resolves its token to anybody. *)
Theorem revoked_forever a0 a hist g k s token now now' req :
  tokens_unique a0 → account_run a0 (a :: hist) → g ∈ a :: hist →
  ac_sessions g !! k = Some s → unrevoked s = false → se_tokenHash (sn_row s) = sha256 token →
  rq_cookie req = Some token →
  Sessions.resolve sha256 hmac now now' (session_rows a) req = None.
Proof.
  intros Hu0 Hrun Hg Hs Hrev Eh Hc. unfold Sessions.resolve. rewrite Hc. destruct (negb _); [done|].
  destruct (find_session _ (session_rows a)) as [[r u]|] eqn:Ef; [|done].
  apply find_session_elem in Ef as [Hin Er]. apply session_rows_elem in Hin as (k' & s' & Hs' & <-).
  destruct (run_lineage _ _ _ g _ _ Hrun Hg Hs') as [(s0 & Hs0 & L)|Hun]; cycle 1.
  { exfalso. apply (Hun k s Hs). unfold hashToken in Er. congruence. }
  assert (tokens_unique g) as Hug.
  { clear -Hu0 Hrun Hg. remember (a :: hist) as l eqn:El. revert a hist El Hg.
    induction Hrun as [|a1 hist1 o Hrun IH Hnew]; intros a hist [= <- <-].
    - by intros ->%list_elem_of_singleton.
    - rewrite elem_of_cons. intros [->|Hg]; [|by apply (IH a1 hist1)].
      eapply run_tokens; [done|]. by constructor. }
  destruct L as (_ & _ & E1 & _ & _ & _ & Hmono).
  assert (k' = k) as -> by (eapply Hug; [exact Hs0|exact Hs|]; unfold hashToken in Er; congruence).
  simplify_eq. assert (unrevoked s' = false) as Hr'.
  { destruct (unrevoked s'); [|done]. rewrite Hmono in Hrev; done. }
  unfold unrevoked in Hr'. apply bool_decide_eq_false, not_eq_None_Some in Hr'.
  by rewrite bool_decide_eq_true_2.
Qed.
End Runs.

(** * Signing in

    What a sign-in leaves behind: at most ten active sessions of its user, a token the guard accepts,
    and, through a provider, a consumed attempt that only its own browser could use.  What a change of
    password does to the other sessions, and what keeps an administrator in office. *)


(** The session table is keyed by the ids of its rows. *)
Definition sessions_keyed (a : accounts) : Prop := ∀ k s, ac_sessions a !! k = Some s → entry_id s = k.

Lemma issues_keyed id hash a a' : issues id hash a a' → sessions_keyed a → sessions_keyed a'.
Proof.
  intros H Hk k s' Hs'. destruct (H k s' Hs') as [(s & Hs & E & _)|(-> & E & _)]; [|done].
  rewrite E. by apply Hk.
Qed.

Lemma active_elem u t a s :
  sessions_keyed a →
  s ∈ active_sessions u t a ↔ ac_sessions a !! entry_id s = Some s ∧ active_of u t s = true.
Proof.
  intros Hk. unfold active_sessions. rewrite merge_sort_Permutation, list_elem_of_filter, list_elem_of_fmap. split.
  - intros (Ha & [k r] & -> & Hr%elem_of_map_to_list). cbn in *. by rewrite (Hk k r Hr).
  - intros [Hs Ha]. split; [done|]. exists (entry_id s, s). by rewrite elem_of_map_to_list.
Qed.

Lemma active_ids u t a : sessions_keyed a → NoDup (entry_id <$> active_sessions u t a).
Proof.
  intros Hk. unfold active_sessions. rewrite merge_sort_Permutation. apply filter_keys_NoDup.
  intros k s Hs. symmetry. by apply Hk.
Qed.

(** A table whose active sessions all belong to a list of ids has no more of them. *)
Lemma active_bound u t a ids :
  sessions_keyed a → (∀ s, s ∈ active_sessions u t a → entry_id s ∈ ids) →
  (length (active_sessions u t a) ≤ length ids)%nat.
Proof.
  intros Hk Hin. rewrite <- (length_fmap entry_id). apply submseteq_length, NoDup_submseteq; [by apply active_ids|].
  intros i (s & -> & Hs)%list_elem_of_fmap. by apply Hin.
Qed.

Lemma active_of_later u t t' s s' :
  later s s' → t ≤ t' → active_of u t' s' = true → active_of u t s = true.
Proof.
  intros (_ & Eu & _ & _ & Ee & _ & Hr) Ht. unfold active_of, of_user. rewrite Eu, Ee, !andb_true_iff, !Z.ltb_lt.
  intros [[Ho Hu] He]. split_and!; [done|auto|lia].
Qed.

Section SignIn.
Context (sha256 : jsstr → jsstr) (hmac : jsstr → jsstr → jsstr) (config : AuthConfig).

(** The eviction of the sessions beyond the nine newest, from the state [b] that counts them. *)
Definition evicted (clk : nat → Z) (u : rowid) (b : accounts) : accounts :=
  let active := active_sessions u (clk 2%nat) b in
  if (10 <=? length active)%nat
  then set_sessions ((λ s, if bool_decide (entry_id s ∈ entry_id <$> drop 9 active)
                           then revoke (clk 3%nat) s else s) <$> ac_sessions b) b
  else b.

(** [persistSession] with the state [b] in which it counts the active sessions. *)
Record persisted (clk : nat → Z) (new : SessionEntry) (a b a' : accounts) : Prop := {
  pz_shrunk : ∀ k s', ac_sessions b !! k = Some s' → ∃ s, ac_sessions a !! k = Some s ∧ later s s';
  pz_inserts : ac_sessions a' = <[entry_id new := new]> (ac_sessions (evicted clk (se_userId (sn_row new)) b));
  pz_unused : unused (se_tokenHash (sn_row new)) (evicted clk (se_userId (sn_row new)) b);
  pz_users : ac_users a' = ac_users a
}.

Lemma persistSession_Ok clk id at_ req u action x expiresAt a r a' :
  persistSession sha256 clk id at_ req u action x expiresAt a = Ok (r, a') →
  ∃ b, persisted clk (mkEntry (mkSessionRow id u (sx_tokenHash x) (sx_csrfTokenHash x) expiresAt None) at_) a b a'.
Proof.
  unfold persistSession. intros H. apply bind_Ok in H as (u1 & a1 & H1 & H).
  assert ((∀ k s', ac_sessions a1 !! k = Some s' → ∃ s, ac_sessions a !! k = Some s ∧ later s s')
          ∧ ac_users a1 = ac_users a) as [Hs1 Eu1].
  { destruct (valid_cookie _); [apply modify_Ok in H1 as ->|apply mret_Ok in H1 as [_ ->]]; cbn.
    - split; [|done]. intros k s'. rewrite lookup_fmap_Some. intros (s & <- & Hs). exists s. split; [done|].
      destruct (_ && _); [apply revoke_later|reflexivity].
    - split; [|done]. intros k s Hs. exists s. split; [done|reflexivity]. }
  apply bind_Ok in H as (u2 & b & H2 & H). apply modify_Ok in H2.
  assert ((∀ k s', ac_sessions b !! k = Some s' → ac_sessions a1 !! k = Some s') ∧ ac_users b = ac_users a1)
    as [Hs2 Eu2].
  { rewrite H2. split; [|done]. cbn. by intros k s' [Hs _]%map_lookup_filter_Some. }
  clear H2.
  apply bind_Ok in H as (active & b' & H3 & H). apply gets_Ok in H3 as [-> ->].
  apply bind_Ok in H as (u3 & c & H4 & H).
  assert (c = evicted clk u b) as ->.
  { unfold evicted. destruct (10 <=? _)%nat; [by apply modify_Ok in H4|by apply mret_Ok in H4 as [_ ->]]. }
  apply bind_Ok in H as (u4 & d & H5 & H). apply modify_Ok in H as ->.
  unfold session_create, the_accounts in H5. inv_cat. guards. exists b. split; cbn.
  - intros k s' Hs. by apply Hs1, Hs2.
  - done.
  - intros k s Hs E. match goal with H : existsb _ _ = false |- _ => apply (existsb_false _ _ (k, s)) in H as Hq end;
      [|by apply elem_of_map_to_list]. cbn in Hq. by rewrite bool_decide_eq_true_2 in Hq.
  - unfold evicted. destruct (10 <=? _)%nat; cbn; congruence.
Qed.

(** The sessions that remain active are the new one and the nine newest. *)
Lemma persisted_active clk new a b a' t s :
  sessions_keyed a → persisted clk new a b a' → clk 2%nat ≤ t →
  s ∈ active_sessions (se_userId (sn_row new)) t a' →
  entry_id s ∈ entry_id new :: (entry_id <$> take 9 (active_sessions (se_userId (sn_row new)) (clk 2%nat) b)).
Proof.
  intros Hk [Hs Ei _ _] Ht. set (u := se_userId (sn_row new)) in *.
  assert (Hkb : sessions_keyed b).
  { intros k s' Hs'. destruct (Hs k s' Hs') as (s0 & Hs0 & E & _). rewrite E. by apply Hk. }
  assert (Hka : sessions_keyed a').
  { intros k s'. rewrite Ei, lookup_insert_Some. intros [[<- <-]|[_ Hs']]; [done|]. unfold evicted in Hs'.
    destruct (10 <=? _)%nat; cbn in Hs'; [|by apply Hkb]. apply lookup_fmap_Some in Hs' as (s0 & <- & Hs0).
    destruct (bool_decide _); cbn; by apply Hkb in Hs0. }
  intros [Hin Hact]%active_elem; [|done]. rewrite Ei, lookup_insert_Some in Hin.
  destruct Hin as [[E _]|[_ Hin]]; [rewrite <- E; left|right].
  set (active := active_sessions u (clk 2%nat) b) in *. unfold evicted in Hin. fold active in Hin.
  assert (∀ s0, ac_sessions b !! entry_id s = Some s0 → later s0 s → s0 ∈ active) as Hactive.
  { intros s0 Hs0 L. apply active_elem; [done|]. rewrite (Hkb _ _ Hs0). split; [done|by eapply active_of_later]. }
  destruct (Nat.leb_spec 10 (length active)) as [Hl|Hl]; cbn in Hin.
  - apply lookup_fmap_Some in Hin as (s0 & E & Hs0). case_bool_decide as Hd.
    + subst s. unfold active_of, unrevoked in Hact. cbn in Hact. by rewrite andb_false_r in Hact.
    + subst s0. specialize (Hactive s Hs0 ltac:(reflexivity)). rewrite <- (take_drop 9 active), elem_of_app in Hactive.
      apply list_elem_of_fmap. destruct Hactive as [?|Hdrop]; [eauto|].
      destruct Hd. apply list_elem_of_fmap. eauto.
  - rewrite take_ge by lia. apply list_elem_of_fmap. exists s. split; [done|].
    apply Hactive; [done|reflexivity].
Qed.

Lemma persisted_cap clk new a b a' t :
  sessions_keyed a → sessions_keyed a' → persisted clk new a b a' → clk 2%nat ≤ t →
  (length (active_sessions (se_userId (sn_row new)) t a') ≤ 10)%nat.
Proof.
  intros Hk Hk' Hp Ht. etrans.
  { eapply active_bound; [done|]. intros s. by apply (persisted_active _ _ _ _ _ _ _ Hk Hp Ht). }
  cbn. rewrite length_fmap, length_take. lia.
Qed.

(** The guard finds a session whose hash occurs once. *)
Lemma find_session_unique a s u :
  ac_sessions a !! entry_id s = Some s → ac_users a !! se_userId (sn_row s) = Some u →
  (∀ k s', ac_sessions a !! k = Some s' → se_tokenHash (sn_row s') = se_tokenHash (sn_row s) → s' = s) →
  find_session (se_tokenHash (sn_row s)) (session_rows a) = Some (sn_row s, ur_row u).
Proof.
  intros Hs Hu Huniq. assert ((sn_row s, ur_row u) ∈ session_rows a) as Hin.
  { unfold session_rows. rewrite list_elem_of_omap. exists s. split.
    - apply list_elem_of_fmap. exists (entry_id s, s). by rewrite elem_of_map_to_list.
    - by rewrite Hu. }
  unfold find_session. destruct (list_find _ (session_rows a)) as [[i [r v]]|] eqn:E; cycle 1.
  { apply list_find_None in E. rewrite Forall_forall in E. by destruct (E _ Hin). }
  apply list_find_Some in E as (Hi & Hh & _). cbn in *. apply list_elem_of_lookup_2 in Hi. f_equal.
  unfold session_rows in Hi. apply list_elem_of_omap in Hi as (s' & Hs' & Er).
  apply list_elem_of_fmap in Hs' as ([k s''] & -> & Hk%elem_of_map_to_list). cbn in *.
  destruct (ac_users a !! se_userId (sn_row s'')) as [v'|] eqn:Ev; [|done]. injection Er as <- <-.
  rewrite (Huniq k s'' Hk Hh) in *. congruence.
Qed.

Lemma ensureAllowed_Ok t t' r a u a' :
  ensureAllowed t t' r a = Ok (u, a') →
  a' = a ∧ us_bannedAt r = None ∧ ∀ until, us_suspendedUntil r = Some until → until ≤ t.
Proof.
  unfold ensureAllowed. destruct (us_bannedAt r); [done|]. destruct (us_suspendedUntil r) as [x|].
  - destruct (Z.ltb_spec t x); [done|]. intros [_ ->]%mret_Ok. split_and!; [done..|]. intros ? [= <-]. lia.
  - intros [_ ->]%mret_Ok. done.
Qed.

(** What a sign-in leaves in the state [a']: a token that expires after the configured time, of an account
    that was neither banned nor suspended, has at most ten active sessions from then on, and, until it is
    deactivated or the token expires, is what the token resolves to. *)
Definition welcomed (clk : nat → Z) (dw : Draw) (token : jsstr) (a' : accounts) (tok : jsstr) (exp : Z)
    (userId : rowid) (user : User) : Prop :=
  tok = token ∧ exp = clk 4%nat + cf_SESSION_TTL_SECONDS config * 1000 ∧
  ac_users a' !! userId = Some user ∧ us_bannedAt (ur_row user) = None ∧
  (∀ until, us_suspendedUntil (ur_row user) = Some until → until ≤ clk 5%nat) ∧
  (∀ t, clk 2%nat ≤ t → (length (active_sessions userId t a') ≤ 10)%nat) ∧
  (∀ now now' r, rq_cookie r = Some token → token_ok token = true → now < exp →
     us_deactivatedAt (ur_row user) = None →
     ∃ p, Sessions.resolve sha256 hmac now now' (session_rows a') r = Some p ∧
          pn_userId p = userId ∧ pn_sessionId p = dw_session dw).

(** The common end of both ways: the account is let in and gets its session. *)
Lemma let_in clk dw token req userId action user a tok exp a' :
  sessions_keyed a → sessions_keyed a' → ac_users a !! userId = Some user →
  (_ ← ensureAllowed (clk 5%nat) (clk 6%nat) (ur_row user);
   _ ← persistSession sha256 clk (dw_session dw) (dw_sessionAt dw) req userId action
         (newSessionSecrets sha256 hmac token) (expiry config (clk 4%nat));
   mret (token, expiry config (clk 4%nat))) a = Ok ((tok, exp), a') →
  ac_users a' = ac_users a ∧ welcomed clk dw token a' tok exp userId user.
Proof.
  intros Hk Hk' Eu H. apply bind_Ok in H as (u1 & a1 & H1 & H). apply ensureAllowed_Ok in H1 as (-> & Hb & Hs).
  apply bind_Ok in H as (u2 & a2 & H2 & H). apply mret_Ok in H as [[= -> ->] ->].
  apply persistSession_Ok in H2 as [b Hp]. pose proof Hp as [_ Ei Hun Eus]. cbn in Ei, Hun.
  split; [done|]. unfold welcomed. rewrite Eus. split_and!; [done..| |].
  - intros t Ht. by apply (persisted_cap clk _ a b a2 t Hk Hk' Hp).
  - intros now now' r Hc Ht Hx Hd. unfold Sessions.resolve. rewrite Hc, Ht. cbn [negb].
    pose proof (find_session_unique a2 (mkEntry (mkSessionRow (dw_session dw) userId (sha256 token)
      (sha256 (csrfForSession hmac token)) (expiry config (clk 4%nat)) None) (dw_sessionAt dw)) user) as Hf.
    cbn in Hf. unfold hashToken. rewrite Hf; clear Hf.
    + cbn. rewrite Hd. rewrite (proj2 (Z.leb_gt _ _)) by done.
      rewrite !bool_decide_eq_false_2 by (by intros []). cbn. eauto.
    + rewrite Ei. by rewrite lookup_insert_eq.
    + by rewrite Eus.
    + intros k s'. rewrite Ei, lookup_insert_Some. intros [[_ <-]|[_ Hs']]; [done|]. intros E. by destruct (Hun k s' Hs').
Qed.

Lemma issueUser_welcomes clk dw token req userId action a tok exp a' :
  sessions_keyed a →
  issueUser sha256 hmac config clk dw token req userId action a = (Ok (tok, exp), a') →
  ∃ user, ac_users a !! userId = Some user ∧ welcomed clk dw token a' tok exp userId user.
Proof.
  intros Hk H. assert (sessions_keyed a') as Hk'.
  { eapply issues_keyed; [|exact Hk]. pose proof (issueUser_issues sha256 hmac config clk dw token req userId action a) as Hi.
    rewrite H in Hi. exact Hi. }
  unfold issueUser in H. rewrite transaction_Ok in H.
  apply bind_Ok in H as (a0 & s0 & H0 & H). apply gets_Ok in H0 as [-> ->].
  destruct (ac_users a !! userId) as [user|] eqn:Eu; [|done].
  exists user. split; [done|]. by apply let_in in H as [_ ?].
Qed.

(** The user of an identity: the one it has had, with its role and restrictions, or a new one. *)
Lemma user_upsert_Ok dw i a id u a' :
  user_upsert dw i a = Ok ((id, u), a') →
  ac_sessions a' = ac_sessions a ∧ ac_users a' !! id = Some u ∧
  ur_issuer u = vi_issuer i ∧ ur_subject u = vi_subject i ∧
  ∀ old, ac_users a !! id = Some old → ur_row u = ur_row old ∧ ur_issuer old = vi_issuer i ∧ ur_subject old = vi_subject i.
Proof.
  unfold user_upsert, the_accounts. intros H. apply bind_Ok in H as (a0 & s0 & H0 & H). apply gets_Ok in H0 as [-> ->].
  destruct (list_find _ _) as [[n [k v]]|] eqn:Ef.
  - apply list_find_Some in Ef as (Hn & [E1 E2] & _). cbn in E1, E2.
    apply list_elem_of_lookup_2, elem_of_map_to_list in Hn.
    apply bind_Ok in H as (w & s & H1 & H). apply mret_Ok in H as [[= -> ->] ->].
    unfold user_update, user_put, the_accounts in H1. inv_cat.
    destruct (ac_users a !! k) as [x|] eqn:Ex; [|done]. injection Hn as ->. inv_cat. cbn.
    rewrite lookup_insert_eq. split_and!; [done..|]. intros old [= <-]. done.
  - apply bind_Ok in H as (w & s & H1 & H). apply raise_if_Ok in H1 as [H1 ->].
    apply bind_Ok in H as (w' & s & H2 & H). apply mret_Ok in H as [[= -> ->] ->].
    unfold user_put, the_accounts in H2. inv_cat. cbn. rewrite lookup_insert_eq. split_and!; [done..|].
    intros old Hold. apply bool_decide_eq_false in H1. destruct H1. by exists old.
Qed.

Lemma issueIdentity_welcomes clk dw token req i a tok exp a' :
  sessions_keyed a →
  issueIdentity sha256 hmac config clk dw token req i a = (Ok (tok, exp), a') →
  ∃ userId user, ur_issuer user = vi_issuer i ∧ ur_subject user = vi_subject i ∧
    (∀ old, ac_users a !! userId = Some old →
       ur_row user = ur_row old ∧ ur_issuer old = vi_issuer i ∧ ur_subject old = vi_subject i) ∧
    welcomed clk dw token a' tok exp userId user.
Proof.
  intros Hk H. assert (sessions_keyed a') as Hk'.
  { eapply issues_keyed; [|exact Hk]. pose proof (issueIdentity_issues sha256 hmac config clk dw token req i a) as Hi.
    rewrite H in Hi. exact Hi. }
  unfold issueIdentity in H. rewrite transaction_Ok in H. apply bind_Ok in H as ([id u] & a1 & H1 & H). cbn [fst snd] in H.
  apply user_upsert_Ok in H1 as (Es & Eu & E1 & E2 & Hold). exists id, u. split_and!; [done..|].
  apply let_in in H as [_ ?]; [done| |done|done]. intros k s. rewrite Es. apply Hk.
Qed.

(** ** Attempts *)

Definition same_attempts (a a' : accounts) : Prop := ac_attempts a' = ac_attempts a.
#[local] Instance same_attempts_preorder : PreOrder same_attempts.
Proof. split; [by intros a|]. intros a b c H1 H2. unfold same_attempts in *. congruence. Qed.
#[local] Hint Extern 1 (preserves same_attempts (modify _)) =>
  apply preserves_modify; intros; reflexivity : accounts.

Lemma issueIdentity_attempts clk dw token req i a :
  ac_attempts (issueIdentity sha256 hmac config clk dw token req i a).2 = ac_attempts a.
Proof.
  apply (respects_atomically same_attempts). unfold user_upsert, user_update, user_put, ensureAllowed,
    persistSession, session_create, revoke_where, log_audit, the_accounts. go_tx.
Qed.

Context (exchange : SocialProvider → list (jsstr * jsstr) → jsstr → LoginProof → result VerifiedIdentity).
Context (decryptProof : jsstr → jsstr → jsstr → result LoginProof).

(** The attempt a callback may complete: begun in the same browser, and not expired at [now]. *)
Definition usable (now : Z) (req : AuthRequest) (state : jsstr) (a : accounts) : Prop :=
  ∃ browser t, valid_cookie (ar_login req) = Some browser ∧ ac_attempts a !! sha256 state = Some t ∧
    aa_browserTokenHash t = sha256 browser ∧ now < aa_expiresAt t.

(** C28: a provider's callback signs in at most once and only in the browser that began.  It succeeds only
    with an attempt for its state that this browser's cookie began and that has not expired, and the
    attempt is gone afterwards; without such an attempt at the moment it is consumed, whatever was
    read before, the callback is refused and changes nothing. *)
Theorem finish_single_use clk dw token req state params seen a :
  (∀ r a', finish sha256 hmac config exchange decryptProof clk dw token req state params seen a = (Ok r, a') →
     usable (clk 7%nat) req state a ∧ ac_attempts a' !! sha256 state = None) ∧
  (¬ usable (clk 7%nat) req state a → cf_authTransactionKey config ≠ None →
     finish sha256 hmac config exchange decryptProof clk dw token req state params seen a
     = (Err invalid_login_state, a)).
Proof.
  unfold finish, require_key. destruct (cf_authTransactionKey config) as [key|]; [|split; [done|done]].
  destruct (valid_cookie (ar_login req)) as [browser|] eqn:Eb; [|split; [done|done]].
  destruct (ac_attempts seen !! sha256 state) as [attempt|]; [|split; [done|done]].
  unfold mbind, io_bind, mret, io_ret, atomically, transaction, consume_attempt, mbind, tx_bind, the_accounts, gets.
  destruct (ac_attempts a !! sha256 state) as [t|] eqn:Et; cycle 1.
  { split; [done|]. done. }
  destruct (bool_decide _ && _) eqn:Ec; cbn.
  - guards. apply bool_decide_eq_true in Hg. apply Z.ltb_lt in Hg0. split; cycle 1.
    { intros Hn. destruct Hn. by exists browser, t. }
    intros r a'. destruct (decryptProof _ _ _) as [proof|]; [|done]. destruct (exchange _ _ _ _) as [identity|]; [|done].
    cbn. match goal with |- context [issueIdentity ?x1 ?x2 ?x3 ?x4 ?x5 ?x6 ?x7 ?x8 ?x9] =>
      pose proof (issueIdentity_attempts x4 x5 x6 x7 x8 x9) as Ea;
      destruct (issueIdentity x1 x2 x3 x4 x5 x6 x7 x8 x9) as [[session|] b] end; [|done].
    intros [= _ <-]. cbn in Ea. split; [by exists browser, t|]. rewrite Ea. cbn. by rewrite lookup_delete_eq.
  - split; [done|]. done.
Qed.

(** ** Every way of signing in *)

Context (hmac_hex : jsstr → jsstr → jsstr) (derive : jsstr → list Z → list Z).

(** Users, sessions and credentials are as they were. *)
Definition undisturbed (a a' : accounts) : Prop :=
  ac_users a' = ac_users a ∧ ac_sessions a' = ac_sessions a ∧ ac_credentials a' = ac_credentials a.
#[local] Instance undisturbed_preorder : PreOrder undisturbed.
Proof.
  split; [by intros a|]. intros a b c (?&?&?) (?&?&?). unfold undisturbed. split_and!; congruence.
Qed.
#[local] Hint Extern 1 (preserves undisturbed (modify _)) =>
  apply preserves_modify; intros; by split_and! : accounts.

Lemma protect_undisturbed t req b : respects undisturbed (protect hmac_hex config t req b).
Proof.
  unfold protect, require_key, limit. go_io. apply respects_atomically; [apply _|].
  unfold limit_upsert, the_accounts. go_tx.
Qed.
Lemma consume_undisturbed t h b : respects undisturbed (atomically (consume_attempt t h b)).
Proof. apply respects_atomically; [apply _|]. unfold consume_attempt, the_accounts. go_tx. Qed.

Lemma undisturbed_keyed a a' : undisturbed a a' → sessions_keyed a → sessions_keyed a'.
Proof. intros (_ & Es & _) Hk k s. rewrite Es. apply Hk. Qed.

Lemma protected t req b a key a' : protect hmac_hex config t req b a = (Ok key, a') → undisturbed a a'.
Proof. intros E. pose proof (protect_undisturbed t req b a) as Hp. by rewrite E in Hp. Qed.

Lemma user_create_Ok dw cid u email hash a id a' :
  user_create dw cid u email hash a = (Ok id, a') →
  id = dw_user dw ∧ ac_users a !! dw_user dw = None ∧ ac_sessions a' = ac_sessions a.
Proof.
  unfold user_create. destruct (transaction _ a) as [[x|e] b] eqn:E; cycle 1.
  { destruct e; try done. by destruct (String.eqb _ _). }
  intros [= <- <-]. rewrite transaction_Ok in E. unfold user_put, credential_put, the_accounts in E. inv_cat. guards.
  split; [done|]. split; [assumption|]. done.
Qed.

(** C27: what a sign-in gives, by registering, with a password or through a provider.  Only an account
    that is neither banned nor suspended signs in: the new one, the one whose email and password were
    given, or the one of the identity that the provider vouched for, whose restrictions the sign-in does
    not touch.  From then on it has at most ten active sessions; and until it expires the new token
    resolves to that account and to the new session, while the account is not deactivated. *)
Theorem sign_in_works a :
  sessions_keyed a →
  (∀ clk dw cid salt token req input tok exp a',
     register sha256 hmac hmac_hex derive config clk dw cid salt token req input a = (Ok (tok, exp), a') →
     ac_users a !! dw_user dw = None ∧ ∃ user, welcomed clk dw token a' tok exp (dw_user dw) user)
  ∧ (∀ clk dw token req email password tok exp a',
     authenticate sha256 hmac hmac_hex derive config clk dw token req email password a = (Ok (tok, exp), a') →
     ∃ k c user, ac_credentials a !! k = Some c ∧ cr_email c = toLowerCase (trim email) ∧
       verifyPassword derive password (Some (cr_passwordHash c)) = true ∧
       ac_users a !! cr_userId c = Some user ∧ welcomed clk dw token a' tok exp (cr_userId c) user)
  ∧ (∀ clk dw token req state params seen tok exp returnTo a',
     finish sha256 hmac config exchange decryptProof clk dw token req state params seen a
       = (Ok (tok, exp, returnTo), a') →
     ∃ proof identity userId user, exchange (lp_provider proof) params state proof = Ok identity ∧
       ur_issuer user = vi_issuer identity ∧ ur_subject user = vi_subject identity ∧
       (∀ old, ac_users a !! userId = Some old → ur_row user = ur_row old) ∧
       welcomed clk dw token a' tok exp userId user).
Proof.
  intros Hk. split_and!.
  - intros clk dw cid salt token req input tok exp a' H. unfold register, require_enabled in H.
    apply io_bind_Ok in H as (u & a1 & H1 & H). destruct (negb _) in H1; [done|]; injection H1 as _ <-.
    apply io_bind_Ok in H as (key & a2 & H2 & H). apply protected in H2. pose proof H2 as (Eu & _ & _).
    apply io_bind_Ok in H as (id & a3 & H3 & H). apply user_create_Ok in H3 as (-> & Hn & Es).
    apply issueUser_welcomes in H as (user & _ & Hw).
    + split; [by rewrite <- Eu|by exists user].
    + intros k s. rewrite Es. by apply (undisturbed_keyed a a2).
  - intros clk dw token req email password tok exp a' H. unfold authenticate, require_enabled in H.
    apply io_bind_Ok in H as (u & a1 & H1 & H). destruct (negb _) in H1; [done|]; injection H1 as _ <-.
    apply io_bind_Ok in H as (key & a2 & H2 & H). apply protected in H2. pose proof H2 as (Eu & _ & Ec).
    apply io_bind_Ok in H as (credential & a3 & H3 & H). injection H3 as E3 <-.
    destruct (verifyPassword _ _ _) eqn:Ev; cbn [negb] in H; [|done]. destruct credential as [c|]; [|done].
    apply issueUser_welcomes in H as (user & Hu & Hw); [|by apply (undisturbed_keyed a a2)].
    unfold credential_by_email in E3. apply fmap_Some in E3 as ([i [k c']] & Hf & ->).
    apply list_find_Some in Hf as (Hi & Hc & _). apply list_elem_of_lookup_2, elem_of_map_to_list in Hi. cbn in *.
    exists k, c', user. rewrite <- Ec, <- Eu. done.
  - intros clk dw token req state params seen tok exp returnTo a' H. unfold finish, require_key in H.
    apply io_bind_Ok in H as (key & a1 & H1 & H).
    destruct (cf_authTransactionKey config) as [k|]; [|done]. injection H1 as -> <-.
    destruct (valid_cookie _) as [b|]; [|done]. destruct (ac_attempts seen !! _) as [t|]; [|done].
    apply io_bind_Ok in H as (consumed & a2 & H2 & H).
    pose proof (consume_undisturbed (clk 7%nat) (sha256 state) (sha256 b) a) as Hc. rewrite H2 in Hc.
    pose proof Hc as (Eu & _ & _). destruct consumed; cbn [negb] in H; [|done].
    destruct (decryptProof _ _ _) as [proof|]; [|done].
    apply io_bind_Ok in H as (identity & a3 & H3 & H). unfold of_result in H3.
    destruct (exchange (lp_provider proof) params state proof) as [identity'|] eqn:Ee; [|done]. injection H3 as -> <-.
    apply io_bind_Ok in H as ([tok' exp'] & a4 & H4 & H). injection H as -> -> _ ->.
    apply issueIdentity_welcomes in H4 as (userId & user & E1 & E2 & Hold & Hw); [|by apply (undisturbed_keyed a a2)].
    exists proof, identity, userId, user. split_and!; try done. intros old. rewrite <- Eu. by intros [? _]%Hold.
Qed.
End SignIn.

(** ** Changing the password *)

Definition credentials_keyed (a : accounts) : Prop := ∀ k c, ac_credentials a !! k = Some c → cr_id c = k.

Lemma credential_put_Ok c a u a' :
  credential_put c a = Ok (u, a') → a' = set_credentials (<[cr_id c := c]> (ac_credentials a)) a.
Proof. unfold credential_put, the_accounts. intros H. inv_cat. done. Qed.
Lemma credential_update_Ok id f a u a' :
  credential_update id f a = Ok (u, a') →
  ∃ c, ac_credentials a !! id = Some c ∧ a' = set_credentials (<[cr_id (f c) := f c]> (ac_credentials a)) a.
Proof.
  unfold credential_update, the_accounts. intros H. inv_cat. destruct (ac_credentials a !! id) as [c|]; [|done].
  apply credential_put_Ok in H as ->. eauto.
Qed.

(** A password change locks the others out.  It succeeds only with the current password; then every
    other session of the user is revoked and the current one and everybody else's are as they were;
    and the stored hash verifies the new password, and only passwords with the same derived key. *)
Lemma password_change_evicts derive now salt userId current old new seen a a' :
  credentials_keyed a → Forall byte salt → length salt = 16%nat →
  Forall byte (derive new salt) → length (derive new salt) = KEY_LENGTH →
  changePassword derive now salt userId current old new seen a = (Ok tt, a') →
  ∃ c c', credential_of userId seen = Some c ∧ verifyPassword derive old (Some (cr_passwordHash c)) = true ∧
    ac_credentials a' !! cr_id c = Some c' ∧
    (∀ p, verifyPassword derive p (Some (cr_passwordHash c')) = bool_decide (derive p salt = derive new salt)) ∧
    (∀ k s, ac_sessions a' !! k = Some s → se_userId (sn_row s) = userId → entry_id s ≠ current →
       unrevoked s = false) ∧
    (∀ k s, ac_sessions a !! k = Some s → se_userId (sn_row s) ≠ userId ∨ entry_id s = current →
       ac_sessions a' !! k = Some s).
Proof.
  intros Hk Hsb Hsl Hdb Hdl H. unfold changePassword in H.
  destruct (credential_of userId seen) as [c|] eqn:Ec; [|done].
  destruct (verifyPassword derive old _) eqn:Ev; [|done]. cbn [negb] in H. apply transaction_Ok in H.
  apply bind_Ok in H as (u1 & a1 & H1 & H). apply credential_update_Ok in H1 as (c0 & Hc0 & ->).
  apply bind_Ok in H as (u2 & a2 & H2 & H). apply modify_Ok in H2 as ->. apply modify_Ok in H as ->.
  exists c, (with_hash (hashPassword derive salt new) c0). split_and!; [done|done|..]; cbn.
  - rewrite (Hk _ _ Hc0). by rewrite lookup_insert_eq.
  - intros p. by apply verify_hashed.
  - intros k s. rewrite lookup_fmap_Some. intros (s0 & <- & Hs0). unfold others, of_user.
    destruct (bool_decide_reflect (se_userId (sn_row s0) = userId)) as [Hu|Hu]; cbn; [|done].
    destruct (bool_decide_reflect (entry_id s0 = current)) as [Hi|Hi]; cbn; [done|].
    destruct (unrevoked s0) eqn:Er; [done|by rewrite Er].
  - intros k s Hs Hor. rewrite lookup_fmap, Hs. cbn. f_equal. unfold others, of_user.
    destruct Hor as [Hu|Hi]; [by rewrite (bool_decide_eq_false_2 _ Hu)|].
    rewrite (bool_decide_eq_true_2 _ Hi). by rewrite andb_false_r.
Qed.

(** ** Administrators *)

Lemma user_update_Ok id f a u a' :
  user_update id f a = Ok (u, a') →
  ∃ v, ac_users a !! id = Some v ∧ u = f v ∧ a' = set_users (<[id := f v]> (ac_users a)) a.
Proof.
  unfold user_update, user_put, the_accounts. intros H. inv_cat. destruct (ac_users a !! id) as [v|]; [|done].
  inv_cat. eauto.
Qed.

Definition is_administrator (a : accounts) (id : rowid) : Prop :=
  ∃ u, ac_users a !! id = Some u ∧ us_role (ur_row u) = R_ADMIN.

Lemma admins_elem a u : u ∈ admins a ↔ ∃ id, ac_users a !! id = Some u ∧ us_role (ur_row u) = R_ADMIN.
Proof.
  unfold admins. rewrite list_elem_of_filter, list_elem_of_fmap. split.
  - intros (Hr & [id v] & -> & Hv%elem_of_map_to_list). eauto.
  - intros (id & Hu & Hr). split; [done|]. exists (id, u). by rewrite elem_of_map_to_list.
Qed.

(** Two administrators, when there is more than one. *)
Lemma admins_other a id :
  (1 < length (admins a))%nat → ∃ other, other ≠ id ∧ is_administrator a other.
Proof.
  intros Hl. set (m := filter (λ r, us_role (ur_row r.2) = R_ADMIN) (ac_users a)).
  assert (size m = length (admins a)) as Es.
  { unfold admins, m. clear. induction (ac_users a) as [|k u m Hk IH] using map_ind; [done|].
    rewrite (map_to_list_insert m k u Hk). rewrite fmap_cons, filter_cons. cbn [snd].
    case_decide as Hr.
    - rewrite map_filter_insert_True by done. rewrite map_size_insert_None; [cbn; by rewrite IH|].
      apply map_lookup_filter_None. by left.
    - rewrite map_filter_insert_False by done. by rewrite delete_id. }
  assert (delete id m ≠ ∅) as Hne.
  { intros E. apply (f_equal size) in E. rewrite map_size_delete, map_size_empty in E.
    destruct (m !! id); cbn in E; lia. }
  apply map_choose in Hne as (k & u & Hku). apply lookup_delete_Some in Hku as [Hne Hku].
  apply map_lookup_filter_Some in Hku as [Hu Hr]. exists k. split; [done|]. by exists u.
Qed.

(** The role a handler read is still the user's role. *)
Definition role_fresh (userId : rowid) (seen a : accounts) : Prop :=
  ∀ u, ac_users seen !! userId = Some u →
  ∃ v, ac_users a !! userId = Some v ∧ us_role (ur_row v) = us_role (ur_row u).

Lemma setRole_cases actorId userId role seen a :
  (setRole actorId userId role seen a).2 = a ∨
  ∃ u v, ac_users seen !! userId = Some u ∧ ac_users a !! userId = Some v ∧
    (actorId = userId → role = R_ADMIN) ∧
    (us_role (ur_row u) = R_ADMIN → role ≠ R_ADMIN → (1 < length (admins a))%nat) ∧
    ac_users (setRole actorId userId role seen a).2 = <[userId := with_role role v]> (ac_users a).
Proof.
  unfold setRole. destruct (bool_decide (actorId = userId) && negb (is_admin role)) eqn:Es; [by left|].
  destruct (ac_users seen !! userId) as [u|]; [|by left]. cbv zeta.
  destruct (bool_decide (us_role (ur_row u) = role)); [by left|].
  commits a' r E. apply bind_Ok in E as (a0 & s0 & H0 & E). apply gets_Ok in H0 as [-> ->].
  apply bind_Ok in E as (u1 & a1 & H1 & E). assert (a1 = a ∧ (us_role (ur_row u) = R_ADMIN → role ≠ R_ADMIN →
    (1 < length (admins a))%nat)) as [-> Hadm].
  { destruct (is_admin (us_role (ur_row u)) && negb (is_admin role)) eqn:Ea.
    - apply raise_if_Ok in H1 as [Hl ->]. split; [done|]. intros _ _. by apply Nat.leb_gt in Hl.
    - apply mret_Ok in H1 as [_ ->]. split; [done|]. intros E1 E2. unfold is_admin in Ea.
      by rewrite (bool_decide_eq_true_2 _ E1), (bool_decide_eq_false_2 _ E2) in Ea. }
  apply bind_Ok in E as (u2 & a2 & H2 & E). apply user_update_Ok in H2 as (v & Hv & -> & ->).
  inv_cat. apply modify_Ok in Hrun as ->. exists u, v. split_and!; [done..| |done|done].
  intros ->. rewrite bool_decide_eq_true_2 in Es by done. unfold is_admin in Es. cbn in Es.
  by apply negb_false_iff, bool_decide_eq_true in Es.
Qed.

(** An administrator remains.  A change of role leaves an administrator in office, provided the acting
    administrator still is one when the change commits, or the role the handler read is still current;
    the guard and the handler both read before the transaction. *)
Lemma admin_remains actorId userId role seen a :
  (∃ id, is_administrator a id) →
  is_administrator a actorId ∨ role_fresh userId seen a →
  ∃ id, is_administrator (setRole actorId userId role seen a).2 id.
Proof.
  intros [id0 Hid0] Hor.
  destruct (setRole_cases actorId userId role seen a) as [->|(u & v & Hu & Hv & Hself & Hadm & Es)]; [eauto|].
  assert (Hother : ∀ id, id ≠ userId → is_administrator a id →
            is_administrator (setRole actorId userId role seen a).2 id).
  { intros id Hne (w & Hw & Hr). exists w. rewrite Es, lookup_insert_ne by done. done. }
  destruct (decide (role = R_ADMIN)) as [->|Hr].
  { exists userId, (with_role R_ADMIN v). rewrite Es, lookup_insert_eq. done. }
  destruct Hor as [Ha|Hf].
  - exists actorId. apply Hother; [|done]. intros ->. auto.
  - destruct (Hf u Hu) as (v' & Hv' & Er). simplify_eq.
    destruct (decide (us_role (ur_row v) = R_ADMIN)) as [Hva|Hva].
    + destruct (admins_other a userId) as (o & Hne & Ho); [apply Hadm; congruence|]. eauto.
    + exists id0. apply Hother; [|done]. intros ->. destruct Hid0 as (w & Hw & Hwr). simplify_eq.
Qed.

(** A restriction takes effect.  Banning or suspending an account that is not the acting one's and
    was not an administrator's revokes all its sessions, and neither a live session nor a new sign-in
    gets past the guard or [ensureAllowed] until the restriction ends. *)
Lemma restriction_bites now actorId userId input seen a d a' :
  restrict now actorId userId input seen a = (Ok d, a') → is_clear input = false →
  actorId ≠ userId ∧
  (∀ k s, ac_sessions a' !! k = Some s → se_userId (sn_row s) = userId → unrevoked s = false) ∧
  ∃ u, ac_users a' !! userId = Some u ∧
    ∀ t, now ≤ t → (∀ until reason, input = RI_SUSPEND until reason → t < until) →
      is_Some (restriction_of t (ur_row u)) ∧
      ∀ t' b, ∃ status code retry, ensureAllowed t t' (ur_row u) b = Err (ApiError status code retry).
Proof.
  intros H Hc. unfold restrict in H. case_bool_decide as Hself; [done|].
  destruct (ac_users seen !! userId) as [u|]; [|done]. destruct (is_admin _); [done|].
  destruct (restriction_data now input) as [data|] eqn:Ed; [|done]. apply transaction_Ok in H.
  apply bind_Ok in H as (u1 & a1 & H1 & H). apply user_update_Ok in H1 as (v & Hv & _ & ->).
  rewrite Hc in H. apply bind_Ok in H as (u2 & a2 & H2 & H). apply modify_Ok in H2 as ->.
  apply bind_Ok in H as (u3 & a3 & H3 & H). apply modify_Ok in H3 as ->. apply mret_Ok in H as [<- ->].
  split_and!; [done| |].
  - intros k s. cbn. rewrite lookup_fmap_Some. intros (s0 & <- & Hs0).
    destruct (of_user userId s0 && unrevoked s0) eqn:E; [done|]. intros Hu.
    unfold of_user in E. by rewrite (bool_decide_eq_true_2 _ Hu) in E.
  - exists (with_restriction d v). split; [cbn; by rewrite lookup_insert_eq|].
    intros t Ht Hun. unfold restriction_data in Ed. destruct input as [until reason|reason|]; [| |done].
    + destruct (_ || _); [done|]. injection Ed as <-. cbn. unfold restriction_of, ensureAllowed. cbn.
      rewrite (proj2 (Z.ltb_lt _ _) (Hun until reason eq_refl)). split; [eauto|]. intros. by eexists _, _, _.
    + injection Ed as <-. unfold restriction_of, ensureAllowed. cbn. split; [eauto|]. intros. by eexists _, _, _.
Qed.
