(* ===== verification/Profiles.v ===== *)
(** * Profiles ([apps/api/src/profiles/profiles.ts])

    The public profile with its statistics, the streaks, the update of a profile, and the leaderboard
    of all users, over the users of [Accounts.v], the executions of [Database.v] and the versions of
    [Catalogue.v].

    A calendar day is the number of days since the epoch that its [YYYY-MM-DD] string denotes; the
    strings sort as the numbers do, and two of them are 86,400,000 ms apart exactly when the numbers
    differ by one.  The database's time zone is UTC. *)

From S2P Require Import Prelude Paging JsText Contracts Judge Database Executions JsString.
From S2P Require Import RuntimePolicy.
From S2P Require Import Catalogue Discussions Sessions Password Accounts.
Local Open Scope Z_scope.

#[export] Instance Difficulty_eq_dec : EqDecision Difficulty. Proof. solve_decision. Defined.

#[export] Instance ProfileVisibility_eq_dec : EqDecision ProfileVisibility. Proof. solve_decision. Defined.

Definition DAY : Z := 86400000.
Definition day_of (t : Z) : Z := t / DAY.
(** [Math.round] of a quotient of non-negative numbers. *)
Definition round_div (a b : Z) : Z := (2 * a + b) / (2 * b).

(** ** Streaks *)

Definition ContributionDay : Type := Z * Z.

(** [longest], [run] and [previous] after one day of the loop. *)
Definition streak_step (s : Z * Z * option Z) (day : Z) : Z * Z * option Z :=
  let '(longest, run, previous) := s in
  let adjacent := match previous with Some p => day - p =? 1 | None => false end in
  let run' := if adjacent then run + 1 else 1 in
  (Z.max longest run', run', Some day).
(** The days from the last one backwards, as long as they are adjacent. *)
Fixpoint count_back (days : list Z) : Z :=
  match days with
  | d :: ((p :: _) as days') => if negb (d - p =? 1) then 1 else 1 + count_back days'
  | _ => 1
  end.
Definition active_days (contributions : list ContributionDay) : list Z :=
  merge_sort Z.le (remove_dups (fst <$> filter (λ c, 0 < c.2) contributions)).
(** [(currentStreak, longestStreak)]; [now] is the reading of the clock. *)
Definition streaks (now : Z) (contributions : list ContributionDay) : Z * Z :=
  let days := active_days contributions in
  let '(longest, _, previous) := foldl streak_step (0, 0, None) days in
  let todayKey := day_of now in
  if negb (bool_decide (previous = Some todayKey)) && negb (bool_decide (previous = Some (todayKey - 1)))
  then (0, longest) else (count_back (reverse days), longest).

(** ** The public profile *)

Record profiles := mkProfiles {
  pd_accounts : accounts; pd_catalogue : catalogue; pd_executions : gmap uuid Execution
}.

Record ProfileStats := mkStats {
  ps_totalSubmissions : nat; ps_acceptedSubmissions : nat; ps_successRate : Z; ps_problemsSolved : nat;
  ps_currentStreak : Z; ps_longestStreak : Z; ps_averageRuntimeMs : option Z
}.
Record PublicProfile := mkPublicProfile {
  pp_username : jsstr; pp_displayName : jsstr; pp_joinedAt : Z; pp_bio : option jsstr; pp_location : option jsstr;
  pp_website : option jsstr; pp_avatarUrl : option jsstr; pp_stats : ProfileStats;
  pp_contributions : list ContributionDay; pp_languages : list (Language * nat * nat);
  pp_difficulties : list (Difficulty * nat * nat); pp_recentSubmissions : list SubmissionItem
}.

Definition submits (userId : rowid) (d : profiles) : list Execution :=
  filter (λ e, x_userId (e_req e) = userId ∧ e_mode e = SUBMIT) (map_to_list (pd_executions d)).*2.
Definition accepted (e : Execution) : bool := bool_decide (e_verdict e = Some ACCEPTED).
Definition version_of (d : profiles) (e : Execution) : option VersionRow :=
  cat_versions (pd_catalogue d) !! x_problemVersionId (e_req e).
(** [count(DISTINCT pv."problemId")] over the accepted executions. *)
Definition solved_problems (d : profiles) (l : list Execution) : list rowid :=
  remove_dups (omap (λ e, vr_problemId <$> version_of d e) (filter (λ e, accepted e = true) l)).

(** [since]: midnight UTC, 364 days ago. *)
Definition since (now : Z) : Z := (day_of now - 364) * DAY.
Definition contributions (now : Z) (l : list Execution) : list ContributionDay :=
  let days := day_of ∘ createdAt <$> filter (λ e, since now ≤ createdAt e) l in
  (λ day, (day, Z.of_nat (length (filter (λ x, x = day) days)))) <$> merge_sort Z.le (remove_dups days).

Definition average_runtime (l : list Execution) : option Z :=
  let times := omap e_runtimeMs l in
  match times with [] => None | _ => Some (round_div (sumZ times) (Z.of_nat (length times))) end.

(** The groups come in an order of the database's choice; here in that of the enumeration. *)
Definition languages (l : list Execution) : list (Language * nat * nat) :=
  omap (λ g, let total := filter (λ e, x_language (e_req e) = g) l in
             match total with
             | [] => None
             | _ => Some (g, length total, length (filter (λ e, accepted e = true) total))
             end) enum_values.

(** The published current version of a problem. *)
Definition current_version (c : catalogue) (p : ProblemRow) : option VersionRow :=
  match v ← pb_currentVersionId p; cat_versions c !! v with
  | Some v => if vr_published v then Some v else None
  | None => None
  end.
Definition solved_of (d : profiles) (l : list Execution) (x : Difficulty) : nat :=
  length (filter (λ id, vr_difficulty <$> (p ← cat_problems (pd_catalogue d) !! id; current_version (pd_catalogue d) p)
                        = Some x) (solved_problems d l)).
Definition available_of (d : profiles) (x : Difficulty) : nat :=
  let current := omap (λ r : rowid * ProblemRow, pb_currentVersionId r.2) (map_to_list (cat_problems (pd_catalogue d))) in
  length (filter (λ r, r.1 ∈ current ∧ vr_published r.2 = true ∧ vr_difficulty r.2 = x)
            (map_to_list (cat_versions (pd_catalogue d)))).
Definition difficulties (d : profiles) (l : list Execution) : list (Difficulty * nat * nat) :=
  (λ x, (x, solved_of d l x, available_of d x)) <$> [EASY; MEDIUM; HARD].

Definition recent_item (d : profiles) (row : Execution) : SubmissionItem :=
  let v := version_of d row in
  mkItem (e_id row) (default [] (vr_problemId <$> v)) (default [] (vr_title <$> v)) (x_language (e_req row))
    (e_state row) (createdAt row) (e_verdict row) (e_runtimeMs row) (e_memoryKiB row) (e_failureCode row).
Definition recent (d : profiles) (l : list Execution) : list SubmissionItem :=
  recent_item d <$> take 10 (merge_sort (newest createdAt e_id) l).

Definition successRate (accepted total : nat) : Z :=
  if (total =? 0)%nat then 0 else round_div (Z.of_nat accepted * 100) (Z.of_nat total).
(** An empty string is left out, as an absent one. *)
Definition shown_text (s : option jsstr) : option jsstr :=
  match s with Some [] => None | _ => s end.

Definition user_by_username (username : jsstr) (a : accounts) : option (rowid * User) :=
  snd <$> list_find (λ r : rowid * User, us_username (ur_row r.2) = username) (map_to_list (ac_users a)).

(** [now] is read for the contributions, [now'] for the streaks. *)
Definition publicProfile (now now' : Z) (username : jsstr) (allowPrivate : bool) (d : profiles) : result PublicProfile :=
  match user_by_username username (pd_accounts d) with
  | None => Err not_found
  | Some (id, u) =>
      if bool_decide (is_Some (us_deactivatedAt (ur_row u)))
         || (negb allowPrivate && bool_decide (st_profileVisibility (ur_settings u) = PROFILE_PRIVATE))
      then Err not_found else
      let l := submits id d in
      let days := contributions now l in
      let total := length l in
      let ok := length (filter (λ e, accepted e = true) l) in
      let '(current, longest) := streaks now' days in
      let p := ur_profile u in
      Ok (mkPublicProfile (us_username (ur_row u)) (pf_displayName p) (ur_createdAt u) (shown_text (pf_bio p))
            (shown_text (pf_location p)) (shown_text (pf_website p)) (shown_text (pf_avatarUrl p))
            (mkStats total ok (successRate ok total) (length (solved_problems d l)) current longest (average_runtime l))
            days (languages l) (difficulties d l) (recent d l))
  end.

Definition self (now now' : Z) (userId : rowid) (d : profiles) : result PublicProfile :=
  match ac_users (pd_accounts d) !! userId with
  | None => Err not_found
  | Some u => publicProfile now now' (us_username (ur_row u)) true d
  end.

(** ** Changing the profile *)

(** [None] is an absent key, [Some None] a null. *)
Record UpdateProfile := mkUpdateProfile {
  up_username : option jsstr; up_displayName : option jsstr; up_bio : option (option jsstr);
  up_location : option (option jsstr); up_website : option (option jsstr); up_avatarUrl : option (option jsstr)
}.
#[export] Instance UpdateProfile_eq_dec : EqDecision UpdateProfile. Proof. solve_decision. Defined.

Section Schema.
(** What [z.url] accepts and returns, and the protocol of [new URL(value)]. *)
Context (z_url : jsstr → option jsstr) (protocol : jsstr → jsstr).

(** [z.string().trim().toLowerCase()] and the shape; five names are reserved. *)
Definition usernameSchema (raw : jsstr) : option jsstr :=
  let s := toLowerCase (trim raw) in
  if username_shape s && negb (bool_decide (s ∈ js <$> ["admin"; "api"; "auth"; "me"; "system"])) then Some s else None.
(** A string or null. *)
Definition nullable (parse : jsstr → option jsstr) (v : option jsstr) : option (option jsstr) :=
  match v with None => Some None | Some s => Some <$> parse s end.
Definition text_up_to (maximum : Z) (s : jsstr) : option jsstr :=
  if slen (trim s) <=? maximum then Some (trim s) else None.
Definition url_that (ok : jsstr → bool) (s : jsstr) : option jsstr :=
  match s with
  | [] => Some []
  | _ => match z_url s with Some u => if ok u then Some u else None | None => None end
  end.
Definition displayNameSchema (s : jsstr) : option jsstr := if len_in 1 100 (trim s) then Some (trim s) else None.
Definition website_ok (s : jsstr) : bool := bool_decide (protocol s ∈ js <$> ["http:"; "https:"]).
Definition avatarUrl_ok (s : jsstr) : bool := (slen s <=? 2048) && bool_decide (protocol s = js "https:").
(** [.optional()]. *)
Definition optionally {A B} (parse : A → option B) (v : option A) : option (option B) :=
  match v with None => Some None | Some a => Some <$> parse a end.

Definition parse_profile (body : UpdateProfile) : option UpdateProfile :=
  username ← optionally usernameSchema (up_username body);
  displayName ← optionally displayNameSchema (up_displayName body);
  bio ← optionally (nullable (text_up_to 280)) (up_bio body);
  location ← optionally (nullable (text_up_to 100)) (up_location body);
  website ← optionally (nullable (url_that website_ok)) (up_website body);
  avatarUrl ← optionally (nullable (url_that avatarUrl_ok)) (up_avatarUrl body);
  Some (mkUpdateProfile username displayName bio location website avatarUrl).
(** At least one key is required. *)
Definition updateProfileSchema (body : UpdateProfile) : result UpdateProfile :=
  match parse_profile body with
  | Some i => if bool_decide (i = mkUpdateProfile None None None None None None) then Err invalid_request else Ok i
  | None => Err invalid_request
  end.
End Schema.

(** [input || null]. *)
Definition or_null (v : option jsstr) : option jsstr := match v with Some [] => None | _ => v end.
Definition apply_profile (i : UpdateProfile) (u : User) : User :=
  let p := ur_profile u in
  with_row (λ r, mkUserRow (default (us_username r) (up_username i)) (us_role r) (us_deactivatedAt r) (us_bannedAt r)
                   (us_suspendedUntil r) (us_restrictionReason r))
    (with_profile (mkProfile (default (pf_displayName p) (up_displayName i))
       (default (pf_bio p) (or_null <$> up_bio i)) (default (pf_location p) (or_null <$> up_location i))
       (default (pf_website p) (or_null <$> up_website i)) (default (pf_avatarUrl p) (or_null <$> up_avatarUrl i))) u).

Definition set_accounts (a : accounts) (d : profiles) : profiles := mkProfiles a (pd_catalogue d) (pd_executions d).
Definition store_profile (userId : rowid) (input : UpdateProfile) : tx accounts jsstr :=
  u ← user_update userId (apply_profile input);
  _ ← log_audit userId "PROFILE_UPDATE" userId;
  mret (us_username (ur_row u)).
(** The reply is the public profile, read after the commit. *)
Definition update_profile (now now' : Z) (userId : rowid) (input : UpdateProfile) (d : profiles) :
    result PublicProfile * profiles :=
  match transaction (store_profile userId input) (pd_accounts d) with
  | (Ok username, a) => let d' := set_accounts a d in (publicProfile now now' username false d', d')
  | (Err (DbError code), a) =>
      (Err (if String.eqb code "P2002" then ApiError 409 "USERNAME_TAKEN" None else DbError code), set_accounts a d)
  | (Err e, a) => (Err e, set_accounts a d)
  end.

(** ** The leaderboard of all users *)

Record Leader := mkLeader {
  ld_id : rowid; ld_username : jsstr; ld_displayName : jsstr; ld_problemsSolved : nat; ld_acceptedSubmissions : nat;
  ld_totalSubmissions : nat
}.
Record LeaderboardEntry := mkLeaderboardEntry {
  le_rank : Z; le_username : jsstr; le_displayName : jsstr; le_problemsSolved : nat; le_acceptedSubmissions : nat;
  le_totalSubmissions : nat; le_successRate : Z
}.

Definition visible (u : User) : bool :=
  bool_decide (st_profileVisibility (ur_settings u) = PROFILE_PUBLIC)
  && bool_decide (us_deactivatedAt (ur_row u) = None).
(** The inner joins: executions with their version, users with an execution. *)
Definition joined (userId : rowid) (d : profiles) : list Execution :=
  filter (λ e, is_Some (version_of d e)) (submits userId d).
Definition leader (d : profiles) (r : rowid * User) : option Leader :=
  let l := joined r.1 d in
  if visible r.2 && negb (length l =? 0)%nat
  then Some (mkLeader r.1 (us_username (ur_row r.2)) (pf_displayName (ur_profile r.2)) (length (solved_problems d l))
               (length (filter (λ e, accepted e = true) l)) (length l))
  else None.

Section Leaders.
(** The order of usernames in the database's collation. *)
Context (collate : relation jsstr) `{!RelDecision collate}.

Definition ranks (a b : Leader) : Prop :=
  (ld_problemsSolved b < ld_problemsSolved a)%nat ∨ ld_problemsSolved a = ld_problemsSolved b ∧
  ((ld_acceptedSubmissions b < ld_acceptedSubmissions a)%nat ∨ ld_acceptedSubmissions a = ld_acceptedSubmissions b ∧
   (collate (ld_username a) (ld_username b) ∧ ld_username a ≠ ld_username b ∨
    ld_username a = ld_username b ∧ uuid_le (ld_id a) (ld_id b))).
#[global] Instance ranks_dec : RelDecision ranks.
Proof. intros a b. unfold ranks. apply _. Defined.

Definition ranked (d : profiles) : list (Z * Leader) :=
  imap (λ i l, (Z.of_nat i + 1, l)) (merge_sort ranks (omap (leader d) (map_to_list (ac_users (pd_accounts d))))).

Definition leader_entry (r : Z * Leader) : LeaderboardEntry :=
  mkLeaderboardEntry r.1 (ld_username r.2) (ld_displayName r.2) (ld_problemsSolved r.2) (ld_acceptedSubmissions r.2)
    (ld_totalSubmissions r.2) (successRate (ld_acceptedSubmissions r.2) (ld_totalSubmissions r.2)).

(** A cursor has to be a listed user; the query then takes the ranks after it. *)
Definition listed_user (d : profiles) (id : rowid) : bool :=
  match ac_users (pd_accounts d) !! id with
  | Some u => visible u && negb (length (submits id d) =? 0)%nat
  | None => false
  end.
Definition ranks_after (d : profiles) (cursor : option rowid) : list (Z * Leader) :=
  match cursor with
  | None => ranked d
  | Some c =>
      match list_find (λ r : Z * Leader, ld_id r.2 = c) (ranked d) with
      | Some (_, r) => filter (λ q, r.1 < q.1) (ranked d)
      | None => []
      end
  end.
Definition user_leaderboard (cursor : option rowid) (d : profiles) :
    result (list LeaderboardEntry * option rowid) :=
  match cursor with
  | Some c => if negb (listed_user d c) then Err (ApiError 400 "INVALID_CURSOR" None)
              else Ok (page_rows (λ r : Z * Leader, ld_id r.2) leader_entry 20 (take 21 (ranks_after d cursor)))
  | None => Ok (page_rows (λ r : Z * Leader, ld_id r.2) leader_entry 20 (take 21 (ranks_after d cursor)))
  end.
End Leaders.
