(* ===== verification/ProfileFacts.v ===== *)
(** * What profiles show

    Streaks are the maximal runs of consecutive days; the statistics of a profile are consistent; a
    profile's update is stored or refused as a whole; and the pages of the leaderboard of all users
    enumerate the ranked users. *)

From S2P Require Import Prelude Paging JsText Contracts Judge Database Executions JsString.
From S2P Require Import RuntimePolicy.
From S2P Require Import Catalogue Publication Discussions Forum Threads Sessions Password Accounts.
From S2P Require Import Profiles.
Local Open Scope Z_scope.

(** ** Streaks *)

(** The [n] days up to [d] are all in [S]. *)
Definition run_of (S : Z → Prop) (d n : Z) : Prop := ∀ i, 0 ≤ i < n → S (d - i).
(** Submissions were made on the day. *)
Definition worked (contributions : list ContributionDay) (d : Z) : Prop := ∃ n, (d, n) ∈ contributions ∧ 0 < n.

(** The loop's variables after the increasing days [pre]. *)
Record scanned (pre : list Z) (longest run : Z) (previous : option Z) : Prop := {
  sc_last : previous = last pre;
  sc_longest : ∃ d, run_of (λ x, x ∈ pre) d longest;
  sc_nonneg : 0 ≤ longest;
  sc_most : ∀ d n, run_of (λ x, x ∈ pre) d n → n ≤ longest;
  sc_run : ∀ p, last pre = Some p → 1 ≤ run ∧ run_of (λ x, x ∈ pre) p run ∧ p - run ∉ pre
}.

Lemma scanned_nil : scanned [] 0 0 None.
Proof.
  split; [done| |done| |done].
  - exists 0. intros i Hi. lia.
  - intros d n Hr. destruct (Z_le_gt_dec n 0); [done|]. specialize (Hr 0 ltac:(lia)). by apply elem_of_nil in Hr.
Qed.

Lemma sorted_last pre d : StronglySorted Z.lt (pre ++ [d]) → ∀ x, x ∈ pre → x < d.
Proof. intros Hs x Hx. eapply StronglySorted_app_1_elem_of; [exact Hs|done|]. by apply list_elem_of_singleton. Qed.
Lemma last_greatest pre p : StronglySorted Z.lt pre → last pre = Some p → ∀ x, x ∈ pre → x ≤ p.
Proof.
  intros Hs Hl x Hx. apply last_Some in Hl as [l ->]. apply elem_of_app in Hx as [Hx| ->%list_elem_of_singleton]; [|lia].
  pose proof (sorted_last l p Hs x Hx). lia.
Qed.

(** Runs that do not end at the new day were runs before. *)
Lemma run_before pre d e n :
  StronglySorted Z.lt (pre ++ [d]) → e < d → run_of (λ x, x ∈ pre ++ [d]) e n → run_of (λ x, x ∈ pre) e n.
Proof.
  intros _ He Hr i Hi. specialize (Hr i Hi). apply elem_of_app in Hr as [Hr|Hr%list_elem_of_singleton]; [done|lia].
Qed.

(** The run that ends at the new day. *)
Definition run_at (run : Z) (previous : option Z) (d : Z) : Z :=
  if match previous with Some p => d - p =? 1 | None => false end then run + 1 else 1.
Lemma new_run pre longest run previous d :
  StronglySorted Z.lt (pre ++ [d]) → scanned pre longest run previous →
  1 ≤ run_at run previous d ∧ run_of (λ x, x ∈ pre ++ [d]) d (run_at run previous d) ∧
  ∀ n, run_of (λ x, x ∈ pre ++ [d]) d n → n ≤ run_at run previous d.
Proof.
  intros Hs [Hlast _ _ _ Hrun]. assert (Hgt := sorted_last _ _ Hs).
  assert (Hd : d ∈ pre ++ [d]) by (apply elem_of_app; right; by apply list_elem_of_singleton).
  assert (Hpre : ∀ x, x ∈ pre → x ∈ pre ++ [d]) by (intros; apply elem_of_app; by left).
  unfold run_at. subst previous. destruct (last pre) as [p|] eqn:El.
  - destruct (Hrun p eq_refl) as (H1 & H2 & H3). destruct (Z.eqb_spec (d - p) 1) as [E|E]; cbn.
    + split_and!; [lia| |].
      * intros i Hi. destruct (decide (i = 0)) as [->|]; [by rewrite Z.sub_0_r|]. apply Hpre.
        replace (d - i) with (p - (i - 1)) by lia. apply H2. lia.
      * intros n Hn. destruct (Z_le_gt_dec n (run + 1)); [done|]. specialize (Hn (run + 1) ltac:(lia)).
        apply elem_of_app in Hn as [Hn|Hn%list_elem_of_singleton]; [|lia]. destruct H3.
        by replace (p - run) with (d - (run + 1)) by lia.
    + split_and!; [lia| |].
      * intros i Hi. by replace (d - i) with d by lia.
      * intros n Hn. destruct (Z_le_gt_dec n 1); [done|]. specialize (Hn 1 ltac:(lia)).
        apply elem_of_app in Hn as [Hn|Hn%list_elem_of_singleton]; [|lia].
        assert (StronglySorted Z.lt pre) as Hp by by apply StronglySorted_app_1_l in Hs.
        pose proof (last_greatest _ _ Hp El _ Hn).
        assert (p < d) by (apply Hgt; apply last_Some in El as [l ->]; apply elem_of_app; right; by apply list_elem_of_singleton).
        lia.
  - apply last_None in El as ->. cbn. split_and!; [lia| |].
    + intros i Hi. by replace (d - i) with d by lia.
    + intros n Hn. destruct (Z_le_gt_dec n 1); [done|]. specialize (Hn 1 ltac:(lia)).
      apply list_elem_of_singleton in Hn. lia.
Qed.

Lemma scanned_step pre longest run previous d :
  StronglySorted Z.lt (pre ++ [d]) → scanned pre longest run previous →
  let '(longest', run', previous') := streak_step (longest, run, previous) d in
  scanned (pre ++ [d]) longest' run' previous'.
Proof.
  intros Hs Hsc. destruct (new_run _ _ _ _ _ Hs Hsc) as (H1 & H2 & H3).
  destruct Hsc as [_ [w Hw] Hnn Hmost _]. cbn -[Z.eqb]. fold (run_at run previous d).
  assert (Hgt := sorted_last _ _ Hs).
  assert (Hpre : ∀ x, x ∈ pre → x ∈ pre ++ [d]) by (intros; apply elem_of_app; by left). split.
  - by rewrite last_snoc.
  - destruct (Z.max_spec longest (run_at run previous d)) as [[_ ->]|[_ ->]]; [by exists d|].
    exists w. intros i Hi. by apply Hpre, Hw.
  - lia.
  - intros e n Hn. destruct (decide (e = d)) as [->|Hne]; [specialize (H3 n Hn); lia|].
    destruct (Z_le_gt_dec n 0); [lia|].
    assert (e < d).
    { specialize (Hn 0 ltac:(lia)). rewrite Z.sub_0_r in Hn.
      apply elem_of_app in Hn as [Hn|Hn%list_elem_of_singleton]; [by apply Hgt|done]. }
    specialize (Hmost e n (run_before _ _ _ _ Hs ltac:(done) Hn)). lia.
  - intros p. rewrite last_snoc. intros [= <-]. split_and!; [done|done|]. intros Hin.
    set (r := run_at run previous d) in *.
    assert (run_of (λ x, x ∈ pre ++ [d]) d (r + 1)) as Hr.
    { intros i Hi. destruct (decide (i = r)) as [->|]; [done|]. apply H2. lia. }
    specialize (H3 _ Hr). lia.
Qed.

Lemma scanned_all days :
  StronglySorted Z.lt days →
  let '(longest, run, previous) := foldl streak_step (0, 0, None) days in
  scanned days longest run previous ∧ (days ≠ [] → run = count_back (reverse days)).
Proof.
  induction days as [|d days IH] using rev_ind; intros Hs; [split; [apply scanned_nil|done]|].
  rewrite foldl_app. cbn [foldl]. specialize (IH ltac:(by apply StronglySorted_app_1_l in Hs)).
  destruct (foldl streak_step _ days) as [[longest run] previous]. destruct IH as [Hsc Hrun].
  pose proof (scanned_step _ _ _ _ _ Hs Hsc) as Hst. cbn -[Z.eqb] in Hst |- *. split; [done|]. intros _.
  rewrite (sc_last _ _ _ _ Hsc), reverse_snoc. destruct (last days) as [p|] eqn:El.
  - apply last_Some in El as [l ->]. rewrite Hrun by (intros E; by destruct l).
    rewrite reverse_snoc. cbn -[Z.eqb]. destruct (d - p =? 1); cbn -[Z.eqb]; [lia|done].
  - apply last_None in El as ->. done.
Qed.

Lemma active_days_elem contributions d : d ∈ active_days contributions ↔ worked contributions d.
Proof.
  unfold active_days, worked. rewrite merge_sort_Permutation, elem_of_remove_dups, list_elem_of_fmap. split.
  - intros ([x n] & -> & [Hn Hi]%list_elem_of_filter). by exists n.
  - intros (n & Hi & Hn). exists (d, n). split; [done|]. by apply list_elem_of_filter.
Qed.
Lemma active_days_sorted contributions : StronglySorted Z.lt (active_days contributions).
Proof.
  unfold active_days. set (l := remove_dups _).
  assert (NoDup (merge_sort Z.le l)) as Hnd by (rewrite merge_sort_Permutation; apply NoDup_remove_dups).
  assert (StronglySorted Z.le (merge_sort Z.le l)) as Hs
    by (apply StronglySorted_merge_sort; [intros ???; lia|intros ??; lia]).
  clearbody l. induction Hs as [|a m Hs IH Ha]; [constructor|]. apply NoDup_cons in Hnd as [Hna Hnd].
  constructor; [by apply IH|]. rewrite Forall_forall in *. intros x Hx. specialize (Ha x Hx).
  assert (a ≠ x) by (by intros ->). lia.
Qed.

(** The run of days that ends today or, when nothing was submitted today, yesterday. *)
Definition current_run (contributions : list ContributionDay) (now current longest : Z) : Prop :=
  ∃ e, (worked contributions (day_of now) → e = day_of now) ∧
       (¬ worked contributions (day_of now) → e = day_of now - 1) ∧
       0 ≤ current ≤ longest ∧ run_of (worked contributions) e current ∧ ¬ worked contributions (e - current).
Lemma idle_run contributions now longest :
  0 ≤ longest → ¬ worked contributions (day_of now) → ¬ worked contributions (day_of now - 1) →
  current_run contributions now 0 longest.
Proof.
  intros Hl H1 H2. exists (day_of now - 1). rewrite Z.sub_0_r.
  split_and!; [done|done|lia|lia|intros i Hi; lia|done].
Qed.

(** C38: streaks.  The longest streak is the length of the longest run of consecutive days with
    submissions, and the current one is the length of the run that ends today or, when nothing has
    been submitted today, yesterday: it is zero exactly when both days are without. *)
Theorem streaks_correct now contributions :
  (∀ d, worked contributions d → d ≤ day_of now) →
  let current := (streaks now contributions).1 in
  let longest := (streaks now contributions).2 in
  (∃ d, run_of (worked contributions) d longest) ∧
  (∀ d n, run_of (worked contributions) d n → n ≤ longest) ∧
  current_run contributions now current longest.
Proof.
  intros Hpast. pose proof (scanned_all _ (active_days_sorted contributions)) as H. unfold streaks.
  destruct (foldl streak_step _ _) as [[longest run] previous]. destruct H as [[Hlast [w Hw] Hnn Hmost Hrun] Hback].
  assert (Hel := active_days_elem contributions). set (days := active_days contributions) in *.
  assert (Hiff : ∀ d n, run_of (λ x, x ∈ days) d n → run_of (worked contributions) d n)
    by (intros d n Hr i Hi; by apply Hel, Hr).
  assert (Hiff' : ∀ d n, run_of (worked contributions) d n → run_of (λ x, x ∈ days) d n)
    by (intros d n Hr i Hi; by apply Hel, Hr).
  assert (Hidle : day_of now ∉ days → day_of now - 1 ∉ days → current_run contributions now 0 longest).
  { intros H1 H2. apply idle_run; [|by rewrite <- Hel..]. lia. }
  subst previous.
  destruct (last days) as [p|] eqn:El; cycle 1.
  { apply last_None in El. rewrite !bool_decide_eq_false_2 by done. cbn.
    split_and!; [exists w; by apply Hiff|intros d n Hr; by eapply Hmost, Hiff'|]. apply Hidle; rewrite El; apply not_elem_of_nil. }
  destruct (Hrun p eq_refl) as (H1 & H2 & H3).
  assert (Hp : p ∈ days) by (apply last_Some in El as [l ->]; apply elem_of_app; right; by apply list_elem_of_singleton).
  assert (Hmax := last_greatest _ _ (active_days_sorted contributions) El).
  assert (p ≤ day_of now) by by apply Hpast, Hel.
  assert (Hback' : count_back (reverse days) = run) by (symmetry; apply Hback; by destruct days).
  pose proof (Hmost _ _ H2).
  destruct (bool_decide_reflect (Some p = Some (day_of now))) as [[= ->]|Hne]; cbn;
    [|destruct (bool_decide_reflect (Some p = Some (day_of now - 1))) as [[= ->]|Hne']; cbn];
    (split_and!; [exists w; by apply Hiff|intros d n Hr; by eapply Hmost, Hiff'|]).
  - rewrite Hback'. exists (day_of now). rewrite <- !Hel. split_and!; [done|done|lia|done|by apply Hiff|done].
  - rewrite Hback'. exists (day_of now - 1). rewrite <- !Hel.
    split_and!; [intros Hin; specialize (Hmax _ Hin); lia|done|lia|done|by apply Hiff|done].
  - apply Hidle; intros Hin; specialize (Hmax _ Hin).
    + apply Hne. f_equal. lia.
    + destruct (decide (p = day_of now)); [congruence|]. apply Hne'. f_equal. lia.
Qed.

(** ** The leaderboard of all users *)

Section Leaders.
Context (collate : relation jsstr) `{!RelDecision collate}.
Context (Htotal : Total collate) (Htrans : Transitive collate).
Context (Hanti : ∀ x y, collate x y → collate y x → x = y).

#[local] Instance ranks_total : Total (ranks collate).
Proof.
  intros a b. unfold ranks.
  destruct (lt_eq_lt_dec (ld_problemsSolved a) (ld_problemsSolved b)) as [[?|?]|?]; [tauto| |tauto].
  destruct (lt_eq_lt_dec (ld_acceptedSubmissions a) (ld_acceptedSubmissions b)) as [[?|?]|?];
    [right; right; split; [done|by left]| |left; right; split; [done|by left]].
  destruct (decide (ld_username a = ld_username b)) as [E|E].
  - destruct (uuid_le_total (ld_id a) (ld_id b)) as [H|H]; [left|right]; right;
      (split; [done|]); right; (split; [done|]); right; rewrite ?H; done.
  - destruct (Htotal (ld_username a) (ld_username b)) as [H|H]; [left|right]; right;
      (split; [done|]); right; (split; [done|]); left; by split.
Qed.

#[local] Instance ranks_trans : Transitive (ranks collate).
Proof.
  intros a b c. unfold ranks. intros [H1|[E1 H1]] [H2|[E2 H2]]; [left; lia|left; lia|left; lia|]. right.
  split; [congruence|]. destruct H1 as [H1|[F1 H1]], H2 as [H2|[F2 H2]]; [left; lia|left; lia|left; lia|]. right.
  split; [congruence|]. destruct H1 as [[H1 N1]|[G1 H1]], H2 as [[H2 N2]|[G2 H2]].
  - left. split; [by transitivity (ld_username b)|]. intros E. rewrite E in *. apply N1, Hanti; [done|by rewrite <- E in *].
  - left. by rewrite <- G2.
  - left. by rewrite G1.
  - right. split; [congruence|]. apply Is_true_true. apply Is_true_true in H1, H2. by eapply uuid_le_trans.
Qed.

Context (d : profiles).

Lemma leader_id r l : leader d r = Some l → ld_id l = r.1.
Proof. unfold leader. destruct (_ && _); [|done]. by intros [= <-]. Qed.
Lemma leader_listed id u l : ac_users (pd_accounts d) !! id = Some u → leader d (id, u) = Some l → listed_user d id = true.
Proof.
  unfold leader, listed_user. intros ->. cbn -[joined]. destruct (visible u); [cbn -[joined]|done].
  unfold joined. destruct (submits id d) as [|e m]; [done|]. cbn. done.
Qed.

Definition leaders : list Leader := merge_sort (ranks collate) (omap (leader d) (map_to_list (ac_users (pd_accounts d)))).
Lemma leaders_elem l : l ∈ leaders ↔ ∃ id u, ac_users (pd_accounts d) !! id = Some u ∧ leader d (id, u) = Some l.
Proof.
  unfold leaders. rewrite merge_sort_Permutation, list_elem_of_omap. split.
  - intros ([id u] & Hi%elem_of_map_to_list & Hl). by exists id, u.
  - intros (id & u & Hi & Hl). exists (id, u). by rewrite elem_of_map_to_list.
Qed.
Lemma leaders_ids : NoDup (ld_id <$> leaders).
Proof.
  unfold leaders. rewrite merge_sort_Permutation.
  pose proof (NoDup_fst_map_to_list (ac_users (pd_accounts d))) as Hn. revert Hn.
  generalize (map_to_list (ac_users (pd_accounts d))). intros m. induction m as [|r m IH]; [constructor|].
  cbn. intros [Hr Hm]%NoDup_cons. destruct (leader d r) as [l|] eqn:El; [|by apply IH].
  cbn. constructor; [|by apply IH]. intros (l' & E & (r' & Hr' & El')%list_elem_of_omap)%list_elem_of_fmap.
  apply Hr. rewrite <- (leader_id _ _ El), E, (leader_id _ _ El'). apply list_elem_of_fmap. by exists r'.
Qed.

Lemma ranked_split pre r post :
  ranked collate d = pre ++ r :: post →
  r.1 = Z.of_nat (length pre) + 1 ∧ filter (λ q, r.1 < q.1) (ranked collate d) = post ∧
  list_find (λ q : Z * Leader, ld_id q.2 = ld_id r.2) (ranked collate d) = Some (length pre, r).
Proof.
  intros E. assert (Hrank : ∀ i q, ranked collate d !! i = Some q → q.1 = Z.of_nat i + 1 ∧ leaders !! i = Some q.2).
  { intros i q. unfold ranked. rewrite list_lookup_imap. fold leaders. destruct (leaders !! i); [|done]. by intros [= <-]. }
  assert (Hr : r.1 = Z.of_nat (length pre) + 1) by (apply (Hrank (length pre)); rewrite E; apply list_lookup_middle; lia).
  split_and!; [done| |].
  - rewrite E, filter_app, filter_none_in, filter_cons_False, filter_all_in; [done| |lia|].
    + intros q [i Hi]%list_elem_of_lookup. destruct (Hrank (length pre + S i)%nat q) as [Hq _]; [|lia].
      rewrite E, lookup_app_r by lia. by replace (length pre + S i - length pre)%nat with (S i) by lia.
    + intros q [i Hi]%list_elem_of_lookup. pose proof (lookup_lt_Some _ _ _ Hi).
      destruct (Hrank i q) as [Hq _]; [by rewrite E, lookup_app_l|lia].
  - apply list_find_Some. split_and!; [rewrite E; by apply list_lookup_middle|done|].
    intros i q Hi Hlt Hid. destruct (Hrank i q Hi) as [_ H1].
    destruct (Hrank (length pre) r) as [_ H2]; [rewrite E; by apply list_lookup_middle|].
    assert (i = length pre); [|lia]. apply (NoDup_lookup _ i (length pre) (ld_id q.2) leaders_ids).
    + by rewrite list_lookup_fmap, H1.
    + by rewrite list_lookup_fmap, H2, Hid.
Qed.

Lemma leaderboard_pager :
  Pager (λ r : Z * Leader, ld_id r.2) leader_entry 20 (λ c, user_leaderboard collate c d) (ranked collate d).
Proof.
  split.
  - unfold user_leaderboard, ranks_after. rewrite page_rows_take by lia. done.
  - intros pre r post E. destruct (ranked_split _ _ _ E) as (_ & Hpost & Hfind). unfold user_leaderboard.
    assert (r.2 ∈ leaders) as (id & u & Hu & Hl)%leaders_elem.
    { assert (r ∈ ranked collate d) as (i & l & -> & Hi)%elem_of_lookup_imap_1 by (rewrite E; apply elem_of_app; right; left).
      by eapply list_elem_of_lookup_2. }
    rewrite (leader_id _ _ Hl). cbn [fst]. rewrite (leader_listed _ _ _ Hu Hl). cbn [negb].
    unfold ranks_after. rewrite <- (leader_id _ _ Hl : ld_id r.2 = id), Hfind, Hpost. by rewrite page_rows_take by lia.
Qed.

(** The leaderboard of all users.  Following the cursors lists every public, active user with a
    submission exactly once, under the ranks 1, 2, 3, ..., those with more solved problems first, then
    those with more accepted submissions, then by name; and ends. *)
Lemma user_leaderboard_enumerated fuel :
  (length (ranked collate d) < fuel)%nat →
  follow (λ c, user_leaderboard collate c d) fuel None = leader_entry <$> ranked collate d ∧
  (ranked collate d).*1 = seqZ 1 (Z.of_nat (length (ranked collate d))) ∧
  NoDup (ld_id <$> (ranked collate d).*2) ∧
  StronglySorted (ranks collate) (ranked collate d).*2 ∧
  ∀ l, l ∈ (ranked collate d).*2 ↔ ∃ id u, ac_users (pd_accounts d) !! id = Some u ∧ leader d (id, u) = Some l.
Proof.
  intros Hf. assert (Hsnd : (ranked collate d).*2 = leaders).
  { unfold ranked. fold leaders. rewrite fmap_imap. apply list_eq. intros i. rewrite list_lookup_imap.
    by destruct (leaders !! i). }
  split_and!.
  - apply (follow_all (λ r : Z * Leader, ld_id r.2) leader_entry 20); [apply leaderboard_pager|lia|done].
  - unfold ranked. by rewrite imap_positions, length_imap.
  - rewrite Hsnd. apply leaders_ids.
  - rewrite Hsnd. apply StronglySorted_merge_sort; apply _.
  - rewrite Hsnd. apply leaders_elem.
Qed.
End Leaders.

(** ** Statistics *)

Lemma round_div_percent a b : (a ≤ b)%nat → (0 < b)%nat → 0 ≤ round_div (Z.of_nat a * 100) (Z.of_nat b) ≤ 100.
Proof.
  intros Ha Hb. unfold round_div. split; [apply Z.div_pos; lia|].
  apply Z.lt_succ_r. apply Z.div_lt_upper_bound; lia.
Qed.

Lemma length_remove_dups {A} `{EqDecision A} (l : list A) : (length (remove_dups l) ≤ length l)%nat.
Proof.
  rewrite <- (submseteq_length (remove_dups l) l); [done|]. apply NoDup_submseteq; [apply NoDup_remove_dups|].
  intros x. by rewrite elem_of_remove_dups.
Qed.
Lemma length_omap_le {A B} (f : A → option B) (l : list A) : (length (omap f l) ≤ length l)%nat.
Proof. induction l as [|a l IH]; cbn; [done|]. destruct (f a); cbn; lia. Qed.

(** Counting by classes counts everything once. *)
Lemma sum_classes {A B} `{EqDecision B} (f : A → B) (ds : list B) (l : list A) :
  NoDup ds → (∀ x, x ∈ l → f x ∈ ds) → sum_list ((λ d, length (filter (λ x, f x = d) l)) <$> ds) = length l.
Proof.
  intros Hnd. induction l as [|a l IH]; intros Hin; [clear; by induction ds|].
  cbn [length]. rewrite <- IH by (intros; apply Hin; by right). assert (f a ∈ ds) as Ha by (apply Hin; left).
  clear IH Hin. induction Hnd as [|d ds Hd Hnd IH]; [by apply elem_of_nil in Ha|]. cbn -[filter].
  rewrite filter_cons. apply elem_of_cons in Ha as [<-|Ha].
  - rewrite decide_True by done. cbn -[filter]. do 2 f_equal. f_equal.
    apply list_fmap_ext. intros i x Hx%list_elem_of_lookup_2. rewrite filter_cons_False; [done|]. by intros <-.
  - rewrite decide_False by (by intros <-). rewrite IH by done. lia.
Qed.

Section Numbers.
Context (d : profiles) (l : list Execution).

Lemma language_values : NoDup (enum_values : list Language).
Proof. cbn. repeat constructor; set_solver. Qed.
Lemma language_known (m : list Execution) e : e ∈ m → x_language (e_req e) ∈ (enum_values : list Language).
Proof. intros _. apply enum_complete. Qed.

(** The groups of the languages that occur, summed by [h] of the group. *)
Lemma languages_summed (h : list Execution → nat) (k : Language * nat * nat → nat) :
  h [] = 0%nat → (∀ g m, k (g, length m, length (filter (λ e, accepted e = true) m)) = h m) →
  sum_list (k <$> languages l) = sum_list ((λ g, h (filter (λ e, x_language (e_req e) = g) l)) <$> enum_values).
Proof.
  intros Hn Hk. unfold languages. induction (enum_values : list Language) as [|g gs IH]; [done|].
  cbn -[filter]. rewrite <- IH. destruct (filter (λ e, x_language (e_req e) = g) l) as [|e m]; [by rewrite Hn|].
  cbn -[filter]. f_equal. apply (Hk g (e :: m)).
Qed.

Lemma languages_total : sum_list ((λ x, x.1.2) <$> languages l) = length l.
Proof.
  rewrite (languages_summed length) by done. apply sum_classes; [apply language_values|apply language_known].
Qed.
Lemma languages_accepted : sum_list (snd <$> languages l) = length (filter (λ e, accepted e = true) l).
Proof.
  rewrite (languages_summed (λ m, length (filter (λ e, accepted e = true) m))) by done.
  rewrite <- (sum_classes (λ e, x_language (e_req e)) enum_values (filter (λ e, accepted e = true) l));
    [|apply language_values|apply language_known].
  f_equal. apply list_fmap_ext. intros _ g _. f_equal. rewrite !list_filter_filter. apply list_filter_iff. tauto.
Qed.

(** The days of the contributions, and what they add up to. *)
Lemma contributions_days now day n :
  (day, n) ∈ contributions now l → 0 < n ∧ day_of now - 364 ≤ day.
Proof.
  unfold contributions. intros (x & [= -> ->] & Hx)%list_elem_of_fmap.
  rewrite merge_sort_Permutation, elem_of_remove_dups in Hx.
  assert (Hx' := Hx). apply list_elem_of_fmap in Hx as (e & -> & [Hs _]%list_elem_of_filter). split.
  - destruct (filter _ (day_of ∘ createdAt <$> _)) as [|y m] eqn:Em; [|cbn; lia].
    destruct (elem_of_nil ((day_of ∘ createdAt) e)) as [[] _]. rewrite <- Em. by apply list_elem_of_filter.
  - unfold since in Hs. cbn. unfold day_of in *. apply Z.div_le_lower_bound; unfold DAY in *; lia.
Qed.
Lemma contributions_sum now :
  sumZ (snd <$> contributions now l) = Z.of_nat (length (filter (λ e, since now ≤ createdAt e) l)).
Proof.
  unfold contributions. set (days := day_of ∘ createdAt <$> _).
  transitivity (Z.of_nat (length days)); [|by unfold days; rewrite length_fmap].
  rewrite <- (sum_classes (λ x, x) (merge_sort Z.le (remove_dups days)) days).
  - generalize (merge_sort Z.le (remove_dups days)). intros ds. induction ds as [|x ds IH]; [done|].
    cbn -[filter sumZ]. unfold sumZ in *. cbn -[filter]. rewrite Nat2Z.inj_add, <- IH. done.
  - rewrite merge_sort_Permutation. apply NoDup_remove_dups.
  - intros x Hx. by rewrite merge_sort_Permutation, elem_of_remove_dups.
Qed.

(** *** Difficulties *)

(** The trigger [validate_current_version]: a current version is a version of its problem. *)
Definition current_valid (c : catalogue) : Prop :=
  ∀ k p v, cat_problems c !! k = Some p → pb_currentVersionId p = Some v →
    ∃ r, cat_versions c !! v = Some r ∧ vr_problemId r = k.

Lemma solved_le_available x : current_valid (pd_catalogue d) → (solved_of d l x ≤ available_of d x)%nat.
Proof.
  intros Hc. unfold solved_of, available_of. set (c := pd_catalogue d) in *.
  set (ids := filter _ (solved_problems d l)). set (versions := filter _ (map_to_list (cat_versions c))).
  set (current := λ id, default [] (p ← cat_problems c !! id; pb_currentVersionId p)).
  assert (Hids : ∀ id, id ∈ ids → ∃ p v r, cat_problems c !! id = Some p ∧ pb_currentVersionId p = Some v ∧
    cat_versions c !! v = Some r ∧ vr_problemId r = id ∧ vr_published r = true ∧ vr_difficulty r = x).
  { intros id [H _]%list_elem_of_filter. destruct (cat_problems c !! id) as [p|] eqn:Ep; [|done]. cbn in H.
    unfold current_version in H. destruct (pb_currentVersionId p) as [v|] eqn:Ev; [|done]. cbn in H.
    destruct (Hc _ _ _ Ep Ev) as (r & Hr & Ho). rewrite Hr in H. destruct (vr_published r) eqn:Er; [|done].
    injection H as H. by exists p, v, r. }
  rewrite <- (length_fmap current ids), <- (length_fmap fst versions). apply submseteq_length, NoDup_submseteq.
  - apply NoDup_fmap_2_strong; [|apply NoDup_filter, NoDup_remove_dups]. intros i j Hi Hj.
    destruct (Hids i Hi) as (p & v & r & Ep & Ev & Hr & Hri & _), (Hids j Hj) as (p' & v' & r' & Ep' & Ev' & Hr' & Hrj & _).
    unfold current. rewrite Ep, Ep'. cbn. rewrite Ev, Ev'. cbn. congruence.
  - intros v (id & -> & Hid)%list_elem_of_fmap. destruct (Hids id Hid) as (p & v & r & Ep & Ev & Hr & _ & Hp & Hx).
    unfold current. rewrite Ep. cbn. rewrite Ev. cbn. apply list_elem_of_fmap. exists (v, r). split; [done|].
    apply list_elem_of_filter. split_and!; [|done|done|by apply elem_of_map_to_list].
    apply list_elem_of_omap. exists (id, p). by rewrite elem_of_map_to_list.
Qed.

Lemma solved_by_difficulty : (sum_list (solved_of d l <$> [EASY; MEDIUM; HARD]) ≤ length (solved_problems d l))%nat.
Proof.
  unfold solved_of. set (class := λ id, vr_difficulty <$> (p ← cat_problems (pd_catalogue d) !! id;
                                                           current_version (pd_catalogue d) p)).
  change (sum_list ((λ x, length (filter (λ id, class id = Some x) (solved_problems d l))) <$> [EASY; MEDIUM; HARD])
          ≤ length (solved_problems d l))%nat. clearbody class.
  generalize (solved_problems d l). intros m. cbn -[filter].
  induction m as [|id m IH]; [done|]. rewrite !filter_cons.
  destruct (class id) as [[]|]; repeat (case_decide; try congruence); cbn -[filter] in *; lia.
Qed.
End Numbers.

(** The numbers of a profile.  They are consistent: accepted submissions are submissions, each
    solved problem has one, the success rate is a percentage, the languages add up to the totals, the
    days to no more than the submissions, and of no difficulty more problems are solved than there
    are; at most ten submissions are listed. *)
Lemma profile_consistent now now' username allowPrivate d p :
  current_valid (pd_catalogue d) → publicProfile now now' username allowPrivate d = Ok p →
  let s := pp_stats p in
  (ps_acceptedSubmissions s ≤ ps_totalSubmissions s)%nat ∧ (ps_problemsSolved s ≤ ps_acceptedSubmissions s)%nat ∧
  0 ≤ ps_successRate s ≤ 100 ∧
  sum_list ((λ x, x.1.2) <$> pp_languages p) = ps_totalSubmissions s ∧
  sum_list (snd <$> pp_languages p) = ps_acceptedSubmissions s ∧
  sumZ (snd <$> pp_contributions p) ≤ Z.of_nat (ps_totalSubmissions s) ∧
  (∀ day n, (day, n) ∈ pp_contributions p → 0 < n ∧ day_of now - 364 ≤ day) ∧
  (∀ x solved available, (x, solved, available) ∈ pp_difficulties p → (solved ≤ available)%nat) ∧
  (sum_list ((λ x, x.1.2) <$> pp_difficulties p) ≤ ps_problemsSolved s)%nat ∧
  (length (pp_recentSubmissions p) ≤ 10)%nat.
Proof.
  intros Hc. unfold publicProfile. destruct (user_by_username _ _) as [[id u]|]; [|done].
  destruct (_ || _); [done|]. set (l := submits id d). destruct (streaks now' _) as [current longest].
  intros [= <-]. cbn -[streaks contributions languages difficulties recent solved_problems].
  assert (Hacc := length_filter (λ e, accepted e = true) l). split_and!.
  - done.
  - unfold solved_problems. etransitivity; [apply length_remove_dups|]. apply length_omap_le.
  - unfold successRate. destruct (Nat.eqb_spec (length l) 0); [lia|]. apply round_div_percent; lia.
  - unfold successRate. destruct (Nat.eqb_spec (length l) 0); [lia|]. apply round_div_percent; lia.
  - apply languages_total.
  - apply languages_accepted.
  - rewrite contributions_sum. pose proof (length_filter (λ e, since now ≤ createdAt e) l). lia.
  - intros day n. apply contributions_days.
  - intros x solved available (y & [= -> -> ->] & _)%list_elem_of_fmap. by apply solved_le_available.
  - apply solved_by_difficulty.
  - unfold recent. rewrite length_fmap, length_take. lia.
Qed.

(** ** Updates *)

(** What the CHECKs of the table ask for beyond the schema: a website of at most 2048 characters and an
    avatar that starts with [https://] as written, without control characters. *)
Definition profile_storable (i : UpdateProfile) : bool :=
  match up_website i with None => true | Some w => at_most 2048 (or_null w) end
  && match up_avatarUrl i with None => true | Some a => avatar_shape (or_null a) end.

Section Update.
Context (z_url : jsstr → option jsstr) (protocol : jsstr → jsstr).

Lemma optionally_Some {A B} (parse : A → option B) v r b :
  optionally parse v = Some r → r = Some b → ∃ a, v = Some a ∧ parse a = Some b.
Proof. destruct v as [a|]; cbn; [|by intros [= <-]]. destruct (parse a) eqn:E; [|done]. intros [= <-] [= ->]. eauto. Qed.

Lemma parsed_text n v t :
  nullable (text_up_to n) v = Some t → at_most n (or_null t) = true.
Proof.
  destruct v as [s|]; cbn; [|by intros [= <-]]. unfold text_up_to. destruct (Z.leb_spec (slen (trim s)) n) as [H|]; [|done].
  intros [= <-]. destruct (trim s) as [|x r] eqn:E; [done|]. cbn -[char_length]. rewrite <- E in *. apply Z.leb_le.
  destruct (char_length_bounds (trim s)). lia.
Qed.

Lemma text_checked n v t old :
  optionally (nullable (text_up_to n)) v = Some t → at_most n old = true → at_most n (default old (or_null <$> t)) = true.
Proof.
  intros H Ho. destruct t as [r|]; [|done]. destruct (optionally_Some _ _ _ _ H eq_refl) as (a & _ & Ha).
  by apply (parsed_text n a).
Qed.
Lemma username_checked v t old :
  optionally usernameSchema v = Some t → username_shape old = true → username_shape (default old t) = true.
Proof.
  intros H Ho. destruct t as [r|]; [|done]. destruct (optionally_Some _ _ _ _ H eq_refl) as (a & _ & Ha).
  unfold usernameSchema in Ha. destruct (username_shape (toLowerCase (trim a))) eqn:E; [|done]. destruct (negb _); [|done]. by injection Ha as <-.
Qed.

Lemma apply_profile_checks body i u :
  updateProfileSchema z_url protocol body = Ok i → user_checks u = true →
  user_checks (apply_profile i u) = profile_storable i.
Proof.
  unfold updateProfileSchema, parse_profile. intros H Hu.
  destruct (optionally usernameSchema _) as [n|] eqn:En; [|done]. cbn in H.
  destruct (optionally displayNameSchema _) as [dn|]; [|done]. cbn in H.
  destruct (optionally (nullable (text_up_to 280)) _) as [b|] eqn:Eb; [|done]. cbn in H.
  destruct (optionally (nullable (text_up_to 100)) _) as [l|] eqn:El; [|done]. cbn in H.
  destruct (optionally (nullable (url_that _ (website_ok _))) _) as [w|]; [|done]. cbn in H.
  destruct (optionally (nullable (url_that _ (avatarUrl_ok _))) _) as [v|]; [|done]. cbn in H.
  destruct (bool_decide _); [done|]. injection H as <-. unfold user_checks, profile_storable in *. guards.
  cbn -[username_shape at_most avatar_shape]. rewrite (username_checked _ _ _ En), (text_checked _ _ _ _ Eb),
    (text_checked _ _ _ _ El) by done. cbn -[at_most avatar_shape].
  destruct w as [w|], v as [v|]; cbn -[at_most avatar_shape] in *;
    repeat match goal with H : ?b = true |- context [?b] => rewrite H end; by rewrite ?andb_true_r.
Qed.

Lemma existsb_false_all {A} (p : A → bool) l : existsb p l = false ↔ ∀ x, x ∈ l → p x = false.
Proof.
  split; [intros H x; by apply existsb_false|]. intros H. apply not_true_is_false. intros (x & Hx & Hp)%existsb_exists.
  apply list_elem_of_In in Hx. by rewrite (H x Hx) in Hp.
Qed.

Definition stored (a : accounts) (userId : rowid) (u : User) : accounts :=
  mkAccounts (<[userId := u]> (ac_users a)) (ac_sessions a) (ac_credentials a) (ac_attempts a) (ac_limits a)
    (ac_owners a) (ac_registrations a) (ac_likes a) (ac_quotas a)
    (ac_audit a ++ [mkAudit userId "PROFILE_UPDATE" userId]).
Lemma store_profile_eq userId i a u :
  ac_users a !! userId = Some u →
  transaction (store_profile userId i) a =
  if negb (user_checks (apply_profile i u)) then (Err (DbError "23514"), a) else
  if existsb (same_identity userId (apply_profile i u)) (map_to_list (ac_users a))
     || existsb (same_username userId (apply_profile i u)) (map_to_list (ac_users a))
  then (Err (DbError "P2002"), a)
  else (Ok (us_username (ur_row (apply_profile i u))), stored a userId (apply_profile i u)).
Proof.
  intros Hu. unfold store_profile, user_update, user_put, log_audit, the_accounts, transaction.
  cbv [mbind tx_bind gets modify raise_if throw mret tx_ret]. rewrite Hu. generalize (apply_profile i u). intros v.
  destruct (user_checks v); cbn -[same_identity same_username map_to_list]; [|done].
  by destruct (_ || _).
Qed.

Lemma found_by_username a userId u :
  ac_users a !! userId = Some u →
  (∀ k v, ac_users a !! k = Some v → us_username (ur_row v) = us_username (ur_row u) → k = userId) →
  user_by_username (us_username (ur_row u)) a = Some (userId, u).
Proof.
  intros Hu Hone. unfold user_by_username. destruct (list_find _ _) as [[i [k v]]|] eqn:E; cbn.
  - apply list_find_Some in E as (Hi & Ev & _). apply list_elem_of_lookup_2, elem_of_map_to_list in Hi. cbn in Ev.
    assert (k = userId) as -> by by eapply Hone. congruence.
  - apply list_find_None in E. rewrite Forall_forall in E. by destruct (E (userId, u)); [apply elem_of_map_to_list|].
Qed.

(** The profile of an active user, by name. *)
Lemma publicProfile_of now now' d userId u ap :
  user_by_username (us_username (ur_row u)) (pd_accounts d) = Some (userId, u) → us_deactivatedAt (ur_row u) = None →
  (ap = false → st_profileVisibility (ur_settings u) = PROFILE_PRIVATE →
     publicProfile now now' (us_username (ur_row u)) ap d = Err not_found) ∧
  (st_profileVisibility (ur_settings u) = PROFILE_PUBLIC →
     ∃ p, publicProfile now now' (us_username (ur_row u)) ap d = Ok p ∧ pp_username p = us_username (ur_row u) ∧
       pp_displayName p = pf_displayName (ur_profile u) ∧ pp_bio p = shown_text (pf_bio (ur_profile u)) ∧
       pp_location p = shown_text (pf_location (ur_profile u)) ∧ pp_website p = shown_text (pf_website (ur_profile u)) ∧
       pp_avatarUrl p = shown_text (pf_avatarUrl (ur_profile u))).
Proof.
  intros Hf Ha. unfold publicProfile. rewrite Hf, Ha. rewrite (bool_decide_eq_false_2 (is_Some None)) by (by intros []).
  split; [by intros -> ->|]. intros ->. rewrite bool_decide_eq_false_2, andb_false_r by done. cbn [orb].
  destruct (streaks _ _) as [current longest]. by eexists.
Qed.

(** A profile update.  What the schema accepts is refused as USERNAME_TAKEN exactly when another
    user has the name, provided the table's CHECKs hold, which for a name and texts the schema
    ensures and for URLs it does not: those are refused by the database, and nothing changes.  Otherwise
    the new values are stored and the reply shows them, unless the profile is private: then the reply
    is NOT_FOUND although the update is stored. *)
Lemma profile_update_outcome now now' userId body i u d :
  updateProfileSchema z_url protocol body = Ok i →
  ac_users (pd_accounts d) !! userId = Some u → user_checks u = true → us_deactivatedAt (ur_row u) = None →
  (∀ k v, ac_users (pd_accounts d) !! k = Some v → k ≠ userId → ur_issuer v = ur_issuer u → ur_subject v ≠ ur_subject u) →
  let u' := apply_profile i u in
  let taken := ∃ k v, ac_users (pd_accounts d) !! k = Some v ∧ k ≠ userId ∧ us_username (ur_row v) = us_username (ur_row u') in
  let reply := (update_profile now now' userId i d).1 in
  let d' := (update_profile now now' userId i d).2 in
  (profile_storable i = false → reply = Err (DbError "23514") ∧ d' = d) ∧
  (profile_storable i = true → taken → reply = Err (ApiError 409 "USERNAME_TAKEN" None) ∧ d' = d) ∧
  (profile_storable i = true → ¬ taken →
     ac_users (pd_accounts d') = <[userId := u']> (ac_users (pd_accounts d)) ∧
     pd_catalogue d' = pd_catalogue d ∧ pd_executions d' = pd_executions d ∧
     (st_profileVisibility (ur_settings u) = PROFILE_PRIVATE → reply = Err not_found) ∧
     (st_profileVisibility (ur_settings u) = PROFILE_PUBLIC →
        ∃ p, reply = Ok p ∧ pp_username p = us_username (ur_row u') ∧ pp_displayName p = pf_displayName (ur_profile u') ∧
          pp_bio p = shown_text (pf_bio (ur_profile u')) ∧ pp_location p = shown_text (pf_location (ur_profile u')) ∧
          pp_website p = shown_text (pf_website (ur_profile u')) ∧
          pp_avatarUrl p = shown_text (pf_avatarUrl (ur_profile u')))).
Proof.
  intros Hi Hu Hchk Hact Hid u' taken. unfold update_profile. rewrite (store_profile_eq _ _ _ _ Hu). fold u'.
  rewrite (apply_profile_checks _ _ _ Hi Hchk : user_checks u' = _).
  assert (existsb (same_identity userId u') (map_to_list (ac_users (pd_accounts d))) = false) as ->.
  { apply existsb_false_all. intros [k v] Hk%elem_of_map_to_list. unfold same_identity. cbn.
    destruct (bool_decide_reflect (k = userId)) as [|Hne]; cbn; [done|].
    apply andb_false_iff. destruct (decide (ur_issuer v = ur_issuer u)) as [E|]; [right|left];
      apply bool_decide_eq_false_2; [by apply (Hid k)|done]. }
  assert (Htaken : existsb (same_username userId u') (map_to_list (ac_users (pd_accounts d))) = true ↔ taken).
  { rewrite existsb_exists. unfold taken. split.
    - intros ([k v] & Hk%list_elem_of_In%elem_of_map_to_list & [Hne Hn]%andb_true_iff). exists k, v.
      apply negb_true_iff, bool_decide_eq_false in Hne. by apply bool_decide_eq_true in Hn.
    - intros (k & v & Hk & Hne & Hn). exists (k, v). rewrite <- list_elem_of_In, elem_of_map_to_list. split; [done|].
      unfold same_username. cbn. by rewrite (bool_decide_eq_false_2 _ Hne), (bool_decide_eq_true_2 _ Hn). }
  assert (set_accounts (pd_accounts d) d = d) as Hsame by by destruct d. cbn [orb].
  split_and!.
  - intros ->. cbn. by rewrite Hsame.
  - intros -> Ht%Htaken. rewrite Ht. cbn. by rewrite Hsame.
  - intros -> Hnot. destruct (existsb _ _) eqn:Ee; [by destruct Hnot; apply Htaken|]. cbn -[publicProfile].
    destruct (publicProfile_of now now' (set_accounts (stored (pd_accounts d) userId u') d) userId u' false) as [H1 H2].
    + apply found_by_username; cbn; [by rewrite lookup_insert_eq|]. intros k v Hk Hn.
      destruct (decide (k = userId)) as [|Hne]; [done|]. rewrite lookup_insert_ne in Hk by done.
      destruct Hnot. by exists k, v.
    + done.
    + split_and!; [done|done|done|intros; by apply H1|intros; by apply H2].
Qed.
End Update.
