(* ===== verification/Configured.v ===== *)
(** * What a started application can rely on

    The parts of the configuration that admission and sign-in read, and what acceptance of an
    environment by [parseConfig] guarantees them. *)

From S2P Require Import Prelude JsText Contracts Io JsString RuntimePolicy Database Admission.
From S2P Require Import Password Accounts JsNumber.
From S2P Require Config.
Local Open Scope Z_scope.

(** [config.values] as [Admission] and [ExecutionsService] read it. *)
Definition admission_config (v : Config.Values) : ConfigValues :=
  mkConfig (Config.EXECUTIONS_ENABLED v) (Config.PIPELINE_ENABLED v)
    (Config.MAX_ACTIVE_JOBS_PER_USER v) (Config.MAX_ACTIVE_JOBS_GLOBAL v)
    (Config.EXECUTION_CREATIONS_PER_MINUTE v) (Config.EXECUTION_IP_CREATIONS_PER_MINUTE v)
    (Config.EXECUTION_GLOBAL_CREATIONS_PER_MINUTE v) (default [] (Config.EXECUTION_RATE_LIMIT_KEY v))
    (Config.QUEUE_TTL_SECONDS v).

(** [Config] as [LoginService] and [PasswordAuthService] read it. *)
Definition auth_config (v : Config.Values) : AuthConfig :=
  mkAuthConfig (Config.authTransactionKey v) (Config.PASSWORD_AUTH_ENABLED v) (Config.PUBLIC_ORIGIN v)
    (Config.SESSION_TTL_SECONDS v) (Config.AUTH_LOGIN_REQUESTS_PER_MINUTE v) (Config.AUTH_LOGIN_GLOBAL_PER_MINUTE v).

Definition key32 (k : jsstr) : Prop :=
  length (Config.from_base64 k) = 32%nat ∧ Config.to_base64 (Config.from_base64 k) = k.

Lemma orElse_keys (a b : option jsstr) k : Config.orElse a b = Some k → a = Some k ∨ b = Some k.
Proof. destruct a; cbn; auto. Qed.
Lemma truthy_Some o : Config.truthy o = true → ∃ s, o = Some s ∧ s ≠ [].
Proof. destruct o as [[|u s]|]; try done. eauto. Qed.
Lemma if_set_Some f s : Config.if_set f (Some s) = true → s ≠ [] → f s = true.
Proof. by destruct s. Qed.

Section Configured.
Context (URL : jsstr → option Config.Url) (z_url : jsstr → option jsstr) (isIP : jsstr → Z).

(** The serialised origin of an [https:] URL begins with its scheme. *)
Context (origin_scheme : ∀ s u, URL s = Some u → Config.is_https u = true →
           startsWith (js "https:") (Config.u_origin u) = true).
(** Zod's URL format accepts no empty text. *)
Context (z_url_nonempty : ∀ s t, z_url s = Some t → t ≠ []).

Implicit Types (e : Config.env) (v : Config.Values).

(** The keys that reach the cryptography are canonical encodings of 32 bytes. *)
Lemma configured_key e v k :
  Config.parseConfig URL z_url isIP e = Some v →
  k ∈ [Config.AUTH_TRANSACTION_KEY v; Config.OIDC_TRANSACTION_KEY v; Config.EXECUTION_RATE_LIMIT_KEY v] ∧ k ≠ None →
  ∃ s, k = Some s ∧ key32 s.
Proof.
  intros [Ht Hr]%Config.parseConfig_inv [Hk Hn]. destruct k as [s|]; [|done]. exists s. split; [done|].
  pose proof (proj1 (Forall_forall _ _) (Config.ty_keys v Ht) _ Hk s eq_refl) as Hf.
  pose proof (Config.key_format_bytes s Hf) as Hl. split; [done|].
  assert (s ≠ []) as Hs by (by intros ->).
  unfold Config.superRefine, Config.key_rules in Hr. rewrite !andb_true_iff in Hr.
  destruct Hr as [[[_ [[[_ H2] H1]  H3]] _] _].
  set_unfold in Hk. apply (bool_decide_eq_true_1 _). change (Config.canonical s = true).
  by destruct Hk as [E|[E|[E|[]]]]; [rewrite <- E in H1|rewrite <- E in H2|rewrite <- E in H3]; eapply if_set_Some.
Qed.

(** Sign-in has its key whenever a sign-in method is enabled. *)
Lemma configured_auth e v :
  Config.parseConfig URL z_url isIP e = Some v → Config.any_auth v = true →
  ∃ k, Config.authTransactionKey v = Some k ∧ key32 k.
Proof.
  intros Hp Ha. pose proof Hp as [_ Hr]%Config.parseConfig_inv.
  unfold Config.superRefine, Config.feature_rules in Hr. rewrite !andb_true_iff in Hr.
  destruct Hr as [[[[_ Hk] _] _] _]. rewrite Ha in Hk.
  assert (Hsome : Config.authTransactionKey v ≠ None).
  { unfold Config.authTransactionKey. destruct (Config.AUTH_TRANSACTION_KEY v); [done|].
    apply truthy_Some in Hk as (s & -> & _). done. }
  apply (configured_key e v); [done|]. split; [|done].
  destruct (Config.authTransactionKey v) as [k|] eqn:E; [|done].
  apply orElse_keys in E as [<-|<-]; set_solver.
Qed.

Lemma configured_origin e v :
  Config.parseConfig URL z_url isIP e = Some v → Config.production v = true → Config.secureCookies v = true.
Proof.
  intros Hv Hp. pose proof Hv as [_ Hr]%Config.parseConfig_inv.
  apply bind_Some in Hv as (v' & Hv & E). destruct (Config.superRefine _ _ _); [|done]. injection E as ->.
  unfold Config.superRefine in Hr. apply andb_true_iff in Hr as [_ Hr]. unfold Config.origin_rules in Hr.
  destruct (URL (Config.PUBLIC_ORIGIN v)) as [o|] eqn:Eo; [|done]. rewrite Hp, !andb_true_iff in Hr.
  destruct Hr as [[[[[_ He] Ha] _] Hs] Hs']. cbn in Hs, Hs'.
  assert (Hex : ∀ s u, URL s = Some u → Config.exact_origin s u = true → Config.is_https u = true →
                       startsWith (js "https:") s = true).
  { intros s u Hu [<-%bool_decide_eq_true _]%andb_true_iff Hh. by eapply origin_scheme. }
  unfold Config.secureCookies, Config.apiOrigin, Config.parsed_api_origin in *.
  destruct (Config.API_ORIGIN v) as [s|] eqn:Es; [|by eapply Hex].
  destruct s as [|c s]; cbn [Config.if_set implb Config.nonempty default] in *.
  - destruct (Config.envSchema_api_origin _ _ _ _ Hv Es) as [t Ht]. by destruct (z_url_nonempty _ _ Ht).
  - destruct (URL (c :: s)) as [u|] eqn:Eu; [|done]. apply andb_true_iff in Ha as [_ Ha]. by eapply Hex.
Qed.

Lemma configured_execution_key e v :
  Config.parseConfig URL z_url isIP e = Some v → Config.EXECUTIONS_ENABLED v = true →
  key32 (EXECUTION_RATE_LIMIT_KEY (admission_config v)).
Proof.
  intros Hp He. pose proof Hp as [_ Hr]%Config.parseConfig_inv.
  unfold Config.superRefine, Config.feature_rules in Hr. rewrite !andb_true_iff in Hr.
  destruct Hr as [[[[[[[[_ Hk] _] _] _] _] _] _] _]. rewrite He in Hk. apply truthy_Some in Hk as (s & Es & _).
  destruct (configured_key e v (Some s) Hp) as (k & [= <-] & Hk); [rewrite <- Es; set_solver|].
  unfold admission_config. cbn. by rewrite Es.
Qed.

Lemma configured_production e v :
  Config.parseConfig URL z_url isIP e = Some v → Config.production v = true → Config.EXECUTIONS_ENABLED v = true →
  Config.any_auth v = true ∧ Config.PIPELINE_ENABLED v = true ∧ Config.REALTIME_ENABLED v = true.
Proof.
  intros [_ Hr]%Config.parseConfig_inv Hp He. unfold Config.superRefine, Config.origin_rules in Hr.
  apply andb_true_iff in Hr as [_ Hr]. destruct (URL _); [|done]. rewrite Hp, He, !andb_true_iff in Hr.
  destruct Hr as [[[_ H] _] _]. cbn in H. rewrite !andb_true_iff in H. tauto.
Qed.

(** A trusted proxy is an IP address, alone or with a prefix of at least one bit: never everyone. *)
Lemma configured_proxies e v :
  Config.parseConfig URL z_url isIP e = Some v →
  ∀ l p, Config.trustProxy v = Some l → p ∈ l →
  ∃ address more, split 47 p = address :: more ∧ isIP address ≠ 0
                  ∧ (more = [] ∨ ∃ prefix, more = [prefix] ∧ 1 ≤ digits_value prefix ≤ 128).
Proof.
  intros [_ Hr]%Config.parseConfig_inv l p Hl Hin. unfold Config.superRefine, Config.proxies_rule in Hr.
  rewrite !andb_true_iff in Hr. destruct Hr as [[_ Hr] _].
  unfold Config.trustProxy in Hl. destruct (Config.TRUST_PROXY_CIDRS v) as [|c s]; [done|].
  injection Hl as <-. apply list_elem_of_fmap in Hin as (q & -> & Hq).
  cbn [Config.nonempty implb] in Hr. rewrite forallb_forall in Hr. specialize (Hr q).
  rewrite <- list_elem_of_In in Hr. specialize (Hr Hq). unfold Config.proxy_rule in Hr.
  destruct (split 47 (trim q)) as [|a more]; [done|]. exists a, more.
  apply andb_true_iff in Hr as [Ha Hm]. split; [done|]. split; [by destruct a; [done|apply negb_true_iff, Z.eqb_neq in Ha]|].
  destruct more as [|x [|y more]]; [by left| |done]. right. exists x. split; [done|].
  rewrite !andb_true_iff in Hm. destruct Hm as [[_ H1] H2]. repeat case_match; lia.
Qed.

(** C36: a configuration that [parseConfig] accepts is well typed (every limit, lifetime and port in
    its range), and its features have what they need: sign-in a key that is the canonical encoding
    of 32 bytes whenever a method is enabled, so [LoginService] never answers
    [IDENTITY_NOT_CONFIGURED] for lack of one; execution creation such a key for its rate limits;
    the pipeline a Redis URL.  In production, execution also requires sign-in, the pipeline and
    realtime, and every cookie is [Secure].  A trusted proxy is an explicit address or network. *)
Theorem config_sound e v :
  Config.parseConfig URL z_url isIP e = Some v →
  Config.typed v
  ∧ (Config.any_auth v = true →
     ∃ k, key32 k ∧ ∀ s, require_key (auth_config v) s = (Ok k, s))
  ∧ (Config.EXECUTIONS_ENABLED v = true → key32 (EXECUTION_RATE_LIMIT_KEY (admission_config v)))
  ∧ (Config.PIPELINE_ENABLED v = true → ∃ u, Config.REDIS_URL v = Some u ∧ Config.redis_url u = true)
  ∧ (Config.production v = true → Config.secureCookies v = true
     ∧ (Config.EXECUTIONS_ENABLED v = true →
        Config.any_auth v = true ∧ Config.PIPELINE_ENABLED v = true ∧ Config.REALTIME_ENABLED v = true))
  ∧ (∀ l p, Config.trustProxy v = Some l → p ∈ l →
     ∃ address more, split 47 p = address :: more ∧ isIP address ≠ 0
                     ∧ (more = [] ∨ ∃ prefix, more = [prefix] ∧ 1 ≤ digits_value prefix ≤ 128)).
Proof.
  intros Hp. pose proof Hp as [Ht Hr]%Config.parseConfig_inv. split; [done|]. split_and!.
  - intros Ha. destruct (configured_auth e v Hp Ha) as (k & Ek & Hk). exists k. split; [done|].
    intros s. unfold require_key, auth_config. cbn. by rewrite Ek.
  - by apply (configured_execution_key e).
  - intros Hpl. unfold Config.superRefine, Config.feature_rules in Hr. rewrite !andb_true_iff in Hr.
    destruct Hr as [[[[[[[[Hu _] _] _] _] _] _] _] _]. rewrite Hpl in Hu.
    apply truthy_Some in Hu as (u & Eu & _). exists u. split; [done|]. by apply (Config.ty_redis v Ht).
  - intros Hprod. split; [by eapply configured_origin|by eapply configured_production].
  - by apply (configured_proxies e).
Qed.
End Configured.

(** ** The worker's queue connection *)

(** A Redis URL that the worker's configuration accepts makes connection options, when its credentials
    decode: the rule of the schema and the test of [redisOptions] agree. *)
Lemma worker_redis_usable URL z_url decodeURIComponent e w :
  (∀ s t, z_url s = Some t → ∃ u, URL t = Some u) →
  (∀ s u, URL s = Some u → Config.redis_url s = true →
          Config.u_protocol u = js "redis:" ∨ Config.u_protocol u = js "rediss:") →
  (∀ s, decodeURIComponent s ≠ None) →
  Config.parseWorkerConfig URL z_url e = Some w →
  ∃ o, Config.redisOptions URL decodeURIComponent (Config.w_REDIS_URL w) = Some o.
Proof.
  intros Hurl Hproto Hdec. unfold Config.parseWorkerConfig. intros H.
  repeat (apply bind_Some in H as (? & ? & H)). destruct (match URL _ with Some _ => _ | None => _ end) eqn:Ec; [done|].
  injection H as <-. cbn.
  match goal with Hr : Config.required (Config.refine Config.redis_url _) _ = Some ?r |- _ =>
    unfold Config.required in Hr; apply bind_Some in Hr as (raw & _ & [Hz Hs]%Config.refine_Some) end.
  destruct (Hurl _ _ Hz) as [u Hu]. rewrite Hu in Ec. rewrite !orb_false_iff in Ec. destruct Ec as [[E1 E2] E3].
  unfold Config.redisOptions. rewrite Hu. cbn [mbind option_bind]. rewrite E1, E2, E3.
  assert (bool_decide (Config.u_protocol u = js "redis:") || bool_decide (Config.u_protocol u = js "rediss:") = true) as Hp.
  { apply orb_true_iff. destruct (Hproto _ _ Hu Hs); [left|right]; by apply bool_decide_eq_true_2. }
  rewrite Hp. cbn [negb orb].
  assert (Hd : ∀ s, ∃ o, Config.decoded decodeURIComponent s = Some o).
  { intros [|c s]; [by exists None|]. unfold Config.decoded. destruct (decodeURIComponent (c :: s)) eqn:E; [eauto|by destruct (Hdec (c :: s))]. }
  destruct (Hd (Config.u_username u)) as [o1 ->], (Hd (Config.u_password u)) as [o2 ->]. eauto.
Qed.
