(* ===== verification/Startup.v ===== *)
(** * Processes: starting, background work, stopping

    The worker process ([executions/worker-main.ts]), the runner's two entry points ([runner/src/main.ts],
    [preflight.ts]) and the services of the API that work in the background ([QueuePipeline] of [queue.ts],
    [QueuedMaintenance] of [queued-maintenance.ts]).  What the outside answers, and when, are arguments. *)

From S2P Require Import Prelude JsText Contracts Judge Io JsString RuntimePolicy Buffers Artifacts.
From S2P Require Import Transport Host Metrics Supervisor SupervisorFacts Config.
Local Open Scope Z_scope.

(** ** The worker process *)

Inductive StartupStage :=
| CONFIGURATION | DATABASE_CONNECTION | DATABASE_PRIVILEGES | REDIS_CONNECTION | SUPERVISOR_CONNECTION
| WORKER_INITIALIZATION | READY.
#[export] Instance StartupStage_eq_dec : EqDecision StartupStage. Proof. solve_decision. Defined.
Definition stage_name (s : StartupStage) : string :=
  match s with
  | CONFIGURATION => "CONFIGURATION" | DATABASE_CONNECTION => "DATABASE_CONNECTION"
  | DATABASE_PRIVILEGES => "DATABASE_PRIVILEGES" | REDIS_CONNECTION => "REDIS_CONNECTION"
  | SUPERVISOR_CONNECTION => "SUPERVISOR_CONNECTION" | WORKER_INITIALIZATION => "WORKER_INITIALIZATION"
  | READY => "READY"
  end.

(** A promise: when it settles, counted from the moment it is waited for, and with what; [None] never. *)
Abbreviation promise A := (option (Z * result A)).
(** [within]: the promise against a timer. *)
Definition within {A} (p : promise A) (milliseconds : Z) : result A :=
  match p with
  | Some (t, r) => if t <? milliseconds then r else Err (JsError "WORKER_READY_TIMEOUT")
  | None => Err (JsError "WORKER_READY_TIMEOUT")
  end.

(** What the database, Redis and the runner's socket answer: [$connect], the privileges query (the [ok] of
    its first row), the queue's and the worker's [waitUntilReady], and the status of [GET /health]. *)
Record Outside := mkOutside {
  ou_connect : result unit; ou_privileges : result (option bool); ou_queue : promise unit;
  ou_health : promise Z; ou_worker : promise unit
}.

(** The process: [startupStage], what it holds open, and what it printed. *)
Record Process := mkProcess {
  pr_stage : StartupStage; pr_database : bool; pr_queue : bool; pr_worker : bool; pr_lines : list string
}.
Definition fresh_process : Process := mkProcess CONFIGURATION false false false [].
Definition at_stage (s : StartupStage) (p : Process) : Process :=
  mkProcess s (pr_database p) (pr_queue p) (pr_worker p) (pr_lines p).
Definition with_database (p : Process) : Process := mkProcess (pr_stage p) true (pr_queue p) (pr_worker p) (pr_lines p).
Definition with_queue (p : Process) : Process := mkProcess (pr_stage p) (pr_database p) true (pr_worker p) (pr_lines p).
Definition with_worker (p : Process) : Process := mkProcess (pr_stage p) (pr_database p) (pr_queue p) true (pr_lines p).
Definition printed (line : string) (p : Process) : Process :=
  mkProcess (pr_stage p) (pr_database p) (pr_queue p) (pr_worker p) (pr_lines p ++ [line]).
(** [queue.close()] or [worker.close(true)], then [db.$disconnect()]; their own failures are swallowed. *)
Definition all_closed (p : Process) : Process := mkProcess (pr_stage p) false false false (pr_lines p).

Section WorkerProcess.
(** [parseWorkerConfig(process.env)] and [redisOptions]; [None] where they throw. *)
Context (configuration : option WorkerValues) (options : jsstr → option RedisOptions) (out : Outside).

Definition redis_of (c : WorkerValues) : result RedisOptions :=
  match options (w_REDIS_URL c) with Some o => Ok o | None => Err (JsError "INVALID_REDIS_URL") end.
(** [checkSupervisor]: the runner's server rejects GET. *)
Definition checkSupervisor : result unit :=
  match within (ou_health out) 2000 with
  | Ok status => if status =? 400 then Ok tt else Err (JsError "SUPERVISOR_CHECK_FAILED")
  | Err e => Err e
  end.

Definition check_dependencies : io Process unit :=
  _ ← update (at_stage DATABASE_PRIVILEGES);
  ok ← of_result (ou_privileges out);
  _ ← raise_when (negb (default false ok)) (JsError "WORKER_DATABASE_PRIVILEGES_REQUIRED");
  _ ← update (at_stage REDIS_CONNECTION);
  _ ← of_result (within (ou_queue out) 10000);
  _ ← update (at_stage SUPERVISOR_CONNECTION);
  _ ← of_result checkSupervisor;
  _ ← update (at_stage READY);
  update (printed "WORKER_DEPENDENCY_CHECK_PASSED").

Definition CHECK : jsstr := js "--check".
(** [args]: the arguments after the script. *)
Definition bad_arguments (args : list jsstr) : bool :=
  (1 <? length args)%nat
  || match args with a :: _ => nonempty a && negb (bool_decide (a = CHECK)) | [] => false end.
Definition checking (args : list jsstr) : bool :=
  match args with a :: _ => bool_decide (a = CHECK) | [] => false end.

Definition worker_main (args : list jsstr) : io Process unit :=
  _ ← raise_when (bad_arguments args) (JsError "WORKER_ARGUMENT_INVALID");
  c ← of_result (match configuration with Some c => Ok c | None => Err (JsError "Invalid worker configuration") end);
  _ ← raise_when (negb (startsWith (js "/") (w_RUNNER_SOCKET_PATH c))) (JsError "INVALID_SUPERVISOR_SOCKET");
  _ ← update (at_stage DATABASE_CONNECTION);
  _ ← of_result (ou_connect out);
  _ ← update with_database;
  if checking args then
    _ ← of_result (redis_of c);
    _ ← update with_queue;
    finally check_dependencies (update all_closed)
  else
    _ ← update (at_stage WORKER_INITIALIZATION);
    _ ← of_result (redis_of c);
    _ ← update with_worker;
    _ ← catch (of_result (within (ou_worker out) 10000)) (λ e, _ ← update all_closed; raise e);
    _ ← update (at_stage READY);
    update (printed "JUDGING_WORKER_STARTED").

(** [void main().catch(...)]: the process afterwards and its exit code. *)
Definition worker_process (args : list jsstr) : Process * Z :=
  match worker_main args fresh_process with
  | (Ok _, p) => (p, 0)
  | (Err _, p) => (printed ("JUDGING_WORKER_STARTUP_FAILED " +:+ stage_name (pr_stage p)) p, 1)
  end.

(** What has to be in order for the process to start, or for the check to pass. *)
Definition startable (args : list jsstr) : Prop :=
  bad_arguments args = false ∧
  ∃ c o, configuration = Some c ∧ startsWith (js "/") (w_RUNNER_SOCKET_PATH c) = true ∧ ou_connect out = Ok tt
    ∧ options (w_REDIS_URL c) = Some o
    ∧ if checking args
      then ou_privileges out = Ok (Some true) ∧ within (ou_queue out) 10000 = Ok tt ∧ within (ou_health out) 2000 = Ok 400
      else within (ou_worker out) 10000 = Ok tt.

(** Runs the process through the answers the goal leaves open. *)
Ltac run_process :=
  unfold worker_process, worker_main, check_dependencies, checkSupervisor, redis_of, finally, catch, raise_when, raise,
    of_result, update, mbind, io_bind, mret, io_ret;
  repeat (case_match; simplify_eq/=).

#[local] Arguments startsWith : simpl never.
(** The process starts, or passes its check, exactly when everything it waits for is in order. *)
Lemma worker_starts args : (worker_process args).2 = 0 ↔ startable args.
Proof.
  unfold startable. destruct (bad_arguments args) eqn:Eb.
  { split; [|by intros []]. unfold worker_process, worker_main. by rewrite Eb. }
  split.
  - unfold worker_process, worker_main. rewrite Eb. run_process; try done; intros _; (split; [done|]).
    all: match goal with H : negb (startsWith _ _) = false |- _ => apply negb_false_iff in H end.
    + match goal with H : negb (default false ?x) = false |- _ => destruct x as [[]|]; try discriminate H end.
      match goal with H : (_ =? 400) = true |- _ => apply Z.eqb_eq in H as -> end. 
      repeat match goal with u : unit |- _ => destruct u end. by eexists _, _.
    + repeat match goal with u : unit |- _ => destruct u end. by eexists _, _.
  - intros [_ (c & o & Hc & Hs & Hd & Hr & Hw)]. unfold worker_process, worker_main, check_dependencies, checkSupervisor.
    rewrite Eb, Hc. unfold mbind, io_bind, of_result, raise_when, mret, io_ret, update, finally, catch, redis_of.
    cbv beta iota. rewrite Hs, Hd. cbv beta iota delta [negb]. rewrite Hr.
    destruct (checking args); [destruct Hw as (-> & -> & ->)|rewrite Hw]; done.
Qed.

(** Unless its Redis options are refused, a process that failed or only checked holds nothing open. *)
Lemma worker_releases args :
  (∀ c, configuration = Some c → is_Some (options (w_REDIS_URL c))) →
  let '(p, code) := worker_process args in
  code = 1 ∨ checking args = true → pr_database p = false ∧ pr_queue p = false ∧ pr_worker p = false.
Proof.
  intros Ho. unfold worker_process, worker_main. destruct (bad_arguments args); [done|].
  destruct configuration as [c|]; [|done]. destruct (Ho c eq_refl) as [o Eo].
  run_process; try done; naive_solver.
Qed.
End WorkerProcess.

(** A signal: [worker.close()] and then [$disconnect()], once however many signals arrive.  The count is
    that of the [close] calls. *)
Definition on_signal (s : bool * nat) : bool * nat := let '(closing, closes) := s in if closing then s else (true, S closes).

(** ** The runner's entry points *)

(** The checks of [listenSupervisor] before it listens: an absolute path, in a directory others cannot
    reach; [parent] is what [stat] says of the directory, whether it is one and its mode. *)
Definition socket_allowed (path : jsstr) (parent : result (bool * Z)) : result unit :=
  if negb (startsWith (js "/") path) || bool_decide (0 ∈ path) then Err (JsError "INVALID_SUPERVISOR_SOCKET") else
  match parent with
  | Err e => Err e
  | Ok (is_directory, mode) =>
      if negb is_directory || negb (Z.land mode 7 =? 0) then Err (JsError "PRIVATE_SOCKET_DIRECTORY_REQUIRED") else Ok tt
  end.

Section Runner.
Context `{Zod} `{TarStream} `{Host}.

(** [main.ts]: the supervisor exists; [listens] is the outcome of listening and of [chmod]. *)
Definition runner_main (janitor : bool) (socketPath : option jsstr) (parent : result (bool * Z)) (listens : result unit)
    (now : Z) : io World string :=
  if janitor then _ ← reapExpired now; mret "RUNNER_JANITOR_PASSED"%string else
  _ ← preflight;
  _ ← reapExpired now;
  match socketPath with
  | None | Some [] => raise (JsError "SOCKET_REQUIRED")
  | Some path =>
      _ ← of_result (socket_allowed path parent);
      _ ← of_result listens;
      mret "RUNNER_SUPERVISOR_READY"%string
  end.

(** [preflight.ts], and the code its failure is printed with. *)
Definition preflight_main (now : Z) : io World unit := _ ← preflight; reapExpired now.
Definition preflight_code (e : error) : string :=
  match e with
  | JsError m =>
      if existsb (String.eqb m) ["ISOLATION_UNAVAILABLE"; "UNTRUSTED_RUNTIME_IMAGE"]%string then m
      else "PREFLIGHT_UNKNOWN_FAILURE"
  | DockerError code => code
  | ZodError => "PREFLIGHT_VALIDATION_FAILED"
  | _ => "PREFLIGHT_UNKNOWN_FAILURE"
  end.

(** The supervisor takes executions while the janitor ran or the runner listens only if the preflight has
    passed: every reading after it leaves readiness alone or ends the process. *)
Lemma reap_one_ready now id w w' : reap_one now id w = (Ok tt, w') → w_ready w' = w_ready w.
Proof.
  unfold reap_one, command, parse_json, zod_parse, raise_when, update, raise, mbind, io_bind, mret, io_ret.
  repeat case_match; intros; simplify_eq/=; done.
Qed.
Lemma reap_all_ready now ids w w' : io_each (reap_one now) ids w = (Ok tt, w') → w_ready w' = w_ready w.
Proof.
  revert w. induction ids as [|id ids IH]; intros w; cbn [io_each]; [by intros [= <-]|].
  intros ([] & w1 & Ha%reap_one_ready & Hb%IH)%io_bind_Ok. congruence.
Qed.
Lemma reapExpired_ready now w w' : reapExpired now w = (Ok tt, w') → w_ready w' = w_ready w.
Proof. unfold reapExpired. intros (r & w1 & [= _ <-] & Hr%reap_all_ready)%io_bind_Ok. exact Hr. Qed.
Lemma preflight_ready w u w' : preflight w = (Ok u, w') → w_ready w' = true.
Proof.
  unfold preflight. intros Hp. repeat apply io_bind_Ok in Hp as (? & ? & ? & Hp). by injection Hp as _ <-.
Qed.

(** A runner that listens has passed its preflight and reaped what earlier ones left, at an absolute path
    in a directory closed to others. *)
Lemma runner_listens socketPath parent listens now w w' :
  runner_main false socketPath parent listens now w = (Ok "RUNNER_SUPERVISOR_READY"%string, w') →
  w_ready w' = true ∧ ∃ path mode, socketPath = Some path ∧ startsWith (js "/") path = true ∧ (0 ∉ path)
    ∧ parent = Ok (true, mode) ∧ Z.land mode 7 = 0.
Proof.
  unfold runner_main. intros ([] & w1 & Hp%preflight_ready & Hr)%io_bind_Ok.
  apply io_bind_Ok in Hr as ([] & w2 & Hreap%reapExpired_ready & Hr).
  destruct socketPath as [[|u path]|]; [done| |done].
  apply io_bind_Ok in Hr as ([] & w3 & Hs & Hr). apply io_bind_Ok in Hr as ([] & w4 & Hl & Hr).
  injection Hr as <-. injection Hl as _ <-. injection Hs as Hs <-. split; [congruence|].
  unfold socket_allowed in Hs. destruct (_ || _) eqn:E in Hs; [done|].
  apply orb_false_iff in E as [E1%negb_false_iff E2%bool_decide_eq_false].
  destruct parent as [[d mode]|]; [|done]. destruct (_ || _) eqn:E in Hs; [done|].
  apply orb_false_iff in E as [->%negb_false_iff E3%negb_false_iff%Z.eqb_eq]. exists (u :: path), mode. by split_and!.
Qed.
End Runner.

(** ** Background services of the API *)

(** The timer, the run under way, and where the module stands: [bg_awaiting] is a bootstrap that waits for
    its first run, [bg_destroying] an [onModuleDestroy] that waits for the pending run, [bg_closed] one
    that has returned. *)
Record Background := mkBackground {
  bg_booted : bool; bg_timer : bool; bg_pending : bool; bg_awaiting : bool; bg_destroying : bool; bg_closed : bool
}.
Definition background0 : Background := mkBackground false false false false false false.
Inductive BackgroundEvent := Bootstrap | TimerFires | RunEnds | Destroy.

(** [if (!this.pending) this.pending = ...]: a tick while a run is under way starts none. *)
Definition start_run (b : Background) : Background :=
  mkBackground (bg_booted b) (bg_timer b) true (bg_awaiting b) (bg_destroying b) (bg_closed b).
Definition fires (b : Background) : Background := if bg_timer b then start_run b else b.
(** [onModuleDestroy]: the timer is cleared, and a run under way awaited. *)
Definition destroys (b : Background) : Background :=
  mkBackground (bg_booted b) false (bg_pending b) (bg_awaiting b) true (negb (bg_pending b)).

(** [QueuePipeline]: the first run and the timer start together, when the pipeline is enabled. *)
Definition pipeline_step (enabled : bool) (b : Background) (e : BackgroundEvent) : Background :=
  match e with
  | Bootstrap =>
      if bg_booted b then b else
      mkBackground true enabled enabled false (bg_destroying b) (bg_closed b)
  | TimerFires => fires b
  | RunEnds =>
      if negb (bg_pending b) then b else
      mkBackground (bg_booted b) (bg_timer b) false (bg_awaiting b) (bg_destroying b) (bg_destroying b)
  | Destroy => destroys b
  end.
(** [QueuedMaintenance]: the bootstrap waits for its first run and then starts the timer. *)
Definition maintenance_step (b : Background) (e : BackgroundEvent) : Background :=
  match e with
  | Bootstrap =>
      if bg_booted b then b else mkBackground true (bg_timer b) true true (bg_destroying b) (bg_closed b)
  | TimerFires => fires b
  | RunEnds =>
      if negb (bg_pending b) then b else
      mkBackground (bg_booted b) (bg_timer b || bg_awaiting b) false false (bg_destroying b) (bg_destroying b)
  | Destroy => destroys b
  end.

Definition at_rest (b : Background) : Prop :=
  bg_booted b = true ∧ bg_timer b = false ∧ bg_pending b = false ∧ bg_awaiting b = false.
(** Past the bootstrap: a destroyed service has no timer, a closed one no run. *)
Definition winding_down (b : Background) : Prop :=
  bg_booted b = true ∧ bg_awaiting b = false ∧ (bg_destroying b = true → bg_timer b = false)
  ∧ (bg_closed b = true → bg_destroying b = true ∧ bg_pending b = false).

Section Winding.
Context (step : Background → BackgroundEvent → Background).
Hypothesis steps : (∃ enabled, step = pipeline_step enabled) ∨ step = maintenance_step.

Lemma at_rest_run es b : at_rest b → at_rest (foldl step b es).
Proof.
  revert b. induction es as [|e es IH]; intros b Hb; [done|]. cbn. apply IH.
  destruct b as [? ? ? ? ? ?], Hb as (? & ? & ? & ?). cbn in *. subst.
  destruct steps as [[enabled ->]| ->], e; done.
Qed.
Lemma winding_down_run es b : winding_down b → winding_down (foldl step b es).
Proof.
  revert b. induction es as [|e es IH]; intros b Hb; [done|]. cbn. apply IH.
  destruct b as [? t p ? d c], Hb as (? & ? & ? & ?). unfold winding_down. cbn in *. subst.
  destruct steps as [[enabled ->]| ->], e; cbn; unfold fires; destruct t, p, d, c; cbn; naive_solver.
Qed.
(** Once [onModuleDestroy] has returned no run starts any more, if it was called after the bootstrap. *)
Lemma stops es es' b :
  winding_down b → bg_closed (foldl step b es) = true → at_rest (foldl step (foldl step b es) es').
Proof.
  intros Hw Hc. apply at_rest_run. destruct (winding_down_run es b Hw) as (Hb & Ha & Ht & Hd).
  destruct (Hd Hc) as [Hde Hp]. split_and!; auto.
Qed.
End Winding.

(** The pipeline's bootstrap does not wait.  A maintenance that is destroyed during its first run starts
    its timer all the same when the run ends, and goes on. *)
Lemma pipeline_booted enabled : winding_down (pipeline_step enabled background0 Bootstrap).
Proof. by destruct enabled. Qed.
Lemma maintenance_booted : winding_down (foldl maintenance_step background0 [Bootstrap; RunEnds]).
Proof. done. Qed.
Example maintenance_restarts :
  let b := foldl maintenance_step background0 [Bootstrap; Destroy; RunEnds] in
  (bg_closed b, bg_pending (maintenance_step b TimerFires)) = (true, true).
Proof. done. Qed.
