(* ===== verification/AuthController.v ===== *)
(** * The sign-in and account endpoints ([auth/auth.controller.ts], [account/account.ts])

    What the routes check of a request, the operation of [Accounts] or [SelfService] they run, and
    the reply they build: status, cookies, redirect and body.  A route that several calls make up
    ([login] then [callback]) is several requests of a run. *)

From S2P Require Import Prelude JsText Contracts Io JsString RuntimePolicy Database Catalogue.
From S2P Require Import Discussions.
From S2P Require Import Buffers Sessions Password Json LoginProof Accounts SelfService AccountFacts.
From S2P Require Import Profiles.
From S2P Require Import Configured.
From S2P Require Config.
Local Open Scope Z_scope.

(** ** Cookies and replies *)

(** The options given to [serialize]; [sameSite] is ['lax'] and [path] is ['/'] everywhere. *)
Record Cookie := mkCookie {
  ck_name : jsstr; ck_value : jsstr; ck_httpOnly : bool; ck_secure : bool; ck_sameSite : string;
  ck_path : string; ck_maxAge : Z; ck_expires : option Z
}.
(** The body of [GET /me]. *)
Record Me := mkMe {
  me_id : rowid; me_username : jsstr; me_displayName : jsstr; me_avatarUrl : option jsstr;
  me_themePreference : ThemePreference; me_role : Role; me_restriction : option Restriction
}.
Inductive Body :=
| B_none
| B_ok
| B_me (user : option (Me * jsstr))
| B_settings (s : SettingsView)
| B_updated (s : Settings)
| B_sessions (l : list (rowid * bool * Z * Z))
| B_revoked (current : bool)
| B_revoked_others (count : nat)
| B_email (changed : bool) (email : jsstr).
Record Reply := mkReply { rp_status : Z; rp_cookies : list Cookie; rp_location : option jsstr; rp_body : Body }.

(** The request: what sign-in reads of it, and the method and CSRF header the guard reads. *)
Record WebRequest := mkWebRequest { wr_auth : AuthRequest; wr_method : string; wr_csrf : option jsstr }.
Definition session_request (r : WebRequest) : Request :=
  mkRequest (ar_session (wr_auth r)) (wr_method r) (ar_origin (wr_auth r)) (wr_csrf r).

(** ** Schemas *)

Definition validate {A} (o : option A) : result A :=
  match o with Some a => Ok a | None => Err invalid_request end.

(** A string that [p] accepts and transforms. *)
Definition text_as {A} (p : jsstr → option A) (j : json) : option A :=
  match j with JStr s => p s | _ => None end.

Definition loginQuery (j : json) : option (SocialProvider * jsstr) :=
  match j with
  | JObj o =>
      if negb (strict ["provider"; "returnTo"] o) then None else
      provider ← optional (text_as provider_name) (field "provider" o);
      path ← optional (parse_string_if returnTo_ok) (field "returnTo" o);
      Some (default P_auth0 provider, default (js "/problems") path)
  | _ => None
  end.

Definition control_unit (u : Z) : bool := (u <=? 31) || (u =? 127).
Definition signup_name (s : jsstr) : option jsstr :=
  let t := trim s in if len_in 2 120 t && negb (existsb control_unit t) then Some t else None.

Section Schemas.
(** [z.email]. *)
Context (z_email : jsstr → bool).
Definition email_schema (s : jsstr) : option jsstr :=
  let t := toLowerCase (trim s) in if z_email t && (slen t <=? 254) then Some t else None.
Definition registerBody (j : json) : option Registration :=
  match j with
  | JObj o =>
      if negb (strict ["email"; "password"; "displayName"; "username"] o) then None else
      email ← field "email" o ≫= text_as email_schema;
      password ← field "password" o ≫= parse_string_if password_ok;
      displayName ← field "displayName" o ≫= text_as signup_name;
      username ← field "username" o ≫= text_as usernameSchema;
      Some (mkRegister email password displayName username)
  | _ => None
  end.
Definition passwordBody (j : json) : option (jsstr * jsstr) :=
  match j with
  | JObj o =>
      if negb (strict ["email"; "password"] o) then None else
      email ← field "email" o ≫= text_as email_schema;
      password ← field "password" o ≫= parse_string_if password_ok;
      Some (email, password)
  | _ => None
  end.
Definition emailBody (j : json) : option (jsstr * jsstr) :=
  match j with
  | JObj o =>
      if negb (strict ["currentPassword"; "newEmail"] o) then None else
      current ← field "currentPassword" o ≫= parse_string_if password_ok;
      newEmail ← field "newEmail" o ≫= text_as email_schema;
      Some (current, newEmail)
  | _ => None
  end.
End Schemas.

Definition settingsBody (j : json) : option SettingsInput :=
  match j with
  | JObj o =>
      if negb (strict ["profileVisibility"; "themePreference"; "productNotifications"; "competitionNotifications"] o)
      then None else
      visibility ← optional (text_as (Config.choice [("PUBLIC", PROFILE_PUBLIC); ("PRIVATE", PROFILE_PRIVATE)]))
                     (field "profileVisibility" o);
      theme ← optional (text_as (Config.choice [("SYSTEM", THEME_SYSTEM); ("DARK", THEME_DARK); ("LIGHT", THEME_LIGHT)]))
                (field "themePreference" o);
      product ← optional parse_bool (field "productNotifications" o);
      competition ← optional parse_bool (field "competitionNotifications" o);
      Some (mkSettingsInput visibility theme product competition)
  | _ => None
  end.
Definition newPasswordBody (j : json) : option (jsstr * jsstr) :=
  match j with
  | JObj o =>
      if negb (strict ["currentPassword"; "newPassword"] o) then None else
      current ← field "currentPassword" o ≫= parse_string;
      new ← field "newPassword" o ≫= parse_string;
      Some (current, new)
  | _ => None
  end.
Definition deactivateBody (j : json) : option (option jsstr) :=
  match j with
  | JObj o =>
      if negb (strict ["confirmation"; "currentPassword"] o) then None else
      _ ← field "confirmation" o ≫= text_as (Config.literal "DELETE");
      optional (parse_string_if password_ok) (field "currentPassword" o)
  | _ => None
  end.

(** The callback's parameters, in the order of the schema. *)
Record CallbackParams := mkCallback {
  cb_state : jsstr; cb_code : option jsstr; cb_error : option jsstr; cb_error_description : option jsstr;
  cb_error_uri : option jsstr; cb_iss : option jsstr; cb_session_state : option jsstr
}.
Definition callback_keys : list string :=
  ["state"; "code"; "error"; "error_description"; "error_uri"; "iss"; "session_state"].
Definition callbackQuery (j : json) : option CallbackParams :=
  match j with
  | JObj o =>
      let text lo hi k := optional (parse_string_if (len_in lo hi)) (field k o) in
      if negb (strict callback_keys o) then None else
      state ← field "state" o ≫= parse_string_if token_ok;
      code ← text 1 2048 "code";
      error ← text 1 100 "error";
      description ← text 0 512 "error_description";
      uri ← text 0 512 "error_uri";
      iss ← text 0 2048 "iss";
      session ← text 0 512 "session_state";
      if Bool.eqb (bool_decide (is_Some code)) (bool_decide (is_Some error)) then None
      else Some (mkCallback state code error description uri iss session)
  | _ => None
  end.
(** [Object.fromEntries] of the entries that are present. *)
Definition callback_entries (p : CallbackParams) : list (jsstr * jsstr) :=
  omap (λ kv : string * option jsstr, (js kv.1,.) <$> kv.2)
    [("state", Some (cb_state p)); ("code", cb_code p); ("error", cb_error p);
     ("error_description", cb_error_description p); ("error_uri", cb_error_uri p); ("iss", cb_iss p);
     ("session_state", cb_session_state p)].

(** ** The routes *)

Inductive Route :=
| Login (query : json)
| Register (body : json)
| PasswordLogin (body : json)
| Callback (originalUrl : jsstr) (query : json)
| GetMe
| Logout
| GetSettings
| UpdateSettings (body : json)
| GetSessions
| RevokeOthers
| RevokeSession (id : jsstr)
| ChangePassword (body : json)
| ChangeEmail (body : json)
| Deactivate (body : json).

(** What a request draws: clock readings, random tokens and what the database gives new rows. *)
Record Draws := mkDraws {
  dr_clk : nat → Z; dr_state : jsstr; dr_browser : jsstr; dr_verifier : jsstr; dr_nonce : jsstr; dr_iv : buffer;
  dr_token : jsstr; dr_salt : list Z; dr_credential : rowid; dr_rows : Draw; dr_suffix : jsstr
}.

Section Controller.
Context (v : Config.Values).
Context (sha256 : jsstr → jsstr) (hmac : jsstr → jsstr → jsstr) (hmac_hex : jsstr → jsstr → jsstr).
Context (derive : jsstr → list Z → list Z) (z_email : jsstr → bool) (z_uuid : jsstr → bool).
Context (authorizationUrl : SocialProvider → jsstr → LoginProof → result jsstr).
Context (exchange : SocialProvider → list (jsstr * jsstr) → jsstr → LoginProof → result VerifiedIdentity).
Context {G : Aead}.

Definition cookie (name value : jsstr) (maxAge : Z) (expires : option Z) : Cookie :=
  mkCookie name value true (Config.secureCookies v) "lax" "/" maxAge expires.
Definition session_cookie (session : jsstr * Z) : Cookie :=
  cookie (Config.cookieName v) session.1 (Config.SESSION_TTL_SECONDS v) (Some session.2).
Definition clear_session : Cookie := cookie (Config.cookieName v) [] 0 None.
Definition clear_login : Cookie := cookie (Config.loginCookieName v) [] 0 None.

Definition login (dr : Draws) (req : AuthRequest) (query : json) : io accounts Reply :=
  '(provider, path) ← of_result (validate (loginQuery query));
  '(location, browserToken) ← begin sha256 hmac_hex (auth_config v) authorizationUrl (encryptProof (dr_iv dr))
      (dr_clk dr)
      (dr_state dr) (dr_browser dr) (dr_verifier dr) (dr_nonce dr) req provider path;
  mret (mkReply 302 [cookie (Config.loginCookieName v) browserToken LOGIN_TTL_SECONDS None] (Some location) B_none).

Definition registerRoute (dr : Draws) (req : AuthRequest) (body : json) : io accounts Reply :=
  input ← of_result (validate (registerBody z_email body));
  session ← register sha256 hmac hmac_hex derive (auth_config v) (dr_clk dr) (dr_rows dr) (dr_credential dr)
              (dr_salt dr) (dr_token dr) req input;
  mret (mkReply 201 [session_cookie session] None B_ok).

Definition passwordLogin (dr : Draws) (req : AuthRequest) (body : json) : io accounts Reply :=
  '(email, password) ← of_result (validate (passwordBody z_email body));
  session ← authenticate sha256 hmac hmac_hex derive (auth_config v) (dr_clk dr) (dr_rows dr) (dr_token dr) req
              email password;
  mret (mkReply 200 [session_cookie session] None B_ok).

Definition site (path : jsstr) : jsstr := Config.PUBLIC_ORIGIN v ++ path.

(** What [callback] makes of the outcome of [finish]: a provider's refusal goes back to the sign-in page. *)
Definition callback_reply (params : CallbackParams) (r : result (jsstr * Z * jsstr)) : result Reply :=
  match r with
  | Ok (session, returnTo) =>
      Ok (mkReply 302 [session_cookie session; clear_login] (Some (site returnTo)) B_none)
  | Err e =>
      if bool_decide (is_Some (cb_error params)) && match e with ApiError status _ _ => status =? 401 | _ => false end
      then Ok (mkReply 302 [clear_login] (Some (site (js "/sign-in?authError=provider"))) B_none)
      else Err e
  end.
Definition settle {A B} (f : result A → result B) (m : io accounts A) : io accounts B :=
  λ a, let '(r, a') := m a in (f r, a').

(** [callback]; the attempt is looked up in [seen]. *)
Definition callback (dr : Draws) (req : AuthRequest) (originalUrl : jsstr) (query : json) (seen : accounts) :
    io accounts Reply :=
  _ ← raise_when (4096 <? slen originalUrl) invalid_request;
  params ← of_result (validate (callbackQuery query));
  settle (callback_reply params)
    (finish sha256 hmac (auth_config v) exchange decryptProof (dr_clk dr) (dr_rows dr) (dr_token dr) req
       (cb_state params) (callback_entries params) seen).

Definition me_of (p : Principal) (u : User) : Me :=
  mkMe (pn_userId p) (pn_username p) (pf_displayName (ur_profile u)) (pf_avatarUrl (ur_profile u))
    (st_themePreference (ur_settings u)) (pn_role p) (pn_restriction p).
Definition me (clk : nat → Z) (req : WebRequest) (a : accounts) : Reply :=
  let user :=
    p ← resolve sha256 hmac (clk 0%nat) (clk 1%nat) (session_rows a) (session_request req);
    u ← ac_users a !! pn_userId p;
    Some (me_of p u, pn_csrfToken p) in
  mkReply 200 [] None (B_me user).

(** [SessionGuard] with the route's [AllowRestricted] mark. *)
Definition with_session (allowRestricted : bool) (clk : nat → Z) (req : WebRequest) : io accounts Principal :=
  p ← ask (λ a, canActivate sha256 hmac (Config.PUBLIC_ORIGIN v) allowRestricted (clk 0%nat) (clk 1%nat) (clk 2%nat)
                  (session_rows a) (session_request req));
  of_result p.

Definition logoutRoute (clk : nat → Z) (req : WebRequest) : io accounts Reply :=
  p ← with_session true clk req;
  _ ← logout (clk 3%nat) (pn_userId p) (pn_sessionId p);
  mret (mkReply 200 [clear_session] None B_ok).
Definition revokeRoute (clk : nat → Z) (req : WebRequest) (id : jsstr) (seen : accounts) : io accounts Reply :=
  p ← with_session false clk req;
  id ← of_result (validate (if z_uuid id then Some id else None));
  current ← revokeSession (clk 3%nat) (pn_userId p) (pn_sessionId p) id seen;
  mret (mkReply 200 (if current : bool then [clear_session] else []) None (B_revoked current)).
Definition deactivateRoute (dr : Draws) (req : WebRequest) (body : json) (seen : accounts) : io accounts Reply :=
  p ← with_session true (dr_clk dr) req;
  password ← of_result (validate (deactivateBody body));
  _ ← deactivate derive (dr_clk dr 3%nat) (dr_clk dr 4%nat) (dr_suffix dr) (pn_userId p) password seen;
  mret (mkReply 200 [clear_session] None B_ok).

(** The account routes that set no cookie: a guarded request with its operation. *)
Definition plain {A} (dr : Draws) (req : WebRequest) (run : Principal → io accounts A) (body : A → Body) :
    io accounts Reply :=
  p ← with_session false (dr_clk dr) req;
  r ← run p;
  mret (mkReply 200 [] None (body r)).
Definition settingsRoute dr req := plain dr req (λ p, r ← ask (settings (pn_userId p)); of_result r) B_settings.
Definition updateSettingsRoute dr req (body : json) :=
  plain dr req (λ p, i ← of_result (validate (settingsBody body)); i ← of_result (settingsSchema i);
                     updateSettings (pn_userId p) i) B_updated.
Definition sessionsRoute dr req :=
  plain dr req (λ p, ask (sessions_list (dr_clk dr 3%nat) (pn_userId p) (pn_sessionId p))) B_sessions.
Definition revokeOthersRoute dr req :=
  plain dr req (λ p, revokeOtherSessions (dr_clk dr 3%nat) (dr_clk dr 4%nat) (pn_userId p) (pn_sessionId p))
    B_revoked_others.
Definition changePasswordRoute dr req (body : json) (seen : accounts) :=
  plain dr req (λ p, '(current, new) ← of_result (validate (newPasswordBody body));
                     '(current, new) ← of_result (passwordSchema current new);
                     changePassword derive (dr_clk dr 3%nat) (dr_salt dr) (pn_userId p) (pn_sessionId p) current new seen)
    (λ _, B_ok).
Definition changeEmailRoute dr req (body : json) (seen : accounts) :=
  plain dr req (λ p, '(current, email) ← of_result (validate (emailBody z_email body));
                     changeEmail derive (dr_clk dr 3%nat) (pn_userId p) (pn_sessionId p) current email seen)
    (λ r, B_email r.1 r.2).

Definition serve (dr : Draws) (req : WebRequest) (seen : accounts) (r : Route) : io accounts Reply :=
  match r with
  | Login query => login dr (wr_auth req) query
  | Register body => registerRoute dr (wr_auth req) body
  | PasswordLogin body => passwordLogin dr (wr_auth req) body
  | Callback url query => callback dr (wr_auth req) url query seen
  | GetMe => λ a, (Ok (me (dr_clk dr) req a), a)
  | Logout => logoutRoute (dr_clk dr) req
  | RevokeSession id => revokeRoute (dr_clk dr) req id seen
  | GetSettings => settingsRoute dr req
  | UpdateSettings body => updateSettingsRoute dr req body
  | GetSessions => sessionsRoute dr req
  | RevokeOthers => revokeOthersRoute dr req
  | ChangePassword body => changePasswordRoute dr req body seen
  | ChangeEmail body => changeEmailRoute dr req body seen
  | Deactivate body => deactivateRoute dr req body seen
  end.
End Controller.
