(* ===== verification/AuthRoutes.v ===== *)
(** * What the sign-in and account endpoints promise a browser

    The cookies of every route, and where its redirects lead. *)

From S2P Require Import Prelude JsText Contracts Io JsString RuntimePolicy Catalogue Publication.
From S2P Require Import Discussions.
From S2P Require Import Sessions Password Json LoginProof Gateways Accounts SelfService.
From S2P Require Import AccountFacts Profiles.
From S2P Require Import Configured AuthController.
From S2P Require Config.
Local Open Scope Z_scope.

(** ** Cookies *)

(** What browsers require of a [__Host-] cookie, and what keeps it from scripts and other sites. *)
Definition hardened (c : Cookie) : Prop :=
  ck_httpOnly c = true ∧ ck_secure c = true ∧ ck_sameSite c = "lax" ∧ ck_path c = "/"
  ∧ startsWith (js "__Host-arenacore_") (ck_name c) = true.

Lemma io_of_result_inv {S A} (r : result A) (s : S) a s' : of_result r s = (Ok a, s') → r = Ok a ∧ s' = s.
Proof. by intros [= -> ->]. Qed.
Lemma io_ret_inv {S A} (a b : A) (s s' : S) : (mret a : io S A) s = (Ok b, s') → b = a ∧ s' = s.
Proof. by intros [= -> ->]. Qed.

Section Routes.
Context (v : Config.Values).
Context (sha256 : jsstr → jsstr) (hmac : jsstr → jsstr → jsstr) (hmac_hex : jsstr → jsstr → jsstr).
Context (derive : jsstr → list Z → list Z) (z_email : jsstr → bool) (z_uuid : jsstr → bool).
Context (authorizationUrl : SocialProvider → jsstr → LoginProof → result jsstr).
Context (exchange : SocialProvider → list (jsstr * jsstr) → jsstr → LoginProof → result VerifiedIdentity).
Context {G : Aead}.

Abbreviation serve := (serve v sha256 hmac hmac_hex derive z_email z_uuid authorizationUrl exchange).

(** A reply's cookies carry one of the two names, with the common attributes. *)
Definition own_cookie (c : Cookie) : Prop :=
  ∃ name value maxAge expires, c = cookie v name value maxAge expires
    ∧ (name = Config.cookieName v ∨ name = Config.loginCookieName v).
Lemma own_session s : own_cookie (session_cookie v s).
Proof. repeat eexists. by left. Qed.
Lemma own_clear_session : own_cookie (clear_session v).
Proof. repeat eexists. by left. Qed.
Lemma own_clear_login : own_cookie (clear_login v).
Proof. repeat eexists. by right. Qed.
Lemma own_login t n : own_cookie (cookie v (Config.loginCookieName v) t n None).
Proof. repeat eexists. by right. Qed.
#[local] Hint Resolve own_session own_clear_session own_clear_login own_login : core.

(** The shape of a reply: its cookies, and where it redirects. *)
Definition locations (reply : Reply) : Prop :=
  ∀ l, rp_location reply = Some l →
    (∃ provider state proof, lp_provider proof = provider ∧ authorizationUrl provider state proof = Ok l)
    ∨ l = site v (js "/sign-in?authError=provider")
    ∨ ∃ path, l = site v path ∧ returnTo_ok path = true.
Definition shaped (reply : Reply) : Prop :=
  Forall own_cookie (rp_cookies reply) ∧ locations reply.

Lemma shaped_plain status cookies body :
  Forall own_cookie cookies → shaped (mkReply status cookies None body).
Proof. by split. Qed.
#[local] Hint Resolve shaped_plain Forall_nil_2 Forall_cons_2 : core.

Lemma finish_returns clk dw token req state params seen a x returnTo a' :
  finish sha256 hmac (auth_config v) exchange decryptProof clk dw token req state params seen a
  = (Ok (x, returnTo), a') → returnTo_ok returnTo = true.
Proof.
  unfold finish, require_key. cbn [auth_config cf_authTransactionKey].
  intros (key & s & Hk & H)%io_bind_Ok.
  destruct (Config.authTransactionKey v) as [k|]; [|done]. apply io_ret_inv in Hk as [-> ->].
  destruct (valid_cookie _) as [b|]; [|done]. destruct (ac_attempts seen !! _) as [t|] eqn:Et; [|done].
  apply io_bind_Ok in H as (c & s1 & _ & H). destruct (negb c); [done|].
  destruct (decryptProof _ _ _) as [proof|] eqn:Ed; [|done].
  apply io_bind_Ok in H as (i & s2 & _ & H). apply io_bind_Ok in H as (q & s3 & _ & H).
  apply io_ret_inv in H as [[= _ ->] _]. apply decryptProof_ok in Ed as [_ _ Hp].
  destruct (lp_returnTo proof); [by apply Hp|reflexivity].
Qed.

Lemma login_shaped dr req query a reply a' :
  login v sha256 hmac_hex authorizationUrl dr req query a = (Ok reply, a') → shaped reply.
Proof.
  unfold login. intros ([provider path] & s & _ & H)%io_bind_Ok.
  apply io_bind_Ok in H as ([location token] & s1 & Hb & H). apply io_ret_inv in H as [-> _].
  split; cbn; [auto|]. intros l [= ->]. left. unfold begin in Hb.
  apply io_bind_Ok in Hb as (key & s2 & _ & Hb). apply io_bind_Ok in Hb as (l' & s3 & Hl & Hb).
  apply io_bind_Ok in Hb as (u & s4 & _ & Hb). apply io_ret_inv in Hb as [[= -> _] _].
  apply io_of_result_inv in Hl as [Hl _]. eexists provider, _, _. by split; [|exact Hl].
Qed.

Lemma callback_shaped dr req url query seen a reply a' :
  callback v sha256 hmac exchange dr req url query seen a = (Ok reply, a') → shaped reply.
Proof.
  unfold callback. intros (u & s & _ & H)%io_bind_Ok. apply io_bind_Ok in H as (params & s1 & _ & H).
  unfold settle in H. destruct (finish _ _ _ _ _ _ _ _ _ _ _ _ _) as [[[x returnTo]|e] a2] eqn:Ef; cbn in H.
  - injection H as <- <-. split; cbn; [auto|]. intros l [= <-]. right. right.
    apply finish_returns in Ef. eauto.
  - destruct (_ && _); [|done]. injection H as <- <-. split; cbn; [auto|]. intros l [= <-]. by right; left.
Qed.

(** The routes that reply without a redirect. *)
Ltac plain_reply H :=
  repeat (let x := fresh "x" in let s := fresh "s" in apply io_bind_Ok in H as (x & s & _ & H); try match type of x with (_ * _)%type => destruct x end);
  apply io_ret_inv in H as [-> _]; apply shaped_plain; repeat (case_match || constructor); auto.

Lemma serve_shaped dr req seen r a reply a' : serve dr req seen r a = (Ok reply, a') → shaped reply.
Proof.
  destruct r; cbn [AuthController.serve];
    unfold registerRoute, passwordLogin, logoutRoute, revokeRoute, deactivateRoute, settingsRoute, updateSettingsRoute,
      sessionsRoute, revokeOthersRoute, changePasswordRoute, changeEmailRoute, plain; intros H;
    try solve [plain_reply H].
  - by eapply login_shaped.
  - by eapply callback_shaped.
Qed.

(** In production every cookie that any sign-in or account route sets, a session's, a pending
    sign-in's or a cleared one, is [HttpOnly] and [Secure], [SameSite=Lax] on the whole site, and has the
    [__Host-] prefix, for every configuration [parseConfig] accepts: what a browser requires of the
    prefix is always there. *)
Lemma cookies_hardened URL z_url isIP e dr req seen r a reply a' :
  (∀ s u, URL s = Some u → Config.is_https u = true → startsWith (js "https:") (Config.u_origin u) = true) →
  (∀ s t, z_url s = Some t → t ≠ []) →
  Config.parseConfig URL z_url isIP e = Some v → Config.production v = true →
  serve dr req seen r a = (Ok reply, a') → Forall hardened (rp_cookies reply).
Proof.
  intros Ho Hz Hp Hprod [Hc _]%serve_shaped. pose proof (configured_origin URL z_url isIP Ho Hz e v Hp Hprod) as Hs.
  eapply Forall_impl; [exact Hc|]. intros c (name & value & n & x & -> & Hn). unfold hardened, cookie. cbn [ck_httpOnly ck_secure ck_sameSite ck_path ck_name].
  split_and!; [done|exact Hs|done|done|].
  by destruct Hn as [->| ->]; unfold Config.cookieName, Config.loginCookieName; rewrite Hprod.
Qed.

(** ** From [login] to [callback] *)

Context {GL : AeadLaws G}.

(** What [randomBytes] gives a request: tokens of 32 bytes in base64url, a vector of twelve bytes. *)
Record drawn (dr : Draws) : Prop := {
  dn_browser : token_ok (dr_browser dr) = true;
  dn_verifier : token_ok (dr_verifier dr) = true;
  dn_nonce : token_ok (dr_nonce dr) = true;
  dn_iv : length (dr_iv dr) = 12%nat ∧ Forall byte (dr_iv dr)
}.
Definition proof_of (dr : Draws) (provider : SocialProvider) (path : jsstr) : LoginProof :=
  mkLoginProof provider (dr_verifier dr) (dr_nonce dr) (Some path).
(** The attempt a [login] stores. *)
Definition attempt_of (dr : Draws) (key : jsstr) (provider : SocialProvider) (path : jsstr) : AuthAttempt :=
  mkAuthAttempt (sha256 (dr_browser dr)) (encryptProof (dr_iv dr) key (sha256 (dr_state dr)) (proof_of dr provider path))
    (dr_clk dr 2%nat + LOGIN_TTL_SECONDS * 1000).

Lemma loginQuery_path query provider path : loginQuery query = Some (provider, path) → returnTo_ok path = true.
Proof.
  unfold loginQuery. destruct query as [| | | | |o]; try done. destruct (negb _); [done|].
  intros (pr & _ & (pa & Hp & [= _ <-])%bind_Some)%bind_Some.
  unfold optional in Hp. destruct (field "returnTo" o) as [j|]; [|by injection Hp as <-].
  apply fmap_Some in Hp as (s & Hs & ->). apply bind_Some in Hs as (t & _ & Ht). unfold check in Ht.
  by destruct (returnTo_ok t) eqn:E; simplify_eq.
Qed.

Lemma protect_key t req b a k a' :
  protect hmac_hex (auth_config v) t req b a = (Ok k, a') → Config.authTransactionKey v = Some k.
Proof.
  unfold protect, require_key. cbn [auth_config cf_authTransactionKey]. destruct (Config.authTransactionKey v) as [k'|]; [|done].
  intros (x & s & [-> _]%io_ret_inv & (y & s1 & _ & (z & s2 & _ & [-> _]%io_ret_inv)%io_bind_Ok)%io_bind_Ok)%io_bind_Ok.
  done.
Qed.

Lemma login_stores dr req query provider path a reply a' :
  loginQuery query = Some (provider, path) →
  login v sha256 hmac_hex authorizationUrl dr req query a = (Ok reply, a') →
  ∃ key l, Config.authTransactionKey v = Some key
    ∧ authorizationUrl provider (dr_state dr) (proof_of dr provider path) = Ok l
    ∧ reply = mkReply 302 [cookie v (Config.loginCookieName v) (dr_browser dr) LOGIN_TTL_SECONDS None] (Some l) B_none
    ∧ ac_attempts a' !! sha256 (dr_state dr) = Some (attempt_of dr key provider path).
Proof.
  intros Hq. unfold login. rewrite Hq. intros ([pr pa] & s & [[= -> ->] ->]%io_of_result_inv & H)%io_bind_Ok.
  apply io_bind_Ok in H as ([location token] & s1 & Hb & H). apply io_ret_inv in H as [-> ->].
  unfold begin in Hb. apply io_bind_Ok in Hb as (key & s2 & Hk%protect_key & Hb).
  apply io_bind_Ok in Hb as (l & s3 & [Hl ->]%io_of_result_inv & Hb).
  apply io_bind_Ok in Hb as (u & s4 & Ht & Hb). apply io_ret_inv in Hb as [[= -> ->] ->].
  exists key, l. split_and!; [done..|]. apply transaction_Ok in Ht.
  apply bind_Ok in Ht as (u1 & b1 & _ & Ht). apply bind_Ok in Ht as (c & b2 & [-> ->]%gets_Ok & Ht).
  apply bind_Ok in Ht as (u2 & b3 & [_ ->]%raise_if_Ok & ->%modify_Ok). cbn. by rewrite lookup_insert_eq.
Qed.

(** What [finish] does with an attempt that is there for it. *)
Lemma finish_with clk dw token req state params seen a key browser t p :
  Config.authTransactionKey v = Some key → valid_cookie (ar_login req) = Some browser →
  ac_attempts seen !! sha256 state = Some t → ac_attempts a !! sha256 state = Some t →
  aa_browserTokenHash t = sha256 browser → clk 7%nat < aa_expiresAt t →
  decryptProof key (sha256 state) (aa_encryptedPayload t) = Ok p →
  finish sha256 hmac (auth_config v) exchange decryptProof clk dw token req state params seen a =
    let b := set_attempts (delete (sha256 state) (ac_attempts a)) a in
    match exchange (lp_provider p) params state p with
    | Err e => (Err e, b)
    | Ok identity =>
        match issueIdentity sha256 hmac (auth_config v) clk dw token req identity b with
        | (Ok session, c) => (Ok (session, default (js "/problems") (lp_returnTo p)), c)
        | (Err e, c) => (Err e, c)
        end
    end.
Proof.
  intros Hk Hc Hs Ha Hb Ht Hd. unfold finish, require_key. cbn [auth_config cf_authTransactionKey].
  rewrite Hk, Hc, Hs. unfold mbind, io_bind, mret, io_ret, atomically, transaction, consume_attempt, mbind, tx_bind, the_accounts, gets.
  rewrite Ha, (bool_decide_eq_true_2 _ Hb), (proj2 (Z.ltb_lt _ _) Ht). cbn. rewrite Hd. by destruct (exchange _ _ _ _).
Qed.

(** C30: a sign-in comes back to where it began.  Once [login] has answered with its cookie and the
    provider's URL, the callback that brings the state back in the same browser within five minutes, to
    a server that sees the stored attempt, asks the provider with the proof of that very sign-in, and when
    the identity is accepted signs it in and redirects to the path that was asked for. *)
Theorem sign_in_returns dr req seen query provider path a reply a1 :
  drawn dr → loginQuery query = Some (provider, path) → forallb unit_okb path = true →
  serve dr req seen (Login query) a = (Ok reply, a1) →
  rp_cookies reply = [cookie v (Config.loginCookieName v) (dr_browser dr) LOGIN_TTL_SECONDS None] ∧
  ∀ dr' req' seen' a2 url q params,
    slen url ≤ 4096 → callbackQuery q = Some params → cb_state params = dr_state dr →
    ar_login (wr_auth req') = Some (dr_browser dr) → dr_clk dr' 7%nat < dr_clk dr 2%nat + 300000 →
    ac_attempts seen' !! sha256 (dr_state dr) = ac_attempts a1 !! sha256 (dr_state dr) →
    ac_attempts a2 !! sha256 (dr_state dr) = ac_attempts a1 !! sha256 (dr_state dr) →
    serve dr' req' seen' (Callback url q) a2 =
      let a3 := set_attempts (delete (sha256 (dr_state dr)) (ac_attempts a2)) a2 in
      match exchange provider (callback_entries params) (dr_state dr) (proof_of dr provider path) with
      | Err e => (callback_reply v params (Err e), a3)
      | Ok identity =>
          match issueIdentity sha256 hmac (auth_config v) (dr_clk dr') (dr_rows dr') (dr_token dr') (wr_auth req') identity a3 with
          | (Err e, a4) => (callback_reply v params (Err e), a4)
          | (Ok session, a4) =>
              (Ok (mkReply 302 [session_cookie v session; clear_login v] (Some (site v path)) B_none), a4)
          end
      end.
Proof.
  intros [Hb Hve Hno [Hi1 Hi2]] Hq Hu H. cbn [AuthController.serve] in H.
  destruct (login_stores _ _ _ _ _ _ _ _ Hq H) as (key & l & Hk & _ & -> & Ha). split; [done|].
  intros dr' req' seen' a2 url q params Hurl Hc Es El Ht Eseen E2. rewrite Ha in *.
  assert (decryptProof key (sha256 (dr_state dr))
    (encryptProof (dr_iv dr) key (sha256 (dr_state dr)) (proof_of dr provider path)) = Ok (proof_of dr provider path)) as Hd.
  { apply decrypt_encrypt; [done..| |].
    - split; [done..|]. intros r [= <-]. by eapply loginQuery_path.
    - by intros r [= <-]. }
  cbn [AuthController.serve]. unfold callback. unfold mbind, io_bind, raise_when, of_result, mret, io_ret.
  rewrite (proj2 (Z.ltb_ge _ _)), Hc by done. cbn [validate]. unfold settle. rewrite Es.
  rewrite (finish_with _ _ _ _ _ _ _ _ key (dr_browser dr) (attempt_of dr key provider path) (proof_of dr provider path));
    [|done|by rewrite El; cbn; rewrite Hb|done|done|done|done|done].
  cbn zeta. cbn [lp_provider lp_returnTo proof_of default]. destruct (exchange _ _ _ _) as [identity|]; [|done].
  by destruct (issueIdentity _ _ _ _ _ _ _ _ _) as [[]].
Qed.
End Routes.

(** ** Redirects *)

Section Redirects.
Context (v : Config.Values) (URL : jsstr → option Config.Url).
Context (sha256 : jsstr → jsstr) (hmac : jsstr → jsstr → jsstr) (hmac_hex : jsstr → jsstr → jsstr).
Context (derive : jsstr → list Z → list Z) (z_email : jsstr → bool) (z_uuid : jsstr → bool).
Context (sha256_base64url : jsstr → jsstr) {Configuration : Type} (serverMetadata : Configuration → Metadata).
Context (buildAuthorizationUrl : Configuration → list (string * jsstr) → jsstr) (challenge : jsstr → jsstr).
Context (exchange : SocialProvider → list (jsstr * jsstr) → jsstr → LoginProof → result VerifiedIdentity).
Context {G : Aead}.

(** The gateways, with the configurations they have kept and what discovery answers now. *)
Definition gateway_url (discovery : OidcSettings → option Configuration) (c : OidcProvider → option Configuration)
    (provider : SocialProvider) (state : jsstr) (proof : LoginProof) : result jsstr :=
  (Gateways.authorizationUrl v URL sha256_base64url serverMetadata buildAuthorizationUrl challenge discovery
     provider state proof c).1.

(** A page of a provider that is enabled: GitHub's own, or one that openid-client built from a
    configuration that passed the checks. *)
Definition provider_page (l : jsstr) : Prop :=
  (Config.GITHUB_AUTH_ENABLED v = true ∧ ∃ query, l = js "https://github.com/login/oauth/authorize?" ++ form query)
  ∨ ∃ p cfg query, checked v URL serverMetadata p cfg ∧ l = buildAuthorizationUrl cfg query.

(** A path that no browser takes for another origin: it begins with a slash and not with two, and holds no
    backslash, which browsers read as a slash. *)
Definition site_path (path : jsstr) : Prop :=
  ∃ rest, path = 47 :: rest ∧ head rest ≠ Some 47 ∧ 92 ∉ path.

Lemma returnTo_path path : returnTo_ok path = true → site_path path.
Proof.
  unfold returnTo_ok. rewrite !andb_true_iff, !negb_true_iff, bool_decide_eq_false.
  intros [[[_ [rest ->]%startsWith_spec] Hd] Hb]. exists rest. split_and!; [done| |exact Hb].
  destruct rest as [|u rest]; [done|]. intros [= ->]. apply not_true_iff_false in Hd. apply Hd.
  apply startsWith_spec. by exists rest.
Qed.

(** C29: no open redirect.  Whatever the query, the body, the cookies, the provider's answers and the
    contents of the database are, a redirect of a sign-in or account route leads to the page of an
    enabled provider, GitHub's own or one built from a discovered configuration all of whose endpoints
    are plain HTTPS, or to a path of the site: the public origin followed by a path that begins with a
    single slash and holds no backslash. *)
Theorem no_open_redirect discovery c dr req seen r a reply a' l :
  cache_ok v URL serverMetadata c →
  serve v sha256 hmac hmac_hex derive z_email z_uuid (gateway_url discovery c) exchange dr req seen r a = (Ok reply, a') →
  rp_location reply = Some l →
  provider_page l ∨ ∃ path, l = site v path ∧ site_path path.
Proof.
  intros Hc [_ Hl]%serve_shaped E.
  destruct (Hl l E) as [(provider & state & proof & Hp & Hu)|[->|(path & -> & Hpath)]];
    [left|right; eexists; split; [done|by apply returnTo_path]|right; exists path; split; [done|by apply returnTo_path]].
  unfold gateway_url in Hu. destruct (Gateways.authorizationUrl _ _ _ _ _ _ _ _ _ _ c) as [x c'] eqn:Eu. cbn in Hu. subst x.
  apply authorization_checked in Eu as [_ Eu]; [|done..]. destruct (oidc_provider provider) as [p|].
  - destruct Eu as (cfg & query & Hcfg & -> & _). right. by eexists p, cfg, query.
  - destruct Eu as (Hg & query & -> & _). left. eauto.
Qed.
End Redirects.
