(* ===== verification/Analytics.v ===== *)
(** * Analytics of submissions ([apps/api/src/admin/admin.ts], [analytics] and [analyticsExport])

    The report of a period, over the users, problems and executions of [Profiles.v], and its CSV
    export.  As there, a calendar day is the number of days since the epoch that its [YYYY-MM-DD]
    string denotes, and the database's time zone is UTC; [date_text] writes the string.  A success
    rate, a percentage with one decimal, is kept in tenths. *)

From S2P Require Import Prelude Paging JsText Contracts Judge Database Executions JsString.
From S2P Require Import RuntimePolicy Catalogue Discussions Sessions Password Accounts Profiles.
From S2P Require Import ProfileFacts.
Local Open Scope Z_scope.

(** ** Dates *)

(** Year, month and day of a day number, in the proleptic Gregorian calendar: eras of 400 years
    that begin on the first of March. *)
Definition civil (day : Z) : Z * Z * Z :=
  let z := day + 719468 in
  let doe := z mod 146097 in
  let yoe := (doe - doe / 1460 + doe / 36524 - doe / 146096) / 365 in
  let doy := doe - (365 * yoe + yoe / 4 - yoe / 100) in
  let mp := (5 * doy + 2) / 153 in
  let m := if mp <? 10 then mp + 3 else mp - 9 in
  (yoe + z / 146097 * 400 + (if m <=? 2 then 1 else 0), m, doy - (153 * mp + 2) / 5 + 1).
Fixpoint padded (width : nat) (n : Z) : jsstr :=
  match width with O => [] | S w => padded w (n / 10) ++ [48 + n mod 10] end.
(** [date.toISOString().slice(0, 10)] for the years 0 to 9999. *)
Definition date_text (day : Z) : jsstr :=
  let '(y, m, d) := civil day in padded 4 y ++ js "-" ++ padded 2 m ++ js "-" ++ padded 2 d.

Example date_epoch : date_text 0 = js "1970-01-01". Proof. reflexivity. Qed.
Example date_leap : date_text 19782 = js "2024-02-29". Proof. reflexivity. Qed.
Example date_century : date_text 47540 = js "2100-02-28" ∧ date_text 47541 = js "2100-03-01".
Proof. split; reflexivity. Qed.

(** ** The report *)

Record Daily := mkDaily { dy_date : Z; dy_submissions : nat; dy_accepted : nat; dy_activeUsers : nat }.
Record ProblemRate := mkProblemRate {
  pr_slug : jsstr; pr_title : jsstr; pr_submissions : nat; pr_accepted : nat; pr_successRate : Z
}.
Record Analytics := mkAnalytics {
  an_days : Z; an_since : Z; an_until : Z;
  an_newUsers : nat; an_submissions : nat; an_accepted : nat; an_activeUsers : nat; an_successRate : Z;
  an_daily : list Daily; an_topProblems : list ProblemRate
}.

(** [analyticsQuery]; the query's text as [Number] reads it, 30 when it is absent. *)
Definition analyticsQuery (days : option (option Z)) : option Z :=
  match days with
  | None => Some 30
  | Some n => d ← n; if bool_decide (d ∈ [7; 30; 90]) then Some d else None
  end.

Definition users_of (l : list Execution) : list uuid := remove_dups ((λ e, x_userId (e_req e)) <$> l).
Definition accepted_of (l : list Execution) : list Execution := filter (λ e, accepted e = true) l.
Definition row_of (date : Z) (l : list Execution) : Daily :=
  mkDaily date (length l) (length (accepted_of l)) (length (users_of l)).
Definition on_day (day : Z) (e : Execution) : Prop := day_of (createdAt e) = day.
#[global] Instance on_day_dec day e : Decision (on_day day e).
Proof. unfold on_day. apply _. Defined.

(** [GROUP BY date_trunc('day', e."createdAt")], in order. *)
Definition daily_rows (l : list Execution) : list Daily :=
  (λ day, row_of day (filter (on_day day) l)) <$> merge_sort Z.le (remove_dups (day_of ∘ createdAt <$> l)).
(** [byDate.get(key) ?? {date: key, ...zeros}]. *)
Definition by_date (rows : list Daily) (day : Z) : Daily :=
  match list_find (λ r, dy_date r = day) rows with
  | Some (_, r) => r
  | None => mkDaily day 0 0 0
  end.

Definition rate (accepted submissions : nat) : Z :=
  if (submissions =? 0)%nat then 0 else round_div (Z.of_nat accepted * 1000) (Z.of_nat submissions).

Section Report.
(** The order of slugs in the database's collation. *)
Context (collate : relation jsstr) `{!RelDecision collate}.
Context (d : profiles).

Definition submitted_since (t : Z) : list Execution :=
  filter (λ e, e_mode e = SUBMIT ∧ t ≤ createdAt e) (map_to_list (pd_executions d)).*2.
Definition problem_of (e : Execution) : option (rowid * ProblemRow) :=
  v ← version_of d e; p ← cat_problems (pd_catalogue d) !! vr_problemId v; Some (vr_problemId v, p).

(** The title of the version of the problem's newest submission. *)
Definition newest_title (l : list Execution) : jsstr :=
  match merge_sort (newest createdAt e_id) l with
  | e :: _ => default [] (vr_title <$> version_of d e)
  | [] => []
  end.
Definition problem_rate (l : list Execution) (p : rowid * ProblemRow) : ProblemRate :=
  let own := filter (λ e, fst <$> problem_of e = Some p.1) l in
  mkProblemRate (pb_slug p.2) (newest_title own) (length own) (length (accepted_of own))
    (rate (length (accepted_of own)) (length own)).
Definition rate_before (a b : ProblemRate) : Prop :=
  (pr_submissions b < pr_submissions a)%nat
  ∨ pr_submissions a = pr_submissions b ∧ collate (pr_slug a) (pr_slug b).
#[global] Instance rate_before_dec : RelDecision rate_before.
Proof. intros a b. unfold rate_before. apply _. Defined.
(** The groups of [GROUP BY p.id], ten with most submissions. *)
Definition problem_rows (l : list Execution) : list ProblemRate :=
  let ids := remove_dups (omap (λ e, fst <$> problem_of e) l) in
  take 10 (merge_sort rate_before
    (omap (λ id, p ← cat_problems (pd_catalogue d) !! id; Some (problem_rate l (id, p))) ids)).

End Report.

(** The states that the six queries of a report read.  They run side by side and outside any transaction,
    so each sees what has been committed when it runs. *)
Record Reads := mkReads {
  rd_newUsers : profiles; rd_submissions : profiles; rd_accepted : profiles;
  rd_active : profiles; rd_daily : profiles; rd_problems : profiles
}.
(** Nothing is committed between the queries. *)
Definition at_once (d : profiles) : Reads := mkReads d d d d d d.

Definition analytics (collate : relation jsstr) `{!RelDecision collate} (r : Reads) (now : Z) (days : Z) : Analytics :=
  let first := day_of now - days + 1 in
  let since := first * DAY in
  let submissions := length (submitted_since (rd_submissions r) since) in
  let accepted := length (accepted_of (submitted_since (rd_accepted r) since)) in
  mkAnalytics days since now
    (length (filter (λ r : rowid * User, since ≤ ur_createdAt r.2)
       (map_to_list (ac_users (pd_accounts (rd_newUsers r))))))
    submissions accepted (length (users_of (submitted_since (rd_active r) since))) (rate accepted submissions)
    (by_date (daily_rows (submitted_since (rd_daily r) since)) <$> seqZ first days)
    (problem_rows collate (rd_problems r) (submitted_since (rd_problems r) since)).

(** ** The export *)

(** A text in double quotes, those inside it doubled. *)
Definition csv_quote (s : jsstr) : jsstr :=
  QUOTE :: mjoin ((λ u, if u =? QUOTE then [QUOTE; QUOTE] else [u]) <$> s) ++ [QUOTE].
Definition csv_line (cells : list jsstr) : jsstr := intercalate (js ",") (csv_quote <$> cells).
Definition csv (rows : list (list jsstr)) : jsstr := intercalate [LF] (csv_line <$> rows) ++ [LF].

Definition export_rows (a : Analytics) : list (list jsstr) :=
  (js <$> ["date"; "submissions"; "accepted"; "active_users"]%string)
  :: ((λ r, [date_text (dy_date r); num (Z.of_nat (dy_submissions r)); num (Z.of_nat (dy_accepted r));
             num (Z.of_nat (dy_activeUsers r))]) <$> an_daily a).
Record Export := mkExport { ex_filename : jsstr; ex_contentType : string; ex_content : jsstr }.
Definition analyticsExport (a : Analytics) : Export :=
  mkExport (js "arenacore-analytics-" ++ date_text (day_of (an_since a)) ++ js "-" ++ date_text (day_of (an_until a)) ++ js ".csv")
    "text/csv" (csv (export_rows a)).

(** * The analytics add up, and their export reads back

    The report counts every submission of the period on its day, and a reader of quoted CSV gets the
    exported rows. *)


(** ** Reading CSV *)

(** A quoted cell after its opening quote, and what follows its closing one. *)
Fixpoint read_quoted (s : jsstr) : option (jsstr * jsstr) :=
  match s with
  | [] => None
  | u :: s1 =>
      if u =? QUOTE then
        match s1 with
        | v :: s2 => if v =? QUOTE then '(c, r) ← read_quoted s2; Some (QUOTE :: c, r) else Some ([], s1)
        | [] => Some ([], [])
        end
      else '(c, r) ← read_quoted s1; Some (u :: c, r)
  end.
(** Lines of quoted cells, each ended by a line feed; [line] holds the cells of the current one. *)
Fixpoint read_lines (fuel : nat) (line : list jsstr) (s : jsstr) : option (list (list jsstr)) :=
  match fuel, s with
  | O, _ => None
  | S _, [] => match line with [] => Some [] | _ => None end
  | S fuel, q :: s1 =>
      if q =? QUOTE then
        '(cell, r) ← read_quoted s1;
        match r with
        | sep :: r' =>
            if sep =? 44 then read_lines fuel (line ++ [cell]) r'
            else if sep =? LF then rows ← read_lines fuel [] r'; Some ((line ++ [cell]) :: rows) else None
        | [] => None
        end
      else None
  end.
Definition read_csv (s : jsstr) : option (list (list jsstr)) := read_lines (S (length s)) [] s.

Definition doubled (s : jsstr) : jsstr := mjoin ((λ u, if u =? QUOTE then [QUOTE; QUOTE] else [u]) <$> s).

Lemma doubled_cons u c : doubled (u :: c) = (if u =? QUOTE then [QUOTE; QUOTE] else [u]) ++ doubled c.
Proof. done. Qed.

Lemma read_quoted_doubled c r :
  head r ≠ Some QUOTE → read_quoted (doubled c ++ QUOTE :: r) = Some (c, r).
Proof.
  intros Hr. induction c as [|u c IH].
  - cbn. destruct r as [|v r]; [done|]. destruct (Z.eqb_spec v QUOTE) as [->|]; [done|done].
  - rewrite doubled_cons. destruct (Z.eqb_spec u QUOTE) as [->|Hu].
    + cbn [app read_quoted]. by rewrite !Z.eqb_refl, IH.
    + cbn [app read_quoted]. by rewrite (proj2 (Z.eqb_neq _ _) Hu), IH.
Qed.

Lemma csv_quote_doubled c r : csv_quote c ++ r = QUOTE :: (doubled c ++ QUOTE :: r).
Proof. unfold csv_quote, doubled. cbn. by rewrite <- app_assoc. Qed.

Lemma read_line fuel line cells r rows :
  cells ≠ [] → read_lines fuel [] r = Some rows →
  read_lines (length cells + fuel) line (csv_line cells ++ LF :: r) = Some ((line ++ cells) :: rows).
Proof.
  intros Hne Hr. revert line. induction cells as [|c cells IH]; [done|]. intros line.
  unfold csv_line. rewrite fmap_cons. destruct cells as [|c' cells].
  - cbn [fmap list_fmap intercalate length Nat.add]. rewrite csv_quote_doubled. cbn [read_lines]. rewrite Z.eqb_refl, read_quoted_doubled by done.
    cbn. by rewrite Hr.
  - specialize (IH ltac:(done) (line ++ [c])). rewrite fmap_cons. cbn [intercalate]. rewrite <- !app_assoc, csv_quote_doubled.
    change (length (c :: c' :: cells) + fuel)%nat with (S (length (c' :: cells) + fuel)).
    cbn [read_lines]. rewrite Z.eqb_refl, read_quoted_doubled by done. unfold csv_line in IH. rewrite fmap_cons in IH.
    rewrite <- app_assoc in IH. exact IH.
Qed.

Lemma read_lines_more fuel fuel' line s rows :
  read_lines fuel line s = Some rows → (fuel ≤ fuel')%nat → read_lines fuel' line s = Some rows.
Proof.
  revert fuel' line s rows. induction fuel as [|fuel IH]; intros fuel' line s rows; [done|].
  destruct fuel' as [|fuel']; [lia|]. intros H Hle. assert (fuel ≤ fuel')%nat by lia.
  destruct s as [|q s]; [done|]. cbn [read_lines] in *. destruct (q =? QUOTE); [|done].
  destruct (read_quoted s) as [[cell r]|]; [|done]. cbn [mbind option_bind] in *. destruct r as [|sep r]; [done|].
  destruct (sep =? 44); [by apply IH|]. destruct (sep =? LF); [|done].
  apply bind_Some in H as (rest & Hrest & H). by rewrite (IH fuel' _ _ _ Hrest).
Qed.

Definition lines (rows : list (list jsstr)) : jsstr := mjoin ((λ r, csv_line r ++ [LF]) <$> rows).
Lemma lines_cons r rows : lines (r :: rows) = csv_line r ++ LF :: lines rows.
Proof. unfold lines. rewrite fmap_cons. cbn. by rewrite <- app_assoc. Qed.

Lemma read_rows rows :
  Forall (λ r, r ≠ []) rows →
  ∃ fuel, read_lines fuel [] (lines rows) = Some rows
          ∧ (fuel ≤ S (length (lines rows)))%nat.
Proof.
  induction 1 as [|r rows Hr Hrows (fuel & IH & Hf)]; [by exists 1%nat|].
  exists (length r + fuel)%nat. rewrite lines_cons. split.
  - by apply read_line.
  - assert (Hlen : (length r ≤ length (csv_line r))%nat).
    { clear. unfold csv_line. induction r as [|c r IH]; [done|]. rewrite fmap_cons.
      assert (2 ≤ length (csv_quote c))%nat by (unfold csv_quote; cbn; rewrite length_app; cbn; lia).
      destruct r as [|c' r]; [cbn; lia|]. rewrite fmap_cons in *. cbn [intercalate length] in *.
      rewrite !length_app. lia. }
    rewrite length_app. cbn [length]. lia.
Qed.

Lemma csv_lines rows : rows ≠ [] → csv rows = lines rows.
Proof.
  unfold csv. induction rows as [|r rows IH]; [done|]. intros _. rewrite lines_cons, fmap_cons.
  destruct rows as [|r' rows]; [done|]. rewrite <- IH by done. rewrite fmap_cons.
  cbn [intercalate]. by rewrite <- !app_assoc.
Qed.

Lemma csv_reads_back rows : rows ≠ [] → Forall (λ r, r ≠ []) rows → read_csv (csv rows) = Some rows.
Proof.
  intros Hne Hr. destruct (read_rows rows Hr) as (fuel & H & Hf). unfold read_csv. rewrite csv_lines by done.
  by eapply read_lines_more.
Qed.

(** The export reads back.  A reader of quoted CSV recovers any table of texts, whatever quotes,
    commas and line breaks its cells contain, from what the export writes of it; so the exported
    report reads back as its heading and one row for each day. *)
Lemma export_roundtrip rows a :
  rows ≠ [] → Forall (λ r, r ≠ []) rows →
  read_csv (csv rows) = Some rows ∧ read_csv (ex_content (analyticsExport a)) = Some (export_rows a).
Proof.
  intros Hne Hr. split; [by apply csv_reads_back|]. apply csv_reads_back; [done|].
  constructor; [done|]. by apply Forall_fmap, Forall_forall.
Qed.

(** ** The report adds up *)

Lemma rate_range a b : (a ≤ b)%nat → 0 ≤ rate a b ≤ 1000.
Proof.
  intros Ha. unfold rate. destruct (Nat.eqb_spec b 0); [lia|]. unfold round_div. split; [apply Z.div_pos; lia|].
  apply Z.lt_succ_r, Z.div_lt_upper_bound; lia.
Qed.

Lemma accepted_le l : (length (accepted_of l) ≤ length l)%nat.
Proof. apply length_filter. Qed.
Lemma users_le l : (length (users_of l) ≤ length l)%nat.
Proof. unfold users_of. rewrite length_remove_dups, length_fmap. done. Qed.
Lemma accepted_day l day : accepted_of (filter (on_day day) l) = filter (on_day day) (accepted_of l).
Proof. unfold accepted_of. rewrite !list_filter_filter. apply list_filter_iff. tauto. Qed.

(** A day's row is that of its submissions, also when it has none. *)
Lemma by_date_row l day : by_date (daily_rows l) day = row_of day (filter (on_day day) l).
Proof.
  unfold by_date. destruct (list_find _ _) as [[i r]|] eqn:E.
  - apply list_find_Some in E as (Hi & Hd & _). unfold daily_rows in Hi. apply list_lookup_fmap_Some in Hi as (x & -> & _).
    cbn in Hd. by subst x.
  - apply list_find_None in E. assert (filter (on_day day) l = []) as ->; [|done].
    apply filter_none_in. intros e He Hday. unfold daily_rows in E. rewrite Forall_fmap, Forall_forall in E.
    apply (E day); [|done]. rewrite merge_sort_Permutation, elem_of_remove_dups. apply list_elem_of_fmap. by exists e.
Qed.

Lemma sum_days (days : list Z) (l : list Execution) :
  NoDup days → (∀ e, e ∈ l → day_of (createdAt e) ∈ days) →
  sum_list ((λ day, length (filter (on_day day) l)) <$> days) = length l.
Proof. intros Hnd Hin. by apply (sum_classes (day_of ∘ createdAt)). Qed.

(** A user active in the period is active on one of its days. *)
Lemma users_by_day (days : list Z) (l : list Execution) :
  (∀ e, e ∈ l → day_of (createdAt e) ∈ days) →
  (length (users_of l) ≤ sum_list ((λ day, length (users_of (filter (on_day day) l))) <$> days))%nat.
Proof.
  intros Hin.
  assert (E : sum_list ((λ day, length (users_of (filter (on_day day) l))) <$> days)
              = length (days ≫= λ day, users_of (filter (on_day day) l))).
  { clear Hin. induction days as [|day days IH]; [done|]. cbn. rewrite length_app. f_equal. exact IH. }
  rewrite E. apply submseteq_length, NoDup_submseteq; [apply NoDup_remove_dups|].
  intros u. unfold users_of at 1. rewrite elem_of_remove_dups, list_elem_of_fmap. intros (e & -> & He).
  apply list_elem_of_bind. exists (day_of (createdAt e)). split; [|by apply Hin].
  unfold users_of. rewrite elem_of_remove_dups. apply list_elem_of_fmap. exists e. split; [done|].
  by apply list_elem_of_filter.
Qed.

Lemma Sorted_take {A} (R : relation A) n l : Sorted R l → Sorted R (take n l).
Proof.
  intros H. revert n. induction H as [|a l Hl IH Ha]; intros [|n]; cbn; constructor; [done|].
  destruct Ha; destruct n; cbn; by constructor.
Qed.

Section Report.
Context (collate : relation jsstr) `{!RelDecision collate}.
Context (Htotal : Total collate).

#[local] Instance rate_before_total : Total (rate_before collate).
Proof.
  intros a b. unfold rate_before. destruct (Nat.lt_trichotomy (pr_submissions a) (pr_submissions b)) as [?|[E|?]]; auto.
  destruct (Htotal (pr_slug a) (pr_slug b)); auto.
Qed.

(** The submissions of the period up to the day of the report fall on its days. *)
Definition until (day : Z) (e : Execution) : Prop := day_of (createdAt e) ≤ day.
#[global] Instance until_dec day e : Decision (until day e).
Proof. unfold until. apply _. Defined.

Lemma period_days today days (l : list Execution) :
  (∀ e, e ∈ l → (today - days + 1) * DAY ≤ createdAt e ∧ until today e) →
  ∀ e, e ∈ l → day_of (createdAt e) ∈ seqZ (today - days + 1) days.
Proof.
  intros Hl e He. destruct (Hl e He) as [H1 H2]. unfold until, day_of in *. apply elem_of_seqZ. split; [|lia].
  apply Z.div_le_lower_bound; [done|]. lia.
Qed.
Lemma since_elem d t e : e ∈ submitted_since d t → t ≤ createdAt e ∧ ∃ k, pd_executions d !! k = Some e.
Proof.
  intros [[_ Hs] (kv & -> & Hkv)%list_elem_of_fmap]%list_elem_of_filter. split; [done|].
  destruct kv as [k e]. apply elem_of_map_to_list in Hkv. by exists k.
Qed.

(** A day of the period counts the same submissions before and after those of later days are dropped. *)
Lemma until_day today day (l : list Execution) : day ≤ today → filter (on_day day) (filter (until today) l) = filter (on_day day) l.
Proof.
  intros Hd. rewrite list_filter_filter. apply list_filter_iff. intros e. unfold on_day, until. split; [by intros []|].
  intros ->. done.
Qed.

Lemma daily_list r now days :
  let a := analytics collate r now days in
  an_daily a = (λ day, row_of day (filter (on_day day) (submitted_since (rd_daily r) (an_since a))))
                 <$> seqZ (day_of now - days + 1) days.
Proof. unfold analytics. cbn [an_daily an_since]. apply list_fmap_ext. intros i day _. apply by_date_row. Qed.

Lemma daily_sum r now days :
  let a := analytics collate r now days in
  sum_list (dy_submissions <$> an_daily a)
  = length (filter (until (day_of now)) (submitted_since (rd_daily r) (an_since a))).
Proof.
  cbv zeta. rewrite daily_list, <- list_fmap_compose. unfold compose, row_of. cbn [dy_submissions an_since analytics].
  set (first := day_of now - days + 1). set (l := submitted_since _ _).
  rewrite <- (sum_days (seqZ first days) (filter (until (day_of now)) l)).
  - f_equal. apply list_fmap_ext. intros i day Hi. apply list_elem_of_lookup_2, elem_of_seqZ in Hi.
    rewrite until_day; [done|unfold first in Hi; lia].
  - apply NoDup_seqZ.
  - apply period_days. intros e [Hu He]%list_elem_of_filter. split; [|done]. by apply since_elem in He as [? _].
Qed.

(** A report on one state in which nothing is dated after its day. *)
Lemma report_adds_up d now days :
  (∀ k e, pd_executions d !! k = Some e → until (day_of now) e) →
  let a := analytics collate (at_once d) now days in
  sum_list (dy_submissions <$> an_daily a) = an_submissions a
  ∧ sum_list (dy_accepted <$> an_daily a) = an_accepted a
  ∧ (an_activeUsers a ≤ sum_list (dy_activeUsers <$> an_daily a))%nat
  ∧ (an_accepted a ≤ an_submissions a)%nat ∧ (an_activeUsers a ≤ an_submissions a)%nat
  ∧ 0 ≤ an_successRate a ≤ 1000.
Proof.
  intros Hnow a. unfold a. rewrite daily_sum, !daily_list, <- !list_fmap_compose.
  unfold compose, row_of. cbn [dy_accepted dy_activeUsers].
  cbn [analytics at_once rd_submissions rd_accepted rd_active rd_daily an_since an_submissions an_accepted an_activeUsers an_successRate].
  set (first := day_of now - days + 1). set (l := submitted_since d _).
  assert (∀ e, e ∈ l → day_of (createdAt e) ∈ seqZ first days) as Hin.
  { apply period_days. intros e (Hs & k & He)%since_elem. split; [done|by eapply Hnow]. }
  split_and!.
  - rewrite filter_all_in; [done|]. intros e (_ & k & He)%since_elem. by eapply Hnow.
  - rewrite (list_fmap_ext _ (λ day, length (filter (on_day day) (accepted_of l))))
      by (intros i day _; by rewrite accepted_day).
    apply sum_days; [apply NoDup_seqZ|]. intros e [_ He]%list_elem_of_filter. by apply Hin.
  - by apply users_by_day.
  - apply accepted_le.
  - apply users_le.
  - apply rate_range, accepted_le.
  - apply rate_range, accepted_le.
Qed.

(** C37: what the report says.  Whatever is committed while its six queries run: the daily list has an entry
    for each of the days of the period up to today, in order, and each entry counts exactly the submissions,
    the accepted ones and the distinct users of its day that the daily query found, days without any
    included, so that no submission of the period up to today is lost or counted twice; and the at most ten
    problems come with most submissions first, each with a rate between nought and a hundred per cent.  The
    totals come from other queries: when all six see the same state, and no submission in it is
    dated after today, the entries sum to the totals, nobody is counted active without being active on one
    of the days, and the overall rate is a percentage too. *)
Theorem analytics_consistent r now days :
  let a := analytics collate r now days in
  let l := submitted_since (rd_daily r) (an_since a) in
  an_daily a = (λ day, row_of day (filter (on_day day) l)) <$> seqZ (day_of now - days + 1) days
  ∧ sum_list (dy_submissions <$> an_daily a) = length (filter (until (day_of now)) l)
  ∧ Forall (λ p, (pr_accepted p ≤ pr_submissions p)%nat ∧ 0 ≤ pr_successRate p ≤ 1000) (an_topProblems a)
  ∧ (length (an_topProblems a) ≤ 10)%nat
  ∧ Sorted (rate_before collate) (an_topProblems a)
  ∧ (∀ d, r = at_once d → (∀ k e, pd_executions d !! k = Some e → until (day_of now) e) →
       sum_list (dy_submissions <$> an_daily a) = an_submissions a
       ∧ sum_list (dy_accepted <$> an_daily a) = an_accepted a
       ∧ (an_activeUsers a ≤ sum_list (dy_activeUsers <$> an_daily a))%nat
       ∧ (an_accepted a ≤ an_submissions a)%nat ∧ (an_activeUsers a ≤ an_submissions a)%nat
       ∧ 0 ≤ an_successRate a ≤ 1000).
Proof.
  intros a l. split_and!.
  - apply daily_list.
  - apply daily_sum.
  - unfold a, analytics. cbn [an_topProblems]. unfold problem_rows. apply Forall_take. rewrite merge_sort_Permutation.
    apply Forall_forall. intros p (id & _ & (q & _ & [= <-])%bind_Some)%list_elem_of_omap. cbn.
    split; [apply accepted_le|apply rate_range, accepted_le].
  - unfold a, analytics. cbn [an_topProblems]. unfold problem_rows. rewrite length_take. lia.
  - unfold a, analytics. cbn [an_topProblems]. unfold problem_rows. apply Sorted_take. apply Sorted_merge_sort. apply _.
  - intros d -> Hnow. by apply report_adds_up.
Qed.
End Report.
