(* ===== verification/Notifications.v ===== *)
(** * Notifications ([apps/api/src/notifications/notifications.ts])

    A user's inbox: its pages, and marking notifications read.  [notify] is the
    [notification.createMany({skipDuplicates: true})] of the handlers that write to it. *)

From S2P Require Import Prelude Io Paging JsText Contracts JsString Catalogue Discussions.
Local Open Scope Z_scope.

Record Notification := mkNotification {
  no_id : rowid; no_userId : rowid; no_kind : string; no_title : jsstr; no_body : jsstr;
  no_href : option jsstr; no_dedupeKey : option jsstr; no_readAt : option Z; no_createdAt : Z
}.
Abbreviation inbox := (gmap rowid Notification).

(** The unique index on [(userId, dedupeKey)]; NULL keys are all distinct. *)
Definition duplicate (n m : Notification) : bool :=
  bool_decide (no_userId m = no_userId n) && bool_decide (is_Some (no_dedupeKey n))
  && bool_decide (no_dedupeKey m = no_dedupeKey n).
Definition notify (n : Notification) (i : inbox) : inbox :=
  if bool_decide (is_Some (i !! no_id n)) || existsb (λ r, duplicate n r.2) (map_to_list i) then i
  else <[no_id n := n]> i.

Definition owned (userId : rowid) (n : Notification) : Prop := no_userId n = userId.
#[export] Instance owned_dec u n : Decision (owned u n). Proof. unfold owned. apply _. Defined.
Definition unread (userId : rowid) (n : Notification) : bool :=
  bool_decide (no_userId n = userId) && bool_decide (no_readAt n = None).
Definition unreadCount (userId : rowid) (i : inbox) : nat :=
  length (filter (λ n, unread userId n = true) (map_to_list i).*2).

Definition NOTIFICATIONS : nat := 30.
Definition notifications (userId : rowid) (cursor : option rowid) (i : inbox) :
    result (list Notification * option rowid) :=
  let boundary := c ← cursor; n ← i !! c; if decide (owned userId n) then Some n else None in
  match cursor, boundary with
  | Some _, None => Err (ApiError 400 "INVALID_CURSOR" None)
  | _, _ =>
      let rows := query_before no_createdAt no_id NOTIFICATIONS boundary
                    (filter (owned userId) (map_to_list i).*2) in
      let items := take NOTIFICATIONS rows in
      Ok (items, if (NOTIFICATIONS <? length rows)%nat then no_id <$> last items else None)
  end.

Definition read_at (now : Z) (n : Notification) : Notification :=
  mkNotification (no_id n) (no_userId n) (no_kind n) (no_title n) (no_body n) (no_href n) (no_dedupeKey n)
    (Some now) (no_createdAt n).
(** [updateMany({where: {id, userId, readAt: null}, data: {readAt: now}})]: how many rows it wrote. *)
Definition mark_one (now : Z) (userId id : rowid) : io inbox nat := λ i,
  match i !! id with
  | Some n => if unread userId n then (Ok 1%nat, <[id := read_at now n]> i) else (Ok 0%nat, i)
  | None => (Ok 0%nat, i)
  end.

Definition markRead (now : Z) (userId id : rowid) : io inbox (option Z) :=
  count ← mark_one now userId id;
  found ← ask (λ i : inbox, n ← i !! id; if decide (owned userId n) then Some n else None);
  _ ← raise_when ((count =? 0)%nat && bool_decide (found = None)) not_found;
  if negb (count =? 0)%nat then mret (Some now) else
  row ← ask (λ i : inbox, i !! id);
  match row with
  | Some n => mret (no_readAt n)
  | None => raise (DbError "P2025")
  end.

Definition markAllRead (now : Z) (userId : rowid) (i : inbox) : nat * inbox :=
  (unreadCount userId i, (λ n, if unread userId n then read_at now n else n) <$> i).

(** ** Facts *)

Section Facts.
Context (i : inbox) (Hkey : ∀ k n, i !! k = Some n → no_id n = k).

Definition all_notifications (userId : rowid) : list Notification :=
  merge_sort (newest no_createdAt no_id) (filter (owned userId) (map_to_list i).*2).

Lemma notification_elem userId n :
  n ∈ all_notifications userId ↔ i !! no_id n = Some n ∧ owned userId n.
Proof.
  unfold all_notifications. rewrite merge_sort_Permutation, list_elem_of_filter, list_elem_of_fmap. split.
  - intros (Ho & [k m] & -> & Hk%elem_of_map_to_list). cbn in *. by rewrite (Hkey k m Hk).
  - intros [Hn Ho]. split; [done|]. exists (no_id n, n). by rewrite elem_of_map_to_list.
Qed.

Lemma notification_ids userId : NoDup (no_id <$> filter (owned userId) (map_to_list i).*2).
Proof. apply filter_keys_NoDup. intros k n Hn. symmetry. by apply Hkey. Qed.

(** Following the cursors of the inbox lists the user's notifications, newest first. *)
Lemma notifications_enumerated userId fuel :
  (length (all_notifications userId) < fuel)%nat →
  follow (λ c, notifications userId c i) fuel None = all_notifications userId.
Proof.
  intros Hf. rewrite <- (list_fmap_id (all_notifications userId)).
  apply (follow_all no_id (λ n, n) NOTIFICATIONS); [|unfold NOTIFICATIONS; lia|done].
  apply pager_last_item.
  - unfold notifications. cbn [mbind option_bind]. by rewrite query_before_first.
  - intros pre c post E. assert (c ∈ all_notifications userId) as [Hc Ho]%notification_elem by (rewrite E; set_solver).
    unfold notifications. cbn -[NOTIFICATIONS take]. rewrite Hc. cbn -[NOTIFICATIONS take].
    rewrite decide_True by done.
    by rewrite (query_before_next no_createdAt no_id _ (notification_ids userId) _ pre c post E).
Qed.
End Facts.

(** Reading twice is reading once: the first time stays. *)
Lemma markRead_once now now' userId id i t i' :
  markRead now userId id i = (Ok t, i') → markRead now' userId id i' = (Ok t, i').
Proof.
  unfold markRead, mbind, io_bind, mark_one, ask, raise_when, mret, io_ret, unread, owned.
  destruct (i !! id) as [n|] eqn:En; cbn; [|by rewrite En].
  destruct (bool_decide_reflect (no_userId n = userId)) as [Eo|Eo]; cbn.
  - destruct (bool_decide_reflect (no_readAt n = None)) as [Er|Er]; cbn.
    + intros [= <- <-]. rewrite lookup_insert_eq. cbn. rewrite (bool_decide_eq_true_2 _ Eo). cbn.
      rewrite lookup_insert_eq. cbn. rewrite decide_True by done. cbn. by rewrite lookup_insert_eq.
    + rewrite En. cbn. rewrite decide_True by done. cbn. rewrite En. intros [= <- <-]. rewrite En.
      rewrite (bool_decide_eq_true_2 _ Eo), (bool_decide_eq_false_2 _ Er). cbn. rewrite En. cbn.
      rewrite decide_True by done. cbn. by rewrite En.
  - rewrite En. cbn. rewrite decide_False by done. done.
Qed.
