(* ===== verification/Competitions.v ===== *)
(** * Competitions

    [apps/api/src/competitions/competitions.ts] (schedules, registration, organisers; the standings are
    in [Leaderboard.v]) and the competition administration of [apps/api/src/admin/admin.ts], over the
    tables and constraints of the migration [competitions].

    Dates are milliseconds since the epoch, as [new Date] reads them; problems and their versions are
    the catalogue's.  What a handler reads before its transaction it reads from [seen]. *)

From S2P Require Import Prelude Paging JsText Contracts Judge JsString RuntimePolicy Catalogue.
From S2P Require Import Discussions Sessions Leaderboard Notifications.
Local Open Scope Z_scope.

(** ** Input *)

Inductive CompetitionKind := CONTEST | TOURNAMENT.
#[export] Instance CompetitionKind_eq_dec : EqDecision CompetitionKind. Proof. solve_decision. Defined.

Record RoundInput := mkRoundInput {
  ro_title : jsstr; ro_startsAt : Z; ro_endsAt : Z; ro_problemSlugs : list jsstr
}.
Record CompetitionInput := mkCompetitionInput {
  ci_slug : jsstr; ci_kind : CompetitionKind; ci_title : jsstr; ci_description : jsstr;
  ci_rulesMarkdown : jsstr; ci_prizeLabel : option jsstr; ci_startsAt : Z; ci_endsAt : Z;
  ci_rounds : list RoundInput
}.

Definition trim_round (r : RoundInput) : RoundInput :=
  mkRoundInput (trim (ro_title r)) (ro_startsAt r) (ro_endsAt r) (ro_problemSlugs r).
Definition trim_input (i : CompetitionInput) : CompetitionInput :=
  mkCompetitionInput (ci_slug i) (ci_kind i) (trim (ci_title i)) (trim (ci_description i))
    (trim (ci_rulesMarkdown i)) (trim <$> ci_prizeLabel i) (ci_startsAt i) (ci_endsAt i)
    (trim_round <$> ci_rounds i).

Definition slug_bounded (s : jsstr) : bool := slug_ok s && (slen s <=? 100).
Definition round_ok (r : RoundInput) : bool :=
  len_in 2 100 (ro_title r) && forallb slug_bounded (ro_problemSlugs r)
  && (1 <=? length (ro_problemSlugs r))%nat && (length (ro_problemSlugs r) <=? 30)%nat.
Definition competition_ok (maxRounds : nat) (i : CompetitionInput) : bool :=
  slug_bounded (ci_slug i) && len_in 3 160 (ci_title i) && len_in 10 1000 (ci_description i)
  && len_in 10 20000 (ci_rulesMarkdown i)
  && match ci_prizeLabel i with None => true | Some p => slen p <=? 100 end
  && forallb round_ok (ci_rounds i) && (1 <=? length (ci_rounds i))%nat && (length (ci_rounds i) <=? maxRounds)%nat.
(** [createSchema]. *)
Definition createSchema (body : CompetitionInput) : result CompetitionInput :=
  let i := trim_input body in if competition_ok 10 i then Ok i else Err invalid_request.

(** ** Tables *)

Record CompetitionRow := mkCompetition {
  co_id : rowid; co_slug : jsstr; co_kind : CompetitionKind; co_title : jsstr; co_description : jsstr;
  co_rulesMarkdown : jsstr; co_prizeLabel : option jsstr; co_startsAt : Z; co_endsAt : Z;
  co_published : bool; co_ownerId : option rowid
}.
(** A round with its [CompetitionProblem] rows: problem, ordinal, points. *)
Record RoundRow := mkRound {
  rn_id : rowid; rn_competitionId : rowid; rn_title : jsstr; rn_ordinal : Z; rn_startsAt : Z; rn_endsAt : Z;
  rn_problems : list (rowid * Z * Z)
}.

(** A user, and an execution of a round, as far as competitions read them. *)
Record Competitor := mkCompetitor { cp_username : jsstr; cp_displayName : jsstr; cp_notifications : bool }.
Record RoundExecution := mkRoundExecution {
  re_id : rowid; re_roundId : rowid; re_userId : rowid; re_versionId : rowid; re_mode : ExecutionMode;
  re_state : ExecutionState; re_verdict : option Verdict; re_language : Language; re_runtimeMs : option Z;
  re_memoryKiB : option Z; re_createdAt : Z
}.
Record arena := mkArena {
  ar_catalogue : catalogue; ar_users : gmap rowid Competitor; ar_competitions : gmap rowid CompetitionRow;
  ar_rounds : list RoundRow; ar_registrations : gmap (rowid * rowid) Z; ar_inbox : inbox;
  ar_executions : list RoundExecution; ar_audit : list AuditEvent
}.
Definition set_competitions (c : gmap rowid CompetitionRow) (a : arena) : arena :=
  mkArena (ar_catalogue a) (ar_users a) c (ar_rounds a) (ar_registrations a) (ar_inbox a) (ar_executions a) (ar_audit a).
Definition set_rounds (r : list RoundRow) (a : arena) : arena :=
  mkArena (ar_catalogue a) (ar_users a) (ar_competitions a) r (ar_registrations a) (ar_inbox a) (ar_executions a)
    (ar_audit a).
Definition set_registrations (r : gmap (rowid * rowid) Z) (a : arena) : arena :=
  mkArena (ar_catalogue a) (ar_users a) (ar_competitions a) (ar_rounds a) r (ar_inbox a) (ar_executions a) (ar_audit a).
Definition set_inbox (i : inbox) (a : arena) : arena :=
  mkArena (ar_catalogue a) (ar_users a) (ar_competitions a) (ar_rounds a) (ar_registrations a) i (ar_executions a)
    (ar_audit a).
Definition log_event (actorId : rowid) (action : string) (targetId : rowid) : tx arena unit :=
  modify (λ a, mkArena (ar_catalogue a) (ar_users a) (ar_competitions a) (ar_rounds a) (ar_registrations a)
                 (ar_inbox a) (ar_executions a) (ar_audit a ++ [mkAudit actorId action targetId])).
Definition the_arena : tx arena arena := gets (λ a, a).

(** [Competition_time_check] and the unique slug. *)
Definition competition_put (c : CompetitionRow) : tx arena unit :=
  a ← the_arena;
  _ ← raise_if (co_endsAt c <=? co_startsAt c) (DbError "23514");
  _ ← raise_if (existsb (λ r, negb (bool_decide (r.1 = co_id c)) && bool_decide (co_slug r.2 = co_slug c))
                  (map_to_list (ar_competitions a))) (DbError "P2002");
  _ ← raise_if match co_ownerId c with Some u => bool_decide (ar_users a !! u = None) | None => false end
        (DbError "P2003");
  modify (λ a, set_competitions (<[co_id c := c]> (ar_competitions a)) a).

(** A round and its problems: [CompetitionRound_time_check], the unique ordinals, the primary key
    [(roundId, problemId)] and the references. *)
Definition round_create (r : RoundRow) : tx arena unit :=
  a ← the_arena;
  _ ← raise_if (rn_endsAt r <=? rn_startsAt r) (DbError "23514");
  _ ← raise_if (existsb (λ q, bool_decide (rn_id q = rn_id r)
                    || (bool_decide (rn_competitionId q = rn_competitionId r) && (rn_ordinal q =? rn_ordinal r)))
                  (ar_rounds a)) (DbError "P2002");
  _ ← raise_if (bool_decide (ar_competitions a !! rn_competitionId r = None)) (DbError "P2003");
  _ ← raise_if (negb (bool_decide (NoDup ((λ p, p.1.1) <$> rn_problems r)))) (DbError "P2002");
  _ ← raise_if (existsb (λ p, bool_decide (cat_problems (ar_catalogue a) !! p.1.1 = None)) (rn_problems r))
        (DbError "P2003");
  modify (λ a, set_rounds (ar_rounds a ++ [r]) a).

Definition rounds_of (a : arena) (id : rowid) : list RoundRow :=
  filter (λ r, rn_competitionId r = id) (ar_rounds a).

(** Executions refer to the round. *)
Definition played (a : arena) (r : RoundRow) : bool :=
  existsb (λ e, bool_decide (re_roundId e = rn_id r)) (ar_executions a).

(** ** Checks shared by creation and update *)

(** The published problems a list of distinct slugs finds. *)
Definition published_ids (c : catalogue) (slugs : list jsstr) : list (jsstr * rowid) :=
  (λ r, (pb_slug r.2, r.1))
  <$> filter (λ r, pb_slug r.2 ∈ slugs ∧ problem_published c r.1 = true) (map_to_list (cat_problems c)).
Definition id_of (ids : list (jsstr * rowid)) (slug : jsstr) : rowid :=
  match list_find (λ p, p.1 = slug) ids with Some (_, p) => p.2 | None => [] end.

Definition api400 (code : string) : error := ApiError 400 code None.
Definition round_fits (startsAt endsAt : Z) (r : RoundInput) : bool :=
  negb ((ro_startsAt r <? startsAt) || (endsAt <? ro_endsAt r) || (ro_endsAt r <=? ro_startsAt r)).

(** The number of rounds, the schedule of each round and the problems. *)
Definition validate_rounds (c : catalogue) (i : CompetitionInput) : result (list (jsstr * rowid)) :=
  if bool_decide (ci_kind i = CONTEST) && negb (length (ci_rounds i) =? 1)%nat then Err (api400 "INVALID_ROUNDS") else
  if negb (forallb (round_fits (ci_startsAt i) (ci_endsAt i)) (ci_rounds i)) then Err (api400 "INVALID_SCHEDULE") else
  let slugs := unique (mjoin (ro_problemSlugs <$> ci_rounds i)) in
  let problems := published_ids c slugs in
  if negb (length problems =? length slugs)%nat then Err (api400 "INVALID_PROBLEM") else Ok problems.

Definition new_round (fresh : nat → rowid) (cid : rowid) (ids : list (jsstr * rowid)) (e : nat * RoundInput) : RoundRow :=
  let '(index, r) := e in
  mkRound (fresh index) cid (ro_title r) (Z.of_nat index + 1) (ro_startsAt r) (ro_endsAt r)
    (imap (λ ordinal slug, (id_of ids slug, Z.of_nat ordinal + 1, 100)) (ro_problemSlugs r)).
Definition write_rounds (fresh : nat → rowid) (cid : rowid) (ids : list (jsstr * rowid)) (i : CompetitionInput) :
    tx arena unit :=
  for_each (λ e, round_create (new_round fresh cid ids e)) (entries (ci_rounds i)).

Definition competition_row (id : rowid) (i : CompetitionInput) (published : bool) (owner : option rowid) :
    CompetitionRow :=
  mkCompetition id (ci_slug i) (ci_kind i) (ci_title i) (ci_description i) (ci_rulesMarkdown i) (ci_prizeLabel i)
    (ci_startsAt i) (ci_endsAt i) published owner.

(** [catch (error) { if P2002 throw SLUG_TAKEN }]. *)
Definition slug_conflict {A S} (r : result A * S) : result A * S :=
  match r with
  | (Err (DbError code), a) => if String.eqb code "P2002" then (Err (ApiError 409 "SLUG_TAKEN" None), a) else r
  | _ => r
  end.

(** ** Organisers *)

Definition owner_active (userId : rowid) (now : Z) (a : arena) : list CompetitionRow :=
  filter (λ c, co_ownerId c = Some userId ∧ now < co_endsAt c) (map_to_list (ar_competitions a)).*2.

(** [create]: [id] and [fresh] are the ids the database draws, [joinedAt] the time of the
    organiser's registration. *)
Definition create (id : rowid) (fresh : nat → rowid) (now joinedAt : Z) (userId : rowid) (input : CompetitionInput)
    (seen a : arena) : result (rowid * jsstr * CompetitionKind) * arena :=
  if ci_startsAt input <? now + 5 * 60000 then (Err (api400 "INVALID_SCHEDULE"), a) else
  if ci_endsAt input <=? ci_startsAt input then (Err (api400 "INVALID_SCHEDULE"), a) else
  match validate_rounds (ar_catalogue seen) input with
  | Err e => (Err e, a)
  | Ok ids =>
      slug_conflict (transaction
        (a0 ← the_arena;
         _ ← raise_if (5 <=? length (owner_active userId now a0))%nat (ApiError 429 "COMPETITION_LIMIT" None);
         _ ← raise_if (bool_decide (is_Some (ar_competitions a0 !! id))) (DbError "P2002");
         _ ← competition_put (competition_row id input true (Some userId));
         _ ← write_rounds fresh id ids input;
         _ ← modify (λ a, set_registrations (<[(id, userId) := joinedAt]> (ar_registrations a)) a);
         _ ← log_event userId "USER_COMPETITION_CREATE" id;
         mret (id, ci_slug input, ci_kind input)) a)
  end.

Definition competition_by_slug (slug : jsstr) (a : arena) : option CompetitionRow :=
  (λ r, r.2.2) <$> list_find (λ r : rowid * CompetitionRow, co_slug r.2 = slug) (map_to_list (ar_competitions a)).

Definition managed (userId : rowid) (role : Role) (slug : jsstr) (a : arena) : result CompetitionRow :=
  match competition_by_slug slug a with
  | None => Err not_found
  | Some c =>
      if negb (bool_decide (role = R_ADMIN)) && negb (bool_decide (co_ownerId c = Some userId))
      then Err (ApiError 403 "ORGANIZER_REQUIRED" None) else Ok c
  end.

(** [competitionRound.deleteMany({where: {competitionId}})]: executions hold on to their round. *)
Definition rounds_delete (id : rowid) : tx arena unit :=
  a ← the_arena;
  _ ← raise_if (existsb (played a) (rounds_of a id)) (DbError "P2003");
  modify (λ a, set_rounds (filter (λ r, rn_competitionId r ≠ id) (ar_rounds a)) a).

(** The data of [tx.competition.update]: an absent label is [undefined], which leaves the column. *)
Definition updated_row (i : CompetitionInput) (c : CompetitionRow) : CompetitionRow :=
  mkCompetition (co_id c) (co_slug c) (ci_kind i) (ci_title i) (ci_description i) (ci_rulesMarkdown i)
    (match ci_prizeLabel i with Some p => Some p | None => co_prizeLabel c end) (ci_startsAt i) (ci_endsAt i) (co_published c) (co_ownerId c).

Definition update (fresh : nat → rowid) (now now' : Z) (userId : rowid) (role : Role) (slug : jsstr)
    (input : CompetitionInput) (seen a : arena) : result (rowid * jsstr * CompetitionKind) * arena :=
  match managed userId role slug seen with
  | Err e => (Err e, a)
  | Ok current =>
      if negb (bool_decide (ci_slug input = slug)) then (Err (ApiError 409 "SLUG_IMMUTABLE" None), a) else
      if co_startsAt current <=? now then (Err (ApiError 409 "COMPETITION_STARTED" None), a) else
      if (ci_startsAt input <? now' + 60000) || (ci_endsAt input <=? ci_startsAt input)
      then (Err (api400 "INVALID_SCHEDULE"), a) else
      match validate_rounds (ar_catalogue seen) input with
      | Err e => (Err e, a)
      | Ok ids =>
          let id := co_id current in
          transaction
            (_ ← rounds_delete id;
             a1 ← the_arena;
             match ar_competitions a1 !! id with
             | None => throw (DbError "P2025")
             | Some c =>
                 _ ← competition_put (updated_row input c);
                 _ ← write_rounds fresh id ids input;
                 _ ← log_event userId (if bool_decide (role = R_ADMIN) then "ADMIN_COMPETITION_UPDATE"
                                       else "OWNER_COMPETITION_UPDATE") id;
                 mret (id, co_slug c, ci_kind input)
             end) a
      end
  end.

(** ** Participants *)

Definition published_by_slug (slug : jsstr) (a : arena) : option CompetitionRow :=
  match competition_by_slug slug a with
  | Some c => if co_published c then Some c else None
  | None => None
  end.

Definition registration_notice (id : rowid) (at_ : Z) (userId : rowid) (c : CompetitionRow) : Notification :=
  mkNotification id userId "COMPETITION_REGISTRATION" (js "Competition registration confirmed")
    (js "You are registered for " ++ co_title c ++ js ".")
    (Some (js "/" ++ (if bool_decide (co_kind c = CONTEST) then js "contests" else js "tournaments")
           ++ js "/" ++ co_slug c))
    (Some (js "competition:" ++ co_id c ++ js ":registration")) None at_.

Definition register (noticeId : rowid) (now joinedAt : Z) (userId : rowid) (slug : jsstr) (a : arena) :
    result Z * arena :=
  transaction
    (a0 ← the_arena;
     match published_by_slug slug a0 with
     | None => throw not_found
     | Some c =>
         _ ← raise_if (co_endsAt c <=? now) (ApiError 409 "REGISTRATION_CLOSED" None);
         match ar_users a0 !! userId with
         | None => throw (DbError "P2003")
         | Some user =>
             let joined := default joinedAt (ar_registrations a0 !! (co_id c, userId)) in
             _ ← modify (λ a, set_registrations (<[(co_id c, userId) := joined]> (ar_registrations a)) a);
             _ ← (if cp_notifications user then modify (λ a, set_inbox (notify (registration_notice noticeId joinedAt userId c)
                                                          (ar_inbox a)) a)
                  else mret tt);
             mret joined
         end
     end) a.

Definition registration (userId : rowid) (slug : jsstr) (a : arena) : result (option Z) :=
  match published_by_slug slug a with
  | None => Err not_found
  | Some c => Ok (ar_registrations a !! (co_id c, userId))
  end.

(** ** Administration *)

(** [createCompetitionInput]: slugs are folded, at most twenty rounds. *)
Definition fold_slugs (i : CompetitionInput) : CompetitionInput :=
  let fold s := toLowerCase (trim s) in
  mkCompetitionInput (fold (ci_slug i)) (ci_kind i) (ci_title i) (ci_description i) (ci_rulesMarkdown i)
    (ci_prizeLabel i) (ci_startsAt i) (ci_endsAt i)
    ((λ r, mkRoundInput (ro_title r) (ro_startsAt r) (ro_endsAt r) (fold <$> ro_problemSlugs r)) <$> ci_rounds i).
Definition createCompetitionInput (body : CompetitionInput) : result CompetitionInput :=
  let i := fold_slugs (trim_input body) in if competition_ok 20 i then Ok i else Err invalid_request.

Definition createCompetition (id : rowid) (fresh : nat → rowid) (actorId : rowid) (input : CompetitionInput)
    (published : bool) (seen a : arena) : result (rowid * jsstr * bool) * arena :=
  if ci_endsAt input <=? ci_startsAt input then (Err (api400 "INVALID_SCHEDULE"), a) else
  match validate_rounds (ar_catalogue seen) input with
  | Err e => (Err e, a)
  | Ok ids =>
      slug_conflict (transaction
        (a0 ← the_arena;
         _ ← raise_if (bool_decide (is_Some (ar_competitions a0 !! id))) (DbError "P2002");
         _ ← competition_put (competition_row id input published None);
         _ ← write_rounds fresh id ids input;
         _ ← log_event actorId (if published then "COMPETITION_PUBLISH" else "COMPETITION_DRAFT_CREATE") id;
         mret (id, ci_slug input, published)) a)
  end.

Definition with_publication (published : bool) (c : CompetitionRow) : CompetitionRow :=
  mkCompetition (co_id c) (co_slug c) (co_kind c) (co_title c) (co_description c) (co_rulesMarkdown c)
    (co_prizeLabel c) (co_startsAt c) (co_endsAt c) published (co_ownerId c).
(** Two statements of their own: the update, then the audit event. *)
Definition setCompetitionPublication (actorId id : rowid) (published : bool) (seen a : arena) :
    result bool * arena :=
  match ar_competitions seen !! id with
  | None => (Err not_found, a)
  | Some _ =>
      match transaction
        (a0 ← the_arena;
         _ ← raise_if (bool_decide (ar_competitions a0 !! id = None)) (DbError "P2025");
         modify (λ a, set_competitions (alter (with_publication published) id (ar_competitions a)) a)) a with
      | (Err e, a') => (Err e, a')
      | (Ok _, a') =>
          transaction (_ ← log_event actorId (if published then "COMPETITION_PUBLISH" else "COMPETITION_UNPUBLISH") id;
                       mret published) a'
      end
  end.

Definition deleteCompetition (actorId id : rowid) (seen a : arena) : result unit * arena :=
  match ar_competitions seen !! id with
  | None => (Err not_found, a)
  | Some _ =>
      if existsb (played seen) (rounds_of seen id)
      then (Err (ApiError 409 "COMPETITION_IN_USE" None), a) else
      transaction
        (a0 ← the_arena;
         _ ← raise_if (bool_decide (ar_competitions a0 !! id = None)) (DbError "P2025");
         _ ← rounds_delete id;
         _ ← modify (λ a, set_registrations (filter (λ r, r.1.1 ≠ id) (ar_registrations a)) a);
         _ ← modify (λ a, set_competitions (delete id (ar_competitions a)) a);
         log_event actorId "COMPETITION_DELETE" id) a
  end.
