(* ===== verification/Arena.v ===== *)
(** * What competitions keep

    Along every run of the operations of [Competitions.v] the schedule of a competition contains its
    rounds, a contest has one round, ordinals count from one, and a round lists a problem once; a
    participant registers once; an organiser manages at most five competitions at a time. *)

From S2P Require Import Prelude Paging JsText Contracts Judge JsString RuntimePolicy Catalogue.
From S2P Require Import Publication Discussions Forum Sessions Leaderboard Notifications.
From S2P Require Import Competitions.
Local Open Scope Z_scope.

(** ** The writes *)

(** Specialises the uniqueness guard of a committed write to the row [x]. *)
Ltac no_clash x :=
  match goal with H : existsb _ _ = false |- _ =>
    apply (existsb_false _ _ x) in H; [|first [done|by apply elem_of_map_to_list]]; cbn in H
  end.

Lemma competition_put_Ok c a u a' :
  competition_put c a = Ok (u, a') →
  a' = set_competitions (<[co_id c := c]> (ar_competitions a)) a ∧ co_startsAt c < co_endsAt c ∧
  ∀ k d, ar_competitions a !! k = Some d → k ≠ co_id c → co_slug d ≠ co_slug c.
Proof.
  unfold competition_put, the_arena. intros H. inv_cat.
  assert (co_startsAt c < co_endsAt c) by (by apply Z.leb_gt). split_and!; [done..|].
  intros k d Hd Hne E. no_clash (k, d).
  match goal with H : _ && _ = false |- _ => by rewrite (bool_decide_eq_false_2 _ Hne), (bool_decide_eq_true_2 _ E) in H end.
Qed.

Record round_added (r : RoundRow) (a a' : arena) : Prop := {
  ra_rounds : a' = set_rounds (ar_rounds a ++ [r]) a;
  ra_times : rn_startsAt r < rn_endsAt r;
  ra_problems : NoDup ((λ p, p.1.1) <$> rn_problems r);
  ra_known : ∀ p, p ∈ rn_problems r → is_Some (cat_problems (ar_catalogue a) !! p.1.1)
}.
Lemma round_create_Ok r a u a' : round_create r a = Ok (u, a') → round_added r a a'.
Proof.
  unfold round_create, the_arena. intros H. inv_cat.
  assert (rn_startsAt r < rn_endsAt r) by (by apply Z.leb_gt). split; [done|done| |].
  - by match goal with H : negb (bool_decide (NoDup _)) = false |- _ => apply negb_false_iff, bool_decide_eq_true in H end.
  - intros p Hp.
    match goal with H : existsb _ (rn_problems r) = false |- _ => apply (existsb_false _ _ p) in H as Hq; [|done] end.
    by apply bool_decide_eq_false, not_eq_None_Some in Hq.
Qed.

Lemma rounds_written {A} (f : A → RoundRow) l a u a' :
  for_each (λ e, round_create (f e)) l a = Ok (u, a') →
  a' = set_rounds (ar_rounds a ++ (f <$> l)) a ∧
  ∀ e, e ∈ l → rn_startsAt (f e) < rn_endsAt (f e) ∧ NoDup ((λ p, p.1.1) <$> rn_problems (f e)).
Proof.
  revert a. induction l as [|e l IH]; intros a; cbn [for_each].
  { intros [_ ->]%mret_Ok. cbn. rewrite app_nil_r. destruct a. split; [done|]. intros e He. by apply elem_of_nil in He. }
  intros (v & b & H1 & H2)%bind_Ok. apply round_create_Ok in H1 as [-> Ht Hp _]. apply IH in H2 as [-> Hl].
  split; [cbn; by rewrite <- app_assoc|]. intros e' [->|He]%elem_of_cons; [done|by apply Hl].
Qed.

Lemma rounds_delete_Ok id a u a' :
  rounds_delete id a = Ok (u, a') → a' = set_rounds (filter (λ r, rn_competitionId r ≠ id) (ar_rounds a)) a.
Proof. unfold rounds_delete, the_arena. intros H. by inv_cat. Qed.

(** ** The invariant *)

(** The rounds [rs] suit a competition of this kind and schedule. *)
Record suits (kind : CompetitionKind) (startsAt endsAt : Z) (rs : list RoundRow) : Prop := {
  su_inside : ∀ r, r ∈ rs → startsAt ≤ rn_startsAt r ∧ rn_startsAt r < rn_endsAt r ∧ rn_endsAt r ≤ endsAt;
  su_distinct : ∀ r, r ∈ rs → NoDup ((λ p, p.1.1) <$> rn_problems r);
  su_contest : kind = CONTEST → length rs = 1%nat;
  su_ordinals : rn_ordinal <$> rs = seqZ 1 (Z.of_nat (length rs))
}.

Record arena_ok (a : arena) : Prop := {
  ak_row : ∀ k c, ar_competitions a !! k = Some c →
    co_id c = k ∧ co_startsAt c < co_endsAt c ∧ suits (co_kind c) (co_startsAt c) (co_endsAt c) (rounds_of a k);
  ak_slug : ∀ k k' c c', ar_competitions a !! k = Some c → ar_competitions a !! k' = Some c' →
    co_slug c = co_slug c' → k = k';
  ak_round : ∀ r, r ∈ ar_rounds a → is_Some (ar_competitions a !! rn_competitionId r);
  ak_registration : ∀ k t, ar_registrations a !! k = Some t → is_Some (ar_competitions a !! k.1)
}.

(** The rounds that [write_rounds] writes for a validated input suit it. *)
Lemma new_rounds_suit fresh cid ids c input probs :
  validate_rounds c input = Ok probs →
  (∀ e, e ∈ entries (ci_rounds input) →
     rn_startsAt (new_round fresh cid ids e) < rn_endsAt (new_round fresh cid ids e) ∧
     NoDup ((λ p, p.1.1) <$> rn_problems (new_round fresh cid ids e))) →
  suits (ci_kind input) (ci_startsAt input) (ci_endsAt input) (new_round fresh cid ids <$> entries (ci_rounds input)).
Proof.
  unfold validate_rounds. destruct (_ && _) eqn:Ek; [done|].
  destruct (forallb (round_fits _ _) (ci_rounds input)) eqn:Ef; [cbn|done]. intros _ Hnew.
  assert (Hlen : length (new_round fresh cid ids <$> entries (ci_rounds input)) = length (ci_rounds input)).
  { unfold entries. by rewrite length_fmap, length_imap. }
  split.
  - intros r (e & -> & He)%list_elem_of_fmap. destruct (Hnew e He) as [Ht _].
    assert (∃ i rd, e = (i, rd) ∧ rd ∈ ci_rounds input) as (i & rd & -> & Hrd).
    { unfold entries in He. apply elem_of_lookup_imap_1 in He as (i & rd & -> & Hi). exists i, rd. split; [done|].
      by eapply list_elem_of_lookup_2. }
    rewrite forallb_forall in Ef. specialize (Ef rd (proj1 (list_elem_of_In _ _) Hrd)).
    unfold round_fits in Ef. apply negb_true_iff in Ef. guards. apply Z.leb_gt in Hg0. cbn in *. lia.
  - intros r (e & -> & He)%list_elem_of_fmap. by apply Hnew.
  - intros Hk. rewrite Hlen. rewrite (bool_decide_eq_true_2 _ Hk) in Ek. cbn in Ek.
    by apply negb_false_iff, Nat.eqb_eq in Ek.
  - rewrite Hlen. apply list_eq. intros i. unfold entries. rewrite !list_lookup_fmap, list_lookup_imap.
    destruct (ci_rounds input !! i) as [rd|] eqn:Ei; cbn.
    + apply lookup_lt_Some in Ei. symmetry. apply lookup_seqZ. lia.
    + apply lookup_ge_None in Ei. symmetry. apply lookup_seqZ_ge. lia.
Qed.

(** ** Runs *)

Inductive arena_op :=
| C_create (id : rowid) (fresh : nat → rowid) (now joinedAt : Z) (userId : rowid) (input : CompetitionInput) (seen : arena)
| C_update (fresh : nat → rowid) (now now' : Z) (userId : rowid) (role : Role) (slug : jsstr)
    (input : CompetitionInput) (seen : arena)
| C_register (noticeId : rowid) (now joinedAt : Z) (userId : rowid) (slug : jsstr)
| C_admin (id : rowid) (fresh : nat → rowid) (actorId : rowid) (input : CompetitionInput) (published : bool) (seen : arena)
| C_publication (actorId id : rowid) (published : bool) (seen : arena)
| C_delete (actorId id : rowid) (seen : arena).

Definition arena_step (a : arena) (o : arena_op) : arena :=
  match o with
  | C_create id fresh now joinedAt userId input seen => (create id fresh now joinedAt userId input seen a).2
  | C_update fresh now now' userId role slug input seen => (update fresh now now' userId role slug input seen a).2
  | C_register noticeId now joinedAt userId slug => (register noticeId now joinedAt userId slug a).2
  | C_admin id fresh actorId input published seen => (createCompetition id fresh actorId input published seen a).2
  | C_publication actorId id published seen => (setCompetitionPublication actorId id published seen a).2
  | C_delete actorId id seen => (deleteCompetition actorId id seen a).2
  end.

Lemma slug_conflict_state {A S} (r : result A * S) : (slug_conflict r).2 = r.2.
Proof. destruct r as [[|[]] ?]; cbn; try done. by destruct (String.eqb _ _). Qed.

(** What one operation does to the arena: nothing; store a competition with its rounds; register a
    participant; remove a competition. *)
Definition provenance (o : arena_op) (a : arena) (c : CompetitionRow) : Prop :=
  match ar_competitions a !! co_id c with
  | Some d =>
      co_slug c = co_slug d ∧ co_ownerId c = co_ownerId d ∧
      (co_endsAt c = co_endsAt d ∨
       ∃ fresh now now' u role slug input seen, o = C_update fresh now now' u role slug input seen ∧
         ∃ s, competition_by_slug slug seen = Some s ∧ co_id s = co_id c ∧ now < co_startsAt s)
  | None =>
      match co_ownerId c with
      | None => True
      | Some u => ∃ id fresh now joinedAt input seen, o = C_create id fresh now joinedAt u input seen ∧
                    (length (owner_active u now a) < 5)%nat
      end
  end.

Inductive effect (o : arena_op) (a a' : arena) : Prop :=
| E_same : a' = a → effect o a a'
| E_stored c :
    ar_competitions a' = <[co_id c := c]> (ar_competitions a) → provenance o a c → co_startsAt c < co_endsAt c →
    (∀ k d, ar_competitions a !! k = Some d → k ≠ co_id c → co_slug d ≠ co_slug c) →
    suits (co_kind c) (co_startsAt c) (co_endsAt c) (rounds_of a' (co_id c)) →
    (∀ k, k ≠ co_id c → rounds_of a' k = rounds_of a k) →
    ar_registrations a ⊆ ar_registrations a' →
    (∀ k, is_Some (ar_registrations a' !! k) → is_Some (ar_registrations a !! k) ∨ k.1 = co_id c) →
    ar_inbox a' = ar_inbox a → ar_users a' = ar_users a → effect o a a'
| E_registered c u joined notice :
    ar_competitions a !! co_id c = Some c →
    a' = set_inbox notice (set_registrations
           (<[(co_id c, u) := default joined (ar_registrations a !! (co_id c, u))]> (ar_registrations a)) a) →
    ar_inbox a ⊆ notice → effect o a a'
| E_deleted actorId id seen :
    o = C_delete actorId id seen →
    ar_competitions a' = delete id (ar_competitions a) →
    ar_rounds a' = filter (λ r, rn_competitionId r ≠ id) (ar_rounds a) →
    ar_registrations a' = filter (λ r, r.1.1 ≠ id) (ar_registrations a) →
    ar_inbox a' = ar_inbox a → ar_users a' = ar_users a → effect o a a'.

(** *** Rounds of the others *)
Lemma rounds_replaced a a' id rs :
  ar_rounds a' = filter (λ r, rn_competitionId r ≠ id) (ar_rounds a) ++ rs →
  Forall (λ r, rn_competitionId r = id) rs →
  rounds_of a' id = rs ∧ ∀ k, k ≠ id → rounds_of a' k = rounds_of a k.
Proof.
  intros E Hrs. rewrite Forall_forall in Hrs. unfold rounds_of. rewrite E. split; [|intros k Hk]; rewrite filter_app.
  - rewrite list_filter_filter, filter_none_in, filter_all_in; [done|by intros r Hr; apply Hrs|].
    intros r _ [??]. done.
  - rewrite list_filter_filter, (filter_none_in _ rs), app_nil_r by (intros r Hr; rewrite (Hrs r Hr); congruence).
    apply list_filter_iff. intros r. split; [tauto|]. intros <-. auto.
Qed.

Lemma new_rounds_owned fresh cid ids l : Forall (λ r, rn_competitionId r = cid) (new_round fresh cid ids <$> l).
Proof. apply Forall_fmap, Forall_true. by intros [i r]. Qed.

Lemma unused_rounds a id :
  arena_ok a → ar_competitions a !! id = None → filter (λ r, rn_competitionId r ≠ id) (ar_rounds a) = ar_rounds a.
Proof.
  intros [_ _ Hr _] Hn. apply filter_all_in. intros r Hi E.
  destruct (Hr r Hi) as [c Hc]. by rewrite E, Hn in Hc.
Qed.

(** ** The effect of each operation *)

Ltac inv_arena :=
  repeat match goal with
  | H : the_arena _ = Ok _ |- _ => apply gets_Ok in H as [-> ->]
  | H : log_event _ _ _ _ = Ok _ |- _ => apply modify_Ok in H; subst
  | H : competition_put _ _ = Ok _ |- _ =>
      let Ht := fresh "Htimes" in let Hs := fresh "Hslug" in apply competition_put_Ok in H as (-> & Ht & Hs)
  | H : write_rounds _ _ _ _ _ = Ok _ |- _ =>
      let Hr := fresh "Hrounds" in apply rounds_written in H as [-> Hr]
  | H : rounds_delete _ _ = Ok _ |- _ => apply rounds_delete_Ok in H; subst
  | _ => progress inv_cat
  end.

(** Storing a new competition, the part [create] and [createCompetition] share. *)
Lemma stored_new o a a' id fresh input published owner ids c :
  arena_ok a → validate_rounds c input = Ok ids →
  ar_competitions a !! id = None → ci_startsAt input < ci_endsAt input →
  provenance o a (competition_row id input published owner) →
  (∀ k d, ar_competitions a !! k = Some d → k ≠ id → co_slug d ≠ ci_slug input) →
  (∀ e, e ∈ entries (ci_rounds input) →
     rn_startsAt (new_round fresh id ids e) < rn_endsAt (new_round fresh id ids e) ∧
     NoDup ((λ p, p.1.1) <$> rn_problems (new_round fresh id ids e))) →
  ar_competitions a' = <[id := competition_row id input published owner]> (ar_competitions a) →
  ar_rounds a' = ar_rounds a ++ (new_round fresh id ids <$> entries (ci_rounds input)) →
  (ar_registrations a' = ar_registrations a ∨
   ∃ u t, ar_registrations a' = <[(id, u) := t]> (ar_registrations a)) →
  ar_inbox a' = ar_inbox a → ar_users a' = ar_users a → effect o a a'.
Proof.
  intros Hok Hv Hnone Ht Hp Hslug Hnew Ec Er Hreg Ei Eu.
  destruct (rounds_replaced a a' id (new_round fresh id ids <$> entries (ci_rounds input))) as [Hr1 Hr2].
  { by rewrite unused_rounds. }
  { apply new_rounds_owned. }
  apply (E_stored _ _ _ (competition_row id input published owner)); cbn -[new_round entries]; try done.
  - rewrite Hr1. eapply new_rounds_suit; [exact Hv|done].
  - destruct Hreg as [->|(u & t & ->)]; [done|]. apply insert_subseteq.
    destruct (ar_registrations a !! (id, u)) as [x|] eqn:E; [|done].
    apply (ak_registration _ Hok) in E as [d Hd]. cbn in Hd. by rewrite Hnone in Hd.
  - intros k. destruct Hreg as [->|(u & t & ->)]; [by left|]. intros [<-|[]]%lookup_insert_is_Some; [by right|by left].
Qed.

(** Either the transaction leaves the arena, or [E] says how it ran. *)
Ltac settled a' r E :=
  match goal with
  | |- context [transaction ?m ?s] =>
      destruct (transaction_cases m s) as [->|[r E]]; [by apply E_same|]; revert E;
      generalize (transaction m s).2; intros a' E
  end.

Lemma effect_create id fresh now joinedAt u input seen a :
  arena_ok a → effect (C_create id fresh now joinedAt u input seen) a (create id fresh now joinedAt u input seen a).2.
Proof.
  intros Hok. unfold create. destruct (_ <? _); [by apply E_same|].
  destruct (_ <=? _) eqn:Ht; [by apply E_same|]. apply Z.leb_gt in Ht.
  destruct (validate_rounds _ input) as [ids|] eqn:Ev; [|by apply E_same]. rewrite slug_conflict_state.
  settled a' r E. inv_arena. guards.
  match goal with H : (5 <=? _)%nat = false |- _ => apply Nat.leb_gt in H as Hlt end.
  eapply (stored_new _ _ _ id fresh input true (Some u)); try done.
  - unfold provenance. cbn. case_match; [congruence|]. by repeat eexists.
  - right. by exists u, joinedAt.
Qed.

Lemma effect_admin id fresh actorId input published seen a :
  arena_ok a →
  effect (C_admin id fresh actorId input published seen) a (createCompetition id fresh actorId input published seen a).2.
Proof.
  intros Hok. unfold createCompetition. destruct (_ <=? _) eqn:Ht; [by apply E_same|]. apply Z.leb_gt in Ht.
  destruct (validate_rounds _ input) as [ids|] eqn:Ev; [|by apply E_same]. rewrite slug_conflict_state.
  settled a' r E. inv_arena. guards.
  eapply (stored_new _ _ _ id fresh input published None); try done.
  - unfold provenance. cbn. by case_match.
  - by left.
Qed.

Lemma managed_Ok u role slug a c : managed u role slug a = Ok c → competition_by_slug slug a = Some c.
Proof. unfold managed. destruct (competition_by_slug slug a); [|done]. destruct (_ && _); congruence. Qed.

Lemma effect_update fresh now now' u role slug input seen a :
  arena_ok a →
  effect (C_update fresh now now' u role slug input seen) a (update fresh now now' u role slug input seen a).2.
Proof.
  intros Hok. unfold update. destruct (managed u role slug seen) as [current|] eqn:Em; [|by apply E_same].
  destruct (negb _); [by apply E_same|]. destruct (_ <=? now) eqn:Hstart; [by apply E_same|].
  destruct (_ || _) eqn:Ht; [by apply E_same|]. apply orb_false_iff in Ht as [_ Ht].
  apply Z.leb_gt in Hstart, Ht. apply managed_Ok in Em.
  destruct (validate_rounds _ input) as [ids|] eqn:Ev; [|by apply E_same].
  settled a' r E. apply bind_Ok in E as (v & b & E1 & E). apply rounds_delete_Ok in E1 as ->.
  apply bind_Ok in E as (b & b' & E1 & E). apply gets_Ok in E1 as [-> ->]. cbn in E.
  destruct (ar_competitions a !! co_id current) as [c|] eqn:Ec; [|discriminate E].
  destruct (ak_row _ Hok _ _ Ec) as (Hid & _ & _). inv_arena. cbn in Hslug.
  destruct (rounds_replaced a
    (set_rounds (filter (λ r, rn_competitionId r ≠ co_id current) (ar_rounds a)
                 ++ (new_round fresh (co_id current) ids <$> entries (ci_rounds input))) a)
    (co_id current) (new_round fresh (co_id current) ids <$> entries (ci_rounds input))) as [Hr1 Hr2];
    [done|apply new_rounds_owned|].
  apply (E_stored _ _ _ (updated_row input c)); cbn -[new_round entries]; try done.
  - unfold provenance. cbn. rewrite Hid, Ec. split_and!; [done..|right]. by repeat eexists.
  - rewrite Hid. unfold rounds_of in *. cbn -[new_round entries] in *. rewrite Hr1. eapply new_rounds_suit; [exact Ev|done].
  - rewrite Hid. intros k Hk. by apply Hr2.
  - intros k. by left.
Qed.

Lemma effect_publication actorId id published seen a :
  arena_ok a →
  effect (C_publication actorId id published seen) a (setCompetitionPublication actorId id published seen a).2.
Proof.
  intros Hok. unfold setCompetitionPublication. destruct (ar_competitions seen !! id) as [c0|]; [|by apply E_same].
  destruct (transaction _ a) as [[v|e] b] eqn:E; [|apply transaction_err in E as ->; by apply E_same].
  apply transaction_Ok in E. inv_arena. guards. cbv [transaction log_event modify mbind tx_bind mret tx_ret]. cbn -[alter].
  destruct Hck as [c Hc]. destruct (ak_row _ Hok _ _ Hc) as (Hid & Ht & Hs).
  apply (E_stored _ _ _ (with_publication published c)); cbn -[alter]; try done.
  - rewrite Hid. apply map_eq. intros k. destruct (decide (k = id)) as [->|Hk].
    + by rewrite lookup_alter_eq, Hc, lookup_insert_eq.
    + by rewrite lookup_alter_ne, lookup_insert_ne by done.
  - unfold provenance. cbn. rewrite Hid, Hc. auto.
  - rewrite Hid. intros k d Hd Hne E. by apply Hne, (ak_slug _ Hok _ _ _ _ Hd Hc).
  - by rewrite Hid.
  - intros k. by left.
Qed.

Lemma effect_delete actorId id seen a :
  effect (C_delete actorId id seen) a (deleteCompetition actorId id seen a).2.
Proof.
  unfold deleteCompetition. destruct (ar_competitions seen !! id); [|by apply E_same].
  destruct (existsb _ _); [by apply E_same|]. settled a' r E. inv_arena. by eapply E_deleted.
Qed.

Lemma published_by_slug_Some slug a c :
  published_by_slug slug a = Some c →
  co_slug c = slug ∧ co_published c = true ∧ ∃ k, ar_competitions a !! k = Some c.
Proof.
  unfold published_by_slug, competition_by_slug. destruct (list_find _ _) as [[i [k d]]|] eqn:E; [|done]. cbn.
  apply list_find_Some in E as (E & Hs & _). destruct (co_published d) eqn:Ep; [|done]. intros [= <-].
  split_and!; [done..|]. exists k. by apply elem_of_map_to_list, list_elem_of_lookup_2 with i.
Qed.

Lemma notify_grows n i : i ⊆ notify n i.
Proof.
  unfold notify. destruct (bool_decide_reflect (is_Some (i !! no_id n))) as [|Hn]; [done|].
  destruct (existsb _ _); [done|]. cbn. apply insert_subseteq. by apply eq_None_not_Some.
Qed.

Lemma effect_register nid now joinedAt u slug a :
  arena_ok a → effect (C_register nid now joinedAt u slug) a (register nid now joinedAt u slug a).2.
Proof.
  intros Hok. unfold register. settled a' r E. apply bind_Ok in E as (b & b' & E1 & E). apply gets_Ok in E1 as [-> ->].
  destruct (published_by_slug slug a) as [c|] eqn:Ec; [|discriminate E].
  apply published_by_slug_Some in Ec as (_ & _ & k & Hk). destruct (ak_row _ Hok _ _ Hk) as (<- & _).
  apply bind_Ok in E as (v & b & E1 & E). apply raise_if_Ok in E1 as [_ ->].
  destruct (ar_users a !! u) as [p|]; [|discriminate E]. cbv zeta in E.
  apply bind_Ok in E as (v1 & b & E1 & E). apply modify_Ok in E1. subst b.
  apply bind_Ok in E as (v2 & b & E1 & E). apply mret_Ok in E as [_ ->].
  apply (E_registered _ _ _ c u joinedAt
    (if cp_notifications p then notify (registration_notice nid joinedAt u c) (ar_inbox a) else ar_inbox a)); [done| |].
  - destruct (cp_notifications p); [apply modify_Ok in E1; by subst|]. apply mret_Ok in E1 as [_ ->]. by destruct a.
  - destruct (cp_notifications p); [apply notify_grows|done].
Qed.

Lemma arena_effect a o : arena_ok a → effect o a (arena_step a o).
Proof.
  intros Hok. destruct o; cbn [arena_step]; auto using effect_create, effect_update, effect_register, effect_admin,
    effect_publication, effect_delete.
Qed.

(** ** The invariant along runs *)

Lemma arena_ok_effect o a a' : arena_ok a → effect o a a' → arena_ok a'.
Proof.
  intros Hok Heff.
  destruct Heff as [->|c Ec Hp Ht Hslug Hs Hother Hsub Hreg _ _|c u j i Hc -> _|_ id _ _ Ec Er Eg _ _]; [done| | |].
  - split.
    + intros k d. rewrite Ec. intros [[<- <-]|[Hne Hd]]%lookup_insert_Some; [done|].
      rewrite (Hother k) by congruence. by apply (ak_row _ Hok).
    + intros k k' d d'. rewrite Ec.
      intros [[<- <-]|[Hne Hd]]%lookup_insert_Some [[<- <-]|[Hne' Hd']]%lookup_insert_Some E; [done| | |].
      * by destruct (Hslug k' d' Hd' (not_eq_sym Hne')).
      * by destruct (Hslug k d Hd (not_eq_sym Hne)).
      * exact (ak_slug _ Hok _ _ _ _ Hd Hd' E).
    + intros r Hr. rewrite Ec. apply lookup_insert_is_Some.
      destruct (decide (co_id c = rn_competitionId r)) as [|Hne]; [by left|right; split; [done|]].
      assert (r ∈ rounds_of a' (rn_competitionId r)) as Hi by (by apply list_elem_of_filter).
      rewrite Hother in Hi by congruence. apply list_elem_of_filter in Hi as [_ Hi]. by apply (ak_round _ Hok).
    + intros k t Hk. rewrite Ec. apply lookup_insert_is_Some.
      destruct (Hreg k) as [[x Hx]|Hx]; [by exists t| |by left].
      destruct (decide (co_id c = k.1)); [by left|right; split; [done|]]. by apply (ak_registration _ Hok) in Hx.
  - destruct Hok as [H1 H2 H3 H4]. split; cbn; [done..|].
    intros k t [[<- _]|[_ Hk]]%lookup_insert_Some; [by exists c|by eapply H4].
  - assert (Hrounds : ∀ k, k ≠ id → rounds_of a' k = rounds_of a k).
    { intros k Hk. unfold rounds_of. rewrite Er, list_filter_filter. apply list_filter_iff.
      intros r. split; [tauto|]. intros <-. auto. }
    split.
    + intros k c. rewrite Ec. intros [Hne Hc]%lookup_delete_Some. rewrite Hrounds by done. by apply (ak_row _ Hok).
    + intros k k' c c'. rewrite Ec. intros [_ Hc]%lookup_delete_Some [_ Hc']%lookup_delete_Some.
      by apply (ak_slug _ Hok).
    + intros r. rewrite Er, Ec, list_elem_of_filter. intros [Hne Hr]. rewrite lookup_delete_ne by done.
      by apply (ak_round _ Hok).
    + intros k t. rewrite Eg, Ec. intros [Hk Hne]%map_lookup_filter_Some. cbn in Hne.
      rewrite lookup_delete_ne by done. by eapply (ak_registration _ Hok).
Qed.

Definition arena_run (a : arena) (os : list arena_op) : arena := foldl arena_step a os.

Lemma arena_ok_run a os : arena_ok a → arena_ok (arena_run a os).
Proof.
  revert a. induction os as [|o os IH]; intros a Hok; [done|]. apply IH. by eapply arena_ok_effect, arena_effect.
Qed.

(** C35: schedules.  Along every run of competition operations, with reads taken from whatever states,
    every competition ends after it starts and contains its rounds, a contest has exactly one round,
    ordinals count from one, no round lists a problem twice, slugs are unique, and no round or
    registration refers to a competition that is gone. *)
Theorem schedules_hold a os k c :
  arena_ok a → ar_competitions (arena_run a os) !! k = Some c →
  co_startsAt c < co_endsAt c ∧
  suits (co_kind c) (co_startsAt c) (co_endsAt c) (rounds_of (arena_run a os) k) ∧
  (∀ k' c', ar_competitions (arena_run a os) !! k' = Some c' → co_slug c' = co_slug c → k' = k) ∧
  (∀ r, r ∈ ar_rounds (arena_run a os) → is_Some (ar_competitions (arena_run a os) !! rn_competitionId r)) ∧
  ∀ p, is_Some (ar_registrations (arena_run a os) !! p) → is_Some (ar_competitions (arena_run a os) !! p.1).
Proof.
  intros Hok Hc. apply (arena_ok_run _ os) in Hok. destruct (ak_row _ Hok _ _ Hc) as (_ & Ht & Hs).
  split_and!; [done|done| | |].
  - intros k' c' Hc' E. exact (ak_slug _ Hok _ _ _ _ Hc' Hc E).
  - apply (ak_round _ Hok).
  - intros p [t Hp]. exact (ak_registration _ Hok _ _ Hp).
Qed.

(** ** Organisers *)

(** The competitions [owner_active] counts, by id. *)
Definition active (u : rowid) (now : Z) (r : rowid * CompetitionRow) : Prop :=
  co_ownerId r.2 = Some u ∧ now < co_endsAt r.2.
#[export] Instance active_dec u now r : Decision (active u now r). Proof. unfold active. apply _. Defined.
Definition organised (u : rowid) (now : Z) (a : arena) : gset rowid := dom (filter (active u now) (ar_competitions a)).

Lemma owner_active_organised u now a : length (owner_active u now a) = size (organised u now a).
Proof.
  unfold owner_active, organised. rewrite size_dom, map_filter_alt, map_size_list_to_map.
  - generalize (map_to_list (ar_competitions a)). intros l. unfold active. induction l as [|r l IH]; [done|].
    cbn [fmap list_fmap]. destruct (decide (co_ownerId r.2 = Some u ∧ now < co_endsAt r.2)) as [H|H].
    + rewrite !filter_cons_True by done. cbn. by rewrite IH.
    + rewrite !filter_cons_False by done. done.
  - eapply sublist_NoDup; [apply (NoDup_fst_map_to_list (ar_competitions a))|]. apply fmap_sublist, sublist_filter.
Qed.

Lemma elem_of_organised u now a k :
  k ∈ organised u now a ↔ ∃ c, ar_competitions a !! k = Some c ∧ co_ownerId c = Some u ∧ now < co_endsAt c.
Proof.
  unfold organised. rewrite elem_of_dom. split.
  - intros [c [Hc Ha]%map_lookup_filter_Some]. by exists c.
  - intros (c & Hc & Ha). exists c. by apply map_lookup_filter_Some.
Qed.

(** The clock of the requests that read it, and what an update read of its competition. *)
Definition op_now (o : arena_op) (t : Z) : Z :=
  match o with C_create _ _ now _ _ _ _ | C_update _ now _ _ _ _ _ _ => now | _ => t end.
Definition current (a : arena) (o : arena_op) : Prop :=
  match o with C_update _ _ _ _ _ _ _ seen => ar_competitions seen = ar_competitions a | _ => True end.
Inductive timely : Z → arena → list arena_op → Prop :=
| timely_nil t a : timely t a []
| timely_cons t a o os :
    t ≤ op_now o t → current a o → timely (op_now o t) (arena_step a o) os → timely t a (o :: os).

Definition within_limit (t : Z) (a : arena) : Prop := ∀ u now, t ≤ now → (length (owner_active u now a) ≤ 5)%nat.

Lemma organised_mono u now now' a a' :
  organised u now' a' ⊆ organised u now a →
  (length (owner_active u now' a') ≤ length (owner_active u now a))%nat.
Proof. intros H. rewrite !owner_active_organised. by apply subseteq_size. Qed.

Lemma competition_by_slug_Some slug a c :
  competition_by_slug slug a = Some c → co_slug c = slug ∧ ∃ k, ar_competitions a !! k = Some c.
Proof.
  unfold competition_by_slug. destruct (list_find _ _) as [[i [k d]]|] eqn:E; [|done]. cbn. intros [= <-].
  apply list_find_Some in E as (E & Hs & _). split; [done|]. exists k.
  by apply elem_of_map_to_list, list_elem_of_lookup_2 with i.
Qed.

Lemma limit_effect t a o a' :
  arena_ok a → within_limit t a → t ≤ op_now o t → current a o → effect o a a' → within_limit (op_now o t) a'.
Proof.
  intros Hok Hl Ht Hcur Heff u now Hnow.
  destruct Heff as [->|c Ec Hp _ _ _ _ _ _ _ _|c u' j i Hc -> _|_ id _ _ Ec _ _ _ _].
  - apply Hl. lia.
  - unfold provenance in Hp. destruct (ar_competitions a !! co_id c) as [d|] eqn:Ed.
    + destruct Hp as (_ & Hown & Hends). etransitivity; [|apply (Hl u (op_now o t)); lia].
      apply organised_mono. intros k. rewrite !elem_of_organised, Ec.
      intros (e & [[<- <-]|[Hne He]]%lookup_insert_Some & Ho & Hlt).
      * exists d. split_and!; [done|congruence|]. destruct Hends as [E|(fr & n & n' & v & role & slug & inp & seen & -> & s & Es & Eid & Hstart)].
        -- rewrite <- E. lia.
        -- cbn in *. apply competition_by_slug_Some in Es as [_ [k Hk]]. rewrite Hcur in Hk.
           destruct (ak_row _ Hok _ _ Hk) as (<- & Hs & _). rewrite Eid, Ed in Hk. injection Hk as <-. lia.
      * exists e. split_and!; [done|done|lia].
    + destruct (decide (co_ownerId c = Some u)) as [Eu|Eu].
      * rewrite Eu in Hp. destruct Hp as (id & fr & n & j & inp & seen & -> & Hlt). cbn in *.
        rewrite !owner_active_organised in *.
        assert (organised u now a' ⊆ {[co_id c]} ∪ organised u n a) as Hsub.
        { intros k. rewrite elem_of_union, elem_of_singleton, !elem_of_organised, Ec.
          intros (e & [[<- <-]|[Hne He]]%lookup_insert_Some & Ho & He'); [by left|right].
          exists e. split_and!; [done|done|lia]. }
        apply subseteq_size in Hsub. pose proof (size_union_alt {[co_id c]} (organised u n a)) as Hsz.
        rewrite size_singleton in Hsz. assert (organised u n a ∖ {[co_id c]} ⊆ organised u n a) as Hd by apply subseteq_difference_l, reflexivity.
        apply subseteq_size in Hd. lia.
      * etransitivity; [|apply (Hl u now); lia]. apply organised_mono. intros k. rewrite !elem_of_organised, Ec.
        intros (e & [[<- <-]|[Hne He]]%lookup_insert_Some & Ho & He'); [done|by exists e].
  - apply Hl. lia.
  - etransitivity; [|apply (Hl u now); lia]. apply organised_mono. intros k. rewrite !elem_of_organised, Ec.
    intros (e & [_ He]%lookup_delete_Some & Ho). by exists e.
Qed.

(** The limit of an organiser.  Along every run whose clock does not go back, in which an update
    has read the competition it changes as it is, nobody ever manages more than five competitions
    that have not ended: moving a competition's end does not make room. *)
Lemma organiser_limit t a os u now :
  arena_ok a → within_limit t a → timely t a os → foldl (λ t o, op_now o t) t os ≤ now →
  (length (owner_active u now (arena_run a os)) ≤ 5)%nat.
Proof.
  intros Hok Hl Hrun. revert Hok Hl. induction Hrun as [t a|t a o os Ht Hcur _ IH]; intros Hok Hl Hnow.
  - by apply Hl.
  - apply IH; [|by eapply limit_effect, arena_effect|done]. by eapply arena_ok_effect, arena_effect.
Qed.

(** ** Participants *)

Definition deletes (id : rowid) (o : arena_op) : bool :=
  match o with C_delete _ id' _ => bool_decide (id' = id) | _ => false end.

(** [a'] still has the competition [id] of [a], its registrations, the users and the inboxes. *)
Record keeps (id : rowid) (a a' : arena) : Prop := {
  ke_row : ∀ c, ar_competitions a !! id = Some c →
    ∃ c', ar_competitions a' !! id = Some c' ∧ co_slug c' = co_slug c;
  ke_joined : ∀ u t, ar_registrations a !! (id, u) = Some t → ar_registrations a' !! (id, u) = Some t;
  ke_inbox : ar_inbox a ⊆ ar_inbox a';
  ke_users : ar_users a' = ar_users a
}.
#[export] Instance keeps_preorder id : PreOrder (keeps id).
Proof.
  split.
  - intros a. split; eauto.
  - intros a b c [R1 J1 I1 U1] [R2 J2 I2 U2]. split; [|by auto|by transitivity (ar_inbox b)|congruence].
    intros x (y & Hy & Ey)%R1. apply R2 in Hy as (z & Hz & Ez). exists z. split; congruence.
Qed.

Lemma effect_keeps id o a a' : arena_ok a → deletes id o = false → effect o a a' → keeps id a a'.
Proof.
  intros Hok Hd Heff.
  destruct Heff as [->|c Ec Hp _ _ _ _ Hsub _ Ei Eu|c u j i Hc -> Hi|actor k seen -> Ec _ Eg Ei Eu]; [done| | |].
  - split; [|intros u t Ht; by eapply lookup_weaken|by rewrite Ei|done].
    intros d Hd'. rewrite Ec. destruct (decide (co_id c = id)) as [<-|Hne].
    + rewrite lookup_insert_eq. exists c. split; [done|]. unfold provenance in Hp. rewrite Hd' in Hp. by destruct Hp.
    + rewrite lookup_insert_ne by done. by exists d.
  - split; cbn; [by eauto| |done|done]. intros v t Ht. destruct (decide ((co_id c, u) = (id, v))) as [E|Hne].
    + injection E as <- <-. by rewrite lookup_insert_eq, Ht.
    + by rewrite lookup_insert_ne.
  - apply bool_decide_eq_false in Hd. split; [| |by rewrite Ei|done].
    + intros c Hc. exists c. by rewrite Ec, lookup_delete_ne.
    + intros u t Ht. rewrite Eg. apply map_lookup_filter_Some. cbn. auto.
Qed.

Lemma run_keeps id a os : arena_ok a → forallb (negb ∘ deletes id) os = true → keeps id a (arena_run a os).
Proof.
  revert a. induction os as [|o os IH]; intros a Hok; [done|]. cbn. intros [Hd Hos]%andb_true_iff.
  apply negb_true_iff in Hd. assert (Ho := arena_effect a o Hok).
  transitivity (arena_step a o); [by eapply effect_keeps|]. apply IH; [by eapply arena_ok_effect|done].
Qed.

Lemma register_Ok nid now joinedAt u slug a t a' :
  register nid now joinedAt u slug a = (Ok t, a') →
  ∃ c p, published_by_slug slug a = Some c ∧ now < co_endsAt c ∧ ar_users a !! u = Some p ∧
    t = default joinedAt (ar_registrations a !! (co_id c, u)) ∧
    a' = set_inbox (if cp_notifications p then notify (registration_notice nid joinedAt u c) (ar_inbox a) else ar_inbox a)
           (set_registrations (<[(co_id c, u) := t]> (ar_registrations a)) a).
Proof.
  intros E%transaction_Ok. apply bind_Ok in E as (b & b' & E1 & E). apply gets_Ok in E1 as [-> ->].
  destruct (published_by_slug slug a) as [c|]; [|discriminate E].
  apply bind_Ok in E as (v & b & E1 & E). apply raise_if_Ok in E1 as [Hnow ->]. apply Z.leb_gt in Hnow.
  destruct (ar_users a !! u) as [p|]; [|discriminate E]. cbv zeta in E.
  apply bind_Ok in E as (v1 & b & E1 & E). apply modify_Ok in E1. subst b.
  apply bind_Ok in E as (v2 & b & E1 & E). apply mret_Ok in E as [-> ->]. exists c, p. split_and!; [done..|].
  destruct (cp_notifications p); [by apply modify_Ok in E1|]. by apply mret_Ok in E1 as [_ ->].
Qed.

(** The notice is there, or one with its key. *)
Lemma notify_stored n i : i !! no_id n = None → ∃ k m, notify n i !! k = Some m ∧ (m = n ∨ duplicate n m = true).
Proof.
  intros Hn. unfold notify. rewrite bool_decide_eq_false_2 by (rewrite Hn; by intros []). cbn.
  destruct (existsb _ _) eqn:E.
  - apply existsb_exists in E as ([k m] & Hm%list_elem_of_In%elem_of_map_to_list & Hd). by exists k, m; auto.
  - exists (no_id n), n. rewrite lookup_insert_eq. auto.
Qed.
Lemma notify_again n i k m : i !! k = Some m → duplicate n m = true → notify n i = i.
Proof.
  intros Hk Hd. unfold notify. destruct (bool_decide _); [done|]. cbn.
  assert (existsb (λ r, duplicate n r.2) (map_to_list i) = true) as ->; [|done].
  apply existsb_exists. exists (k, m). split; [|done]. by apply list_elem_of_In, elem_of_map_to_list.
Qed.

Lemma same_notice nid nid' j j' u c d n :
  n = registration_notice nid j u c ∨ duplicate (registration_notice nid j u c) n = true → co_id c = co_id d →
  duplicate (registration_notice nid' j' u d) n = true.
Proof.
  intros Hn E. unfold duplicate in *. cbn in *. rewrite <- E. destruct Hn as [->|Hn]; cbn.
  - by rewrite !bool_decide_eq_true_2.
  - exact Hn.
Qed.

(** Registration.  Once a user has registered, registering again, after any further operations
    that do not delete the competition, changes nothing at all and answers with the first time of
    joining, unless the competition has closed or is unpublished. *)
Lemma registered_once a nid now joinedAt u slug c t os nid' now' joinedAt' :
  arena_ok a → ar_inbox a !! nid = None → published_by_slug slug a = Some c →
  (register nid now joinedAt u slug a).1 = Ok t → forallb (negb ∘ deletes (co_id c)) os = true →
  let b := arena_run (register nid now joinedAt u slug a).2 os in
  (register nid' now' joinedAt' u slug b).2 = b ∧
  ((register nid' now' joinedAt' u slug b).1 = Ok t ∨
   (register nid' now' joinedAt' u slug b).1 = Err (ApiError 409 "REGISTRATION_CLOSED" None) ∨
   (register nid' now' joinedAt' u slug b).1 = Err not_found).
Proof.
  intros Hok Hnid Hc Hreg Hos b.
  destruct (register nid now joinedAt u slug a) as [r a1] eqn:E1. cbn in Hreg. subst r.
  assert (Hok1 : arena_ok a1).
  { eapply arena_ok_effect; [exact Hok|]. pose proof (effect_register nid now joinedAt u slug a Hok) as He.
    by rewrite E1 in He. }
  pose proof (run_keeps _ _ _ Hok1 Hos) as [Hrow Hjoin Hin Hus]. change (arena_run a1 os) with b in *.
  assert (Hokb : arena_ok b) by by apply arena_ok_run.
  apply register_Ok in E1 as (c' & p & Ec & _ & Hu & Et & ->). rewrite Hc in Ec. injection Ec as <-.
  cbn in Hrow, Hjoin, Hin, Hus.
  destruct (published_by_slug_Some _ _ _ Hc) as (Hs & _ & k & Hk). destruct (ak_row _ Hok _ _ Hk) as (<- & _).
  destruct (Hrow c Hk) as (d & Hd & Es). specialize (Hjoin u t). rewrite lookup_insert_eq in Hjoin.
  specialize (Hjoin eq_refl). unfold register, transaction.
  destruct (published_by_slug slug b) as [d'|] eqn:Ed.
  2: { cbv [the_arena gets mbind tx_bind]. rewrite Ed. cbn. auto. }
  destruct (published_by_slug_Some _ _ _ Ed) as (Hs' & _ & k' & Hk').
  assert (k' = co_id c) as -> by (apply (ak_slug _ Hokb _ _ _ _ Hk' Hd); congruence).
  destruct (ak_row _ Hokb _ _ Hk') as (Eid & _). rewrite Hk' in Hd. injection Hd as ->.
  cbv [the_arena gets mbind tx_bind raise_if throw mret tx_ret modify]. rewrite Ed.
  destruct (co_endsAt d <=? now'); cbn; [by auto|]. rewrite Hus, Hu. cbn -[notify registration_notice].
  rewrite Eid, Hjoin. cbn -[notify registration_notice].
  assert (Hsame : <[(co_id c, u) := t]> (ar_registrations b) = ar_registrations b) by by apply insert_id.
  destruct (cp_notifications p); cbn -[notify registration_notice]; rewrite Hsame; [|destruct b; auto].
  destruct (notify_stored (registration_notice nid joinedAt u c) (ar_inbox a) Hnid) as (q & n & Hq & Hn).
  rewrite (notify_again _ _ q n).
  - destruct b; auto.
  - by eapply lookup_weaken.
  - by apply (same_notice nid nid' joinedAt joinedAt' u c d n Hn).
Qed.
