(* ===== verification/CompetitionViews.v ===== *)
(** * What competitions show

    The readers of [apps/api/src/competitions/competitions.ts]: the public list and page of a
    competition, the organiser's views, and the leaderboard, which hands the rows of the arena to
    [buildLeaderboard].  [now] gives the readings of the clock in the order in which the handler takes
    them. *)

From S2P Require Import Prelude Paging JsText Contracts Judge JsString RuntimePolicy Catalogue.
From S2P Require Import Publication Discussions Forum Sessions Leaderboard Notifications.
From S2P Require Import Competitions Arena.
Local Open Scope Z_scope.

(** [orderBy: {x: 'asc'}] on a number. *)
Definition by_key {A} (f : A → Z) (a b : A) : Prop := f a ≤ f b.
#[export] Instance by_key_dec {A} (f : A → Z) : RelDecision (by_key f).
Proof. intros a b. unfold by_key. apply _. Defined.

Definition registrations_of (a : arena) (id : rowid) : list (rowid * Z) :=
  (λ r, (r.1.2, r.2)) <$> filter (λ r, r.1.1 = id) (map_to_list (ar_registrations a)).

(** ** Lists *)

Record ListedCompetition := mkListed {
  li_id : rowid; li_slug : jsstr; li_kind : CompetitionKind; li_title : jsstr; li_description : jsstr;
  li_prizeLabel : option jsstr; li_startsAt : Z; li_endsAt : Z; li_status : CompetitionStatus;
  li_registrations : nat; li_rounds : nat
}.
Definition listed (a : arena) (now : Z) (c : CompetitionRow) : ListedCompetition :=
  mkListed (co_id c) (co_slug c) (co_kind c) (co_title c) (co_description c) (co_prizeLabel c) (co_startsAt c)
    (co_endsAt c) (status (co_startsAt c) (co_endsAt c) now) (length (registrations_of a (co_id c)))
    (length (rounds_of a (co_id c))).
Definition of_kind (kind : option CompetitionKind) (c : CompetitionRow) : bool :=
  match kind with Some k => bool_decide (co_kind c = k) | None => true end.
Definition list_competitions (kind : option CompetitionKind) (now : nat → Z) (a : arena) : list ListedCompetition :=
  imap (λ i, listed a (now i))
    (merge_sort (oldest co_startsAt co_id)
       (filter (λ c, co_published c && of_kind kind c = true) (map_to_list (ar_competitions a)).*2)).

Record OwnCompetition := mkOwn {
  ow_id : rowid; ow_slug : jsstr; ow_kind : CompetitionKind; ow_title : jsstr; ow_published : bool;
  ow_startsAt : Z; ow_endsAt : Z; ow_status : CompetitionStatus; ow_registrations : nat; ow_rounds : nat
}.
Definition own (a : arena) (now : Z) (c : CompetitionRow) : OwnCompetition :=
  mkOwn (co_id c) (co_slug c) (co_kind c) (co_title c) (co_published c) (co_startsAt c) (co_endsAt c)
    (status (co_startsAt c) (co_endsAt c) now) (length (registrations_of a (co_id c)))
    (length (rounds_of a (co_id c))).
Definition mine (userId : rowid) (now : nat → Z) (a : arena) : list OwnCompetition :=
  imap (λ i, own a (now i))
    (merge_sort (newest co_startsAt co_id)
       (filter (λ c, co_ownerId c = Some userId) (map_to_list (ar_competitions a)).*2)).

(** ** One competition *)

Record ShownProblem := mkShownProblem {
  sp_id : rowid; sp_slug : jsstr; sp_title : jsstr; sp_difficulty : Difficulty; sp_tags : list jsstr;
  sp_points : Z; sp_ordinal : Z
}.
Record ShownRound := mkShownRound {
  sr_id : rowid; sr_title : jsstr; sr_ordinal : Z; sr_startsAt : Z; sr_endsAt : Z; sr_status : CompetitionStatus;
  sr_problems : list ShownProblem
}.
Record CompetitionPage := mkCompetitionPage {
  pg_id : rowid; pg_slug : jsstr; pg_kind : CompetitionKind; pg_title : jsstr; pg_description : jsstr;
  pg_rulesMarkdown : jsstr; pg_prizeLabel : option jsstr; pg_startsAt : Z; pg_endsAt : Z;
  pg_status : CompetitionStatus; pg_registrations : nat; pg_rounds : list ShownRound
}.

(** A problem without a current version is left out. *)
Definition shown_problem (c : catalogue) (item : rowid * Z * Z) : option ShownProblem :=
  let '(problemId, ordinal, points) := item in
  match cat_problems c !! problemId with
  | Some p =>
      match v ← pb_currentVersionId p; cat_versions c !! v with
      | Some v => Some (mkShownProblem problemId (pb_slug p) (vr_title v) (vr_difficulty v) (vr_tags v) points ordinal)
      | None => None
      end
  | None => None
  end.
Definition shown_round (c : catalogue) (now : Z) (r : RoundRow) : ShownRound :=
  mkShownRound (rn_id r) (rn_title r) (rn_ordinal r) (rn_startsAt r) (rn_endsAt r)
    (status (rn_startsAt r) (rn_endsAt r) now)
    (omap (shown_problem c) (merge_sort (by_key (λ p, p.1.2)) (rn_problems r))).
Definition competition_page (now : nat → Z) (a : arena) (c : CompetitionRow) : CompetitionPage :=
  mkCompetitionPage (co_id c) (co_slug c) (co_kind c) (co_title c) (co_description c) (co_rulesMarkdown c)
    (co_prizeLabel c) (co_startsAt c) (co_endsAt c) (status (co_startsAt c) (co_endsAt c) (now 0%nat))
    (length (registrations_of a (co_id c)))
    (imap (λ i, shown_round (ar_catalogue a) (now (S i)))
       (merge_sort (by_key rn_ordinal) (rounds_of a (co_id c)))).

Definition competition_detail (now : nat → Z) (slug : jsstr) (a : arena) : result CompetitionPage :=
  match published_by_slug slug a with
  | None => Err not_found
  | Some c => Ok (competition_page now a c)
  end.

(** The organiser's page adds who owns the competition and whether it is published. *)
Definition management (now : nat → Z) (userId : rowid) (role : Role) (slug : jsstr) (a : arena) :
    result (CompetitionPage * bool * option rowid) :=
  match managed userId role slug a with
  | Err e => Err e
  | Ok c => Ok (competition_page now a c, co_published c, co_ownerId c)
  end.

(** [orderBy: [{joinedAt: 'asc'}, {userId: 'asc'}]]. *)
Definition registrations (userId : rowid) (role : Role) (slug : jsstr) (a : arena) :
    result (list (jsstr * jsstr * Z)) :=
  match managed userId role slug a with
  | Err e => Err e
  | Ok c =>
      Ok (omap (λ r : rowid * Z, (λ u, (cp_username u, cp_displayName u, r.2)) <$> ar_users a !! r.1)
            (merge_sort (oldest snd fst) (registrations_of a (co_id c))))
  end.

(** ** Submissions and standings *)

Record ShownSubmission := mkShownSubmission {
  ss_id : rowid; ss_state : ExecutionState; ss_verdict : option Verdict; ss_language : Language;
  ss_runtimeMs : option Z; ss_memoryKiB : option Z; ss_createdAt : Z; ss_user : jsstr * jsstr; ss_round : jsstr;
  ss_problem : jsstr * jsstr
}.
Definition round_of (a : arena) (id : rowid) : option RoundRow :=
  snd <$> list_find (λ r, rn_id r = id) (ar_rounds a).
Definition in_competition (a : arena) (id : rowid) (e : RoundExecution) : bool :=
  bool_decide (re_mode e = SUBMIT)
  && match round_of a (re_roundId e) with Some r => bool_decide (rn_competitionId r = id) | None => false end.
Definition shown_submission (a : arena) (e : RoundExecution) : option ShownSubmission :=
  u ← ar_users a !! re_userId e;
  r ← round_of a (re_roundId e);
  v ← cat_versions (ar_catalogue a) !! re_versionId e;
  p ← cat_problems (ar_catalogue a) !! vr_problemId v;
  Some (mkShownSubmission (re_id e) (re_state e) (re_verdict e) (re_language e) (re_runtimeMs e) (re_memoryKiB e)
          (re_createdAt e) (cp_username u, cp_displayName u) (rn_title r) (pb_slug p, vr_title v)).
Definition submissions (userId : rowid) (role : Role) (slug : jsstr) (a : arena) : result (list ShownSubmission) :=
  match managed userId role slug a with
  | Err e => Err e
  | Ok c =>
      Ok (omap (shown_submission a)
            (take 200 (merge_sort (newest re_createdAt re_id)
                         (filter (λ e, in_competition a (co_id c) e = true) (ar_executions a)))))
  end.

Definition attempt_of (a : arena) (e : RoundExecution) : option Attempt :=
  (λ v, mkAttempt (vr_problemId v) (re_verdict e) (re_createdAt e)) <$> cat_versions (ar_catalogue a) !! re_versionId e.
Definition standing (a : arena) (id : rowid) (r : rowid * Z) : option Registration :=
  (λ u, mkRegistration (cp_username u) (cp_displayName u) r.2
          (omap (attempt_of a)
             (merge_sort (by_key re_createdAt)
                (filter (λ e, re_userId e = r.1 ∧ in_competition a id e = true) (ar_executions a)))))
  <$> ar_users a !! r.1.
Section Leaderboard.
Context (localeCompare : jsstr → jsstr → Z).
Definition competition_board (a : arena) (c : CompetitionRow) : list (Z * Entry) :=
  buildLeaderboard localeCompare
    ((λ r, (λ p : rowid * Z * Z, mkRoundProblem p.1.1 p.2) <$> rn_problems r) <$> rounds_of a (co_id c))
    (co_startsAt c) (omap (standing a (co_id c)) (registrations_of a (co_id c))).
Definition leaderboard (slug : jsstr) (a : arena) : result (list (Z * Entry)) :=
  match published_by_slug slug a with
  | None => Err not_found
  | Some c => Ok (competition_board a c)
  end.
Definition managedLeaderboard (userId : rowid) (role : Role) (slug : jsstr) (a : arena) : result (list (Z * Entry)) :=
  match managed userId role slug a with
  | Err e => Err e
  | Ok c => Ok (competition_board a c)
  end.
End Leaderboard.

(** ** A competition as it was entered *)

Lemma merge_sort_by_key {A} (f : A → Z) l : StronglySorted Z.lt (f <$> l) → merge_sort (by_key f) l = l.
Proof.
  intros Hs. apply (StronglySorted_unique_strong (by_key f)).
  - intros x y Hx Hy Hxy Hyx. rewrite merge_sort_Permutation in Hx. unfold by_key in *.
    eapply (NoDup_fmap_inj f l); [|done|done|lia].
    clear -Hs. induction l as [|a l IH]; [constructor|]. apply StronglySorted_inv in Hs as [Hs Ha].
    constructor; [|by apply IH]. intros Hin. rewrite Forall_forall in Ha. apply Ha in Hin. lia.
  - apply StronglySorted_merge_sort; intros; unfold by_key; intros ?; lia.
  - induction l as [|a l IH]; [constructor|]. apply StronglySorted_inv in Hs as [Hs Ha]. constructor; [by apply IH|].
    rewrite Forall_forall in Ha. apply Forall_forall. intros x Hx. unfold by_key.
    apply Z.lt_le_incl, Ha, list_elem_of_fmap. by exists x.
  - apply merge_sort_Permutation.
Qed.

Lemma StronglySorted_seqZ m n : StronglySorted Z.lt (seqZ m n).
Proof.
  destruct (decide (n ≤ 0)) as [Hn|Hn]; [rewrite seqZ_nil by done; constructor|].
  revert m. induction (Z.to_nat n) as [|k IH] eqn:E in n, Hn |- *; intros m; [lia|].
  rewrite seqZ_cons by lia. constructor.
  - destruct (decide (Z.pred n ≤ 0)); [rewrite seqZ_nil by lia; constructor|]. apply IH; lia.
  - apply Forall_forall. intros x Hx%elem_of_seqZ. lia.
Qed.

Definition slugs_unique (c : catalogue) : Prop :=
  ∀ k k' p p', cat_problems c !! k = Some p → cat_problems c !! k' = Some p' → pb_slug p = pb_slug p' → k = k'.

Section Entered.
Context (c : catalogue) (Huniq : slugs_unique c).

Lemma published_ids_elem slugs s k :
  (s, k) ∈ published_ids c slugs ↔
  s ∈ slugs ∧ problem_published c k = true ∧ ∃ p, cat_problems c !! k = Some p ∧ pb_slug p = s.
Proof.
  unfold published_ids. rewrite list_elem_of_fmap. split.
  - intros ([k' p] & [= -> ->] & [[Hs Hp] Hk%elem_of_map_to_list]%list_elem_of_filter). split_and!; [done..|by exists p].
  - intros (Hs & Hp & p & Hk & <-). exists (k, p). split; [done|]. apply list_elem_of_filter.
    split; [done|]. by apply elem_of_map_to_list.
Qed.

Lemma published_ids_slugs slugs : NoDup (published_ids c slugs).*1.
Proof.
  unfold published_ids. rewrite <- list_fmap_compose.
  apply NoDup_fmap_2_strong; [|apply NoDup_filter, NoDup_map_to_list].
  intros [k p] [k' p'] [_ Hk%elem_of_map_to_list]%list_elem_of_filter [_ Hk'%elem_of_map_to_list]%list_elem_of_filter E.
  cbn in E. assert (k = k') as <- by (by eapply Huniq). congruence.
Qed.

(** When as many problems are found as slugs are given, every slug has its published problem. *)
Lemma every_slug_found slugs s :
  NoDup slugs → length (published_ids c slugs) = length slugs → s ∈ slugs →
  ∃ p, problem_published c (id_of (published_ids c slugs) s) = true ∧
       cat_problems c !! id_of (published_ids c slugs) s = Some p ∧ pb_slug p = s.
Proof.
  intros Hnd Hlen Hs.
  assert ((published_ids c slugs).*1 ≡ₚ slugs) as Hperm.
  { apply submseteq_length_Permutation; [|by rewrite length_fmap, Hlen].
    apply NoDup_submseteq; [apply published_ids_slugs|].
    intros x ([y k] & -> & Hx)%list_elem_of_fmap. by apply published_ids_elem in Hx as [??]. }
  rewrite <- Hperm in Hs. apply list_elem_of_fmap in Hs as ([y k] & -> & Hk). unfold id_of.
  destruct (list_find (λ p, p.1 = (y, k).1) (published_ids c slugs)) as [[i [z q]]|] eqn:E.
  - apply list_find_Some in E as (Hi & Ez & _). apply list_elem_of_lookup_2, published_ids_elem in Hi as (_ & Hp & p & Hq & Ep).
    cbn in Ez |- *. subst z. by exists p.
  - apply list_find_None in E. rewrite Forall_forall in E. by destruct (E _ Hk).
Qed.

Lemma published_shown k p ordinal points :
  problem_published c k = true → cat_problems c !! k = Some p →
  ∃ v, shown_problem c (k, ordinal, points) = Some v ∧ sp_slug v = pb_slug p ∧ sp_points v = points ∧ sp_ordinal v = ordinal.
Proof.
  unfold problem_published, shown_problem. intros H Hk. rewrite Hk in *. cbn [mbind option_bind] in H.
  destruct (_ ≫= _) as [v|]; [|done]. by eexists.
Qed.
End Entered.

Lemma NoDup_unique l : NoDup (unique l).
Proof. unfold unique. rewrite reverse_Permutation. apply NoDup_remove_dups. Qed.
Lemma elem_of_unique l s : s ∈ unique l ↔ s ∈ l.
Proof. unfold unique. by rewrite elem_of_reverse, elem_of_remove_dups, elem_of_reverse. Qed.

(** A validated round, as it is written and shown. *)
Lemma round_shown fresh cid c input ids now i r :
  slugs_unique c → validate_rounds c input = Ok ids → ci_rounds input !! i = Some r →
  let s := shown_round c now (new_round fresh cid ids (i, r)) in
  sp_slug <$> sr_problems s = ro_problemSlugs r ∧
  Forall (λ p, sp_points p = 100) (sr_problems s).
Proof.
  intros Huniq Hv Hi. cbn -[shown_problem]. unfold validate_rounds in Hv.
  destruct (_ && _); [done|]. destruct (negb (forallb _ _)); [done|]. destruct (negb (_ =? _)%nat) eqn:En; [done|].
  apply negb_false_iff, Nat.eqb_eq in En. injection Hv as <-.
  set (slugs := unique (mjoin (ro_problemSlugs <$> ci_rounds input))) in *.
  assert (Hall : ∀ s, s ∈ ro_problemSlugs r → s ∈ slugs).
  { intros s Hs. apply elem_of_unique, list_elem_of_join. exists (ro_problemSlugs r). split; [done|].
    apply list_elem_of_fmap. exists r. split; [done|]. by eapply list_elem_of_lookup_2. }
  rewrite merge_sort_by_key; cycle 1.
  { rewrite imap_positions by done. apply StronglySorted_seqZ. }
  assert (Hnd : NoDup slugs) by apply NoDup_unique. revert Hall. clear Hi.
  generalize (ro_problemSlugs r). intros l.
  enough (∀ k, (∀ s, s ∈ l → s ∈ slugs) →
    let shown := omap (shown_problem c)
      (imap (λ o s, (id_of (published_ids c slugs) s, Z.of_nat (k + o) + 1, 100)) l) in
    sp_slug <$> shown = l ∧ Forall (λ p, sp_points p = 100) shown) as H by exact (H 0%nat).
  induction l as [|s l IH]; intros k Hall; cbn [imap omap list_omap]; [done|].
  destruct (every_slug_found c Huniq slugs s Hnd En) as (p & Hp & Hk & Es); [apply Hall; left|].
  rewrite Nat.add_0_r. destruct (published_shown c _ p (Z.of_nat k + 1) 100 Hp Hk) as (v & Ev & E1 & E2 & _).
  cbn -[shown_problem]. rewrite Ev.
  destruct (IH (S k)) as [IH1 IH2]; [intros x Hx; apply Hall; by right|].
  rewrite (imap_ext _ (λ o s, (id_of (published_ids c slugs) s, Z.of_nat (S k + o) + 1, 100))); cycle 1.
  { intros o x _. cbn. by rewrite Nat.add_succ_r. }
  split; [|by constructor]. rewrite fmap_cons, E1, Es. f_equal. exact IH1.
Qed.

Lemma by_slug_found a k c : arena_ok a → ar_competitions a !! k = Some c → competition_by_slug (co_slug c) a = Some c.
Proof.
  intros Hok Hk. unfold competition_by_slug.
  destruct (list_find _ _) as [[i [k' d]]|] eqn:E.
  - apply list_find_Some in E as (Hi & Es & _). apply list_elem_of_lookup_2, elem_of_map_to_list in Hi. cbn in *.
    assert (k' = k) as -> by exact (ak_slug _ Hok _ _ _ _ Hi Hk Es). congruence.
  - apply list_find_None in E. rewrite Forall_forall in E. destruct (E (k, c)); [by apply elem_of_map_to_list|done].
Qed.

Record created_from (id : rowid) (fresh : nat → rowid) (ids : list (jsstr * rowid)) (joinedAt : Z) (u : rowid)
    (input : CompetitionInput) (a a' : arena) : Prop := {
  cf_new : ar_competitions a !! id = None;
  cf_row : ar_competitions a' !! id = Some (competition_row id input true (Some u));
  cf_rounds : rounds_of a' id = new_round fresh id ids <$> entries (ci_rounds input);
  cf_joined : ar_registrations a' = <[(id, u) := joinedAt]> (ar_registrations a);
  cf_catalogue : ar_catalogue a' = ar_catalogue a
}.
Lemma creation_Ok id fresh now joinedAt u input seen a r a' :
  arena_ok a → create id fresh now joinedAt u input seen a = (Ok r, a') →
  ∃ ids, validate_rounds (ar_catalogue seen) input = Ok ids ∧ r = (id, ci_slug input, ci_kind input) ∧
         created_from id fresh ids joinedAt u input a a'.
Proof.
  intros Hok. unfold create. destruct (_ <? _); [done|]. destruct (_ <=? _); [done|].
  destruct (validate_rounds _ input) as [ids|] eqn:Ev; [|done]. intros H. exists ids.
  match type of H with slug_conflict (transaction ?m a) = _ =>
    destruct (transaction m a) as [[x|e] b] eqn:E; [injection H as -> ->|destruct e; cbn in H; try done; by destruct (String.eqb _ _)]
  end.
  apply transaction_Ok in E. inv_arena. guards. split_and!; [done|done|].
  destruct (rounds_replaced a (set_rounds (ar_rounds a ++ (new_round fresh id ids <$> entries (ci_rounds input))) a)
    id (new_round fresh id ids <$> entries (ci_rounds input))) as [Hr _].
  { cbn. by rewrite unused_rounds. }
  { apply new_rounds_owned. }
  split; cbn -[new_round entries]; try done. by rewrite lookup_insert_eq.
Qed.

(** C34: a competition as it was entered.  When an organiser's creation succeeds, with problems read
    from the catalogue as it is, the competition's page at once shows the details of the input, every
    round in its order with its title and times and exactly the problems listed, in their order and
    worth 100 points each, and one registration: the organiser's. *)
Theorem created_shown id fresh now joinedAt u input seen a r a' clock :
  arena_ok a → slugs_unique (ar_catalogue a) → ar_catalogue seen = ar_catalogue a →
  create id fresh now joinedAt u input seen a = (Ok r, a') →
  ∃ page, competition_detail clock (ci_slug input) a' = Ok page ∧ r = (pg_id page, pg_slug page, pg_kind page) ∧
    pg_slug page = ci_slug input ∧ pg_kind page = ci_kind input ∧ pg_title page = ci_title input ∧
    pg_description page = ci_description input ∧ pg_rulesMarkdown page = ci_rulesMarkdown input ∧
    pg_prizeLabel page = ci_prizeLabel input ∧ pg_startsAt page = ci_startsAt input ∧
    pg_endsAt page = ci_endsAt input ∧ pg_registrations page = 1%nat ∧
    ar_registrations a' !! (pg_id page, u) = Some joinedAt ∧
    (λ s, (sr_title s, sr_startsAt s, sr_endsAt s, sp_slug <$> sr_problems s)) <$> pg_rounds page
    = (λ q, (ro_title q, ro_startsAt q, ro_endsAt q, ro_problemSlugs q)) <$> ci_rounds input ∧
    sr_ordinal <$> pg_rounds page = seqZ 1 (Z.of_nat (length (ci_rounds input))) ∧
    Forall (λ s, Forall (λ p, sp_points p = 100) (sr_problems s)) (pg_rounds page).
Proof.
  intros Hok Huniq Hseen H. assert (Hok' : arena_ok a').
  { eapply arena_ok_effect; [exact Hok|].
    pose proof (effect_create id fresh now joinedAt u input seen a Hok) as He. by rewrite H in He. }
  apply creation_Ok in H as (ids & Hv & -> & [Hnew Hrow Hrounds Hjoin Hcat]); [|done]. rewrite Hseen in Hv.
  exists (competition_page clock a' (competition_row id input true (Some u))).
  assert (Hshown : pg_rounds (competition_page clock a' (competition_row id input true (Some u))) =
    imap (λ i q, shown_round (ar_catalogue a) (clock (S i)) (new_round fresh id ids (i, q))) (ci_rounds input)).
  { cbn -[shown_round new_round entries]. rewrite Hrounds, Hcat, merge_sort_by_key.
    - unfold entries. rewrite fmap_imap. apply list_eq. intros i. rewrite !list_lookup_imap.
      by destruct (ci_rounds input !! i).
    - unfold entries. rewrite fmap_imap, imap_positions by done. apply StronglySorted_seqZ. }
  assert (Hslug : competition_by_slug (ci_slug input) a' = Some (competition_row id input true (Some u)))
    by exact (by_slug_found a' id _ Hok' Hrow).
  split; [unfold competition_detail, published_by_slug; by rewrite Hslug|].
  split; [done|]. do 8 (split; [done|]). split_and!.
  - unfold competition_page, registrations_of. cbn [pg_registrations]. cbn [co_id competition_row].
    rewrite length_fmap, Hjoin, map_to_list_insert; cycle 1.
    { destruct (ar_registrations a !! (id, u)) as [t|] eqn:E; [|done].
      apply (ak_registration _ Hok) in E as [d Hd]. cbn in Hd. by rewrite Hnew in Hd. }
    rewrite filter_cons_True by done. cbn. rewrite filter_none_in; [done|].
    intros [[k v] t] Hk%elem_of_map_to_list E. cbn in E. subst k.
    apply (ak_registration _ Hok) in Hk as [d Hd]. cbn in Hd. by rewrite Hnew in Hd.
  - cbn. by rewrite Hjoin, lookup_insert_eq.
  - rewrite Hshown. apply list_eq. intros i. rewrite !list_lookup_fmap, list_lookup_imap.
    destruct (ci_rounds input !! i) as [q|] eqn:Ei; [|done]. cbn [fmap option_fmap option_map].
    destruct (round_shown fresh id (ar_catalogue a) input ids (clock (S i)) i q Huniq Hv Ei) as [Hs _].
    by rewrite Hs.
  - rewrite Hshown. by apply imap_positions.
  - rewrite Hshown. apply Forall_forall. intros s Hs. apply elem_of_lookup_imap_1 in Hs as (i & q & -> & Ei).
    by apply (round_shown fresh id (ar_catalogue a) input ids (clock (S i)) i q Huniq Hv Ei).
Qed.
