(* ===== verification/ProblemPages.v ===== *)
(** * The public list of problems ([apps/api/src/problems/problems.ts], [list])

    Pages of the published problems in the order of their ids.  The cursor is compared with, not looked
    up: it may be any id, that of a deleted problem included. *)

From S2P Require Import Prelude Paging JsText Contracts JsString RuntimePolicy Catalogue.
From S2P Require Import Publication Discussions Sessions Password Accounts Profiles.
Local Open Scope Z_scope.

Record ProblemQuery := mkProblemQuery {
  pq_cursor : option rowid; pq_difficulty : option Difficulty; pq_search : option jsstr
}.
(** [problemQuerySchema]: the search is trimmed. *)
Definition problemQuerySchema (q : ProblemQuery) : result ProblemQuery :=
  match pq_search q with
  | None => Ok q
  | Some s => if slen (trim s) <=? 100
              then Ok (mkProblemQuery (pq_cursor q) (pq_difficulty q) (Some (trim s))) else Err invalid_request
  end.

Record ProblemSummary := mkSummary {
  sm_id : rowid; sm_slug : jsstr; sm_title : jsstr; sm_difficulty : Difficulty; sm_tags : list jsstr
}.
Definition PROBLEMS : nat := 20.

Section List.
(** [contains] with [mode: 'insensitive'] in the database. *)
Context (contains : jsstr → jsstr → bool).

(** [where: {currentVersion: {is: {...}}}]; an empty search counts as none. *)
Definition version_matches (q : ProblemQuery) (v : VersionRow) : bool :=
  vr_published v
  && match pq_difficulty q with Some x => bool_decide (vr_difficulty v = x) | None => true end
  && match pq_search q with
     | Some ((_ :: _) as s) => contains s (vr_title v) || bool_decide (toLowerCase s ∈ vr_tags v)
     | _ => true
     end.
Definition shown (q : ProblemQuery) (c : catalogue) (r : rowid * ProblemRow) : option ProblemSummary :=
  v ← (id ← pb_currentVersionId r.2; cat_versions c !! id);
  if version_matches q v
  then Some (mkSummary r.1 (pb_slug r.2) (vr_title v) (vr_difficulty v) (vr_tags v)) else None.
Definition matching (q : ProblemQuery) (c : catalogue) : list ProblemSummary :=
  omap (shown q c) (map_to_list (cat_problems c)).

Definition by_id (a b : ProblemSummary) : Prop := uuid_before (sm_id a) (sm_id b).
#[global] Instance by_id_dec : RelDecision by_id.
Proof. intros a b. unfold by_id. apply _. Defined.
(** [id: {gt: cursor}]. *)
Definition after (cursor : option rowid) (s : ProblemSummary) : Prop :=
  match cursor with Some c => uuid_before c (sm_id s) ∧ c ≠ sm_id s | None => True end.
#[global] Instance after_dec c s : Decision (after c s).
Proof. unfold after. destruct c; apply _. Defined.

Definition problem_list (q : ProblemQuery) (c : catalogue) : list ProblemSummary * option rowid :=
  let rows := take (S PROBLEMS) (merge_sort by_id (filter (after (pq_cursor q)) (matching q c))) in
  let items := take PROBLEMS rows in
  (items, if (PROBLEMS <? length rows)%nat then sm_id <$> last items else None).
End List.

(** ** Every page, and none twice *)

Section Facts.
Context (contains : jsstr → jsstr → bool) (q : ProblemQuery) (c : catalogue).
Definition at_cursor (cursor : option rowid) : ProblemQuery :=
  mkProblemQuery cursor (pq_difficulty q) (pq_search q).
Abbreviation rows := (matching contains q c).

#[local] Instance by_id_total : Total by_id. Proof. intros a b. apply uuid_le_total. Qed.
#[local] Instance by_id_trans : Transitive by_id. Proof. intros a b d. apply uuid_le_trans. Qed.

Lemma shown_id r s : shown contains q c r = Some s → sm_id s = r.1.
Proof. unfold shown. intros (v & _ & H)%bind_Some. destruct (version_matches _ _ _); [|done]. by injection H as <-. Qed.

Lemma omap_ids l : (∀ r s, shown contains q c r = Some s → sm_id s = r.1) →
  NoDup (fst <$> l) → NoDup (sm_id <$> omap (shown contains q c) l).
Proof.
  intros Hid. induction l as [|r l IH]; cbn; [constructor|]. intros [Hn Hl]%NoDup_cons.
  destruct (shown contains q c r) as [s|] eqn:E; [|by apply IH]. cbn. constructor; [|by apply IH].
  rewrite (Hid _ _ E). intros (s' & Es & Hs)%list_elem_of_fmap. apply list_elem_of_omap in Hs as (r' & Hr' & E').
  destruct Hn. rewrite Es, (Hid _ _ E'). by apply list_elem_of_fmap_2.
Qed.

Lemma rows_ids : NoDup (sm_id <$> rows).
Proof. apply omap_ids; [apply shown_id|apply NoDup_fst_map_to_list]. Qed.

Lemma by_id_anti a b : a ∈ rows → b ∈ rows → by_id a b → by_id b a → a = b.
Proof.
  intros Ha Hb H1 H2. eapply (NoDup_fmap_inj sm_id); [apply rows_ids|done..|]. by apply uuid_le_antisym.
Qed.

#[local] Instance problems_pager :
  Pager sm_id (λ s, s) PROBLEMS (λ cu, Ok (problem_list contains (at_cursor cu) c)) (merge_sort by_id rows).
Proof.
  apply pager_last_item.
  - unfold problem_list. cbn [pq_cursor at_cursor]. by rewrite (filter_all_in (after None)) by done.
  - intros pre x post E. unfold problem_list. cbn [pq_cursor at_cursor]. do 3 f_equal.
    all: cycle 1.
    all: erewrite (filter_strictly by_id rows by_id_anti (NoDup_fmap_1 _ _ rows_ids) (after (Some (sm_id x))) pre x post);
      [done| |exact E].
    all: intros y Hy; unfold after, by_id; assert (x ∈ rows) as Hx
      by (rewrite <- (merge_sort_Permutation by_id), E; set_solver);
      split; (intros [? Hne]; split; [done|]); [by intros ->|intros Ei; apply Hne];
      symmetry; eapply (NoDup_fmap_inj sm_id); [apply rows_ids|done..].
Qed.

(** Following the cursors lists every published problem that matches, once, in the order of the ids, and ends. *)
Lemma problems_enumerated fuel :
  (length rows < fuel)%nat →
  follow (λ cu, Ok (problem_list contains (at_cursor cu) c)) fuel None = merge_sort by_id rows
  ∧ NoDup (sm_id <$> rows)
  ∧ (∀ s, s ∈ rows ↔ ∃ p, cat_problems c !! sm_id s = Some p ∧ shown contains q c (sm_id s, p) = Some s).
Proof.
  intros Hf. split_and!.
  - rewrite (follow_all sm_id (λ s, s) PROBLEMS _ (merge_sort by_id rows)); [by rewrite list_fmap_id|unfold PROBLEMS; lia|].
    by rewrite merge_sort_Permutation.
  - apply rows_ids.
  - intros s. unfold matching. rewrite list_elem_of_omap. split.
    + intros ([id p] & Hp%elem_of_map_to_list & Hs). pose proof (shown_id _ _ Hs) as E. cbn in E. subst id. eauto.
    + intros (p & Hp & Hs). exists (sm_id s, p). by rewrite elem_of_map_to_list.
Qed.
End Facts.
