(* ===== verification/Seed.v ===== *)
(** * The sample problem and its events ([apps/api/src/database/sample-seed.ts])

    [seed] creates the sample problem or verifies that it is still the one it created, and refreshes the
    two sample competitions: one transaction over the tables of [Catalogue.v] and [Competitions.v]. *)

From S2P Require Import Prelude Paging JsText Contracts Judge JsString RuntimePolicy Catalogue.
From S2P Require Import Publication Notifications Competitions.
Local Open Scope Z_scope.

(** ** The samples *)

(** Lines of text, each ended by a line feed. *)
Definition lines_of (l : list string) : jsstr := mjoin ((λ s, js s ++ [10]) <$> l).

Definition sampleProblemId : rowid := js "00000000-0000-4000-8000-000000000001".
Definition sampleVersionId : rowid := js "00000000-0000-4000-8000-000000000002".
Definition contestId : rowid := js "00000000-0000-4000-8000-000000000010".
Definition contestRoundId : rowid := js "00000000-0000-4000-8000-000000000011".
Definition tournamentId : rowid := js "00000000-0000-4000-8000-000000000020".
Definition tournamentRoundId : rowid := js "00000000-0000-4000-8000-000000000021".

Record SampleCase := mkSampleCase { sc_ordinal : Z; sc_visibility : Visibility; sc_input : jsstr; sc_expectedOutput : jsstr }.
#[export] Instance SampleCase_eq_dec : EqDecision SampleCase. Proof. solve_decision. Defined.
Definition cases : list SampleCase :=
  [mkSampleCase 0 PUBLIC (lines_of ["2 3"]) (lines_of ["5"]);
   mkSampleCase 1 PUBLIC (lines_of ["-2 8"]) (lines_of ["6"]);
   mkSampleCase 2 HIDDEN (lines_of ["1000000000 1000000000"]) (lines_of ["2000000000"])].

Definition sample_templates : Templates :=
  mkTemplates
    (lines_of ["import java.util.Scanner;"; "public class Solution {"; "  public static void main(String[] args) {";
               "    Scanner scanner = new Scanner(System.in);"; "    long a = scanner.nextLong();";
               "    long b = scanner.nextLong();"; "    // Print the sum."; "  }"; "}"])
    (lines_of ["import sys"; "a, b = map(int, sys.stdin.read().split())"; "# Print the sum."])
    (lines_of ["const fs = require('node:fs');";
               "const [a, b] = fs.readFileSync(0, 'utf8').trim().split(/\s+/).map(Number);"; "// Print the sum."]).
Definition sample_version : VersionRow :=
  mkVersionRow sampleVersionId sampleProblemId 1 (js "Sum Two Numbers") EASY [js "math"; js "stdin"]
    (js "Read two integers from standard input and print their sum followed by a newline.")
    [js "-1000000000 <= a, b <= 1000000000"] 2000 262144 STDIN sample_templates "EXACT_NEWLINE" false.

Record SampleEvent := mkSampleEvent {
  sv_id : rowid; sv_roundId : rowid; sv_slug : jsstr; sv_kind : CompetitionKind; sv_title : jsstr;
  sv_description : jsstr; sv_rulesMarkdown : jsstr; sv_prizeLabel : jsstr; sv_startOffsetDays : Z;
  sv_durationDays : Z; sv_roundTitle : jsstr
}.
Definition sample_events : list SampleEvent :=
  [mkSampleEvent contestId contestRoundId (js "weekend-sprint") CONTEST (js "Weekend Sprint")
     (js "A focused timed contest for practicing speed and accuracy.")
     (js "Solve the published problems during the event. Highest score wins; ties use the lowest penalty.")
     (js "1,000 XP") 7 0 (js "Main round");
   mkSampleEvent tournamentId tournamentRoundId (js "arena-open") TOURNAMENT (js "Arena Open")
     (js "A multi-round tournament that rewards consistent problem solving.")
     (js "Register before the final round ends. Scores come from accepted submissions during active tournament rounds.")
     (js "5,000 XP") 14 7 (js "Qualifier")].

(** ** The competitions *)

Definition registrations_of (a : arena) (id : rowid) : list (rowid * rowid * Z) :=
  filter (λ r, r.1.1 = id) (map_to_list (ar_registrations a)).
(** [mayReschedule]. *)
Definition mayReschedule (now : Z) (a : arena) (existing : option CompetitionRow) : bool :=
  match existing with
  | None => true
  | Some c =>
      (co_endsAt c <=? now) && (length (registrations_of a (co_id c)) =? 0)%nat
      && forallb (λ r, negb (played a r)) (rounds_of a (co_id c))
  end.

(** The two times, kept unless the event may be rescheduled. *)
Definition event_start (now : Z) (e : SampleEvent) : Z := now + sv_startOffsetDays e * 86400000.
Definition event_end (now : Z) (e : SampleEvent) : Z :=
  now + (sv_startOffsetDays e + sv_durationDays e) * 86400000 + 2 * 3600000.

Definition competition_upsert (now : Z) (e : SampleEvent) (existing : option CompetitionRow) (may : bool) : tx arena unit :=
  match existing with
  | Some c =>
      competition_put (mkCompetition (co_id c) (co_slug c) (co_kind c) (sv_title e) (sv_description e)
        (sv_rulesMarkdown e) (Some (sv_prizeLabel e)) (if may then event_start now e else co_startsAt c)
        (if may then event_end now e else co_endsAt c) true (co_ownerId c))
  | None =>
      a ← the_arena;
      _ ← raise_if (bool_decide (is_Some (ar_competitions a !! sv_id e))) (DbError "P2002");
      competition_put (mkCompetition (sv_id e) (sv_slug e) (sv_kind e) (sv_title e) (sv_description e)
        (sv_rulesMarkdown e) (Some (sv_prizeLabel e)) (event_start now e) (event_end now e) true None)
  end.

Definition round_put (r : RoundRow) : tx arena unit :=
  _ ← raise_if (rn_endsAt r <=? rn_startsAt r) (DbError "23514");
  modify (λ a, set_rounds ((λ q, if decide (rn_id q = rn_id r) then r else q) <$> ar_rounds a) a).
(** The round with ordinal 1 of the sample's id. *)
Definition round_upsert (now : Z) (e : SampleEvent) (may : bool) : tx arena unit :=
  a ← the_arena;
  match find (λ r, bool_decide (rn_competitionId r = sv_id e) && (rn_ordinal r =? 1)) (ar_rounds a) with
  | Some r =>
      round_put (mkRound (rn_id r) (rn_competitionId r) (sv_roundTitle e) (rn_ordinal r)
        (if may then event_start now e else rn_startsAt r) (if may then event_end now e else rn_endsAt r) (rn_problems r))
  | None => round_create (mkRound (sv_roundId e) (sv_id e) (sv_roundTitle e) 1 (event_start now e) (event_end now e) [])
  end.

(** [CompetitionProblem]: the references and the unique ordinal within a round. *)
Definition listed_once (l : list (rowid * Z * Z)) : list (rowid * Z * Z) :=
  if existsb (λ p, bool_decide (p.1.1 = sampleProblemId)) l
  then (λ p, if decide (p.1.1 = sampleProblemId) then (sampleProblemId, 1, 100) else p) <$> l
  else l ++ [(sampleProblemId, 1, 100)].
Definition problem_upsert (e : SampleEvent) : tx arena unit :=
  a ← the_arena;
  match find (λ r, bool_decide (rn_id r = sv_roundId e)) (ar_rounds a) with
  | None => throw (DbError "P2003")
  | Some r =>
      _ ← raise_if (existsb (λ p, negb (bool_decide (p.1.1 = sampleProblemId)) && (p.1.2 =? 1)) (rn_problems r))
            (DbError "P2002");
      _ ← raise_if (bool_decide (cat_problems (ar_catalogue a) !! sampleProblemId = None)) (DbError "P2003");
      let r' := mkRound (rn_id r) (rn_competitionId r) (rn_title r) (rn_ordinal r) (rn_startsAt r) (rn_endsAt r)
                  (listed_once (rn_problems r)) in
      modify (λ a, set_rounds ((λ q, if decide (rn_id q = rn_id r) then r' else q) <$> ar_rounds a) a)
  end.

Definition seed_event (now : Z) (e : SampleEvent) : tx arena unit :=
  a ← the_arena;
  let existing := competition_by_slug (sv_slug e) a in
  let may := mayReschedule now a existing in
  _ ← competition_upsert now e existing may;
  _ ← round_upsert now e may;
  problem_upsert e.
Definition seedCompetitions (now : Z) : tx arena unit := for_each (seed_event now) sample_events.

(** ** The problem *)

Definition case_of (t : TestRow) : SampleCase :=
  mkSampleCase (tr_ordinal t) (tr_visibility t) (tr_input t) (tr_expectedOutput t).
(** [exact], of the problem found under the slug. *)
Definition exact (c : catalogue) (id : rowid) (p : ProblemRow) : bool :=
  bool_decide (id = sampleProblemId) && bool_decide (pb_currentVersionId p = Some sampleVersionId)
  && match cat_versions c !! sampleVersionId with
     | Some v =>
         let tests := merge_sort by_ordinal (tests_of c sampleVersionId) in
         bool_decide (vr_problemId v = id) && vr_published v && String.eqb (vr_comparator v) "EXACT_NEWLINE"
         && (vr_timeMs v =? 2000) && (vr_memoryKiB v =? 262144)
         && (length tests =? length cases)%nat
         && forallb (λ p, bool_decide (case_of p.1 = p.2)) (zip tests cases)
     | None => false
     end.
Definition sample_slug : jsstr := js "sum-two-numbers".
Definition sample_row (c : catalogue) : option (rowid * ProblemRow) :=
  snd <$> list_find (λ r, pb_slug r.2 = sample_slug) (map_to_list (cat_problems c)).

Definition sample_test (fresh : nat → rowid) (e : nat * SampleCase) : TestRow :=
  mkTestRow (fresh e.1) sampleVersionId (sc_ordinal e.2) (sc_visibility e.2) (sc_input e.2) (sc_expectedOutput e.2) [].
Definition create_sample (fresh : nat → rowid) : tx catalogue unit :=
  _ ← problem_create sampleProblemId sample_slug;
  _ ← version_create sample_version;
  _ ← for_each (λ e, test_create (sample_test fresh e)) (entries cases);
  _ ← version_publish sampleVersionId;
  problem_set_current sampleProblemId (Some sampleVersionId).

Definition in_catalogue {A} (m : tx catalogue A) : tx arena A := λ a,
  match m (ar_catalogue a) with
  | Ok (x, c) => Ok (x, mkArena c (ar_users a) (ar_competitions a) (ar_rounds a) (ar_registrations a) (ar_inbox a)
                          (ar_executions a) (ar_audit a))
  | Err e => Err e
  end.

Inductive SeedResult := verified | created.
#[export] Instance SeedResult_eq_dec : EqDecision SeedResult. Proof. solve_decision. Defined.

(** [seed]: [fresh] are the ids of the tests, [now] the clock [seedCompetitions] reads. *)
Definition seed (fresh : nat → rowid) (now : Z) : tx arena SeedResult :=
  a ← the_arena;
  match sample_row (ar_catalogue a) with
  | Some (id, p) =>
      _ ← raise_if (negb (exact (ar_catalogue a) id p)) (JsError "SAMPLE_SEED_CONFLICT");
      _ ← seedCompetitions now;
      mret verified
  | None =>
      _ ← in_catalogue (create_sample fresh);
      _ ← seedCompetitions now;
      mret created
  end.

(** ** What a seed leaves behind *)

(** The sample problem stands under its slug, published as it was created. *)
Definition seeded (c : catalogue) : Prop :=
  ∃ p, sample_row c = Some (sampleProblemId, p) ∧ exact c sampleProblemId p = true.

Lemma the_arena_Ok a x a' : the_arena a = Ok (x, a') → x = a ∧ a' = a.
Proof. by intros [-> ->]%gets_Ok. Qed.
Ltac inv_seed :=
  repeat match goal with
  | H : the_arena _ = Ok _ |- _ => apply the_arena_Ok in H as [-> ->]
  | H : raise_if _ _ _ = Ok _ |- _ => apply raise_if_Ok in H as [? ->]
  | H : modify _ _ = Ok _ |- _ => apply modify_Ok in H; subst
  | _ => progress inv_tx
  end.

Lemma put_catalogue c a u a' : competition_put c a = Ok (u, a') → ar_catalogue a' = ar_catalogue a.
Proof. unfold competition_put. intros H. by inv_seed. Qed.
Lemma seed_event_catalogue now e a u a' : seed_event now e a = Ok (u, a') → ar_catalogue a' = ar_catalogue a.
Proof.
  unfold seed_event, competition_upsert, round_upsert, problem_upsert, round_put, round_create. intros H. inv_seed.
  repeat case_match; inv_seed;
    repeat match goal with H : competition_put _ _ = Ok _ |- _ => apply put_catalogue in H as <- end; done.
Qed.
Lemma seedCompetitions_catalogue now a u a' : seedCompetitions now a = Ok (u, a') → ar_catalogue a' = ar_catalogue a.
Proof.
  unfold seedCompetitions. generalize sample_events. intros l. revert a.
  induction l as [|e l IH]; intros a; cbn [for_each]; [by intros [_ ->]%mret_Ok|].
  intros (v & b & H1%seed_event_catalogue & H2%IH)%bind_Ok. by rewrite H2.
Qed.

(** The judge's view of a case. *)
Definition judged_case (j : JudgeCase) : SampleCase :=
  mkSampleCase (jc_ordinal j) (jc_visibility j) (jc_input j) (jc_expectedOutput j).

Lemma exact_cases ts :
  (length ts =? length cases)%nat && forallb (λ p, bool_decide (case_of p.1 = p.2)) (zip ts cases) = true →
  case_of <$> ts = cases.
Proof.
  intros [Hl%Nat.eqb_eq Hf]%andb_true_iff. revert Hl Hf. generalize cases. induction ts as [|t ts IH]; intros [|c l]; try done.
  cbn. intros [= Hl] [Hc%bool_decide_eq_true Hf]%andb_true_iff. rewrite Hc. f_equal. by apply IH.
Qed.

(** A seeded problem is judged by its three cases, in order, at its limits. *)
Lemma seeded_plan collate c : seeded c →
  ∃ plan, loadJudgePlan collate c sampleVersionId SUBMIT = Ok plan
    ∧ jp_timeMs plan = 2000 ∧ jp_memoryKiB plan = 262144 ∧ judged_case <$> jp_cases plan = cases.
Proof.
  intros (p & _ & He). unfold exact in He. apply andb_true_iff in He as [_ He].
  destruct (cat_versions c !! sampleVersionId) as [v|] eqn:Ev; [|done].
  repeat (apply andb_true_iff in He as [He ?]). eexists. split_and!.
  - unfold loadJudgePlan. rewrite Ev. replace (vr_published v) with true. replace (String.eqb _ _) with true. done.
  - cbn. by apply Z.eqb_eq.
  - cbn. by apply Z.eqb_eq.
  - cbn -[cases]. rewrite <- list_fmap_compose. rewrite <- (exact_cases (merge_sort by_ordinal (tests_of c sampleVersionId))).
    + by apply list_fmap_ext.
    + by apply andb_true_iff.
Qed.

(** What a creation leaves: the problem, its published version and the three tests. *)
Definition with_sample (fresh : nat → rowid) (c : catalogue) : catalogue :=
  mkCatalogue (<[sampleProblemId := mkProblemRow sample_slug (Some sampleVersionId)]> (cat_problems c))
    (<[sampleVersionId := with_published sample_version]> (cat_versions c))
    (cat_tests c ++ (sample_test fresh <$> entries cases)) (cat_executed c) (cat_contested c) (cat_audit c).

Lemma problem_create_Ok pid slug c u c' : problem_create pid slug c = Ok (u, c') →
  (∀ k p, cat_problems c !! k = Some p → pb_slug p ≠ slug)
  ∧ c' = set_problems (<[pid := mkProblemRow slug None]> (cat_problems c)) c.
Proof.
  unfold problem_create. intros H. inv_cat. apply orb_false_iff in Hck as [_ Hck]. split; [|done].
  intros k p Hp. apply (existsb_false _ _ (k, p)) in Hck; [|by apply elem_of_map_to_list].
  by apply bool_decide_eq_false in Hck.
Qed.
Lemma problem_set_current_Ok pid cur p c u c' : cat_problems c !! pid = Some p →
  problem_set_current pid cur c = Ok (u, c') →
  c' = set_problems (<[pid := mkProblemRow (pb_slug p) cur]> (cat_problems c)) c.
Proof. unfold problem_set_current. intros Hp H. inv_cat. rewrite Hp in H. by inv_cat. Qed.

Lemma create_sample_Ok fresh c u c' : create_sample fresh c = Ok (u, c') →
  (∀ k p, cat_problems c !! k = Some p → pb_slug p ≠ sample_slug) ∧ cat_versions c !! sampleVersionId = None
  ∧ c' = with_sample fresh c.
Proof.
  unfold create_sample. cbn [for_each entries imap cases compose]. intros H. inv_tx.
  repeat match goal with
  | H : problem_create _ _ _ = Ok _ |- _ => apply problem_create_Ok in H as [Hslug ->]
  | H : version_create _ _ = Ok _ |- _ => apply version_create_Ok in H as [Hv ->]
  | H : test_create _ _ = Ok _ |- _ => apply test_create_Ok in H as [-> _ _ _ _]
  | H : version_publish _ _ = Ok _ |- _ => apply version_publish_Ok in H as (v & Hpv & _ & ->)
  end.
  eapply problem_set_current_Ok in H; [|cbn; apply lookup_insert_eq]. split; [done|]. split; [exact Hv|].
  cbn in Hpv. rewrite lookup_insert_eq in Hpv. injection Hpv as <-. subst c'.
  unfold with_sample, set_problems, set_versions, set_tests. cbn -[lines_of js]. by rewrite !insert_insert_eq, <- !app_assoc.
Qed.

Lemma create_sample_seeded fresh c u c' :
  tests_owned c → create_sample fresh c = Ok (u, c') → seeded c'.
Proof.
  intros Ho (Hslug & Hv & ->)%create_sample_Ok. exists (mkProblemRow sample_slug (Some sampleVersionId)). split.
  - unfold sample_row. set (l := map_to_list _).
    assert ((sampleProblemId, mkProblemRow sample_slug (Some sampleVersionId)) ∈ l) as Hl
      by (apply elem_of_map_to_list; apply lookup_insert_eq).
    destruct (list_find_elem_of (λ r : rowid * ProblemRow, pb_slug r.2 = sample_slug) l _ Hl) as [[i [k q]] E]; [done|].
    rewrite E. apply list_find_Some in E as (E%list_elem_of_lookup_2 & Hs & _).
    apply elem_of_map_to_list in E. cbn [with_sample cat_problems] in E.
    apply lookup_insert_Some in E as [[<- <-]|[_ E]]; [done|]. by destruct (Hslug k q).
  - assert (tests_of (with_sample fresh c) sampleVersionId = sample_test fresh <$> entries cases) as Ht.
    { unfold tests_of. cbn [with_sample cat_tests]. rewrite filter_app.
      rewrite (filter_none_in _ (cat_tests c)); [apply filter_all_in|].
      - intros t (e & -> & _)%list_elem_of_fmap. done.
      - intros t Hin E. destruct (Ho t Hin) as [v Hq]. by rewrite E, Hv in Hq. }
    unfold exact. rewrite Ht. cbn [with_sample cat_versions]. rewrite lookup_insert_eq. reflexivity.
Qed.

Lemma in_catalogue_Ok {A} (m : tx catalogue A) a x a' :
  in_catalogue m a = Ok (x, a') → m (ar_catalogue a) = Ok (x, ar_catalogue a').
Proof. unfold in_catalogue. destruct (m (ar_catalogue a)) as [[y c]|]; [|done]. by intros [= -> <-]. Qed.

(** A seed that succeeds leaves the sample problem as it was first created, whatever the tables held: it
    created it, or found every part that the judge reads unchanged and left the catalogue alone. *)
Lemma seed_seeded fresh now a r a' :
  tests_owned (ar_catalogue a) → seed fresh now a = Ok (r, a') →
  seeded (ar_catalogue a') ∧ (r = verified → ar_catalogue a' = ar_catalogue a).
Proof.
  intros Ho. unfold seed. intros H. inv_seed.
  destruct (sample_row (ar_catalogue a)) as [[id p]|] eqn:E; inv_seed.
  - match goal with H : seedCompetitions _ _ = Ok _ |- _ => apply seedCompetitions_catalogue in H as -> end.
    split; [|done]. match goal with H : negb _ = false |- _ => apply negb_false_iff in H as He end.
    assert (id = sampleProblemId) as -> by (unfold exact in He; by apply andb_true_iff in He as [[?%bool_decide_eq_true _]%andb_true_iff _]).
    by exists p.
  - match goal with H : seedCompetitions _ _ = Ok _ |- _ => apply seedCompetitions_catalogue in H as -> end.
    match goal with H : in_catalogue _ _ = Ok _ |- _ => apply in_catalogue_Ok in H end.
    split; [|done]. by eapply create_sample_seeded.
Qed.
