(* ===== verification/Administration.v ===== *)
(** * The administration pages ([apps/api/src/admin/admin.ts])

    What the administrators' pages read: the overview, the lists of users, submissions, problems and
    competitions, a problem's detail, and the roles the controller's routes require.  The operations
    that write are with their components. *)

From S2P Require Import Prelude Paging JsText Contracts Judge Database Executions JsString.
From S2P Require Import RuntimePolicy Catalogue Discussions Sessions Password Accounts Profiles.
From S2P Require Import Competitions.
Local Open Scope Z_scope.

Definition invalid_cursor : error := ApiError 400 "INVALID_CURSOR" None.

(** ** The overview *)

Record Overview := mkOverview {
  ov_users : nat; ov_submissionsToday : nat; ov_publishedProblems : nat; ov_moderationPending : nat;
  ov_activeExecutions : nat; ov_recent : list Execution
}.
Definition executions_of (d : profiles) : list Execution := (map_to_list (pd_executions d)).*2.
Definition submitted (d : profiles) : list Execution := filter (λ e, e_mode e = SUBMIT) (executions_of d).
Definition current_ids (c : catalogue) : list rowid :=
  omap (λ r : rowid * ProblemRow, pb_currentVersionId r.2) (map_to_list (cat_problems c)).
Definition running (e : Execution) : bool := bool_decide (e_state e ∈ [QUEUED; COMPILING; RUNNING]).

(** [overview], its rows as they are stored. *)
Definition overview (now : Z) (d : profiles) (f : forum) : Overview :=
  let today := day_of now * DAY in
  mkOverview (size (ac_users (pd_accounts d)))
    (length (filter (λ e, today ≤ createdAt e) (submitted d)))
    (length (filter (λ r : rowid * VersionRow, vr_published r.2 = true ∧ r.1 ∈ current_ids (pd_catalogue d))
               (map_to_list (cat_versions (pd_catalogue d)))))
    (length (filter (λ r : rowid * ReportRow, rr_status r.2 = PENDING) (map_to_list (fo_reports f))))
    (length (filter (λ e, running e = true) (executions_of d)))
    (take 8 (merge_sort (newest createdAt e_id) (submitted d))).

(** ** Users *)

Inductive RestrictionFilter := F_ACTIVE | F_SUSPENDED | F_BANNED.
Record UserQuery := mkUserQuery {
  uq_cursor : option rowid; uq_search : option jsstr; uq_role : option Role; uq_restriction : option RestrictionFilter
}.
(** [userQuery]: the search is trimmed and bounded. *)
Definition userQuery (q : UserQuery) : result UserQuery :=
  match uq_search q with
  | None => Ok q
  | Some s => if len_in 2 100 (trim s)
              then Ok (mkUserQuery (uq_cursor q) (Some (trim s)) (uq_role q) (uq_restriction q))
              else Err invalid_request
  end.
Definition restriction_where (now : Z) (f : option RestrictionFilter) (u : User) : bool :=
  let banned := bool_decide (is_Some (us_bannedAt (ur_row u))) in
  match f with
  | None => true
  | Some F_BANNED => banned
  | Some F_SUSPENDED =>
      negb banned && match us_suspendedUntil (ur_row u) with Some until => now <? until | None => false end
  | Some F_ACTIVE =>
      negb banned && match us_suspendedUntil (ur_row u) with Some until => until <=? now | None => true end
  end.

Record UserItem := mkUserItem {
  ui_id : rowid; ui_username : jsstr; ui_displayName : jsstr; ui_role : Role; ui_joinedAt : Z;
  ui_submissions : nat; ui_restriction : option Restriction
}.

Section Users.
(** [contains] with [mode: 'insensitive'] in the database. *)
Context (contains : jsstr → jsstr → bool).

Definition email_of (a : accounts) (id : rowid) : option jsstr :=
  (λ r, cr_email r.2.2) <$> list_find (λ r : rowid * Credential, cr_userId r.2 = id) (map_to_list (ac_credentials a)).
Definition search_where (a : accounts) (search : option jsstr) (r : rowid * User) : bool :=
  match search with
  | None => true
  | Some s => contains s (us_username (ur_row r.2)) || contains s (pf_displayName (ur_profile r.2))
              || match email_of a r.1 with Some e => contains s e | None => false end
  end.
Definition user_where (now : Z) (q : UserQuery) (a : accounts) (r : rowid * User) : Prop :=
  match uq_role q with Some role => us_role (ur_row r.2) = role | None => True end
  ∧ search_where a (uq_search q) r = true ∧ restriction_where now (uq_restriction q) r.2 = true.
#[global] Instance user_where_dec now q a r : Decision (user_where now q a r).
Proof. unfold user_where. destruct (uq_role q); apply _. Defined.

Definition user_item (now : Z) (d : profiles) (r : rowid * User) : UserItem :=
  mkUserItem r.1 (us_username (ur_row r.2)) (pf_displayName (ur_profile r.2)) (us_role (ur_row r.2))
    (ur_createdAt r.2) (length (filter (λ e, x_userId (e_req e) = r.1) (executions_of d)))
    (restriction_of now (ur_row r.2)).
Definition joined (r : rowid * User) : Z := ur_createdAt r.2.

Definition users (now : Z) (q : UserQuery) (d : profiles) : result (list UserItem * option rowid) :=
  let a := pd_accounts d in
  let boundary := c ← uq_cursor q; u ← ac_users a !! c; Some (c, u) in
  if bool_decide (is_Some (uq_cursor q)) && negb (bool_decide (is_Some boundary)) then Err invalid_cursor else
  Ok (page_of fst (user_item now d) 20
        (query_before joined fst 20 boundary (filter (user_where now q a) (map_to_list (ac_users a))))).
End Users.

(** ** Submissions *)

Record AdminSubmission := mkAdminSubmission {
  as_id : uuid; as_language : Language; as_state : ExecutionState; as_verdict : option Verdict;
  as_runtimeMs : option Z; as_memoryKiB : option Z; as_failureCode : option ExecutionFailureCode; as_createdAt : Z;
  as_user : option (jsstr * jsstr); as_problem : option (jsstr * jsstr)
}.
Definition submission_item (d : profiles) (e : Execution) : AdminSubmission :=
  mkAdminSubmission (e_id e) (x_language (e_req e)) (e_state e) (e_verdict e) (e_runtimeMs e) (e_memoryKiB e)
    (e_failureCode e) (createdAt e)
    (u ← ac_users (pd_accounts d) !! x_userId (e_req e);
     Some (us_username (ur_row u), pf_displayName (ur_profile u)))
    (v ← version_of d e; p ← cat_problems (pd_catalogue d) !! vr_problemId v; Some (pb_slug p, vr_title v)).
Definition submissions (cursor : option uuid) (d : profiles) : result (list AdminSubmission * option uuid) :=
  let boundary := c ← cursor; pd_executions d !! c in
  if bool_decide (is_Some cursor) && negb (bool_decide (is_Some boundary)) then Err invalid_cursor else
  Ok (page_of e_id (submission_item d) 50 (query_before createdAt e_id 50 boundary (submitted d))).

(** ** Problems *)

Record AdminProblem := mkAdminProblem {
  ap_id : rowid; ap_slug : jsstr; ap_version : option (VersionRow * nat * bool)
}.
(** [versions: {orderBy: {number: 'desc'}, take: 1}]. *)
Definition newer (a b : VersionRow) : Prop := vr_number b ≤ vr_number a.
#[export] Instance newer_dec : RelDecision newer.
Proof. intros a b. unfold newer. apply _. Defined.
Definition newest_version (c : catalogue) (problemId : rowid) : option VersionRow :=
  head (merge_sort newer (filter (λ v, vr_problemId v = problemId) (map_to_list (cat_versions c)).*2)).
Definition executions_with (d : profiles) (v : VersionRow) : nat :=
  length (filter (λ e, x_problemVersionId (e_req e) = vr_id v) (executions_of d)).
(** An entry of [problems]: whether the version shown is the current one. *)
Definition problem_entry (d : profiles) (r : rowid * ProblemRow) : AdminProblem :=
  let c := pd_catalogue d in
  let current := v ← pb_currentVersionId r.2; cat_versions c !! v in
  let version := match newest_version c r.1 with Some v => Some v | None => current end in
  mkAdminProblem r.1 (pb_slug r.2)
    ((λ v, (v, executions_with d v, bool_decide (vr_id <$> current = Some (vr_id v)))) <$> version).

(** [problems], newest first; the catalogue leaves out when a problem was created. *)
Definition problems (created : rowid → Z) (d : profiles) : list AdminProblem :=
  problem_entry d <$> merge_sort (newest (λ r : rowid * ProblemRow, created r.1) fst) (map_to_list (cat_problems (pd_catalogue d))).

Record AdminProblemDetail := mkAdminProblemDetail {
  ad_id : rowid; ad_slug : jsstr; ad_currentVersionId : option rowid; ad_version : VersionRow; ad_tests : list TestRow
}.
Definition test_order (a b : TestRow) : Prop := tr_ordinal a ≤ tr_ordinal b.
#[export] Instance test_order_dec : RelDecision test_order.
Proof. intros a b. unfold test_order. apply _. Defined.
(** [problem]: its newest version with every test, hidden ones included. *)
Definition problem (id : rowid) (c : catalogue) : result AdminProblemDetail :=
  match p ← cat_problems c !! id; v ← newest_version c id; Some (p, v) with
  | None => Err not_found
  | Some (p, v) =>
      Ok (mkAdminProblemDetail id (pb_slug p) (pb_currentVersionId p) v
            (merge_sort test_order (filter (λ t, tr_problemVersionId t = vr_id v) (cat_tests c))))
  end.

(** ** Competitions *)

Record AdminCompetition := mkAdminCompetition {
  ac_id : rowid; ac_slug : jsstr; ac_kind : CompetitionKind; ac_title : jsstr; ac_published : bool;
  ac_startsAt : Z; ac_endsAt : Z; ac_rounds : nat; ac_registered : nat
}.
Definition competition_entry (a : arena) (r : rowid * CompetitionRow) : AdminCompetition :=
  let c := r.2 in
  mkAdminCompetition r.1 (co_slug c) (co_kind c) (co_title c) (co_published c) (co_startsAt c) (co_endsAt c)
    (length (rounds_of a r.1))
    (length (filter (λ g : rowid * rowid * Z, g.1.1 = r.1) (map_to_list (ar_registrations a)))).
Definition competitions (a : arena) : list AdminCompetition :=
  competition_entry a <$> merge_sort (newest (λ r : rowid * CompetitionRow, co_startsAt r.2) fst) (map_to_list (ar_competitions a)).

(** ** The routes and their roles *)

Inductive AdminRoute :=
| A_overview | A_analytics | A_analyticsExport | A_users | A_submissions | A_problems | A_problem | A_moderation
| A_competitions | A_setRole | A_restrict | A_bulkResolveReports | A_resolveReport | A_moderate | A_createProblem
| A_editProblem | A_setProblemPublication | A_deleteProblem | A_createCompetition | A_setCompetitionPublication
| A_deleteCompetition.
(** [RequireRoles]: a mark on a method takes the place of the class's. *)
Definition method_roles (r : AdminRoute) : option (list Role) :=
  match r with
  | A_moderation | A_bulkResolveReports | A_resolveReport | A_moderate => Some [R_ADMIN; R_MODERATOR]
  | _ => None
  end.
Definition route_roles (r : AdminRoute) : list Role := default [R_ADMIN] (method_roles r).

(** The guards of a route of [AdminController]. *)
Definition enter (sha256 : jsstr → jsstr) (hmac : jsstr → jsstr → jsstr) (origin : jsstr) (now now' now'' : Z)
    (db : sessions) (req : Request) (r : AdminRoute) : result Principal :=
  guarded sha256 hmac origin false (route_roles r) now now' now'' db req.

(** * The administrators' lists are complete, and theirs

    Following the cursors of the lists of users and of submissions; who passes the guards. *)


(** A page computed from one row more is the page of all remaining rows. *)
Lemma page_of_take {A B} (key : A → list Z) (item : A → B) size (rest : list A) :
  page_of key item size (take (S size) rest) = page_of key item size rest.
Proof. unfold page_of. rewrite take_take, Nat.min_l, size_take by lia. done. Qed.

(** A list that pages the rows of a filter, newest first, and looks its cursor up among all rows. *)
Section Listing.
Context {A B : Type} (time : A → Z) (id : A → rowid) (item : A → B) (size : nat).
Context (fetch : option rowid → result (list B * option rowid)) (rows : list A).
Context (Hnd : NoDup (id <$> rows)).
Context (Hfirst : fetch None = Ok (page_of id item size (query_before time id size None rows))).
Context (Hnext : ∀ x, x ∈ rows → fetch (Some (id x)) = Ok (page_of id item size (query_before time id size (Some x) rows))).

#[local] Instance listing_pager : Pager id item size fetch (merge_sort (newest time id) rows).
Proof.
  split.
  - by rewrite Hfirst, query_before_first, page_of_take.
  - intros pre c post E. rewrite Hnext.
    + by rewrite (query_before_next _ _ _ Hnd _ _ _ _ E), page_of_take.
    + assert (c ∈ merge_sort (newest time id) rows) as Hc by (rewrite E; set_solver).
      by rewrite merge_sort_Permutation in Hc.
Qed.

Lemma listing_follow fuel : (0 < size)%nat → (length rows < fuel)%nat →
  follow fetch fuel None = item <$> merge_sort (newest time id) rows.
Proof.
  intros Hs Hf. apply (follow_all id item size); [apply _|done|]. by rewrite merge_sort_Permutation.
Qed.
End Listing.

Section Lists.
Context (contains : jsstr → jsstr → bool) (now : Z) (d : profiles).
Context (Hkey : ∀ k e, pd_executions d !! k = Some e → e_id e = k).

Definition matching_users (q : UserQuery) : list (rowid * User) :=
  filter (user_where contains now q (pd_accounts d)) (map_to_list (ac_users (pd_accounts d))).
Definition with_cursor (c : option rowid) (q : UserQuery) : UserQuery :=
  mkUserQuery c (uq_search q) (uq_role q) (uq_restriction q).

Lemma matching_ids q : NoDup (fst <$> matching_users q).
Proof. apply (sublist_NoDup _ (fst <$> map_to_list (ac_users (pd_accounts d)))); [apply NoDup_fst_map_to_list|]. apply fmap_sublist, sublist_filter. Qed.

Lemma submitted_elem e : e ∈ submitted d ↔ pd_executions d !! e_id e = Some e ∧ e_mode e = SUBMIT.
Proof.
  unfold submitted, executions_of. rewrite list_elem_of_filter, list_elem_of_fmap. split.
  - intros [Hm ([k e'] & -> & Hk%elem_of_map_to_list)]. cbn in *. by rewrite (Hkey _ _ Hk).
  - intros [He Hm]. split; [done|]. exists (e_id e, e). by rewrite elem_of_map_to_list.
Qed.
Lemma submitted_ids : NoDup (e_id <$> submitted d).
Proof. apply filter_keys_NoDup. intros k e He. by rewrite (Hkey _ _ He). Qed.

(** The administrators' lists are complete.  Following the cursors of the list of users, under
    whatever search, role and restriction, lists every user that matches, once, newest first, and ends;
    following those of the list of submissions lists every submission of every user, once, newest first. *)
Lemma admin_lists_enumerated q fuel :
  (size (ac_users (pd_accounts d)) < fuel)%nat → (length (submitted d) < fuel)%nat →
  follow (λ c, users contains now (with_cursor c q) d) fuel None
    = user_item now d <$> merge_sort (newest joined fst) (matching_users q)
  ∧ NoDup (fst <$> matching_users q)
  ∧ (∀ id u, (id, u) ∈ matching_users q ↔
       ac_users (pd_accounts d) !! id = Some u ∧ user_where contains now q (pd_accounts d) (id, u))
  ∧ follow (λ c, submissions c d) fuel None
    = submission_item d <$> merge_sort (newest createdAt e_id) (submitted d)
  ∧ NoDup (e_id <$> submitted d)
  ∧ (∀ e, e ∈ submitted d ↔ pd_executions d !! e_id e = Some e ∧ e_mode e = SUBMIT).
Proof.
  intros Hu Hs. split_and!.
  - apply (listing_follow joined fst (user_item now d) 20).
    + apply matching_ids.
    + done.
    + intros [id u] [_ Hin%elem_of_map_to_list]%list_elem_of_filter. unfold users, with_cursor. cbn [uq_cursor mbind option_bind fst].
      by rewrite Hin.
    + lia.
    + eapply Nat.le_lt_trans; [|exact Hu]. unfold matching_users. rewrite length_filter. by rewrite length_map_to_list.
  - apply matching_ids.
  - intros id u. unfold matching_users. rewrite list_elem_of_filter, elem_of_map_to_list. tauto.
  - apply (listing_follow createdAt e_id (submission_item d) 50); [apply submitted_ids|done| |lia|done].
    intros e [He _]%submitted_elem. unfold submissions. cbn [mbind option_bind]. by rewrite He.
  - apply submitted_ids.
  - apply submitted_elem.
Qed.
End Lists.

(** A moderator reaches the reports and the moderation of posts, and nothing else. *)
Lemma moderator_reach sha256 hmac origin now now' now'' db req r p :
  enter sha256 hmac origin now now' now'' db req r = Ok p →
  pn_role p = R_ADMIN
  ∨ pn_role p = R_MODERATOR ∧ r ∈ [A_moderation; A_bulkResolveReports; A_resolveReport; A_moderate].
Proof.
  unfold enter, guarded. destruct (canActivate _ _ _ _ _ _ _ _ _) as [q|]; [|done].
  destruct (requireRoles _ _) as [u|] eqn:E; [|done]. intros [= <-]. unfold requireRoles, route_roles in E.
  destruct r; cbn in E; repeat case_bool_decide; set_solver.
Qed.
