(* ===== verification/SiteRoutes.v ===== *)
(** * The site's other endpoints

    The controllers of discussions, competitions, notifications, profiles and problems
    ([discussions.ts:121-154], [competitions.ts:83-103], [notifications.ts:33-41],
    [profiles.ts:129-145], [problems.ts:36-43]): for each route its method, whether the session guard
    stands before it, its schemas and the operation it runs.  Bodies come in the parsed form their
    schemas take.

    The state is that of the three parts, each with its own copy of the tables it reads; the sessions are
    those of the accounts. *)

From S2P Require Import Prelude Paging JsText Contracts Io JsString RuntimePolicy Catalogue.
From S2P Require Import Publication.
From S2P Require Import Discussions Forum Sessions Password Accounts AccountFacts Leaderboard.
From S2P Require Import Notifications.
From S2P Require Import Competitions CompetitionViews Executions Profiles ProblemPages.
Local Open Scope Z_scope.

Record site := mkSite { si_forum : forum; si_arena : arena; si_profiles : profiles }.

Definition on_forum {A} (m : site → forum → result A * forum) : io site A := λ s,
  let '(r, f) := m s (si_forum s) in (r, mkSite f (si_arena s) (si_profiles s)).
Definition on_arena {A} (m : site → arena → result A * arena) : io site A := λ s,
  let '(r, a) := m s (si_arena s) in (r, mkSite (si_forum s) a (si_profiles s)).
Definition on_inbox {A} (m : io inbox A) : io site A :=
  on_arena (λ _ a, let '(r, i) := m (ar_inbox a) in (r, set_inbox i a)).
Definition on_profiles {A} (m : profiles → result A * profiles) : io site A := λ s,
  let '(r, p) := m (si_profiles s) in (r, mkSite (si_forum s) (si_arena s) p).

(** ** Routes *)

Inductive SiteRoute :=
| ListDiscussions (slug : jsstr) (cursor : option jsstr)
| StartDiscussion (slug : jsstr) (body : CreateDiscussion)
| ListReplies (id : jsstr) (cursor : option jsstr)
| Reply (id body : jsstr)
| Like (id : jsstr)
| Unlike (id : jsstr)
| Report (id : jsstr) (body : ReportInput)
| MyReports
| ListCompetitions (kind : option CompetitionKind)
| MyCompetitions
| Manage (slug : jsstr)
| ManagedLeaderboard (slug : jsstr)
| Registrations (slug : jsstr)
| CompetitionSubmissions (slug : jsstr)
| ShowCompetition (slug : jsstr)
| ShowLeaderboard (slug : jsstr)
| MyRegistration (slug : jsstr)
| CreateCompetition (body : CompetitionInput)
| UpdateCompetition (slug : jsstr) (body : CompetitionInput)
| RegisterFor (slug : jsstr)
| ListNotifications (cursor : option jsstr)
| UnreadCount
| ReadAll
| ReadOne (id : jsstr)
| MyProfile
| EditProfile (body : UpdateProfile)
| ShowProfile (username : jsstr)
| UserLeaderboard (cursor : option jsstr)
| ListProblems (query : ProblemQuery)
| ShowProblem (slug : jsstr).

Definition route_method (r : SiteRoute) : string :=
  match r with
  | StartDiscussion _ _ | Reply _ _ | Report _ _ | CreateCompetition _ | RegisterFor _ => "POST"
  | Like _ => "PUT"
  | Unlike _ => "DELETE"
  | UpdateCompetition _ _ | ReadAll | ReadOne _ | EditProfile _ => "PATCH"
  | _ => "GET"
  end.

Inductive Answer :=
| W_posts (p : list DiscussionPost * option rowid)
| W_post (p : DiscussionPost)
| W_like (l : LikeState)
| W_receipt (r : ReportReceipt)
| W_reports (l : list ReportRow)
| W_competitions (l : list ListedCompetition)
| W_own (l : list OwnCompetition)
| W_managed (m : CompetitionPage * bool * option rowid)
| W_board (l : list (Z * Entry))
| W_registered (l : list (jsstr * jsstr * Z))
| W_submissions (l : list ShownSubmission)
| W_page (p : CompetitionPage)
| W_joined (t : option Z)
| W_competition (c : rowid * jsstr * CompetitionKind)
| W_notifications (p : list Notification * option rowid)
| W_count (n : nat)
| W_readAt (t : option Z)
| W_profile (p : PublicProfile)
| W_leaders (p : list LeaderboardEntry * option rowid)
| W_problems (p : list ProblemSummary * option rowid)
| W_problem (p : ProblemDetail).

(** What a request draws: ids of new rows and readings of the clock. *)
Record SiteDraws := mkSiteDraws { sd_id : rowid; sd_fresh : nat → rowid; sd_clk : nat → Z }.
(** What the guard reads of a request beside the method. *)
Record SiteRequest := mkSiteRequest { sr_session : option jsstr; sr_origin : option jsstr; sr_csrf : option jsstr }.

Section Site.
Context (sha256 : jsstr → jsstr) (hmac : jsstr → jsstr → jsstr) (origin : jsstr).
Context (z_uuid : jsstr → bool) (z_url : jsstr → option jsstr) (protocol : jsstr → jsstr).
Context (contains : jsstr → jsstr → bool) (localeCompare : jsstr → jsstr → Z) (name_le : jsstr → jsstr → bool).
Context (collate : relation jsstr) `{!RelDecision collate}.
Context (dr : SiteDraws) (req : SiteRequest) (seen : site).

Definition parsed {A} (o : option A) : io site A :=
  of_result match o with Some a => Ok a | None => Err invalid_request end.
Definition uuid_of (id : jsstr) : io site rowid := parsed (if z_uuid id then Some id else None).
(** [paginationSchema]. *)
Definition cursor_of (c : option jsstr) : io site (option rowid) :=
  parsed match c with None => Some None | Some id => if z_uuid id then Some (Some id) else None end.
Definition answer {A} (f : site → result A) (wrap : A → Answer) : io site Answer :=
  r ← ask f; a ← of_result r; mret (wrap a).

(** [@UseGuards(SessionGuard)]. *)
Definition signed_in (method : string) : io site Principal :=
  r ← ask (λ s, canActivate sha256 hmac origin false (sd_clk dr 0%nat) (sd_clk dr 1%nat) (sd_clk dr 2%nat)
                  (session_rows (pd_accounts (si_profiles s)))
                  (mkRequest (sr_session req) method (sr_origin req) (sr_csrf req)));
  of_result r.

(** ** Discussions *)

Definition discussion_route (r : SiteRoute) : io site Answer :=
  let clk := sd_clk dr in
  match r with
  | ListDiscussions slug cursor =>
      slug ← of_result (slugSchema slug);
      cursor ← cursor_of cursor;
      answer (λ s, list_ slug cursor (si_forum s)) W_posts
  | StartDiscussion slug body =>
      p ← signed_in (route_method r);
      slug ← of_result (slugSchema slug);
      input ← of_result (createDiscussionSchema body);
      post ← on_forum (λ _ f, Discussions.create (sd_id dr) (clk 3%nat) (clk 4%nat) slug (pn_userId p) input (si_forum seen) f);
      mret (W_post post)
  | ListReplies id cursor =>
      id ← uuid_of id;
      cursor ← cursor_of cursor;
      answer (λ s, replies id cursor (si_forum s)) W_posts
  | Reply id body =>
      p ← signed_in (route_method r);
      id ← uuid_of id;
      body ← of_result (createDiscussionReplySchema body);
      post ← on_forum (λ _ f, reply (sd_id dr) (clk 3%nat) (clk 4%nat) id (pn_userId p) body (si_forum seen) f);
      mret (W_post post)
  | Like id =>
      p ← signed_in (route_method r);
      id ← uuid_of id;
      l ← on_forum (λ _ f, like id (pn_userId p) true (si_forum seen) f);
      mret (W_like l)
  | Unlike id =>
      p ← signed_in (route_method r);
      id ← uuid_of id;
      l ← on_forum (λ _ f, like id (pn_userId p) false (si_forum seen) f);
      mret (W_like l)
  | Report id body =>
      p ← signed_in (route_method r);
      id ← uuid_of id;
      input ← of_result (reportSchema body);
      receipt ← on_forum (λ _ f, report (sd_id dr) (clk 3%nat) id (pn_userId p) input (si_forum seen) f);
      mret (W_receipt receipt)
  | _ =>
      p ← signed_in (route_method r);
      answer (λ s, Ok (reports (pn_userId p) (si_forum s))) W_reports
  end.

(** ** Competitions *)

Definition competition_route (r : SiteRoute) : io site Answer :=
  let clk := sd_clk dr in
  let organiser {A} slug (f : rowid → Role → jsstr → arena → result A) (wrap : A → Answer) : io site Answer :=
    p ← signed_in (route_method r);
    slug ← of_result (slugSchema slug);
    answer (λ s, f (pn_userId p) (pn_role p) slug (si_arena s)) wrap in
  match r with
  | ListCompetitions kind => answer (λ s, Ok (list_competitions kind clk (si_arena s))) W_competitions
  | MyCompetitions =>
      p ← signed_in (route_method r);
      answer (λ s, Ok (mine (pn_userId p) clk (si_arena s))) W_own
  | Manage slug => organiser slug (management clk) W_managed
  | ManagedLeaderboard slug => organiser slug (managedLeaderboard localeCompare) W_board
  | Registrations slug => organiser slug registrations W_registered
  | CompetitionSubmissions slug => organiser slug submissions W_submissions
  | ShowCompetition slug =>
      slug ← of_result (slugSchema slug);
      answer (λ s, competition_detail clk slug (si_arena s)) W_page
  | ShowLeaderboard slug =>
      slug ← of_result (slugSchema slug);
      answer (λ s, leaderboard localeCompare slug (si_arena s)) W_board
  | MyRegistration slug =>
      p ← signed_in (route_method r);
      slug ← of_result (slugSchema slug);
      answer (λ s, registration (pn_userId p) slug (si_arena s)) W_joined
  | CreateCompetition body =>
      p ← signed_in (route_method r);
      input ← of_result (createSchema body);
      c ← on_arena (λ _ a, Competitions.create (sd_id dr) (sd_fresh dr) (clk 3%nat) (clk 4%nat) (pn_userId p) input (si_arena seen) a);
      mret (W_competition c)
  | UpdateCompetition slug body =>
      p ← signed_in (route_method r);
      slug ← of_result (slugSchema slug);
      input ← of_result (createSchema body);
      c ← on_arena (λ _ a, Competitions.update (sd_fresh dr) (clk 3%nat) (clk 4%nat) (pn_userId p) (pn_role p) slug input (si_arena seen) a);
      mret (W_competition c)
  | RegisterFor slug =>
      p ← signed_in (route_method r);
      slug ← of_result (slugSchema slug);
      t ← on_arena (λ _ a, Competitions.register (sd_id dr) (clk 3%nat) (clk 4%nat) (pn_userId p) slug a);
      mret (W_joined (Some t))
  | _ => raise not_found
  end.

(** ** Notifications, profiles and problems *)

Definition notification_route (r : SiteRoute) : io site Answer :=
  p ← signed_in (route_method r);
  match r with
  | ListNotifications cursor =>
      cursor ← cursor_of cursor;
      answer (λ s, notifications (pn_userId p) cursor (ar_inbox (si_arena s))) W_notifications
  | UnreadCount => answer (λ s, Ok (unreadCount (pn_userId p) (ar_inbox (si_arena s)))) W_count
  | ReadAll =>
      n ← on_inbox (λ i, let '(n, i') := markAllRead (sd_clk dr 3%nat) (pn_userId p) i in (Ok n, i'));
      mret (W_count n)
  | ReadOne id =>
      id ← uuid_of id;
      t ← on_inbox (markRead (sd_clk dr 3%nat) (pn_userId p) id);
      mret (W_readAt t)
  | _ => raise not_found
  end.

Definition profile_route (r : SiteRoute) : io site Answer :=
  let clk := sd_clk dr in
  match r with
  | MyProfile =>
      p ← signed_in (route_method r);
      answer (λ s, self (clk 3%nat) (clk 4%nat) (pn_userId p) (si_profiles s)) W_profile
  | EditProfile body =>
      p ← signed_in (route_method r);
      input ← of_result (updateProfileSchema z_url protocol body);
      profile ← on_profiles (update_profile (clk 3%nat) (clk 4%nat) (pn_userId p) input);
      mret (W_profile profile)
  | ShowProfile username =>
      username ← parsed (usernameSchema username);
      answer (λ s, publicProfile (clk 3%nat) (clk 4%nat) username false (si_profiles s)) W_profile
  | UserLeaderboard cursor =>
      cursor ← cursor_of cursor;
      answer (λ s, user_leaderboard collate cursor (si_profiles s)) W_leaders
  | _ => raise not_found
  end.

Definition problem_route (r : SiteRoute) : io site Answer :=
  match r with
  | ListProblems query =>
      query ← of_result (problemQuerySchema query);
      cursor ← cursor_of (pq_cursor query);
      answer (λ s, Ok (problem_list contains (at_cursor query cursor) (fo_catalogue (si_forum s)))) W_problems
  | ShowProblem slug =>
      slug ← of_result (slugSchema slug);
      answer (λ s, detail name_le (fo_catalogue (si_forum s)) slug) W_problem
  | _ => raise not_found
  end.

Definition serve_site (r : SiteRoute) : io site Answer :=
  match r with
  | ListDiscussions _ _ | StartDiscussion _ _ | ListReplies _ _ | Reply _ _ | Like _ | Unlike _ | Report _ _ | MyReports =>
      discussion_route r
  | ListNotifications _ | UnreadCount | ReadAll | ReadOne _ => notification_route r
  | MyProfile | EditProfile _ | ShowProfile _ | UserLeaderboard _ => profile_route r
  | ListProblems _ | ShowProblem _ => problem_route r
  | _ => competition_route r
  end.

(** ** Who may change the site *)

(** What a request that changes the site has shown. *)
Definition proven (r : SiteRoute) (s : site) : Prop :=
  ∃ e u, authenticates sha256 (sd_clk dr 0%nat) (session_rows (pd_accounts (si_profiles s)))
           (mkRequest (sr_session req) (route_method r) (sr_origin req) (sr_csrf req)) e u
    ∧ restriction_of (sd_clk dr 1%nat) u = None ∧ route_method r ≠ "GET"%string
    ∧ sr_origin req = Some origin ∧ ∃ csrf, sr_csrf req = Some csrf ∧ sha256 csrf = se_csrfTokenHash e.

Lemma signed_in_proven {B} r (m : Principal → io site B) s ans s' :
  safe_method (route_method r) = false → (x ← signed_in (route_method r); m x) s = (ans, s') → s' = s ∨ proven r s.
Proof.
  intros Hm. unfold signed_in, mbind, io_bind, ask, of_result.
  destruct (canActivate _ _ _ _ _ _ _ _ _) as [p|] eqn:E; [|intros [= _ <-]; by left]. right.
  apply canActivate_Ok in E as (e & u & Ha & _ & _ & Hr & Hc). exists e, u.
  destruct (Hc Hm) as [Ho Ht]. split_and!; [done|by apply Hr| |done|done]. intros E. by rewrite E in Hm.
Qed.

(** The routes of the method GET read. *)
Lemma get_reads r : route_method r = "GET"%string → respects (=) (serve_site r).
Proof.
  destruct r; intros E; try discriminate E; cbn [serve_site];
    unfold discussion_route, competition_route, notification_route, profile_route, problem_route, signed_in, answer,
      uuid_of, cursor_of, parsed; go_io.
Qed.

(** C18: who may change the site.  A request to the discussions, competitions, notifications, profiles or
    problems leaves every table as it is, unless it belongs to a live session of an active account
    under no restriction, uses a method other than GET, and shows the site's own origin and the CSRF
    token of that session. *)
Theorem site_writes_guarded r s ans s' :
  serve_site r s = (ans, s') →
  s' = s ∨
  ∃ e u, authenticates sha256 (sd_clk dr 0%nat) (session_rows (pd_accounts (si_profiles s)))
           (mkRequest (sr_session req) (route_method r) (sr_origin req) (sr_csrf req)) e u
    ∧ restriction_of (sd_clk dr 1%nat) u = None ∧ route_method r ≠ "GET"%string
    ∧ sr_origin req = Some origin ∧ ∃ csrf, sr_csrf req = Some csrf ∧ sha256 csrf = se_csrfTokenHash e.
Proof.
  intros H. destruct (decide (route_method r = "GET"%string)) as [E|E].
  - left. pose proof (get_reads r E s) as Hs. by rewrite H in Hs.
  - destruct r; try done; cbn [serve_site] in H;
      unfold discussion_route, competition_route, notification_route, profile_route in H;
      by apply signed_in_proven in H.
Qed.
End Site.
