(* ===== verification/AdminRoutes.v ===== *)
(** * The administration's endpoints ([admin.ts:270-296])

    Every route of [AdminController]: its method, the roles it requires, the checks of its parameters and
    the operation it runs on the site.  Bodies come in the parsed form their schemas take.

    The parts of the site hold a copy each of the catalogue's tables; an operation of the catalogue reads
    the tables with what executions and rounds refer to, and its result reaches every copy, with the
    cascades of the deleted rows. *)

From S2P Require Import Prelude Paging JsText Contracts Io JsString RuntimePolicy Database.
From S2P Require Import Executions.
From S2P Require Import Catalogue Publication Discussions Forum Sessions Password Accounts.
From S2P Require Import SelfService.
From S2P Require Import AccountFacts Notifications Competitions CompetitionViews Profiles Analytics.
From S2P Require Import ProblemPages Administration SiteRoutes.
Local Open Scope Z_scope.

(** ** The catalogue the parts share *)

Definition executed_versions (s : site) : gset rowid :=
  list_to_set ((λ e, x_problemVersionId (e_req e)) <$> executions_of (si_profiles s)).
Definition contested_problems (s : site) : gset rowid :=
  list_to_set (mjoin ((λ r, (λ p, p.1.1) <$> rn_problems r) <$> ar_rounds (si_arena s))).
Definition shared (s : site) : catalogue :=
  let c := pd_catalogue (si_profiles s) in
  mkCatalogue (cat_problems c) (cat_versions c) (cat_tests c) (executed_versions s) (contested_problems s) (cat_audit c).
(** The tables of [c] with the audit trail a part keeps. *)
Definition with_audit_of (old c : catalogue) : catalogue :=
  mkCatalogue (cat_problems c) (cat_versions c) (cat_tests c) (cat_executed c) (cat_contested c) (cat_audit old).
Definition share (c : catalogue) (s : site) : site :=
  let f := si_forum s in let a := si_arena s in let d := si_profiles s in
  mkSite (cascade (Discussions.set_catalogue (with_audit_of (fo_catalogue f) c) f))
    (mkArena (with_audit_of (ar_catalogue a) c) (ar_users a) (ar_competitions a) (ar_rounds a) (ar_registrations a)
       (ar_inbox a) (ar_executions a) (ar_audit a))
    (mkProfiles (pd_accounts d) c (pd_executions d)).

Definition on_catalogue {A} (m : catalogue → result A * catalogue) : io site A := λ s,
  let '(r, c) := m (shared s) in (r, match r with Ok _ => share c s | Err _ => s end).
Definition on_accounts {A} (m : accounts → result A * accounts) : io site A := λ s,
  let d := si_profiles s in
  let '(r, a) := m (pd_accounts d) in (r, mkSite (si_forum s) (si_arena s) (mkProfiles a (pd_catalogue d) (pd_executions d))).

(** ** Routes *)

Inductive AdminAction :=
| Overview_
| GetAnalytics (days : option (option Z))
| ExportAnalytics (days : option (option Z))
| ListUsers (query : UserQuery)
| ListSubmissions (cursor : option jsstr)
| ListAdminProblems
| ShowAdminProblem (id : jsstr)
| ListReports (cursor : option jsstr) (status : option ReportStatus)
| ListAdminCompetitions
| SetRole (id : jsstr) (role : Role)
| Restrict (id : jsstr) (body : RestrictionInput)
| BulkResolveReports (body : ResolveInput) (reportIds : list rowid)
| ResolveReport (id : jsstr) (body : ResolveInput)
| Moderate (id : jsstr) (status : DiscussionStatus)
| CreateProblem (body : ProblemInput)
| EditProblem (id : jsstr) (body : ProblemInput)
| SetProblemPublication (id : jsstr) (published : bool)
| DeleteProblem (id : jsstr)
| CreateAdminCompetition (body : CompetitionInput) (published : bool)
| SetCompetitionPublication (id : jsstr) (published : bool)
| DeleteCompetition (id : jsstr).

Definition name_of (r : AdminAction) : AdminRoute :=
  match r with
  | Overview_ => A_overview
  | GetAnalytics _ => A_analytics
  | ExportAnalytics _ => A_analyticsExport
  | ListUsers _ => A_users
  | ListSubmissions _ => A_submissions
  | ListAdminProblems => A_problems
  | ShowAdminProblem _ => A_problem
  | ListReports _ _ => A_moderation
  | ListAdminCompetitions => A_competitions
  | SetRole _ _ => A_setRole
  | Restrict _ _ => A_restrict
  | BulkResolveReports _ _ => A_bulkResolveReports
  | ResolveReport _ _ => A_resolveReport
  | Moderate _ _ => A_moderate
  | CreateProblem _ => A_createProblem
  | EditProblem _ _ => A_editProblem
  | SetProblemPublication _ _ => A_setProblemPublication
  | DeleteProblem _ => A_deleteProblem
  | CreateAdminCompetition _ _ => A_createCompetition
  | SetCompetitionPublication _ _ => A_setCompetitionPublication
  | DeleteCompetition _ => A_deleteCompetition
  end.
Definition action_method (r : AdminAction) : string :=
  match r with
  | SetRole _ _ | Restrict _ _ | BulkResolveReports _ _ | ResolveReport _ _ | Moderate _ _ | EditProblem _ _
  | SetProblemPublication _ _ | SetCompetitionPublication _ _ => "PATCH"
  | CreateProblem _ | CreateAdminCompetition _ _ => "POST"
  | DeleteProblem _ | DeleteCompetition _ => "DELETE"
  | _ => "GET"
  end.

Inductive AdminAnswer :=
| N_overview (o : Overview)
| N_analytics (a : Analytics)
| N_export (e : Export)
| N_users (p : list UserItem * option rowid)
| N_submissions (p : list AdminSubmission * option uuid)
| N_problems (l : list AdminProblem)
| N_problem (p : AdminProblemDetail)
| N_reports (p : list ReportRow * option rowid)
| N_competitions (l : list AdminCompetition)
| N_role (r : Role)
| N_restriction (r : option Z * option Z * option jsstr)
| N_resolved (l : list (rowid * ReportStatus * Z))
| N_resolved_one (r : option (rowid * ReportStatus * Z))
| N_status (s : DiscussionStatus)
| N_published (p : Published)
| N_publication (v : option rowid)
| N_competition (c : rowid * jsstr * bool)
| N_competition_publication (b : bool)
| N_deleted.

Section AdminSite.
Context (sha256 : jsstr → jsstr) (hmac : jsstr → jsstr → jsstr) (origin : jsstr).
Context (z_uuid : jsstr → bool) (contains : jsstr → jsstr → bool) (created : rowid → Z).
Context (collate : relation jsstr) `{!RelDecision collate}.
Context (dr : SiteDraws) (req : SiteRequest) (seen : site).
Abbreviation clk := (sd_clk dr).

Definition id_of (id : jsstr) : io site rowid := uuid_of z_uuid id.
Definition show {A} (f : site → result A) (wrap : A → AdminAnswer) : io site AdminAnswer :=
  r ← ask f; a ← of_result r; mret (wrap a).

(** [SessionGuard] and [RolesGuard] with the roles of the route. *)
Definition staff (r : AdminAction) : io site Principal :=
  p ← ask (λ s, enter sha256 hmac origin (clk 0%nat) (clk 1%nat) (clk 2%nat) (session_rows (pd_accounts (si_profiles s)))
                  (mkRequest (sr_session req) (action_method r) (sr_origin req) (sr_csrf req)) (name_of r));
  of_result p.

Definition admin_action (p : Principal) (r : AdminAction) : io site AdminAnswer :=
  let me := pn_userId p in
  match r with
  | Overview_ => show (λ s, Ok (overview (clk 3%nat) (si_profiles s) (si_forum s))) N_overview
  | GetAnalytics days =>
      days ← parsed (analyticsQuery days);
      show (λ s, Ok (analytics collate (at_once (si_profiles s)) (clk 3%nat) days)) N_analytics
  | ExportAnalytics days =>
      days ← parsed (analyticsQuery days);
      show (λ s, Ok (analyticsExport (analytics collate (at_once (si_profiles s)) (clk 3%nat) days))) N_export
  | ListUsers query =>
      query ← of_result (userQuery query);
      cursor ← cursor_of z_uuid (uq_cursor query);
      show (λ s, users contains (clk 3%nat) (mkUserQuery cursor (uq_search query) (uq_role query) (uq_restriction query))
                   (si_profiles s)) N_users
  | ListSubmissions cursor =>
      cursor ← cursor_of z_uuid cursor;
      show (λ s, submissions cursor (si_profiles s)) N_submissions
  | ListAdminProblems => show (λ s, Ok (problems created (si_profiles s))) N_problems
  | ShowAdminProblem id =>
      id ← id_of id;
      show (λ s, problem id (shared s)) N_problem
  | ListReports cursor status =>
      cursor ← cursor_of z_uuid cursor;
      show (λ s, moderation (default PENDING status) cursor (si_forum s)) N_reports
  | ListAdminCompetitions => show (λ s, Ok (competitions (si_arena s))) N_competitions
  | SetRole id role =>
      id ← id_of id;
      role ← on_accounts (setRole me id role (pd_accounts (si_profiles seen)));
      mret (N_role role)
  | Restrict id body =>
      id ← id_of id;
      input ← of_result (restrictionInput body);
      r ← on_accounts (restrict (clk 3%nat) me id input (pd_accounts (si_profiles seen)));
      mret (N_restriction r)
  | BulkResolveReports body reportIds =>
      input ← of_result (bulkResolveReportsInput body reportIds);
      l ← on_forum (λ _, bulkResolveReports (clk 3%nat) (clk 4%nat) me input);
      mret (N_resolved l)
  | ResolveReport id body =>
      id ← id_of id;
      input ← of_result (resolveReportInput body);
      l ← on_forum (λ _, resolveReport (clk 3%nat) (clk 4%nat) me id input);
      mret (N_resolved_one l)
  | Moderate id status =>
      id ← id_of id;
      status ← on_forum (λ _, moderate (clk 3%nat) me id status (si_forum seen));
      mret (N_status status)
  | CreateProblem body =>
      input ← of_result (createProblemInput body);
      p ← on_catalogue (createProblem (sd_fresh dr) me input);
      mret (N_published p)
  | EditProblem id body =>
      id ← id_of id;
      input ← of_result (createProblemInput body);
      p ← on_catalogue (editProblem (sd_fresh dr) me id input (shared seen));
      mret (N_published p)
  | SetProblemPublication id published =>
      id ← id_of id;
      v ← on_catalogue (setProblemPublication me id published (shared seen));
      mret (N_publication v)
  | DeleteProblem id =>
      id ← id_of id;
      _ ← on_catalogue (deleteProblem me id (shared seen));
      mret N_deleted
  | CreateAdminCompetition body published =>
      input ← of_result (createCompetitionInput body);
      c ← on_arena (λ _, createCompetition (sd_id dr) (sd_fresh dr) me input published (si_arena seen));
      mret (N_competition c)
  | SetCompetitionPublication id published =>
      id ← id_of id;
      b ← on_arena (λ _, setCompetitionPublication me id published (si_arena seen));
      mret (N_competition_publication b)
  | DeleteCompetition id =>
      id ← id_of id;
      _ ← on_arena (λ _, deleteCompetition me id (si_arena seen));
      mret N_deleted
  end.

Definition serve_admin (r : AdminAction) : io site AdminAnswer :=
  p ← staff r;
  admin_action p r.

(** ** Who reaches the administration *)

(** The routes of the method GET read. *)
Lemma admin_get_reads p r : action_method r = "GET"%string → respects (=) (admin_action p r).
Proof.
  destruct r; intros E; try discriminate E; unfold admin_action, show, id_of, uuid_of, cursor_of, parsed; go_io.
Qed.

(** C19: who reaches the administration.  Whatever the route, the parameters and the body are, a request is
    refused and changes no table, unless it belongs to a live session of an active account under no
    restriction whose role the route requires, an administrator's for all routes but those of
    moderation; a change moreover needs a method other than GET, the site's own origin and the CSRF token
    of that session. *)
Theorem administration_guarded r s ans s' :
  serve_admin r s = (ans, s') →
  (s' = s ∧ ∃ e, ans = Err e) ∨
  ∃ e u, authenticates sha256 (clk 0%nat) (session_rows (pd_accounts (si_profiles s)))
           (mkRequest (sr_session req) (action_method r) (sr_origin req) (sr_csrf req)) e u
    ∧ us_role u ∈ route_roles (name_of r) ∧ restriction_of (clk 1%nat) u = None
    ∧ (s' ≠ s → action_method r ≠ "GET"%string ∧ sr_origin req = Some origin
               ∧ ∃ csrf, sr_csrf req = Some csrf ∧ sha256 csrf = se_csrfTokenHash e).
Proof.
  unfold serve_admin, staff. unfold mbind at 1 2, io_bind at 1 2. unfold ask, of_result, enter.
  match goal with |- context [guarded ?a ?b ?c ?d ?e ?f ?g ?h ?i ?j] => destruct (guarded a b c d e f g h i j) as [p|er] eqn:E end;
    [|intros [= <- <-]; left; eauto].
  intros Hrun. right. apply guards_protect in E as (e & u & Ha & _ & Hrole & Hr & Hm). exists e, u. split; [exact Ha|].
  split; [apply Hrole; by destruct r|]. split; [by apply Hr|]. intros Hne.
  destruct (decide (action_method r = "GET"%string)) as [Eg|Eg].
  { destruct Hne. pose proof (admin_get_reads p r Eg s) as Hs. by rewrite Hrun in Hs. }
  split; [done|]. apply Hm. by destruct r.
Qed.
End AdminSite.
