(* ===== verification/ExecutionRoutes.v ===== *)
(** * The endpoints of executions ([executions.ts:78-92])

    The four routes of [ExecutionsController] behind the session guard, over the accounts whose sessions
    the guard reads and the database of the pipeline.  A body is JSON as the transport parsed it. *)

From S2P Require Import Prelude Paging JsText Contracts Judge Database Serialization JobStore.
From S2P Require Import Lifecycle.
From S2P Require Import JobStoreFacts Invariant Admission Executions ExecutionsFacts Io JsString.
From S2P Require Import RuntimePolicy Catalogue Sessions Password Accounts AccountFacts.
Local Open Scope Z_scope.

Record judging := mkJudging { jd_accounts : accounts; jd_db : db }.

Inductive ExecutionRoute :=
| Submit (body : json) (idempotencyKey : option jsstr)
| ShowExecution (id : jsstr)
| CancelExecution (id : jsstr)
| Submissions (cursor problemId : option jsstr).

Definition execution_method (r : ExecutionRoute) : string :=
  match r with Submit _ _ | CancelExecution _ => "POST" | _ => "GET" end.

Inductive ExecutionAnswer :=
| X_receipt (r : Receipt)
| X_snapshot (s : ExecutionSnapshot)
| X_history (page : list SubmissionItem * option uuid).

(** What the guard and the routes read of a request, and what a creation draws. *)
Record ExecutionRequest := mkExecutionRequest {
  xr_session : option jsstr; xr_origin : option jsstr; xr_csrf : option jsstr; xr_ip : jsstr
}.
Record ExecutionDraws := mkExecutionDraws {
  xd_id : uuid; xd_guard : nat → Z; xd_create : CreateClock; xd_cancel : Clock
}.

Section Routes.
Context `{Zod} (sha256 : jsstr → jsstr) (hmac : jsstr → jsstr → jsstr) (origin : jsstr) (cfg : ConfigValues).
Context (dr : ExecutionDraws) (req : ExecutionRequest).

Definition request_of (r : ExecutionRoute) : Sessions.Request :=
  mkRequest (xr_session req) (execution_method r) (xr_origin req) (xr_csrf req).

(** [@UseGuards(SessionGuard)]. *)
Definition admitted_user (r : ExecutionRoute) (s : judging) : result Principal :=
  canActivate sha256 hmac origin false (xd_guard dr 0%nat) (xd_guard dr 1%nat) (xd_guard dr 2%nat)
    (session_rows (jd_accounts s)) (request_of r).

(** [validate(uuidSchema, id)], for a parameter and for an optional one. *)
Definition uuidSchema (id : jsstr) : result uuid :=
  if z_uuid id then Ok id else Err (api 400 "INVALID_REQUEST").
Definition optional_uuid (id : option jsstr) : result (option uuid) :=
  match id with Some x => match uuidSchema x with Ok u => Ok (Some u) | Err e => Err e end | None => Ok None end.
(** [validate(submissionsQuerySchema, query)]. *)
Definition submissionsQuerySchema (cursor problemId : option jsstr) : result (option uuid * option uuid) :=
  match optional_uuid cursor, optional_uuid problemId with
  | Ok c, Ok p => Ok (c, p)
  | Err e, _ | _, Err e => Err e
  end.

(** A route that reads, and one that runs a transaction. *)
Definition reads {A} (wrap : A → ExecutionAnswer) (r : result A) (s : judging) : result ExecutionAnswer * judging :=
  (match r with Ok a => Ok (wrap a) | Err e => Err e end, s).
Definition writes (m : tx db Receipt) (s : judging) : result ExecutionAnswer * judging :=
  let '(r, d) := transaction m (jd_db s) in
  (match r with Ok a => Ok (X_receipt a) | Err e => Err e end, mkJudging (jd_accounts s) d).

Definition execution_route (me : uuid) (r : ExecutionRoute) (s : judging) : result ExecutionAnswer * judging :=
  match r with
  | Submit body key =>
      writes (create_request hmac sha256 cfg (xd_create dr) (xd_id dr) me body
                (match key with Some k => JStr k | None => JNull end) (xr_ip req)) s
  | ShowExecution id =>
      match uuidSchema id with
      | Ok id => reads X_snapshot (snapshot me id (jd_db s)) s
      | Err e => (Err e, s)
      end
  | CancelExecution id =>
      match uuidSchema id with
      | Ok id => writes (cancel_request cfg (xd_cancel dr) me id) s
      | Err e => (Err e, s)
      end
  | Submissions cursor problemId =>
      match submissionsQuerySchema cursor problemId with
      | Ok (cursor, problemId) => reads X_history (history me problemId cursor (jd_db s)) s
      | Err e => (Err e, s)
      end
  end.

Definition serve_execution (r : ExecutionRoute) (s : judging) : result ExecutionAnswer * judging :=
  match admitted_user r s with
  | Ok p => execution_route (pn_userId p) r s
  | Err e => (Err e, s)
  end.

(** ** What an answer shows *)

Definition owned (me : uuid) (d : db) (id : uuid) (e : Execution) : Prop :=
  executions d !! id = Some e ∧ x_userId (e_req e) = me.
(** The case is a public one of the version the execution is pinned to. *)
Definition public_case (d : db) (e : Execution) (caseId : uuid) : Prop :=
  ∃ v c, problemVersions d !! x_problemVersionId (e_req e) = Some v ∧ c ∈ pv_testCases v
    ∧ jc_visibility c = PUBLIC ∧ jc_id c = caseId.
(** Everything the answer tells is told of an execution of [me]; case results are exactly the stored
    ones of a RUN that belong to public cases. *)
Definition tells_own (me : uuid) (d : db) (a : ExecutionAnswer) : Prop :=
  match a with
  | X_receipt r => ∃ e, owned me d (rc_executionId r) e
  | X_snapshot s =>
      ∃ e, owned me d (es_executionId s) e
        ∧ ∀ x, x ∈ shown_results s ↔
            e_mode e = RUN ∧ x ∈ default [] (e_publicResults e) ∧ public_case d e (pr_caseId x)
  | X_history (items, next) =>
      (∀ i, i ∈ items → ∃ e, owned me d (si_executionId i) e ∧ e_mode e = SUBMIT ∧ i = item d e)
      ∧ ∀ c, next = Some c → ∃ e, owned me d c e
  end.
(** Nothing happened to the executions of the others. *)
Definition others_kept (me : uuid) (d d' : db) : Prop :=
  ∀ id e, executions d !! id = Some e → x_userId (e_req e) ≠ me → executions d' !! id = Some e.

Lemma writes_cases m s ans s' : writes m s = (ans, s') →
  (s' = s ∧ ∃ e, ans = Err e)
  ∨ ∃ r d', m (jd_db s) = Ok (r, d') ∧ ans = Ok (X_receipt r) ∧ s' = mkJudging (jd_accounts s) d'.
Proof.
  unfold writes, transaction. destruct (m (jd_db s)) as [[r d']|e]; intros [= <- <-]; [right; eauto|left].
  split; [by destruct s|eauto].
Qed.

Lemma create_owned c id userId input key ip d r d' :
  rows_wf d → create hmac sha256 cfg c id userId input key ip d = Ok (r, d') →
  (∃ e, owned userId d' (rc_executionId r) e) ∧ others_kept userId d d'.
Proof.
  intros Hwf [_ [(p & Hp & _ & -> & ->)|Hc]]%create_Ok.
  - split; [|by intros ?]. apply find_idempotent_Some in Hp as (i & Hl & Hu & _). exists p. split; [|done].
    cbn. by destruct (Hwf i p Hl) as [-> _].
  - destruct Hc as (version & round & f & -> & _ & _ & _ & _ & Hnew & _ & _ & _ & _ & _ & ->). split.
    + eexists. split; [cbn; apply lookup_insert_eq|done].
    + intros i e He Hne. cbn. rewrite lookup_insert_ne; [done|]. intros <-. congruence.
Qed.
Lemma cancel_owned c userId id allowed d r d' :
  rows_wf d → cancel c userId id allowed d = Ok (r, d') →
  (∃ e, owned userId d' (rc_executionId r) e) ∧ others_kept userId d d'.
Proof.
  intros Hwf Hrun. pose proof (cancel_effect _ _ _ _ _ _ _ Hwf Hrun) as He.
  unfold cancel in Hrun. rewrite locked_run in Hrun.
  destruct (executions d !! id) as [row|] eqn:Er; [|by inv_tx].
  destruct (bool_decide_reflect (x_userId (e_req row) = userId)) as [Hu|]; cbn [negb] in Hrun; [|by inv_tx].
  assert (rc_executionId r = id) as Hid.
  { repeat case_match; inv_tx; done. }
  rewrite Hid. destruct He as [|obs Ho|old new evs obs ns Ho Hs _ _].
  - split; [by exists row|by intros ?].
  - split; [by exists row|by intros ?].
  - rewrite Er in Ho. injection Ho as <-. split.
    + exists new. split; [apply lookup_insert_eq|]. by rewrite (step_req _ _ _ Hs).
    + intros i e He Hne. cbn. rewrite lookup_insert_ne; [done|]. intros <-. congruence.
Qed.

Lemma snapshot_own me id d s :
  rows_wf d → snapshot me id d = Ok s → tells_own me d (X_snapshot s).
Proof.
  intros Hwf. unfold snapshot. destruct (executions d !! id) as [row|] eqn:Er; [|done].
  destruct (bool_decide_reflect (x_userId (e_req row) = me)) as [Hu|]; cbn [negb]; [|done].
  destruct (problemVersions d !! _) as [v|] eqn:Ev; [|done]. intros Hs. exists row. split.
  - split; [|done]. destruct (Hwf _ _ Er) as [Hid _]. rewrite (publicSnapshot_id _ _ _ _ Hs), Hid. exact Er.
  - intros x. rewrite (publicSnapshot_private _ _ _ _ Hs x). unfold public_case. simpl default.
    rewrite list_elem_of_fmap. setoid_rewrite list_elem_of_filter. naive_solver.
Qed.

Lemma history_own me problemId cursor d page :
  rows_wf d → history me problemId cursor d = Ok page → tells_own me d (X_history page).
Proof.
  intros Hwf Hh. destruct page as [items next].
  assert (∃ c, items = item d <$> take PAGE (history_rows me problemId c d)
               ∧ (next = None ∨ next = si_executionId <$> last items)) as (c & Ei & En).
  { unfold history in Hh. repeat case_match; simplify_eq; eauto. }
  assert (∀ i, i ∈ items → ∃ e, owned me d (si_executionId i) e ∧ e_mode e = SUBMIT ∧ i = item d e) as Hi.
  { intros i Hi. rewrite Ei in Hi. apply list_elem_of_fmap in Hi as (e & -> & He).
    eapply elem_of_sublist in He; [|apply sublist_take].
    apply query_before_elem, list_elem_of_filter in He as [Hsub Hin].
    apply list_elem_of_fmap in Hin as ([k x] & -> & Hk%elem_of_map_to_list). cbn in *.
    destruct (Hwf _ _ Hk) as [E _], Hsub as (Hu & Hm & _). exists x. unfold owned. cbn. by rewrite E. }
  split; [exact Hi|]. intros x ->. destruct En as [|(i & Hl & ->)%eq_sym%fmap_Some]; [done|].
  destruct (Hi i) as (e & He & _); [|eauto]. by apply last_Some_elem_of.
Qed.

(** What a route does for [me]. *)
Definition keeps_apart (me : uuid) (r : ExecutionRoute) (s : judging) (ans : result ExecutionAnswer) (s' : judging)
    : Prop :=
  jd_accounts s' = jd_accounts s ∧ others_kept me (jd_db s) (jd_db s')
  ∧ (∀ a, ans = Ok a → tells_own me (jd_db s') a) ∧ (s' ≠ s → execution_method r = "POST"%string).
Lemma writes_own me r m s ans s' :
  execution_method r = "POST"%string → writes m s = (ans, s') →
  (∀ rc d', m (jd_db s) = Ok (rc, d') →
     (∃ e, owned me d' (rc_executionId rc) e) ∧ others_kept me (jd_db s) d') →
  keeps_apart me r s ans s'.
Proof.
  intros Hp [[-> [e ->]]|(rc & d' & Hm & -> & ->)]%writes_cases Hown; [by split_and!; [|intros ?|..]|].
  destruct (Hown _ _ Hm) as [Ho Hk]. split_and!; [done..| |done]. by intros a [= <-].
Qed.
Lemma reads_own {A} me r wrap (m : result A) s ans s' :
  reads wrap m s = (ans, s') → (∀ x, m = Ok x → tells_own me (jd_db s) (wrap x)) → keeps_apart me r s ans s'.
Proof.
  intros Hm Hown. unfold reads in Hm. injection Hm as <- <-. split_and!; [done|by intros ?| |done].
  intros a. destruct m as [x|]; [|done]. intros [= <-]. by apply Hown.
Qed.
Lemma refused_own me r e s ans s' : (Err e, s) = (ans, s') → keeps_apart me r s ans s'.
Proof. intros He. by apply (reads_own me r X_receipt (Err e)). Qed.

Lemma execution_route_own me r s ans s' :
  rows_wf (jd_db s) → execution_route me r s = (ans, s') → keeps_apart me r s ans s'.
Proof.
  intros Hwf Hrun. destruct r as [body key|id|id|cursor problemId]; cbn [execution_route] in Hrun.
  - eapply writes_own; [done|exact Hrun|]. intros rc d' Hm. unfold create_request in Hm.
    repeat (case_match; try by inv_tx). all: eapply create_owned; eauto.
  - unfold uuidSchema in Hrun. case_match; [|by eapply refused_own].
    eapply reads_own; [exact Hrun|]. intros x. by apply snapshot_own.
  - unfold uuidSchema in Hrun. case_match; [|by eapply refused_own].
    eapply writes_own; [done|exact Hrun|]. intros rc d'. by apply cancel_owned.
  - destruct (submissionsQuerySchema cursor problemId) as [[c p]|]; [|by eapply refused_own].
    eapply reads_own; [exact Hrun|]. intros x. by apply history_own.
Qed.

(** C5: the executions' endpoints keep users apart.  A request is refused and changes nothing, unless it
    belongs to a live session of an active account under no restriction.  Then whatever it asks for, it
    learns of that user's executions only, of their results those of a RUN on public cases only, and it
    changes nobody else's execution; it changes the database only with the method POST, the site's own
    origin and the CSRF token of the session. *)
Theorem executions_private r s ans s' :
  rows_wf (jd_db s) → serve_execution r s = (ans, s') →
  (s' = s ∧ ∃ e, ans = Err e) ∨
  ∃ e u, authenticates sha256 (xd_guard dr 0%nat) (session_rows (jd_accounts s)) (request_of r) e u
    ∧ restriction_of (xd_guard dr 1%nat) u = None
    ∧ jd_accounts s' = jd_accounts s ∧ others_kept (se_userId e) (jd_db s) (jd_db s')
    ∧ (∀ a, ans = Ok a → tells_own (se_userId e) (jd_db s') a)
    ∧ (s' ≠ s → execution_method r = "POST"%string ∧ xr_origin req = Some origin
               ∧ ∃ csrf, xr_csrf req = Some csrf ∧ sha256 csrf = se_csrfTokenHash e).
Proof.
  intros Hwf. unfold serve_execution, admitted_user.
  destruct (canActivate _ _ _ _ _ _ _ _ _) as [p|er] eqn:E; [|intros [= <- <-]; left; eauto].
  intros Hrun. right. apply canActivate_Ok in E as (e & u & Ha & Hu & _ & Hr & Hm). exists e, u.
  split; [exact Ha|]. split; [by apply Hr|]. rewrite <- Hu. clear Ha Hr.
  destruct (execution_route_own _ _ _ _ _ Hwf Hrun) as (Hac & Hk & Ht & Hp).
  split_and!; [done..|]. intros Hne. split; [by apply Hp|]. apply Hm. destruct r; try done; by specialize (Hp Hne).
Qed.
End Routes.
