(* ===== verification/Scenarios.v ===== *)
(** * A concrete run of the pipeline

    A small installation (one published problem with a public and a hidden case, one user) and
    a run on it: creation, claim, console output, cancellation, results.  The theorems of the
    other files are applied to it, with every hypothesis discharged by evaluation. *)

From S2P Require Import Prelude Paging JsText Contracts Judge Database Serialization JobStore.
From S2P Require Import Lifecycle.
From S2P Require Import JobStoreFacts Invariant Sizes Progress Admission Executions ExecutionsFacts.
From S2P Require Import Pipeline Safety Fencing Outcomes Replay Realtime Channel.
From S2P Require Import Creation.
Local Open Scope Z_scope.

(** ** The installation *)

#[local] Instance zod36 : Zod := {|
  z_uuid s := (length s =? 36)%nat && forallb (λ u, (0 <=? u) && (u <? 65536)) s |}.
Definition strip (s : jsstr) : jsstr := s.
Definition hmac0 (k m : jsstr) : jsstr := m.
Definition sha0 (s : jsstr) : jsstr := s.

Lemma zod36_length s : z_uuid s = true → length s = 36%nat ∧ Forall unit_ok s.
Proof.
  intros [Hl%Nat.eqb_eq Hf]%andb_true_iff. split; [done|]. rewrite forallb_forall in Hf.
  apply Forall_forall. intros u Hu%list_elem_of_In%Hf. unfold unit_ok. lia.
Defined.
Lemma strip_deletes s : strip s `sublist_of` s.
Proof. done. Defined.

Definition uid (n : Z) : uuid := replicate 35 48 ++ [48 + n].
Definition user1 : uuid := uid 1.
Definition problem1 : uuid := uid 2.
Definition version1 : uuid := uid 3.
Definition case1 : uuid := uid 4.
Definition case2 : uuid := uid 5.
Definition job1 : uuid := uid 6.
Definition token1 : uuid := uid 7.
Definition token2 : uuid := uid 8.

Definition cfg0 : ConfigValues := mkConfig true true 1 100 10 60 300 (js "key") 120.
Definition cases0 : list JudgeCase :=
  [mkJudgeCase case1 0 PUBLIC (js "in") [] (js "out");
   mkJudgeCase case2 1 HIDDEN (js "in2") [] (js "out2")].
Definition d0 : db :=
  mkDb ∅ [] [] [] ∅
    {[version1 := mkProblemVersion problem1 (js "Two sums") true "EXACT_NEWLINE" 2000 65536 cases0]}
    {[problem1 := mkProblem (js "two-sums") (Some version1)]}
    {[user1 := mkUser true]} [].

(** All clock readings of a transaction at time [t]. *)
Definition at_ (t : Z) : Clock := mkClock t t t t t.
Definition input0 : CreateExecution := mkCreateExecution problem1 python RUN (js "print(1)") None.
Definition key0 : jsstr := js "0123456789abcdef".

Abbreviation run0 := (run strip hmac0 sha0 cfg0).
Definition op_create : op := OpCreate (mkCreateClock 0 0 0 0 (at_ 0)) job1 user1 input0 key0 (js "ip").
Definition lease1 : Lease := mkLease job1 1 token1.
Definition d1 : db := run0 op_create d0.
Definition d2 : db := run0 (OpClaim (at_ 1000) token1 job1) d1.
Definition d3 : db := run0 (OpMarkRunning (at_ 2000) lease1) d2.
Definition d4 : db := run0 (OpConsole (at_ 3000) lease1 case1 stdout (js "hi")) d3.
Definition d5 : db := run0 (OpCancel (at_ 4000) user1 job1) d4.

Lemma d0_no_jobs : no_jobs d0. Proof. done. Defined.
Lemma step0 o d : step strip hmac0 sha0 cfg0 d (run0 o d). Proof. constructor. Defined.
Lemma reach_d1 : reachable strip hmac0 sha0 cfg0 d0 d1. Proof. apply rtc_once, step0. Defined.
Lemma reach_d5 : reachable strip hmac0 sha0 cfg0 d1 d5.
Proof. do 4 (eapply rtc_l; [apply step0|]). apply rtc_refl. Defined.
Lemma reach_d4 : reachable strip hmac0 sha0 cfg0 d0 d4.
Proof. do 4 (eapply rtc_l; [apply step0|]). apply rtc_refl. Defined.

Lemma inv_d0 : inv d0. Proof. by apply no_jobs_inv. Defined.
Lemma inv_run o d : inv d → inv (run0 o d).
Proof. intros Hi. eapply outcome_inv, run_outcome, Hi. Defined.
Lemma inv_d1 : inv d1. Proof. apply inv_run, inv_d0. Defined.
Lemma inv_d2 : inv d2. Proof. apply inv_run, inv_d1. Defined.
Lemma inv_d4 : inv d4. Proof. do 2 apply inv_run. apply inv_d2. Defined.
Lemma inv_d5 : inv d5. Proof. apply inv_run, inv_d4. Defined.

Lemma seq_room_eval d :
  bool_decide (map_Forall (λ _ e, e_lastSequence e < INT4_MAX) (executions d)) = true → seq_room d.
Proof. intros Hm%bool_decide_eq_true id e He. by apply (Hm id e He). Defined.

(** The row of the job in a database. *)
Definition row_in (d : db) : Execution :=
  match executions d !! job1 with Some e => e | None => sample_row end.

(** Small observations of a run, to evaluate without normalising whole databases. *)
Definition is_ok {A} (r : result A) : bool := match r with Ok _ => true | Err _ => false end.
Definition value {A} (r : result (A * db)) : option A := match r with Ok (a, _) => Some a | Err _ => None end.
Lemma ok_run {A} (m : tx db A) d : is_ok (m d) = true → ∃ a d', m d = Ok (a, d').
Proof. destruct (m d) as [[a d']|]; [by eexists _, _|done]. Defined.
Lemma value_run {A} (m : tx db A) d a : value (m d) = Some a → ∃ d', m d = Ok (a, d').
Proof. destruct (m d) as [[b d']|]; [|done]. intros [= ->]. by eexists. Defined.
Lemma row_in_eq d : bool_decide (is_Some (executions d !! job1)) = true → executions d !! job1 = Some (row_in d).
Proof. intros [e He]%bool_decide_eq_true. unfold row_in. by rewrite He. Defined.

Definition verdicts : list ExecutionState := (λ d, e_state (row_in d)) <$> [d1; d2; d3; d4; d5].

(** ** Contracts and judging *)

Definition event0 : PublicExecutionEvent := mkEvent job1 1 3 (console_output case1 stdout [34; 10; 55357; 56832]).
Definition plan0 : JudgePlan := mkJudgePlan version1 "EXACT_NEWLINE" 2000 65536 cases0.
Definition obs0 (o1 o2 : string) : JudgeObservation :=
  mkObservation false None
    [mkObservedCase case1 (js o1) (js "log") (Some 0) None 3 (Some 2) (Some 100);
     mkObservedCase case2 (js o2) [] (Some 0) None 3 (Some 4) (Some 90)].
Definition obs_run : JudgeObservation :=
  mkObservation false None [mkObservedCase case1 (js "out") (js "log") (Some 0) None 3 (Some 2) (Some 100)].
Definition judged_of (r : result JudgedResult) : JudgedResult :=
  match r with Ok j => j | Err _ => mkJudged ACCEPTED None None None end.
Definition run_result : JudgedResult := judged_of (judge strip plan0 RUN python obs_run).

(** ** Safety *)

Lemma reachable_inv_witness : no_jobs d0 ∧ e_state (row_in d4) = RUNNING ∧ inv d4.
Proof.
  split; [done|]. split; [vm_compute; reflexivity|].
  apply (reachable_inv strip hmac0 sha0 cfg0 d0 d4); [done|apply reach_d4].
Defined.

Lemma reachable_limits_witness : count_active (λ _, true) d4 = 1 ∧ within_limits cfg0 d4.
Proof.
  split; [vm_compute; reflexivity|].
  apply (reachable_limits strip hmac0 sha0 cfg0 d0 d4); [done|by vm_compute|by vm_compute|apply reach_d4].
Defined.

Lemma run_lifecycle_witness :
  ∃ e', executions (run0 (OpClaim (at_ 40000) token2 job1) d4) !! job1 = Some e'
    ∧ e_req e' = e_req (row_in d4) ∧ lifecycle_edge (OpClaim (at_ 40000) token2 job1) (row_in d4) e'.
Proof.
  apply (run_lifecycle strip hmac0 sha0 cfg0 d4 (OpClaim (at_ 40000) token2 job1) job1 (row_in d4));
    [apply inv_d4|apply row_in_eq; vm_compute; reflexivity].
Defined.

(** The key of the job is used again, for another program. *)
Definition input1 : CreateExecution := mkCreateExecution problem1 python RUN (js "print(2)") None.
Definition op_conflict : op := OpCreate (mkCreateClock 5000 5000 5000 5000 (at_ 5000)) (uid 9) user1 input1 key0 (js "ip2").

(** ** Fencing *)

Definition stale : Lease := mkLease job1 1 token2.
Lemma powerless_eval t d l row :
  executions d !! l_executionId l = Some row → valid t row l = false → powerless t d l.
Proof. intros H1 H2 r Hr. apply no_authority. congruence. Defined.

Lemma stale_lease_harmless_witness : run0 (OpFail (at_ 3000) stale true) d4 = d4.
Proof.
  apply (stale_lease_harmless strip hmac0 sha0 cfg0 (OpFail (at_ 3000) stale true) (at_ 3000) stale d4); [done|].
  apply (powerless_eval _ _ _ (row_in d4)); [apply row_in_eq|]; vm_compute; reflexivity.
Defined.

Lemma timed_one t t' o d :
  t ≤ t' → (∀ c, op_clock o c → t ≤ now c ≤ t') →
  timed_step strip hmac0 sha0 cfg0 (t, d) (t', run0 o d).
Proof. intros H1 H2. exact (timed_run strip hmac0 sha0 cfg0 (t, d) o t' H1 H2). Defined.

(** The first worker disappears; the job is claimed again after its lease expired. *)
Definition d6 : db := run0 (OpClaim (at_ 40000) token2 job1) d4.
Definition claimed (r : result (option (Lease * Execution) * db)) : bool :=
  match r with Ok (Some _, _) => true | _ => false end.
(** ** Outcomes *)

Lemma finish_settles_witness :
  ∃ d' row', finish strip (at_ 5000) lease1 run_result d4 = Ok (true, d')
    ∧ executions d' = <[job1 := row']> (executions d4)
    ∧ ended (at_ 5000) FINISHED (jr_verdict run_result) (row_in d4) row'
    ∧ e_runtimeMs row' = jr_runtimeMs run_result ∧ e_memoryKiB row' = jr_memoryKiB run_result
    ∧ option_Forall2 (Forall2 (kept_result strip)) (jr_publicCaseResults run_result) (e_publicResults row').
Proof.
  apply (finish_settles strip zod36_length (at_ 5000) lease1 run_result (row_in d4) d4).
  - apply inv_d4.
  - apply seq_room_eval. vm_compute; reflexivity.
  - by vm_compute.
  - apply row_in_eq. vm_compute; reflexivity.
  - vm_compute; reflexivity.
  - vm_compute; reflexivity.
  - vm_compute; reflexivity.
  - by vm_compute.
  - intros _. vm_compute; reflexivity.
Defined.

(** ** Maintenance *)

Definition nobody (_ : uuid) : bool := false.
Definition sweep_at (t : Z) : MaintainClocks :=
  mkMaintainClocks (λ _, t) (λ _, t) (λ _, at_ t) (λ _, t) (λ _, t) (λ _, t).
Lemma maintain_reconciles_witness :
  ∃ d', maintain (sweep_at 40000) nobody (λ _, false) d4 = Ok (tt, d')
    ∧ executions d' !! job1 = Some (row_in d4)
    ∧ ∃ o, o ∈ outbox d' ∧ o_key o = (job1, EXECUTION_RECOVERY, e_attempt (row_in d4))
        ∧ (o_publishedAt o = None ∨ ∃ p, o_publishedAt o = Some p ∧ 40000 - 10 * 1000 ≤ p).
Proof.
  destruct (value_run (maintain (sweep_at 40000) nobody (λ _, false)) d4 tt) as [d' E];
    [vm_compute; reflexivity|].
  exists d'. split; [exact E|].
  apply (maintain_reconciles (sweep_at 40000) nobody (λ _, false) d4 tt d' job1 (row_in d4)).
  - apply inv_d4.
  - exact E.
  - vm_compute; lia.
  - vm_compute; lia.
  - apply row_in_eq. vm_compute; reflexivity.
  - vm_compute; reflexivity.
  - reflexivity.
  - intros o _. split; [reflexivity|apply Z.le_refl].
Defined.

(** ** Replay *)

(** ** The realtime channel *)

(** A socket follows the job from the state [d2]: it subscribes, and a poll brings what came since. *)
Definition replay_of (t after : Z) (d : db) : Replay :=
  match replay t user1 job1 1 after d with
  | Ok (r, _) => r
  | Err _ => mkReplay (mkSnapshot [] [] python RUN QUEUED 0 0 None None None None None None) false []
  end.
Definition joined_socket : Realtime := connect 0 7 user1 (js "ip") no_clients.
Definition subscription : json :=
  JObj [("executionId"%string, JStr job1); ("attempt"%string, JNum 1); ("afterSequence"%string, JNum 0)].
Definition asked : Realtime := subscribe 10 subscription true 7 joined_socket.
Definition resumed : Realtime := command_resume 7 asked.
Definition resolved : Realtime := command_principal (Ok (Some user1)) 7 resumed.
Definition answered : Realtime := command_replay (Ok (replay_of 2500 0 d3)) 7 resolved.
Definition ticked : Realtime := tick answered.
Definition polled : Realtime := poll_next ticked.
Definition polling_jobs : Realtime := poll_principal (Ok (Some user1)) 7 polled.
Definition delivered : Realtime :=
  poll_replay (Ok (replay_of 3500 2 d4)) true 7 polling_jobs.

Definition socket_client (k : option Command) (p : option Polling) (l : list Cursor) : Client :=
  mkClient user1 (js "ip") l k p 1 0.
Definition first_cursor : Cursor := mkCursor job1 1 0.
Definition second_cursor : Cursor := mkCursor job1 1 2.

Lemma replay_of_run t after d :
  inv d → rp_replayAvailable (replay_of t after d) = true → job_replays user1 job1 1 after (replay_of t after d).
Proof.
  intros Hi. unfold replay_of. destruct (replay t user1 job1 1 after d) as [[r d']|e] eqn:E; [|done].
  intros _. exists t, d, d'. split; [apply inv_rows, Hi|exact E].
Defined.
Lemma answer_inj (a b : Replay) : Ok a = Ok b → a = b.
Proof. by intros [= ->]. Defined.

Lemma channel_exact_witness :
  rtc (rt_step job_replays) no_clients delivered ∧ length (sent_to 7 delivered) = 2%nat ∧
  ∃ p, receive_all (sent_to 7 delivered) ∅ = Some p ∧ p !! job1 = Some (1, 3).
Proof.
  assert (Hrun : rtc (rt_step job_replays) no_clients delivered).
  { apply (rtc_l _ _ joined_socket); [apply (st_connect job_replays no_clients 0 7 user1 (js "ip")); reflexivity|].
    apply (rtc_l _ _ asked); [apply (st_subscribe job_replays joined_socket 10 subscription true 7)|].
    apply (rtc_l _ _ resumed); [apply (st_command_resume job_replays asked 7)|].
    apply (rtc_l _ _ resolved); [apply (st_command_principal job_replays resumed (Ok (Some user1)) 7)|].
    apply (rtc_l _ _ answered); [apply (st_command_replay job_replays resolved (Ok (replay_of 2500 0 d3)) 7)|].
    { intros c q Hc Hq.
      assert (E : rt_clients resolved !! 7%nat = Some (socket_client (Some (ReplayingCommand first_cursor)) None []))
        by (vm_compute; reflexivity).
      rewrite E in Hc. injection Hc as <-. injection Hq as <-. intros r Hr. apply answer_inj in Hr. rewrite <- Hr.
      apply replay_of_run; [apply inv_run, inv_d2|]. vm_compute. reflexivity. }
    apply (rtc_l _ _ ticked); [apply (st_tick job_replays answered)|].
    apply (rtc_l _ _ polled); [apply (st_poll_next job_replays ticked)|].
    apply (rtc_l _ _ polling_jobs); [apply (st_poll_principal job_replays polled (Ok (Some user1)) 7)|].
    apply rtc_once, (st_poll_replay job_replays polling_jobs (Ok (replay_of 3500 2 d4)) true 7).
    intros c q todo Hc Hq.
    assert (E : rt_clients polling_jobs !! 7%nat
      = Some (socket_client None (Some (ReplayingPoll second_cursor [])) [second_cursor])) by (vm_compute; reflexivity).
    rewrite E in Hc. injection Hc as <-. injection Hq as <- _.
    intros r Hr. apply answer_inj in Hr. rewrite <- Hr. apply replay_of_run; [apply inv_d4|]. vm_compute. reflexivity. }
  split; [exact Hrun|]. split; [vm_compute; reflexivity|].
  destruct (channel_exact job_replays delivered 7 Hrun) as (p & u & Hp & _). exists p. split; [exact Hp|].
  assert (E : match receive_all (sent_to 7 delivered) ∅ with Some p => p !! job1 | None => None end = Some (1, 3))
    by (vm_compute; reflexivity).
  rewrite Hp in E. exact E.
Defined.

(** ** Creation and history *)

Lemma create_d1 :
  create hmac0 sha0 cfg0 (mkCreateClock 0 0 0 0 (at_ 0)) job1 user1 input0 key0 (js "ip") d0
  = Ok (mkReceipt job1 QUEUED None, d1).
Proof.
  destruct (value_run (create hmac0 sha0 cfg0 (mkCreateClock 0 0 0 0 (at_ 0)) job1 user1 input0 key0 (js "ip"))
    d0 (mkReceipt job1 QUEUED None)) as [d' E]; [vm_compute; reflexivity|].
  rewrite E. unfold d1, run, transaction, op_create, body, void, fmap, tx_fmap. by rewrite E.
Defined.

Lemma create_idempotent_witness :
  ∃ e, executions d5 !! job1 = Some e
    ∧ create hmac0 sha0 cfg0 (mkCreateClock 5000 5000 5000 5000 (at_ 5000)) (uid 9) user1 input0 key0 (js "ip2") d5
      = Ok (mkReceipt job1 (e_state e) None, d5).
Proof.
  exact (create_idempotent strip hmac0 sha0 cfg0 (mkCreateClock 0 0 0 0 (at_ 0)) job1 user1 input0 key0
    (js "ip") d0 (mkReceipt job1 QUEUED None) d1 d5 _ _ _ inv_d0 create_d1 reach_d5).
Defined.

Lemma create_conflict_witness :
  create hmac0 sha0 cfg0 (mkCreateClock 5000 5000 5000 5000 (at_ 5000)) (uid 9) user1 input1 key0 (js "ip2") d5
  = Err (api 409 "IDEMPOTENCY_CONFLICT").
Proof.
  apply (create_conflict strip hmac0 sha0 cfg0 (mkCreateClock 0 0 0 0 (at_ 0)) job1 user1 input0 key0
    (js "ip") d0 (mkReceipt job1 QUEUED None) d1 d5).
  - by intros x y.
  - apply inv_d0.
  - apply create_d1.
  - apply reach_d5.
  - split_and!; [by apply zod36_length|apply js_unit_ok|constructor].
  - split_and!; [by apply zod36_length|apply js_unit_ok|constructor].
  - vm_compute. discriminate.
Defined.

Lemma create_commits_witness :
  ∃ version round,
    let first := event_json (mkEvent job1 0 1 (execution_status QUEUED None)) in
    published_version problem1 d0 = Some version ∧ round_of 0 user1 input0 d0 = Ok (round, d0)
    ∧ executions d1 =
        <[job1 := mkExecution
            (mkRequest job1 user1 version round python RUN (js "print(1)") (stringify (hash_json input0)) key0 0 120000)
            QUEUED None 0 1 None None None None None None None None]> (executions d0)
    ∧ events d1 = [mkEventRow job1 0 1 k_execution_status first (byteLength (stringify first)) 600000]
    ∧ outbox d1 = [mkOutboxRow job1 EXECUTION_CREATED 0 0 None None None 0 0]
    ∧ (∀ scope limit, (scope, limit) ∈ scopes cfg0 user1 (js "ip") →
         let k := executionRateKey hmac0 (js "key") 0 scope in
         rate_count d1 k = rate_count d0 k + 1 ∧ rate_count d1 k ≤ limit)
    ∧ (∀ k, k ∉ charged_keys hmac0 cfg0 0 user1 (js "ip") → rateLimits d1 !! k = rateLimits d0 !! k)
    ∧ notifications d1 = notifications d0 ∧ problemVersions d1 = problemVersions d0 ∧ problems d1 = problems d0
    ∧ users d1 = users d0 ∧ competitions d1 = competitions d0.
Proof.
  apply (create_commits hmac0 sha0 cfg0 (mkCreateClock 0 0 0 0 (at_ 0)) job1 user1 input0 key0
    (js "ip") d0 (mkReceipt job1 QUEUED None) d1 inv_d0 create_d1).
  - vm_compute; reflexivity.
  - reflexivity.
  - apply (bool_decide_eq_true_1 _). vm_compute; reflexivity.
Defined.

