(* ===== verification/RunnerScenarios.v ===== *)
(** * A concrete runner, catalogue and queue

    A host whose Docker answers as the real one does for a small Python program, an
    administrator who publishes a problem, a competition with two participants, a session and a
    queue: the theorems about the runner, the catalogue, the worker and the guards applied to
    them, with every hypothesis discharged by evaluation. *)

From S2P Require Import Prelude JsText Contracts Judge Io JsString RuntimePolicy Catalogue.
From S2P Require Import Publication Backend Runnable Buffers Transport Host Metrics Artifacts.
From S2P Require Import Supervisor SupervisorFacts Supervised Rpc Database Serialization JobStore.
From S2P Require Import Lifecycle JobStoreFacts Invariant Sizes Admissible Progress Admission.
From S2P Require Import Executions ExecutionsFacts Pipeline Outcomes Queue Worker.
From S2P Require Import Leaderboard Sessions Scenarios.
From S2P Require Service.
Local Open Scope Z_scope.
#[local] Existing Instance zod36.

(** ** The host *)

Definition quoted (s : string) : json := JStr (js s).
Definition sandbox_json : json := JObj [
  ("Config", JObj [("User", quoted "10001:10001")]);
  ("Mounts", JArr []);
  ("HostConfig", JObj [
    ("Runtime", quoted "runsc"); ("NetworkMode", quoted "none"); ("ReadonlyRootfs", JBool true);
    ("Privileged", JBool false); ("Memory", JNum 67108864); ("MemorySwap", JNum 67108864);
    ("NanoCpus", JNum 1000000000); ("PidsLimit", JNum 64); ("CapDrop", JArr [quoted "ALL"]);
    ("SecurityOpt", JArr [quoted "no-new-privileges:true"]); ("Binds", JNull);
    ("Ulimits", JArr [JObj [("Name", quoted "nproc"); ("Hard", JNum 64); ("Soft", JNum 64)]])])]%string.

(** The output of a Docker command, by its first words; the program prints ["out"]. *)
Definition answer (args : list jsstr) : buffer :=
  encode (js (if bool_decide (last args = Some (js "{{.State.Pid}}")) then "100"
              else if bool_decide (head args = Some (js "inspect")) then "container"
              else if bool_decide (last args = Some (js "/work/solution.py")) then "out"
              else ""))%string.
Definition child (start_code : Z) (_ : list call) (args : list jsstr) (_ : Options) : ChildRun :=
  mkChildRun [Stdout (answer args)] (Some (if bool_decide (head args = Some (js "start")) then start_code else 0)).

Definition files_of (path : jsstr) : option jsstr :=
  js <$> (if endsWith (js "/cgroup") path then Some "0::/docker/sandbox"
          else if endsWith (js "/cpu.stat") path then Some "usage_usec 2500"
          else if endsWith (js "/memory.peak") path then Some "1048576"
          else if endsWith (js "/memory.events") path then Some "oom_kill 0"
          else None)%string.

(** [start_code] is the exit status of [docker start]. *)
#[local] Instance host (start_code : Z) : Host := {|
  host_docker := DockerCli (λ _, false) (child start_code);
  readFile_at _ := files_of;
  now_at h := Z.of_nat (length h);
  uuid_at _ := uid 9;
  aborted_at _ := false;
  JSON_parse s := if bool_decide (s = js "container") then Some sandbox_json else None;
  Number_of _ := None
|}.
#[local] Instance tar : TarStream := {|
  tar_pack files := mjoin (snd <$> files);
  tar_extract bytes := Some [mkTarEntry (js "./") E_directory (Some 0) [];
                             mkTarEntry (js "./Solution.class") E_file (Some (size bytes)) bytes]
|}.

Definition image0 : jsstr := js "repo/python@sha256:" ++ replicate 64 97.
Definition world0 : World := mkWorld [] (mkManifest image0 image0 image0) true [] false.
Definition root0 : jsstr := js "/sys/fs/cgroup".
Definition proc0 : jsstr := js "/proc".

Definition execution0 : BackendExecution := mkBackendExecution job1 1 version1 python RUN (js "print('out')").
Definition request0 : SandboxRequest := sandbox_request execution0 plan0 (take 1 cases0).
Definition observed0 := supervise (H1 := host 0) root0 proc0 request0 world0.
Definition observation_of (r : result JudgeObservation) : JudgeObservation :=
  match r with Ok ob => ob | Err _ => mkObservation true None [] end.

Lemma exit_status0 h args o r :
  docker (DockerTransport := host_docker (Host := host 0)) h args o = Ok r → 0 ≤ cr_exitCode r ≤ 255.
Proof.
  cbn. unfold cli_command. destruct (_ && _); [done|]. destruct (cl_reason _); [done|].
  destruct (_ && _); [done|]. intros [= <-]. cbn. by case_bool_decide.
Defined.
Lemma clock_forward0 h k : now_at (Host := host 0) h ≤ now_at (Host := host 0) (h ++ k).
Proof. cbn. rewrite length_app. lia. Defined.

(** ** The runner *)

Lemma artifacts_confined_witness :
  normalizeJavaArtifacts [202; 254] = Ok [202; 254] ∧
  ∃ files, [202; 254] = tar_pack files ∧ js "Solution.class" ∈ fst <$> files
    ∧ ∀ f, f ∈ files → confined f.1 ∧ endsWith (js ".class") f.1 = true.
Proof.
  assert (normalizeJavaArtifacts [202; 254] = Ok [202; 254]) as E by (vm_compute; reflexivity).
  split; [exact E|].
  destruct (artifacts_confined [202; 254] [202; 254] E) as (files & H1 & _ & _ & _ & _ & H2 & H3).
  by exists files.
Defined.

Lemma regular0 : regular (H1 := host 0).
Proof. split; [exact exit_status0|exact clock_forward0]. Defined.
Lemma supervised_is_judged_witness :
  selectCases plan0 RUN = Ok (take 1 cases0) ∧
  (oc_stdout <$> ob_cases (observation_of (fst observed0))) = [js "out"] ∧
  Forall reported (ob_cases (observation_of (fst observed0))) ∧
  ∃ r, judge strip plan0 RUN python (observation_of (fst observed0)) = Ok r.
Proof.
  split; [reflexivity|]. split; [vm_compute; reflexivity|].
  assert (observed0 = (Ok (observation_of (fst observed0)), snd observed0)) as Hobs.
  { assert (fst observed0 = Ok (observation_of (fst observed0))) as E by (vm_compute; reflexivity).
    rewrite <- E. by destruct observed0. }
  assert (selectCases plan0 (be_mode execution0) = Ok (take 1 cases0)) as Hsel by reflexivity.
  destruct (supervised_is_judged (H1 := host 0) root0 proc0 strip execution0 plan0
    (take 1 cases0) world0 (observation_of (fst observed0)) (snd observed0) Hsel Hobs) as (Hyes & _ & Hreg).
  split; [exact (Hreg regular0)|exact (Hyes (Hreg regular0))].
Defined.

(** A host that cannot start containers: the client may retry, and nothing is left behind. *)
Definition unavailable := client_execute (H1 := host 1) root0 proc0 (mkServerState false 0 []) false true 100 request0 world0.
Lemma retry_is_clean_witness :
  fst unavailable = Err (RunnerExecutionError "EXECUTION_UNAVAILABLE") ∧
  length (w_history (snd unavailable)) = 7%nat ∧
  ∃ l, w_history (snd unavailable) = [] ++ l ∧ SupervisorFacts.settled l.
Proof.
  assert (fst unavailable = Err (RunnerExecutionError "EXECUTION_UNAVAILABLE")) as E by (vm_compute; reflexivity).
  split; [exact E|]. split; [vm_compute; reflexivity|].
  refine (proj2 (retry_is_clean (H1 := host 1) root0 proc0 (mkServerState false 0 []) false true 100 request0
    world0 "EXECUTION_UNAVAILABLE" (snd unavailable) _)).
  change (unavailable = (Err (RunnerExecutionError "EXECUTION_UNAVAILABLE"), snd unavailable)).
  rewrite <- E. by destruct unavailable.
Defined.

(** A host on which [docker inspect] hangs once the program has ended. *)
Definition ran (c : call) : bool :=
  match c with C_docker args _ => bool_decide (last args = Some (js "/work/solution.py")) | _ => false end.
#[local] Instance slow_host : Host := {|
  host_docker := DockerCli (λ _, false) (λ h args o,
    if existsb ran h && bool_decide (last args = Some (js "{{.State.Pid}}")) then mkChildRun [TimerFired] None
    else child 0 h args o);
  readFile_at _ := files_of; now_at h := Z.of_nat (length h); uuid_at _ := uid 9; aborted_at _ := false;
  JSON_parse s :=
    if bool_decide (s = js "container") then
      Some (match sandbox_json with
            | JObj o => JObj (o ++ [("OOMKilled", JBool false); ("Running", JBool true); ("Pid", JNum 100)]%string)
            | j => j
            end)
    else None;
  Number_of _ := None
|}.

(** The measurement timed out, the container is alive, and the learner is told that the program
    exceeded its time limit. *)
Example metric_timeout_blames_learner :
  (λ c, (oc_failure c, oc_stdout c)) <$>
    ob_cases (observation_of (fst (supervise (H1 := slow_host) root0 proc0 request0 world0)))
  = [(Some F_TIME_LIMIT, [])].
Proof. vm_compute. reflexivity. Qed.

(** ** The catalogue *)

Definition body0 : ProblemInput :=
  mkProblemInput (js " Two-Sums ") (js "Two sums") EASY [js "math"]
    (js "Add the numbers of the input.") [js "none"] 2000 65536 STDIN (mkTemplates [] [] [])
    [mkTestInput PUBLIC (js "in") [] (js "out"); mkTestInput HIDDEN (js "in2") [] (js "out2")] true.
Definition problem_input0 : ProblemInput := normalise body0.
Definition empty_catalogue : catalogue := mkCatalogue ∅ ∅ [] ∅ ∅ [].
Definition any_order (_ _ : jsstr) : bool := true.

(** Identifiers are UUIDs whatever their number: [zod36] asks for 36 code units. *)
Definition fresh_small (i : nat) : rowid := if (i <? 60)%nat then uid (Z.of_nat i) else uid 60.
Lemma fresh_small_uuid i : z_uuid (fresh_small i) = true.
Proof.
  unfold fresh_small. destruct (Nat.ltb_spec i 60) as [Hi|]; [|reflexivity].
  do 60 (destruct i as [|i]; [reflexivity|]). lia.
Defined.
Definition created_small := createProblem fresh_small user1 problem_input0 empty_catalogue.

Lemma created_eval {A} (r : result A * catalogue) a : fst r = Ok a → r = (Ok a, snd r).
Proof. destruct r. cbn. by intros ->. Defined.

Lemma published_problem_runs_witness :
  createProblemInput body0 = Ok problem_input0 ∧
  ∃ plan cases, loadJudgePlan any_order (snd created_small) (fresh_small 1) RUN = Ok plan ∧
    selectCases plan RUN = Ok cases ∧
    ∀ e, execution_ok e = true →
      sandboxRequest_parse (sandbox_request e plan cases) = Ok (sandbox_request e plan cases) ↔
      2000 ≤ 10000 ∧ 65536 mod 1024 = 0 ∧ 32768 ≤ 65536 ∧ problem_bytes RUN problem_input0 ≤ 1024 * 1024.
Proof.
  split; [reflexivity|].
  apply (published_problem_runs any_order fresh_small user1 body0 problem_input0 empty_catalogue
    (mkPublishedReply (fresh_small 0) (js "two-sums") (fresh_small 1) true) (snd created_small) RUN).
  - intros t Ht. by apply elem_of_nil in Ht.
  - apply fresh_small_uuid.
  - reflexivity.
  - reflexivity.
  - apply (created_eval created_small). vm_compute. reflexivity.
Defined.

(** The problem is unpublished, edited and deleted (which is refused): its plan stays. *)
Definition plan_small : result JudgePlan := loadJudgePlan any_order (snd created_small) (fresh_small 1) RUN.
Definition plan_value (r : result JudgePlan) : JudgePlan := match r with Ok p => p | Err _ => plan0 end.
Definition fresh_next (i : nat) : rowid := uid (20 + Z.of_nat i).
Definition later_ops : list admin_op :=
  [A_publication user1 (fresh_small 0) false (snd created_small);
   A_edit fresh_next user1 (fresh_small 0) problem_input0 (snd created_small);
   A_delete user1 (fresh_small 0) (snd created_small)].
Lemma published_plan_immutable_witness :
  plan_small = Ok (plan_value plan_small) ∧
  length (cat_tests (foldl admin_step (snd created_small) later_ops)) = 4%nat ∧
  loadJudgePlan any_order (foldl admin_step (snd created_small) later_ops) (fresh_small 1) RUN
    = Ok (plan_value plan_small).
Proof.
  assert (plan_small = Ok (plan_value plan_small)) as E by (vm_compute; reflexivity).
  split; [exact E|]. split; [vm_compute; reflexivity|].
  exact (published_plan_immutable any_order later_ops (snd created_small) (fresh_small 1) RUN _ E).
Defined.

(** ** The worker and the dispatcher *)

Lemma judged_result_fits_witness :
  judge strip plan0 RUN python obs_run = Ok run_result ∧
  byteLength (stringify (result_json run_result)) ≤ MAX_OUTPUT_BYTES ∧
  public_results_ok (row_in d4) (take 1 cases0) (jr_publicCaseResults run_result) = true.
Proof.
  split; [reflexivity|].
  destruct (judged_result_fits strip zod36_length strip_deletes plan0 RUN python obs_run run_result)
    as (_ & H1 & H2); [reflexivity| |].
  { repeat constructor; vm_compute; try done. }
  split; [exact H1|]. apply H2; vm_compute; reflexivity.
Defined.

(** A queue that ignores a job whose identifier it has seen. *)
Definition add_unique (q : list QueueJob) (j : QueueJob) : option (list QueueJob) :=
  Some (if decide (qj_id j ∈ qj_id <$> q) then q else q ++ [j]).
Lemma add_unique_accepts q j q' : add_unique q j = Some q' → ∃ j', j' ∈ q' ∧ qj_id j' = qj_id j.
Proof.
  intros [= <-]. destruct (decide _) as [(j' & E & Hj)%list_elem_of_fmap|].
  - by exists j'.
  - exists j. split; [|done]. apply elem_of_app. right. left.
Defined.
Lemma add_unique_keeps q j q' : add_unique q j = Some q' → q ⊆ q'.
Proof. intros [= <-]. destruct (decide _); [done|]. intros x Hx. apply elem_of_app. by left. Defined.

Definition at_dispatch (_ : okey) : DispatchClock := mkDispatchClock 100 100 100.
Definition dispatched := dispatcher_tick add_unique token2 50 (λ _, 50) (λ _, false) at_dispatch (mkBroker d1 []).
Lemma dispatch_at_least_once_witness :
  qj_executionId <$> br_jobs dispatched.2 = [job1] ∧
  (o_publishedAt <$> outbox (br_db dispatched.2)) = [Some 100] ∧
  ∀ o, o ∈ outbox (br_db dispatched.2) → o_publishedAt o ≠ None → announces o = true →
    (∃ o0, o0 ∈ outbox d1 ∧ o_key o0 = o_key o ∧ o_publishedAt o0 ≠ None) ∨
    (∃ j, j ∈ br_jobs dispatched.2 ∧ qj_id j = job_id o) ∨
    (∀ e, executions d1 !! o_executionId o = Some e → needs_job 100 o e = false).
Proof.
  split; [vm_compute; reflexivity|]. split; [vm_compute; reflexivity|].
  exact (proj2 (dispatch_at_least_once add_unique add_unique_accepts add_unique_keeps
    token2 50 (λ _, 50) (λ _, false) at_dispatch (mkBroker d1 []))).
Defined.

Definition job_clocks : JobClocks := mkJobClocks (at_ 1000) (at_ 3500) (at_ 3600).
Definition backend0 (_ : Lease) (_ : Execution) : io (db * unit) JudgedResult := mret run_result.
Lemma inv_d3 : inv d3. Proof. apply inv_run, inv_d2. Defined.
Lemma job_never_abandoned_witness :
  e_state (row_in d3) = RUNNING ∧
  ∃ s', run_claimed strip job_clocks backend0 lease1 (row_in d3) (d3, tt) = (Ok tt, s') ∧
    (job_over (at_ 3500) job1 s'.1 ∨ job_over (at_ 3600) job1 s'.1).
Proof.
  split; [vm_compute; reflexivity|].
  apply (job_never_abandoned strip zod36_length job_clocks backend0 lease1 (row_in d3) (d3, tt)
    (Ok run_result) (d3, tt) (row_in d3)).
  - reflexivity.
  - exact inv_d3.
  - apply seq_room_eval. vm_compute. reflexivity.
  - by vm_compute.
  - by vm_compute.
  - apply row_in_eq. vm_compute. reflexivity.
  - vm_compute. reflexivity.
  - vm_compute. reflexivity.
Defined.

(** ** Standings and guards *)

Definition rounds0 : list (list RoundProblem) := [[mkRoundProblem (uid 2) 100]; [mkRoundProblem (uid 2) 150]].
Definition alice : Registration :=
  mkRegistration (js "alice") (js "Alice") 0
    [mkAttempt (uid 2) (Some WRONG_ANSWER) 60000; mkAttempt (uid 2) (Some ACCEPTED) 180000].
Definition bob : Registration := mkRegistration (js "bob") (js "Bob") 0 [mkAttempt (uid 2) (Some ACCEPTED) 120000].
Definition by_length (x y : jsstr) : Z := Z.of_nat (length x) - Z.of_nat (length y).
Lemma standings_correct_witness :
  (λ e : Z * Entry, (e.1, en_username e.2, en_score e.2, en_penalty e.2))
    <$> buildLeaderboard by_length rounds0 0 [alice; bob] = [(1, js "bob", 150, 2); (2, js "alice", 150, 23)] ∧
  StronglySorted (λ a b, en_score b ≤ en_score a) (snd <$> buildLeaderboard by_length rounds0 0 [alice; bob]).
Proof.
  split; [vm_compute; reflexivity|].
  apply (standings_correct by_length rounds0 0 [alice; bob]); unfold by_length; intros; lia.
Defined.

(** A digest for the scenario: 64 hexadecimal digits that depend on the length of the text. *)
Definition sha_len (s : jsstr) : jsstr := replicate 62 48 ++ [48 + Z.of_nat (length s) / 10; 48 + Z.of_nat (length s) mod 10].
Definition hmac_reverse (k _ : jsstr) : jsstr := reverse k.
Definition secret : jsstr := replicate 42 65 ++ [66].
Definition secrets0 : SessionSecrets := newSessionSecrets sha_len hmac_reverse secret.
Definition sessions0 : list (SessionRow * UserRow) :=
  [(mkSessionRow (uid 1) user1 (sx_tokenHash secrets0) (sx_csrfTokenHash secrets0) 5000 None,
    mkUserRow (js "admin") R_ADMIN None None None None)].
Definition post0 : Request := mkRequest (Some secret) "DELETE" (Some (js "https://arena")) (Some (sx_csrfToken secrets0)).
Definition guarded0 : result Principal :=
  guarded sha_len hmac_reverse (js "https://arena") false [R_ADMIN] 1 1 1 sessions0 post0.
Definition principal0 : Principal :=
  mkPrincipal user1 (js "admin") R_ADMIN (uid 1) (sx_csrfTokenHash secrets0) (sx_csrfToken secrets0) None.

(** ** The runner's server and a call *)

Module Calls.
Import Service.

Definition attempt_id : jsstr := sr_executionId request0.
Definition submit_and_cancel : list ServiceEvent :=
  [Arrive 1 true E_execute true; Complete 1 (B_execute request0); Arrive 2 true E_execute true;
   Complete 2 (B_execute request0); Arrive 3 true E_cancel true].
Lemma requests_accounted_witness :
  cancels (attempt_id ++ js ":" ++ num (sr_attempt request0)) 3 (service_run idle submit_and_cancel)
    (service_step (service_run idle submit_and_cancel) (Complete 3 (B_cancel attempt_id (sr_attempt request0)))).
Proof.
  destruct (requests_accounted submit_and_cancel) as (_ & _ & _ & _ & Hc & _).
  apply (Hc 3%nat 0 false); vm_compute; reflexivity.
Defined.
(** The duplicate is refused, the cancellation reaches the execution, and when it has settled nothing is
    left. *)
Example cancelled_run :
  let s := service_run idle (submit_and_cancel ++ [Complete 3 (B_cancel attempt_id (sr_attempt request0));
             Settle 1 (Err (DockerError "ABORTED"))]) in
  (sv_admitted s, sv_replies s) =
  (0, [(1%nat, mkReply 200 (P_observation (mkObservation true None []))); (3%nat, mkReply 200 (P_requested true));
       (2%nat, mkReply 503 (P_error "DUPLICATE_ATTEMPT"))]).
Proof. vm_compute. reflexivity. Qed.

(** The bytes of a reply stand for its payload. *)
Definition payload0 (b : buffer) : option Payload :=
  match b with
  | [1] => Some (P_error "RUNNER_CAPACITY")
  | _ => None
  end.
Definition refused_call : list CallEvent := [Head 503; Data [1]; ResponseEnd; RequestClose].
Lemma call_accountable_witness :
  from_reply payload0 refused_call (Err (RunnerExecutionError "RUNNER_CAPACITY"))
  ∧ pursued (call_run payload0 call0 ([Head 200] ++ Abort 1000 :: [CancelReply 409 1200; CancelRetry; CancelReply 409 6100])).
Proof.
  destruct (call_accountable payload0 refused_call) as (H1 & H2 & _). split.
  - destruct (H1 (Err (RunnerExecutionError "RUNNER_CAPACITY")) []) as [_ [E|E]]; [vm_compute; reflexivity|discriminate E|exact E].
  - destruct (call_accountable payload0 [Head 200]) as (_ & _ & H3). apply H3. reflexivity.
Defined.
End Calls.
