(* ===== verification/SiteScenarios.v ===== *)
(** * A concrete site

    One published problem, two learners and a moderator: a thread, a reply, a like, a report and its
    review.  The theorems about the website's components are applied to it, with every hypothesis
    discharged by evaluation. *)

From S2P Require Import Prelude Paging JsText Contracts Judge JsString RuntimePolicy Database.
From S2P Require Import Executions Catalogue.
From S2P Require Import Publication Discussions Forum Threads Sessions Password Accounts.
From S2P Require Import SelfService AccountFacts Notifications Competitions Arena.
From S2P Require Import CompetitionViews.
From S2P Require Seed.
From S2P Require Import Profiles ProfileFacts.
Local Open Scope Z_scope.

(** ** Discussions *)

Definition sum_version : VersionRow :=
  mkVersionRow [2] [1] 1 (js "Sum") EASY [] (js "Add the numbers of the input.") [] 2000 65536 STDIN
    (mkTemplates [] [] []) "EXACT_NEWLINE" true.
Definition catalogue1 : catalogue :=
  mkCatalogue {[ [1] := mkProblemRow (js "sum") (Some [2]) ]} {[ [2] := sum_version ]} [] ∅ ∅ [].
Definition alice : rowid := [10].
Definition bob : rowid := [11].
Definition mod_ : rowid := [12].
Definition users1 : gmap rowid Author :=
  <[alice := mkAuthor (js "alice") (js "Alice")]> (<[bob := mkAuthor (js "bob") (js "Bob")]>
    {[ mod_ := mkAuthor (js "mod") (js "Mod") ]}).
Definition forum0 : forum := mkForum catalogue1 users1 ∅ ∅ ∅ ∅.

Lemma forum0_ok : forum_ok forum0.
Proof. split; cbn; intros; try (by rewrite lookup_empty in *); set_solver. Defined.

Definition question : CreateDiscussion := mkCreateDiscussion (js " Why sum? ") (js "How?").
Definition question' : CreateDiscussion := mkCreateDiscussion (js "Why sum?") (js "How?").
Definition thread_op : forum_op := F_create [20] 1000 1000 (js "sum") alice question' forum0.
Definition forum1 : forum := forum_step forum0 thread_op.
Definition reply_op : forum_op := F_reply [21] 2000 2000 [20] bob (js "Like so.") forum1.
Definition forum2 : forum := forum_step forum1 reply_op.
Definition like_op : forum_op := F_like [20] bob true forum2.
Definition forum3 : forum := forum_step forum2 like_op.
Definition report_op : forum_op := F_report [30] 3000 [20] bob (mkReportInput SPAM None) forum3.
Definition forum4 : forum := forum_step forum3 report_op.
Definition decision : ResolveInput := mkResolveInput RESOLVED (js "Hidden.") (Some HIDDEN_POST).
Definition resolve_op : forum_op := F_resolve 4000 4000 mod_ [[30]] decision.
Definition forum5 : forum := forum_step forum4 resolve_op.

Lemma run_forum5 : forum_run forum0 [forum5; forum4; forum3; forum2; forum1; forum0].
Proof.
  repeat first [apply run_start | apply run_step].
  all: try (by intros ? [= <-]; set_solver). all: try (by intros ? ? [=]).
  all: intros ? g [= <-]; rewrite ?elem_of_cons; intros Hg;
    repeat destruct Hg as [->|Hg]; try (by apply elem_of_nil in Hg); vm_compute; reflexivity.
Defined.

Lemma forum_run_safe_witness :
  forum_ok forum5 ∧ no_self_reports forum5 ∧ ∀ g, g ∈ [forum5; forum4; forum3; forum2; forum1; forum0] → remembers g forum5.
Proof.
  apply (forum_run_safe forum0 forum5 [forum4; forum3; forum2; forum1; forum0] forum0_ok).
  - intros k r p Hr. cbn in Hr. by rewrite lookup_empty in Hr.
  - apply run_forum5.
Defined.

Lemma threads_enumerated_witness :
  follow (λ c, list_ (js "sum") c forum4) 2 None = project forum4 <$> threads forum4 [1].
Proof.
  apply (threads_enumerated forum4 ltac:(do 4 apply step_ok; apply forum0_ok) (js "sum") [1] 2).
  - vm_compute; reflexivity.
  - vm_compute; lia.
Defined.

(** Three emoji are six UTF-16 units, long enough for the schema, and three characters, too short
    for the CHECK: the request is answered with a server error. *)
Definition emoji_title : CreateDiscussion :=
  mkCreateDiscussion [0xD83D; 0xDE00; 0xD83D; 0xDE00; 0xD83D; 0xDE00] (js "body").
Example emoji_title_rejected :
  createDiscussionSchema emoji_title = Ok emoji_title ∧
  Discussions.create [20] 1000 1000 (js "sum") alice emoji_title forum0 forum0 = (Err (DbError "23514"), forum0).
Proof. split; vm_compute; reflexivity. Qed.

(** ** Accounts *)

Definition sha1 (s : jsstr) : jsstr := s.
Definition hmac1 (k m : jsstr) : jsstr := m ++ k.
(** A key derivation that is no good for anything but examples. *)
Definition derive1 (p : jsstr) (salt : list Z) : list Z := (λ u, u mod 256) <$> take 32 (p ++ replicate 32 0).
Lemma derive1_bytes p salt : Forall byte (derive1 p salt).
Proof.
  unfold derive1. apply Forall_fmap, Forall_forall. intros u _. unfold byte. cbn.
  pose proof (Z.mod_pos_bound u 256). lia.
Defined.
Lemma derive1_length p salt : length (derive1 p salt) = KEY_LENGTH.
Proof. unfold derive1, KEY_LENGTH. rewrite length_fmap, length_take, length_app, length_replicate. lia. Defined.
Definition salt1 : list Z := replicate 16 7.
Lemma salt1_bytes : Forall byte salt1.
Proof. apply Forall_forall. intros u ->%elem_of_replicate_inv. unfold byte. lia. Defined.

Lemma password_roundtrip_witness :
  verifyPassword derive1 (js "correct horse battery") (Some (hashPassword derive1 salt1 (js "correct horse battery")))
  = true.
Proof.
  apply (password_roundtrip derive1 salt1 (js "correct horse battery") (js "wrong horse battery")).
  - apply salt1_bytes.
  - reflexivity.
  - apply derive1_bytes.
  - apply derive1_length.
Defined.

Definition config1 : AuthConfig := mkAuthConfig (Some (js "key")) true (js "https://arena") 3600 20 200.
Definition user_row (name : string) (role : Role) : User :=
  mkUser (js "arenacore:password") (js name) (mkUserRow (js name) role None None None None)
    (mkProfile (js name) None None None None) default_settings 0.
Definition token_a : jsstr := replicate 43 65.
Definition token_b : jsstr := replicate 43 66.
Definition session_b : SessionEntry := mkEntry (mkSessionRow [40] bob token_b [] 900000 None) 0.
Definition old_password : jsstr := js "correct horse battery".
Definition credential_b : Credential := mkCredential [50] bob (js "bob") (hashPassword derive1 salt1 old_password).
Definition attempt_b : AuthAttempt := mkAuthAttempt token_a (js "sealed") 5000.
Definition accounts0 : accounts :=
  mkAccounts (<[alice := user_row "alice" R_ADMIN]> {[ bob := user_row "bob" R_USER ]})
    {[ [40] := session_b ]} {[ [50] := credential_b ]} {[ js "state" := attempt_b ]} ∅ ∅ ∅ ∅ ∅ [].

Lemma accounts0_sessions k s : ac_sessions accounts0 !! k = Some s → k = [40] ∧ s = session_b.
Proof.
  intros H. change (({[ [40] := session_b ]} : gmap rowid SessionEntry) !! k = Some s) in H.
  by apply lookup_singleton_Some in H as [<- <-].
Defined.
Lemma accounts0_keyed : sessions_keyed accounts0.
Proof. intros k s [-> ->]%accounts0_sessions. reflexivity. Defined.

(** A run that succeeds, from its first component. *)
Lemma succeeded {A S} (r : result A * S) a : fst r = Ok a → r = (Ok a, snd r).
Proof. destruct r. cbn. by intros ->. Defined.

Definition no_url (_ : SocialProvider) (_ : jsstr) (_ : LoginProof) : result jsstr := Ok (js "https://provider").
Definition bob_identity (_ : SocialProvider) (_ : list (jsstr * jsstr)) (_ : jsstr) (_ : LoginProof) :
  result VerifiedIdentity := Ok (mkIdentity (js "arenacore:password") (js "bob") (js "Bob")).
Definition seal1 (_ _ : jsstr) (_ : LoginProof) : jsstr := js "sealed".
Definition open1 (_ _ _ : jsstr) : result LoginProof := Ok (mkLoginProof P_google token_a token_a None).

Lemma revoked_forever_witness :
  Sessions.resolve sha1 hmac1 100 100 (session_rows (snd (logout 500 bob [40] accounts0)))
    (mkRequest (Some token_b) "GET" None None) = None.
Proof.
  apply (revoked_forever sha1 hmac1 hmac1 derive1 config1 no_url bob_identity seal1 open1
    accounts0 (snd (logout 500 bob [40] accounts0)) [accounts0]
    (snd (logout 500 bob [40] accounts0)) [40] (revoke 500 session_b) token_b).
  - intros k k' s s' [-> _]%accounts0_sessions [-> _]%accounts0_sessions _. reflexivity.
  - apply (arun_step _ _ _ _ _ _ _ _ _ accounts0 accounts0 [] (O_logout 500 bob [40])); [constructor|done].
  - left.
  - vm_compute; reflexivity.
  - reflexivity.
  - reflexivity.
  - reflexivity.
Defined.

Definition clock1 (n : nat) : Z := 1000.
Definition draw1 : Draw := mkDraw [41] 1000 [13] (js "user_x") 1000.
Definition request1 : AuthRequest := mkAuthRequest None (Some token_a) None None (js "ip").
Definition signed_in := issueUser sha1 hmac1 config1 clock1 draw1 token_a request1 bob "AUTH_PASSWORD_LOGIN" accounts0.
Lemma sign_in_works_witness :
  ∃ proof identity userId user, bob_identity (lp_provider proof) [] (js "state") proof = Ok identity ∧
    ur_issuer user = vi_issuer identity ∧ ur_subject user = vi_subject identity ∧
    (∀ old, ac_users accounts0 !! userId = Some old → ur_row user = ur_row old) ∧
    welcomed sha1 hmac1 config1 clock1 draw1 token_a
      (snd (finish sha1 hmac1 config1 bob_identity open1 clock1 draw1 token_a request1 (js "state") [] accounts0 accounts0))
      token_a 3601000 userId user.
Proof.
  refine (proj2 (proj2 (sign_in_works sha1 hmac1 config1 bob_identity open1 hmac1 derive1 accounts0 accounts0_keyed))
    clock1 draw1 token_a request1 (js "state") [] accounts0 token_a 3601000 (js "/problems") _ _).
  apply succeeded. vm_compute. reflexivity.
Defined.

Lemma finish_single_use_witness :
  usable sha1 1000 request1 (js "state") accounts0 ∧
  finish sha1 hmac1 config1 bob_identity open1 clock1 draw1 token_a request1 (js "other") [] accounts0 accounts0
  = (Err invalid_login_state, accounts0).
Proof.
  split.
  - apply (proj1 (finish_single_use sha1 hmac1 config1 bob_identity open1 clock1 draw1 token_a request1 (js "state") []
      accounts0 accounts0) (token_a, 3601000, js "/problems")
      (snd (finish sha1 hmac1 config1 bob_identity open1 clock1 draw1 token_a request1 (js "state") []
         accounts0 accounts0))).
    apply succeeded. vm_compute. reflexivity.
  - apply (finish_single_use sha1 hmac1 config1 bob_identity open1 clock1 draw1 token_a request1 (js "other") []
      accounts0 accounts0); [|done].
    intros (b & t & _ & H & _). vm_compute in H. discriminate H.
Defined.

Definition new_password : jsstr := js "incorrect horse battery".
Definition changed := changePassword derive1 2000 salt1 bob [41] old_password new_password accounts0 (snd signed_in).
(** A change of role that read its target before another administrator promoted it, and commits after
    the acting administrator was demoted, leaves nobody in office. *)
Definition promoted := snd (setRole alice bob R_ADMIN accounts0 accounts0).
Definition demoted := snd (setRole bob alice R_USER promoted promoted).
Example stale_read_removes_last_admin :
  length (admins accounts0) = 1%nat ∧ length (admins promoted) = 2%nat ∧ length (admins demoted) = 1%nat ∧
  length (admins (snd (setRole alice bob R_MODERATOR accounts0 demoted))) = 0%nat.
Proof. vm_compute. auto. Qed.

(** The only administrator may deactivate the account: nobody is left who can act. *)
Example last_admin_may_leave :
  fst (deactivate derive1 100 100 (js "0123456789abcdef0123456789abcdef") alice None accounts0 accounts0) = Ok tt.
Proof. vm_compute. reflexivity. Qed.

(** ** Competitions *)

Definition competitors : gmap rowid Competitor :=
  <[alice := mkCompetitor (js "alice") (js "Alice") true]> {[ bob := mkCompetitor (js "bob") (js "Bob") true ]}.
Definition arena0 : arena := mkArena catalogue1 competitors ∅ [] ∅ ∅ [] [].
Lemma arena0_ok : arena_ok arena0.
Proof. split; cbn; intros; try (by rewrite lookup_empty in *); set_solver. Defined.

Definition sum_round : RoundInput := mkRoundInput (js "Round") 400000 500000 [js "sum"].
Definition cup : CompetitionInput :=
  mkCompetitionInput (js "cup") CONTEST (js "Cup") (js "A short contest.") (js "Be honest.") None 400000 600000 [sum_round].
Definition round_id (n : nat) : rowid := [60; Z.of_nat n].
Definition create_cup : arena_op := C_create [70] round_id 1000 1001 alice cup arena0.
Definition arena1 : arena := arena_step arena0 create_cup.
Definition longer_cup : CompetitionInput :=
  mkCompetitionInput (js "cup") CONTEST (js "Cup") (js "A short contest.") (js "Be honest.") None 400000 900000 [sum_round].
Definition extend_cup : arena_op := C_update (λ n, [61; Z.of_nat n]) 2000 2000 alice R_USER (js "cup") longer_cup arena1.

Lemma created_shown_witness :
  ∃ page, competition_detail (λ _, 2000) (js "cup") arena1 = Ok page ∧ pg_registrations page = 1%nat ∧
    sr_ordinal <$> pg_rounds page = [1].
Proof.
  destruct (created_shown [70] round_id 1000 1001 alice cup arena0 arena0 ([70], js "cup", CONTEST) arena1 (λ _, 2000)
    arena0_ok) as (page & H1 & _ & _ & _ & _ & _ & _ & _ & _ & _ & H2 & _ & _ & H3 & _).
  - intros k k' p p' Hk Hk' _.
    change (({[ [1] := mkProblemRow (js "sum") (Some [2]) ]} : gmap rowid ProblemRow) !! k = Some p) in Hk.
    change (({[ [1] := mkProblemRow (js "sum") (Some [2]) ]} : gmap rowid ProblemRow) !! k' = Some p') in Hk'.
    apply lookup_singleton_Some in Hk as [<- _], Hk' as [<- _]. reflexivity.
  - reflexivity.
  - apply succeeded. vm_compute. reflexivity.
  - exists page. split; [exact H1|split; [exact H2|exact H3]].
Defined.

Lemma schedules_hold_witness :
  ∃ c, ar_competitions (arena_run arena0 [create_cup; extend_cup]) !! [70] = Some c ∧ co_endsAt c = 900000 ∧
    co_startsAt c < co_endsAt c.
Proof.
  exists (mkCompetition [70] (js "cup") CONTEST (js "Cup") (js "A short contest.") (js "Be honest.") None 400000 900000 true
    (Some alice)).
  assert (H : ar_competitions (arena_run arena0 [create_cup; extend_cup]) !! [70] =
    Some (mkCompetition [70] (js "cup") CONTEST (js "Cup") (js "A short contest.") (js "Be honest.") None 400000 900000
      true (Some alice))) by (vm_compute; reflexivity).
  split; [exact H|]. split; [reflexivity|]. apply (schedules_hold arena0 [create_cup; extend_cup] [70] _ arena0_ok H).
Defined.

(** A round that lists a problem twice is refused as if the slug were taken. *)
Example repeated_problem_reported_as_slug_taken :
  fst (Competitions.create [70] round_id 1000 1001 alice
    (mkCompetitionInput (js "cup") CONTEST (js "Cup") (js "A short contest.") (js "Be honest.") None 400000 600000
       [mkRoundInput (js "Round") 400000 500000 [js "sum"; js "sum"]]) arena0 arena0)
  = Err (ApiError 409 "SLUG_TAKEN" None).
Proof. vm_compute. reflexivity. Qed.

(** ** The seed *)

Definition seed_at (now : Z) (a : arena) : result Seed.SeedResult * arena := transaction (Seed.seed (λ n, [80; Z.of_nat n]) now) a.
Definition unseeded : arena := mkArena (mkCatalogue ∅ ∅ [] ∅ ∅ []) competitors ∅ [] ∅ ∅ [] [].
Definition seeded0 : arena := (seed_at 0 unseeded).2.
Definition sprint_times (a : arena) : option (Z * Z) :=
  (λ c, (co_startsAt c, co_endsAt c)) <$> ar_competitions a !! Seed.contestId.
Definition DAYS (n : Z) : Z := n * 86400000.

(** Seeding again verifies; a sprint that is over moves on, one that somebody registered for stays. *)
Example reseeded :
  (seed_at 0 unseeded).1 = Ok Seed.created
  ∧ (seed_at 1 seeded0).1 = Ok Seed.verified
  ∧ sprint_times (seed_at (DAYS 1) seeded0).2 = Some (DAYS 7, DAYS 7 + 7200000)
  ∧ sprint_times (seed_at (DAYS 8) seeded0).2 = Some (DAYS 15, DAYS 15 + 7200000)
  ∧ sprint_times (seed_at (DAYS 8) (arena_step seeded0 (C_register [81] 5 5 bob (js "weekend-sprint")))).2
    = Some (DAYS 7, DAYS 7 + 7200000).
Proof. vm_compute. done. Qed.

(** An administrator who edits a sample competition gives its round a new id, and the seed, which refers to
    the round by the old one, fails from then on. *)
Definition edited_sprint : CompetitionInput :=
  mkCompetitionInput (js "weekend-sprint") CONTEST (js "Sprint") (js "A short contest.") (js "Be honest.") None
    (DAYS 7) (DAYS 8) [mkRoundInput (js "Round") (DAYS 7) (DAYS 8) [js "sum-two-numbers"]].
Example edited_sample_breaks_seed :
  let a := arena_step seeded0 (C_update (λ n, [82; Z.of_nat n]) 5 5 alice R_ADMIN (js "weekend-sprint") edited_sprint seeded0) in
  (co_title <$> ar_competitions a !! Seed.contestId) = Some (js "Sprint") ∧ (seed_at 10 a).1 = Err (DbError "P2003").
Proof. vm_compute. done. Qed.

(** Leaving the prize label out of an update keeps it. *)
Definition prized_cup : CompetitionInput :=
  mkCompetitionInput (js "cup") CONTEST (js "Cup") (js "A short contest.") (js "Be honest.") (Some (js "Gold")) 400000
    600000 [sum_round].
Example prize_label_stays :
  co_prizeLabel <$> ar_competitions (arena_run arena0
    [C_create [70] round_id 1000 1001 alice prized_cup arena0;
     C_update (λ n, [61; Z.of_nat n]) 2000 2000 alice R_USER (js "cup") longer_cup
       (arena_step arena0 (C_create [70] round_id 1000 1001 alice prized_cup arena0))]) !! [70]
  = Some (Some (js "Gold")).
Proof. vm_compute. reflexivity. Qed.

(** * Concrete profiles

    The accounts of [SiteScenarios.v] with a learner's submissions: the theorems about profiles are
    applied to them. *)


Definition submission_of (id : uuid) (at_ : Z) (verdict : Verdict) : Execution :=
  mkExecution (Database.mkRequest id bob [2] None python SUBMIT (js "print()") [] [] at_ (at_ + 1000)) FINISHED (Some verdict) 1 2
    None None (Some 20) (Some 1024) None (Some (at_ + 500)) None None.
(** Submissions on the days 100, 101 and 103. *)
Definition submissions0 : gmap uuid Execution :=
  <[ [91] := submission_of [91] (100 * DAY + 5) WRONG_ANSWER ]>
  (<[ [92] := submission_of [92] (101 * DAY + 5) ACCEPTED ]>
  {[ [93] := submission_of [93] (103 * DAY + 5) ACCEPTED ]}).
Definition profiles0 : profiles := mkProfiles accounts0 catalogue1 submissions0.
Definition noon : Z := 103 * DAY + 43200000.

Lemma streaks_correct_witness :
  streaks noon [(100, 1); (101, 1); (103, 1)] = (1, 2) ∧
  ∀ d n, run_of (worked [(100, 1); (101, 1); (103, 1)]) d n → n ≤ 2.
Proof.
  split; [vm_compute; reflexivity|].
  refine (proj1 (proj2 (streaks_correct noon [(100, 1); (101, 1); (103, 1)] _))).
  intros d (n & Hd & _). change (day_of noon) with 103.
  repeat (apply elem_of_cons in Hd as [[= -> _]|Hd]; [discriminate|]). by apply elem_of_nil in Hd.
Defined.

#[local] Instance uuid_before_total : Total uuid_before. Proof. intros a b. apply uuid_le_total. Defined.
#[local] Instance uuid_before_trans : Transitive uuid_before. Proof. intros a b c. apply uuid_le_trans. Defined.

Definition any_url (s : jsstr) : option jsstr := if startsWith (js "http") (toLowerCase s) then Some s else None.
Definition scheme (s : jsstr) : jsstr := if startsWith (js "https:") (toLowerCase s) then js "https:" else js "http:".
Definition new_name : UpdateProfile := mkUpdateProfile (Some (js " Bobby ")) None (Some (Some (js " Hello "))) None None None.
Definition new_name' : UpdateProfile := mkUpdateProfile (Some (js "bobby")) None (Some (Some (js "Hello"))) None None None.
Definition bob_row : User := user_row "bob" R_USER.

(** An avatar whose scheme is written in capitals passes the schema and violates the CHECK. *)
Definition loud_avatar : UpdateProfile :=
  mkUpdateProfile None None None None None (Some (Some (js "HTTPS://cdn.example/a.png"))).
Example avatar_rejected_by_database :
  updateProfileSchema any_url scheme loud_avatar = Ok loud_avatar ∧
  fst (update_profile noon noon bob loud_avatar profiles0) = Err (DbError "23514").
Proof. split; vm_compute; reflexivity. Qed.
