(* ===== verification/WebScenarios.v ===== *)
(** * A concrete configuration and browser

    A production environment, simple parsers for URLs and addresses, and a sign-in through a provider:
    the theorems about the configuration and the endpoints are applied to them. *)

From S2P Require Startup.
From S2P Require Import Prelude JsText Contracts Io JsString RuntimePolicy Catalogue Sessions.
From S2P Require Import Password JsNumber Json LoginProof Gateways.
From S2P Require Import Accounts SelfService AccountFacts Configured AuthController AuthRoutes.
From S2P Require Import SiteScenarios.
From S2P Require Config.
Local Open Scope Z_scope.

(** ** Parsers *)

Definition not_in (l : list Z) (u : Z) : bool := negb (existsb (Z.eqb u) l).
Definition url0 (s : jsstr) : option Config.Url :=
  let '(scheme, r) := span (not_in [58]) s in
  match r with
  | 58 :: 47 :: 47 :: ((_ :: _) as r) =>
      let '(authority, r) := span (not_in [47; 63; 35]) r in
      let '(path, r) := span (not_in [63; 35]) r in
      let '(search, hash) := span (not_in [35]) r in
      let '(user, host) := match split 64 authority with u :: h :: _ => (u, h) | [h] => ([], h) | [] => ([], []) end in
      Some (Config.mkUrl (scheme ++ js ":") user [] host [] path search hash ((scheme ++ js ":") ++ js "//" ++ host))
  | _ => None
  end.
Definition z_url0 (s : jsstr) : option jsstr := match url0 s with Some _ => Some s | None => None end.
Definition octet (s : jsstr) : bool := Config.nonempty s && forallb is_digit s && (digits_value s <=? 255).
Definition isIP0 (s : jsstr) : Z := if (length (split 46 s) =? 4)%nat && forallb octet (split 46 s) then 4 else 0.

Lemma url0_origin s u : url0 s = Some u → Config.is_https u = true →
  startsWith (js "https:") (Config.u_origin u) = true.
Proof.
  unfold url0. repeat (case_match; try done); intros [= <-] E%bool_decide_eq_true_1;
    apply startsWith_spec; eexists; cbn [Config.u_origin Config.u_protocol] in *; by rewrite E.
Defined.
Lemma z_url0_nonempty s t : z_url0 s = Some t → t ≠ [].
Proof. unfold z_url0. destruct (url0 s) eqn:E; [|done]. intros [= <-] ->. done. Defined.

(** ** An environment *)

Definition key_text (last : string) : jsstr := replicate 42 65 ++ js last ++ js "=".
Definition production_env (name : string) : option jsstr :=
  js <$>
  match name with
  | "NODE_ENV" => Some "production"
  | "PUBLIC_ORIGIN" => Some "https://arena.example"
  | "API_ORIGIN" => Some "https://api.arena.example"
  | "DATABASE_URL" => Some "postgresql://db/arena"
  | "REDIS_URL" => Some "rediss://cache/0"
  | "EXECUTIONS_ENABLED" | "PIPELINE_ENABLED" | "REALTIME_ENABLED" | "PASSWORD_AUTH_ENABLED" => Some "true"
  | "AUTH_TRANSACTION_KEY" | "EXECUTION_RATE_LIMIT_KEY" => Some "AAAAAAAAAAAAAAAAAAAAAAAAAAAAAAAAAAAAAAAAAAA="
  | "OIDC_ISSUER" => Some ""
  | "TRUST_PROXY_CIDRS" => Some "10.0.0.0/8, 192.0.2.7"
  | "MAX_ACTIVE_JOBS_PER_USER" => Some "2"
  | _ => None
  end%string.
Definition override (key value : string) (e : Config.env) : Config.env :=
  λ name, if String.eqb name key then Some (js value) else e name.
Definition parse1 : Config.env → option Config.Values := Config.parseConfig url0 z_url0 isIP0.
Definition v1 : Config.Values := default (Config.mkValues Config.Development [] 0 [] None [] false false false None [] false None None None None
  Config.ClientSecretBasic Config.RS256 false None false None None false None None 0 0 0 [] 0 0 0 0 0 None 0 0) (parse1 production_env).
Lemma v1_parsed : parse1 production_env = Some v1.
Proof. vm_compute. reflexivity. Defined.

(** What is refused: a key that is not the canonical encoding of its bytes, trusting every proxy, a plain
    HTTP origin in production, an origin with a path, and execution without its key. *)
Example refusals :
  (λ kv, match parse1 (override kv.1 kv.2 production_env) with None => true | Some _ => false end) <$>
    [("AUTH_TRANSACTION_KEY", "AAAAAAAAAAAAAAAAAAAAAAAAAAAAAAAAAAAAAAAAAAB="); ("TRUST_PROXY_CIDRS", "0.0.0.0/0");
     ("TRUST_PROXY_CIDRS", "loopback"); ("PUBLIC_ORIGIN", "http://arena.example");
     ("PUBLIC_ORIGIN", "https://arena.example/"); ("EXECUTION_RATE_LIMIT_KEY", ""); ("PORT", "3001.5");
     ("PORT", "0xBB9"); ("QUEUE_TTL_SECONDS", "")]%string
  = [true; true; true; true; true; true; true; false; true].
Proof. vm_compute. reflexivity. Qed.

(** The API accepts a Redis URL with a query, which its queue refuses when the application starts. *)
Example redis_query_accepted :
  match parse1 (override "REDIS_URL" "rediss://cache/0?family=6" production_env) with
  | Some v => Config.REDIS_URL v
  | None => None
  end = Some (js "rediss://cache/0?family=6")
  ∧ Config.redisOptions url0 Some (js "rediss://cache/0?family=6") = None
  ∧ Config.redisOptions url0 Some (js "rediss://cache/0")
    = Some (Config.mkRedisOptions (js "cache") (Some 6379) None None (Some 0) true).
Proof. vm_compute. done. Qed.

Lemma config_sound_witness :
  Config.typed v1 ∧ Config.secureCookies v1 = true ∧ key32 (Admission.EXECUTION_RATE_LIMIT_KEY (admission_config v1)).
Proof.
  destruct (config_sound url0 z_url0 isIP0 url0_origin z_url0_nonempty production_env v1 v1_parsed)
    as (Ht & _ & Hx & _ & Hp & _).
  split; [exact Ht|]. split; [apply Hp; reflexivity|apply Hx; reflexivity].
Defined.

(** ** Sealing a proof *)

(** A stand-in for the authenticated encryption: the plaintext in the clear under a checksum of everything
    that is authenticated. *)
Definition checksum (l : list Z) : list Z := (sumZ l mod 256) :: replicate 15 0.
#[local] Instance aead2 : Aead := {|
  gcm_seal k iv aad m := (checksum (k ++ iv ++ aad ++ m), m);
  gcm_open k iv aad tag c := if decide (tag = checksum (k ++ iv ++ aad ++ c)) then Some c else None
|}.
#[local] Instance aead2_laws : AeadLaws aead2.
Proof.
  split; cbn.
  - intros. by rewrite decide_True.
  - intros. split; [done|]. constructor; [unfold byte; apply Z.mod_pos_bound; lia|]. repeat constructor; unfold byte; lia.
  - done.
Defined.

(** ** A provider *)

Definition github_env : Config.env :=
  override "GITHUB_AUTH_ENABLED" "true" (override "GITHUB_CLIENT_ID" "arena" (override "GITHUB_CLIENT_SECRET" "secret" production_env)).
Definition v2 : Config.Values := default v1 (parse1 github_env).
(** GitHub's two answers, and a site where discovery finds nothing. *)
Definition github_answers (token profile : string) (r : HttpRequest) : HttpAnswer :=
  if decide (hq_url r = js "https://api.github.com/user") then Http true (text profile) else Http true (text token).
Definition answers2 : HttpRequest → HttpAnswer :=
  github_answers "{'access_token':'abc','token_type':'Bearer','scope':''}" "{'id':42,'login':'bob','name':null,'plan':{'space':1.5}}".
Definition metadata2 (_ : unit) : Metadata := mkMetadata None None None None None None.
Definition cache2 (_ : OidcProvider) : option unit := None.
Definition url2 (p : SocialProvider) (state : jsstr) (proof : LoginProof) : result jsstr :=
  (authorizationUrl v2 url0 sha1 metadata2 (λ _ _, []) sha1 (λ _, None) p state proof cache2).1.
Definition exchange2 (answers : HttpRequest → HttpAnswer) (p : SocialProvider) (params : list (jsstr * jsstr))
    (state : jsstr) (proof : LoginProof) : result VerifiedIdentity :=
  (exchange v2 url0 answers metadata2 (λ _ _ _ _, None) (λ _, None) p params state proof cache2).1.

(** ** Signing in through it *)

Definition serve2 answers := serve v2 sha1 hmac1 hmac1 derive1 (λ _, true) (λ _, true) url2 (exchange2 answers).
Definition draws2 : Draws :=
  mkDraws clock1 token_b token_a token_b token_a (replicate 12 7) token_b salt1 [50] draw1 (js "suffix").
Definition browser1 : WebRequest := mkWebRequest request1 "GET" None.
Definition begin_query : json := JObj [("provider", JStr (js "github")); ("returnTo", JStr (js "/contests/spring"))].
Definition callback_query : json := JObj [("state", JStr token_b); ("code", JStr (js "4/2&x"))].
Definition callback_params : CallbackParams := mkCallback token_b (Some (js "4/2&x")) None None None None None.
Definition fresh : accounts :=
  mkAccounts ({[ bob := user_row "bob" R_USER ]}) ∅ ∅ ∅ ∅ ∅ ∅ ∅ ∅ [].
Definition started := serve2 answers2 draws2 browser1 fresh (Login begin_query) fresh.
Definition begun : accounts := started.2.
Definition landed := serve2 answers2 draws2 browser1 begun (Callback (js "/api/v1/auth/callback") callback_query) begun.

Definition reply_of (r : result Reply) : Reply := match r with Ok p => p | Err _ => mkReply 0 [] None B_none end.
Lemma started_Ok : started = (Ok (reply_of started.1), started.2).
Proof. apply succeeded. vm_compute. reflexivity. Defined.
Lemma landed_Ok : landed = (Ok (reply_of landed.1), landed.2).
Proof. apply succeeded. vm_compute. reflexivity. Defined.

Example started_location :
  rp_location (reply_of started.1) = Some (js "https://github.com/login/oauth/authorize?client_id=arena&redirect_uri=https%3A%2F%2Fapi.arena.example%2Fapi%2Fv1%2Fauth%2Fcallback&state="
    ++ token_b ++ js "&code_challenge=" ++ sha1 token_b ++ js "&code_challenge_method=S256&allow_signup=true").
Proof. vm_compute. reflexivity. Qed.
Example landed_reply :
  landed.1 = Ok (mkReply 302
    [mkCookie (js "__Host-arenacore_session") token_b true true "lax" "/" 28800 (Some 28801000);
     mkCookie (js "__Host-arenacore_oidc") [] true true "lax" "/" 0 None]
    (Some (js "https://arena.example/contests/spring")) B_none).
Proof. vm_compute. reflexivity. Qed.
(** The identity that GitHub's answers make. *)
Example landed_user :
  (λ u, (ur_issuer u, ur_subject u, pf_displayName (ur_profile u))) <$> ac_users landed.2 !! dw_user draw1
  = Some (js "https://github.com", js "42", js "bob").
Proof. vm_compute. reflexivity. Qed.

Lemma cache2_ok : cache_ok v2 url0 metadata2 cache2.
Proof. by intros p cfg. Defined.
Lemma no_open_redirect_witness :
  provider_page v2 url0 metadata2 (λ _ _, []) (default [] (rp_location (reply_of started.1)))
  ∨ ∃ path, default [] (rp_location (reply_of started.1)) = site v2 path ∧ site_path path.
Proof.
  apply (no_open_redirect v2 url0 sha1 hmac1 hmac1 derive1 (λ _, true) (λ _, true) sha1 metadata2 (λ _ _, []) sha1
    (exchange2 answers2) (λ _, None) cache2 draws2 browser1 fresh (Login begin_query) fresh (reply_of started.1) started.2).
  - exact cache2_ok.
  - exact started_Ok.
  - vm_compute. reflexivity.
Defined.

Lemma drawn2 : drawn draws2.
Proof. split; [reflexivity..|]. split; [reflexivity|]. repeat constructor; unfold byte; lia. Defined.
Lemma sign_in_returns_witness :
  rp_cookies (reply_of started.1) = [cookie v2 (Config.loginCookieName v2) token_a LOGIN_TTL_SECONDS None]
  ∧ landed.1 = Ok (mkReply 302 [session_cookie v2 (token_b, 28801000); clear_login v2]
                     (Some (site v2 (js "/contests/spring"))) B_none).
Proof.
  destruct (sign_in_returns v2 sha1 hmac1 hmac1 derive1 (λ _, true) (λ _, true) url2 (exchange2 answers2)
    draws2 browser1 fresh begin_query P_github (js "/contests/spring") fresh (reply_of started.1) started.2
    drawn2 eq_refl eq_refl started_Ok) as [Hc Hr].
  split; [exact Hc|].
  specialize (Hr draws2 browser1 begun begun (js "/api/v1/auth/callback") callback_query callback_params
    ltac:(vm_compute; discriminate) eq_refl eq_refl eq_refl ltac:(reflexivity) eq_refl eq_refl).
  unfold landed, serve2. rewrite Hr. vm_compute. reflexivity.
Defined.

(** A provider's refusal ends on the sign-in page, and clears the pending sign-in's cookie; another state
    than the attempt's, or a token of another type, is a failed sign-in. *)
Example refused_sign_in :
  (serve2 answers2 draws2 browser1 begun
     (Callback [] (JObj [("state", JStr token_b); ("error", JStr (js "access_denied"))])) begun).1
  = Ok (mkReply 302 [mkCookie (js "__Host-arenacore_oidc") [] true true "lax" "/" 0 None]
          (Some (js "https://arena.example/sign-in?authError=provider")) B_none).
Proof. vm_compute. reflexivity. Qed.
Example wrong_token_type :
  (serve2 (github_answers "{'access_token':'abc','token_type':'mac'}" "{'id':42,'login':'bob'}") draws2 browser1 begun
     (Callback [] callback_query) begun).1 = Err login_failed.
Proof. vm_compute. reflexivity. Qed.
(** A proof sealed for one state does not open for another. *)
Example proof_is_bound :
  decryptProof (js "key") (js "other") (encryptProof (replicate 12 7) (js "key") (js "state") (proof_of draws2 P_github (js "/problems")))
  = Err (JsError "Unsupported state or unable to authenticate data").
Proof. vm_compute. reflexivity. Qed.

(** ** The worker process *)

Definition worker_env (redis : string) (name : string) : option jsstr :=
  js <$>
  match name with
  | "NODE_ENV" => Some "production"
  | "RUNNER_WORKER_ENABLED" => Some "true"
  | "RUNNER_SOCKET_PATH" => Some "/run/arenacore/runner.sock"
  | "DATABASE_URL" => Some "postgresql://db/arena"
  | "REDIS_URL" => Some redis
  | _ => None
  end%string.
(** [decodeURIComponent] as far as it refuses: a percent sign that two digits do not follow. *)
Definition decode0 (s : jsstr) : option jsstr :=
  match s with
  | [37; a; b] => if is_digit a && is_digit b then Some s else None
  | _ => if bool_decide (37 ∈ s) then None else Some s
  end.
Definition all_well : Startup.Outside :=
  Startup.mkOutside (Ok tt) (Ok (Some true)) (Some (20, Ok tt)) (Some (5, Ok 400)) (Some (30, Ok tt)).
Definition start_worker (redis : string) (out : Startup.Outside) (args : list jsstr) : Startup.Process * Z :=
  Startup.worker_process (Config.parseWorkerConfig url0 z_url0 (worker_env redis)) (Config.redisOptions url0 decode0) out args.

Example worker_processes :
  start_worker "rediss://cache/0" all_well []
    = (Startup.mkProcess Startup.READY true false true ["JUDGING_WORKER_STARTED"], 0)
  ∧ start_worker "rediss://cache/0" all_well [Startup.CHECK]
    = (Startup.mkProcess Startup.READY false false false ["WORKER_DEPENDENCY_CHECK_PASSED"], 0)
  ∧ start_worker "rediss://cache/0" (Startup.mkOutside (Ok tt) (Ok (Some true)) None (Some (5, Ok 400)) None) [Startup.CHECK]
    = (Startup.mkProcess Startup.REDIS_CONNECTION false false false ["JUDGING_WORKER_STARTUP_FAILED REDIS_CONNECTION"], 1).
Proof. vm_compute. done. Qed.

(** A user name that does not decode passes the worker's schema; the options are made before the check looks
    after its connections, so the database stays connected and is blamed. *)
Example undecodable_user :
  start_worker "redis://a%zz@cache/0" all_well [Startup.CHECK]
  = (Startup.mkProcess Startup.DATABASE_CONNECTION true false false ["JUDGING_WORKER_STARTUP_FAILED DATABASE_CONNECTION"], 1).
Proof. vm_compute. done. Qed.
