(* ===== verification/AdminScenarios.v ===== *)
(** * A concrete administration, and a request to the site

    The profiles of [SiteScenarios.v] seen by an administrator: the report of a week, its export and
    the lists; and a question asked with and without the proofs the guard wants. *)

From S2P Require Import Prelude Paging JsText Contracts Judge Database Executions JsString.
From S2P Require Import RuntimePolicy Catalogue Sessions Password Accounts Profiles SiteScenarios.
From S2P Require Import Io Discussions Forum Notifications Competitions CompetitionViews SiteRoutes.
From S2P Require Import SelfService Analytics Administration AdminRoutes Json ExecutionRoutes.
From S2P Require JobStore Invariant Scenarios.
Local Open Scope Z_scope.

#[local] Instance uuid_order_total : Total uuid_before. Proof. intros a b. apply uuid_le_total. Defined.

Definition week : Analytics := analytics uuid_before (at_once profiles0) noon 7.

Lemma submissions0_cases k e : pd_executions profiles0 !! k = Some e →
  e = submission_of k (100 * DAY + 5) WRONG_ANSWER ∧ k = [91]
  ∨ e = submission_of k (101 * DAY + 5) ACCEPTED ∧ k = [92]
  ∨ e = submission_of k (103 * DAY + 5) ACCEPTED ∧ k = [93].
Proof.
  intros H. change (submissions0 !! k = Some e) in H. unfold submissions0 in H.
  apply lookup_insert_Some in H as [[<- <-]|[_ H]]; [by left|].
  apply lookup_insert_Some in H as [[<- <-]|[_ H]]; [by right; left|].
  apply lookup_singleton_Some in H as [<- <-]. by right; right.
Defined.

Example week_report :
  (an_submissions week, an_accepted week, an_activeUsers week, an_successRate week) = (3%nat, 2%nat, 1%nat, 667)
  ∧ dy_submissions <$> an_daily week = [0; 0; 0; 1; 1; 0; 1]%nat
  ∧ pr_slug <$> an_topProblems week = [js "sum"].
Proof. vm_compute. done. Qed.

Lemma analytics_consistent_witness :
  sum_list (dy_submissions <$> an_daily week) = an_submissions week ∧ an_submissions week = 3%nat.
Proof.
  split; [|vm_compute; reflexivity].
  destruct (analytics_consistent uuid_before uuid_order_total (at_once profiles0) noon 7) as (_ & _ & _ & _ & _ & Hsum).
  apply (Hsum profiles0); [reflexivity|].
  intros k e H. destruct (submissions0_cases k e H) as [[-> _]|[[-> _]|[-> _]]]; vm_compute; discriminate.
Defined.

(** Submissions that arrive while the report is made: the totals count none yet, the accepted ones and the
    days do.  The rate has no bound then, and the days do not sum to the total. *)
Definition profiles_before : profiles := mkProfiles (pd_accounts profiles0) (pd_catalogue profiles0)
  (filter (λ kv, accepted kv.2 = false) (pd_executions profiles0)).
Definition torn_week : Analytics :=
  analytics uuid_before (mkReads profiles0 profiles_before profiles0 profiles0 profiles0 profiles0) noon 7.
Example torn_report :
  (an_submissions torn_week, an_accepted torn_week, an_successRate torn_week) = (1%nat, 2%nat, 2000)
  ∧ sum_list (dy_submissions <$> an_daily torn_week) = 3%nat.
Proof. vm_compute. done. Qed.

(** A cell with a quote, a comma and a line break. *)
Definition anyone : UserQuery := mkUserQuery None None None (Some F_ACTIVE).

(** ** A question asked on the site *)

(** 64 hexadecimal digits that depend on the length and the last unit of the text. *)
Definition sha_end (s : jsstr) : jsstr := replicate 62 48 ++ [48 + Z.of_nat (length s) / 10; 48 + default 0 (last s) mod 10].
Definition csrf_b : jsstr := replicate 42 66 ++ [67].
Definition open_session : SessionEntry :=
  mkEntry (mkSessionRow [42] bob (sha_end token_b) (sha_end csrf_b) 900000 None) 0.
Definition accounts1 : accounts :=
  mkAccounts {[ bob := user_row "bob" R_USER ]} {[ [42] := open_session ]} ∅ ∅ ∅ ∅ ∅ ∅ ∅ [].
Definition site0 : site := mkSite forum0 arena0 (mkProfiles accounts1 catalogue1 ∅).
Definition draws0 : SiteDraws := mkSiteDraws [20] (λ n, [Z.of_nat n]) (λ n, 1000).
Definition ask_sum : SiteRoute := StartDiscussion (js "sum") question.
Definition serve0 (req : SiteRequest) : io site Answer :=
  serve_site sha_end hmac1 (js "https://arena") (λ _, true) Some (λ s, s) (λ _ _, true) (λ _ _, 0) (λ _ _, true)
    uuid_before draws0 req site0 ask_sum.
Definition own_request : SiteRequest := mkSiteRequest (Some token_b) (Some (js "https://arena")) (Some csrf_b).
(** Without the token, or from elsewhere, the question is refused. *)
Example refused_questions :
  (λ req, ((serve0 req site0).1, bool_decide (fo_posts (si_forum (serve0 req site0).2) = ∅)))
    <$> [mkSiteRequest (Some token_b) (Some (js "https://arena")) None;
         mkSiteRequest (Some token_b) (Some (js "https://evil")) (Some csrf_b);
         mkSiteRequest None (Some (js "https://arena")) (Some csrf_b)]
  = [(Err (ApiError 403 "INVALID_CSRF_TOKEN" None), true); (Err (ApiError 403 "INVALID_ORIGIN" None), true);
     (Err (ApiError 401 "AUTHENTICATION_REQUIRED" None), true)].
Proof. vm_compute. reflexivity. Qed.

Lemma site_writes_guarded_witness :
  sr_origin own_request = Some (js "https://arena") ∧ size (fo_posts (si_forum (serve0 own_request site0).2)) = 1%nat.
Proof.
  assert (Hsize : size (fo_posts (si_forum (serve0 own_request site0).2)) = 1%nat) by (vm_compute; reflexivity).
  split; [|exact Hsize].
  destruct (site_writes_guarded sha_end hmac1 (js "https://arena") (λ _, true) Some (λ s, s) (λ _ _, true) (λ _ _, 0)
    (λ _ _, true) uuid_before draws0 own_request site0 ask_sum site0
    (serve0 own_request site0).1 (serve0 own_request site0).2) as [E|(e & u & _ & _ & _ & Ho & _)].
  - fold (serve0 own_request). by destruct (serve0 own_request site0).
  - rewrite E in Hsize. discriminate Hsize.
  - exact Ho.
Defined.

(** ** An administrator at work *)

Definition site1 : site :=
  mkSite forum0 arena0
    (mkProfiles (mkAccounts (<[alice := user_row "alice" R_ADMIN]> {[ bob := user_row "bob" R_USER ]})
       {[ [42] := mkEntry (mkSessionRow [42] alice (sha_end token_b) (sha_end csrf_b) 900000 None) 0 ]} ∅ ∅ ∅ ∅ ∅ ∅ ∅ [])
       catalogue1 ∅).
Definition administer (s : site) (r : AdminAction) : result AdminAnswer * site :=
  serve_admin sha_end hmac1 (js "https://arena") (λ _, true) (λ _ _, true) (λ _, 0) uuid_before draws0 own_request s r s.
Definition promote_bob : AdminAction := SetRole bob R_MODERATOR.

Lemma administration_guarded_witness :
  (administer site1 promote_bob).1 = Ok (N_role R_MODERATOR)
  ∧ ∃ u, us_role u ∈ [R_ADMIN] ∧ restriction_of 1000 u = None.
Proof.
  assert (Hok : (administer site1 promote_bob).1 = Ok (N_role R_MODERATOR)) by (vm_compute; reflexivity).
  split; [exact Hok|].
  destruct (administration_guarded sha_end hmac1 (js "https://arena") (λ _, true) (λ _ _, true) (λ _, 0) uuid_before
    draws0 own_request site1 promote_bob site1 (administer site1 promote_bob).1 (administer site1 promote_bob).2)
    as [[_ [e E]]|(e & u & _ & Hu & Hr & _)].
  - unfold administer. by destruct (serve_admin _ _ _ _ _ _ _ _ _ _ _ _).
  - rewrite Hok in E. discriminate E.
  - exists u. split; [exact Hu|exact Hr].
Defined.

(** A learner's session neither reads the analytics or the reports nor publishes. *)
Example learner_refused :
  (λ r, (administer site0 r).1) <$> [GetAnalytics None; SetProblemPublication [10] false; ListReports None None]
  = replicate 3 (Err (ApiError 403 "PERMISSION_DENIED" None)).
Proof. vm_compute. reflexivity. Qed.

(** ** A learner's executions *)

(** The pipeline of [Scenarios.v] while its job runs, its user signed in. *)
Definition judging0 : judging :=
  mkJudging
    (mkAccounts {[ Scenarios.user1 := user_row "alice" R_USER; bob := user_row "bob" R_USER ]}
       {[ [42] := mkEntry (mkSessionRow [42] Scenarios.user1 (sha_end token_b) (sha_end csrf_b) 900000 None) 0 ]}
       ∅ ∅ ∅ ∅ ∅ ∅ ∅ [])
    Scenarios.d4.
Definition xdraws0 : ExecutionDraws :=
  mkExecutionDraws (Scenarios.uid 9) (λ n, 1000) (mkCreateClock 5000 5000 5000 5000 (Scenarios.at_ 5000)) (Scenarios.at_ 5000).
Definition execution_request (csrf : option jsstr) : ExecutionRequest :=
  mkExecutionRequest (Some token_b) (Some (js "https://arena")) csrf (js "ip").
Definition ask_execution (csrf : option jsstr) (r : ExecutionRoute) : result ExecutionAnswer * judging :=
  serve_execution (H := Scenarios.zod36) sha_end hmac1 (js "https://arena") Scenarios.cfg0 xdraws0 (execution_request csrf) r judging0.

Example cancelled_over_http :
  (ask_execution (Some csrf_b) (CancelExecution Scenarios.job1)).1 = Ok (X_receipt (JobStore.mkReceipt Scenarios.job1 RUNNING (Some true)))
  ∧ (ask_execution None (CancelExecution Scenarios.job1)).1 = Err (ApiError 403 "INVALID_CSRF_TOKEN" None)
  ∧ (ask_execution (Some csrf_b) (ShowExecution (Scenarios.uid 8))).1 = Err (ApiError 404 "NOT_FOUND" None)
  ∧ (ask_execution (Some csrf_b) (ShowExecution (js "8"))).1 = Err (ApiError 400 "INVALID_REQUEST" None).
Proof. vm_compute. done. Qed.

Lemma executions_private_witness :
  is_Some (executions (jd_db judging0) !! Scenarios.job1)
  ∧ ∃ me a, (ask_execution None (ShowExecution Scenarios.job1)).1 = Ok a
      ∧ tells_own me (jd_db (ask_execution None (ShowExecution Scenarios.job1)).2) a.
Proof.
  assert (Hok : bool_decide (is_Some (match (ask_execution None (ShowExecution Scenarios.job1)).1 with Ok a => Some a | Err _ => None end)) = true)
    by (vm_compute; reflexivity).
  split; [apply (bool_decide_unpack _); vm_compute; exact I|].
  destruct (executions_private (H := Scenarios.zod36) sha_end hmac1 (js "https://arena") Scenarios.cfg0 xdraws0
    (execution_request None) (ShowExecution Scenarios.job1) judging0
    (ask_execution None (ShowExecution Scenarios.job1)).1 (ask_execution None (ShowExecution Scenarios.job1)).2)
    as [[_ [e E]]|(e & u & _ & _ & _ & _ & Ht & _)].
  - apply (Invariant.inv_rows (H := Scenarios.zod36)), Scenarios.inv_d4.
  - unfold ask_execution. by destruct (serve_execution _ _ _ _ _ _ _ _).
  - rewrite E in Hok. vm_compute in Hok. discriminate Hok.
  - destruct (ask_execution None (ShowExecution Scenarios.job1)).1 as [a|]; [|vm_compute in Hok; discriminate Hok].
    exists (se_userId e), a. split; [done|]. by apply Ht.
Defined.
